(* ===== verification/_CoqProject ===== *)
-Q . S2P
Prelude.v
Constants.v
Time.v
Errors.v
Text.v
Json.v
Codec.v
Frame.v
SyncSource.v
Crypto.v
Rtp.v
Rtcp.v
Stream.v
StreamFacts.v
StreamSteps.v
StreamProps.v
EventLoop.v
EventLoopFacts.v
EventLoopProps.v
Pacing.v
Delivery.v
Feedback.v
LoopStreams.v
UdpTransport.v
Offer.v
Session.v
NegotiationProps.v
SessionStreams.v
RedScreen.v
RedScreenProps.v
CastProto.v
Protobuf.v
CastFraming.v
DeviceInfo.v
Auth.v
AuthProps.v
Order.v
Net.v
Control.v
ControlFacts.v
ControlProps.v
ControlApi.v
OfferExchange.v
RedScreenSetup.v
Tls.v
AndroidFraming.v
FramedStream.v
AndroidTypes.v
AndroidIdentity.v
AndroidIdentityProps.v
AndroidPairing.v
AndroidPairingProps.v
AndroidRemote.v
AndroidRemoteProps.v
AndroidHandle.v
TvConsole.v
Setup.v
SetupProps.v
Connect.v
Discovery.v
DiscoveryProps.v
