(* ===== verification/Prelude.v ===== *)
(** * A verification library for chromiacast

    chromiacast (Rust, under [src/src]) streams encoded audio and video to a
    Google Cast receiver.  A sender negotiates an OFFER and an ANSWER over a
    control channel, then a single event loop per session encrypts frames,
    cuts them into RTP packets, paces them onto UDP, and reacts to the RTCP
    feedback the receiver sends back.  Around it the crate discovers receivers
    over mDNS, authenticates them, queries their setup endpoint, and pairs with
    and controls Android TV devices.  This library models that program as
    executable Rocq definitions and proves what makes it correct.

    ** Parts, files and how they interact

    - [Prelude]: results with panics ([Ok]/[Err]/[Panic]), machine-width
      integers on [Z], bytes, record update, automation and shared lemmas.
    - [Constants], [Time], [Errors], [Text], [Json]: [constants.rs]; durations,
      clocks and [ntp.rs]; [error.rs]; decimal text; JSON values.
    - [Codec]: [codec.rs].  [Frame]: [frame.rs].  [SyncSource]:
      [sync_source.rs].  [Crypto]: [crypto.rs].
    - [Rtp]: [rtp.rs], the packetizer and packet classification, with [view], a
      reference receiver that reads a packet back.
    - [Rtcp]: [rtcp.rs], the compound-packet parser and the Sender Report
      builder, with a reference encoder of what receivers send.
    - [Stream]: [sender/stream.rs] and [sender/stats.rs], the record
      [StreamState] with the source's fields and one definition per method.
      [StreamFacts] has its invariant and the acknowledgement lemmas,
      [StreamSteps] the step relation, reachability and the abstract [Window],
      [StreamProps] the theorems.
    - [EventLoop]: [sender/event_loop.rs], the locals of [run] as [LoopState],
      one handler per arm of the [select!], [process_feedback], the burst
      budget, the acknowledgement watchdog and the bounded event channel.
      [EventLoopFacts] has the invariants of every arm, [EventLoopProps] the
      theorems about single inputs.  Three files follow the loop over whole
      runs, with stream, packetizer and parser composed: [Pacing] (bytes against
      time), [Delivery] (from a frame to its packets on the wire) and [Feedback]
      (from a datagram to the window).  [LoopStreams] shows that every arm moves
      a stream by the stream's own operations and that only an enqueue command
      assigns ids.  [UdpTransport]: [transport.rs] and the
      receive arm's buffer, with a proof that the loop sees its world through
      the transport only.
    - [Offer]: [offer.rs].  [Session]: [answer.rs] and [sender/mod.rs].
      [NegotiationProps] proves the builder, the JSON form, ANSWER validation
      and session start, and composes them with the event loop;
      [SessionStreams] carries the abstract window through a whole session.
    - [CastProto]: [control/proto.rs], the CastMessage protobuf codec.
      [Protobuf]: the slice varint routines of [auth.rs] and
      [remote_session.rs].  [CastFraming]: [control/framing.rs], the resumable
      framed reader.
    - [Auth]: [control/auth.rs], the challenge, the certificate chain, signature
      and revocation checks; [AuthProps] has the theorems.  [Tls]: [tls.rs] and
      what the crate uses of rustls.  [Order], [Net]: Rust's comparators,
      sorting and deduplication; socket addresses and their text.
    - [Control]: [control/mod.rs], the task behind a control connection: the
      locals of [control_loop] as [ControlState], one handler per arm of its
      [select!], the dispatch of messages to pending requests, heartbeat and
      teardown.  [ControlFacts] shows that every handler accounts for the
      one-shot senders it owns; [ControlProps] has the theorems.
    - [ControlApi]: the methods of [CastConnection], as programs over the
      commands they send; [OfferExchange] runs one of them against the task.
      [DeviceInfo]: [control/device_info.rs].
      [Connect]: [CastConnection::connect], from the TCP connection to the
      CONNECT message, as a state monad over the open channel.
    - [Setup]: [setup.rs], the HTTPS query with its bounded reader and chunked
      decoder; [SetupProps].  [Discovery]: [discovery.rs], the loop over mDNS
      events and the routes of a device; [DiscoveryProps].
    - Android TV: [AndroidFraming] is [android_tv/framing.rs], and [FramedStream]
      the interface both framings implement; [AndroidTypes] the messages, errors
      and client types ([proto.rs], [error.rs], [remote_types.rs]);
      [AndroidIdentity] the credential ([identity.rs]), with
      [AndroidIdentityProps]; [AndroidPairing] the
      connection and the pairing exchange ([connection.rs], [pairing.rs]), with
      [AndroidPairingProps]; [AndroidRemote] the handshake, the task and the
      handle ([remote_session.rs], [remote.rs]), with [AndroidRemoteProps] and,
      for the handle's methods and the task together, [AndroidHandle].
    - Programs: [RedScreen] is [src/examples/red_screen.rs], the locals of its
      [main] as [App] and one definition per stretch of code between two
      [await]s, run on the session and event loop above; [RedScreenSetup] the
      requests that lead to its session; [RedScreenProps] its theorems.
      [TvConsole] is [src/examples/android_tv_control.rs], run on the task of the
      Android TV remote.

    A stream is created by [Session.start_address] from an [Offer] and an
    [Answer], owned by the event loop, and fed by [EventLoop.on_enqueue] and
    [EventLoop.process_feedback]; the loop takes packets from it with
    [next_packet] and sends them through the class [Transport].  The OFFER and
    the ANSWER travel over the control connection: [ControlApi.exchange_offer]
    sends [Control.SendOffer], the task writes it with [FramedWriter], and the
    ANSWER that [FramedReader] delivers is matched to the request that waits.
    [Connect.connect_address_inner] opens the channel this task runs on: it
    writes [Auth.create_challenge], reads one message and hands it to
    [Auth.verify_challenge_reply] before anything else is said.  A pairing or
    remote session runs [AndroidPairing.read_frame_timed] and
    [write_message_timed] on a [Link]: a reader, a writer and a log of what was
    heard, written in full, or cut off in a write that failed.  Times read while a
    reply is verified are a list of clock readings along the run ([AuthProps.took]).

    ** Conventions

    Integers are [Z] at the width of the Rust type, with wrapping and
    saturation written out; frame ids are [i64] and exact, since 2^63 frames
    are never sent (the hypotheses [next_frame_id s + 1 < 2 ^ 63] say so).
    [usize] is 64 bits wide.  A [&mut self] method returns the new state.
    Panics (an index out of range, a division by zero) are the value [Panic],
    and so is running out of fuel: the theorems show that neither happens.
    Loops over ranges and lists are structural; the others carry fuel: the RTCP
    and protobuf loops the length of their input (each round consumes at least
    one byte), the varint loops ten rounds (the bits of a [u64]), the flush
    loop one more round than packets queued, the framing loops the bytes still
    missing, the search for a free request id two more rounds than requests
    pending, the HTTP reader one round per byte of its size limit and two more
    (each round reads a byte or ends), the chunk loops one more round than
    bytes, the wait for a handshake message the 32 rounds of the source.  The
    discovery and task loops run over the list of what they receive.
    Floating-point numbers are the Standard Library's [spec_float].

    Code outside the repository is a class parameter with its documented
    behaviour as laws: [StreamCipher] (AES-128-CTR), [Rng] (the random
    generator), [Transport] (sockets and clocks; [TransportLog], [ClockLaws],
    [SendClock] and [ReliableTransport] are what a theorem may ask of one),
    [UdpSocket] and [Clocks] (tokio, std), [AsyncRead] and
    [ControlWriter] (the TLS stream), [JsonText], [AnswerJson] and [SetupJson]
    (serde_json), [HttpParse] (httparse), [X509Library], [Webpki], [Ring] and
    [TrustRoots] (certificates, paths, digests, signatures and the built-in
    roots), [RustlsProvider], [Dialer] and [TvDialer] (rustls and tokio), [Prost]
    (derived message codecs), [RsaCertificates], [RsaKeys] and
    [CertificateIssuer] (x509-parser, rsa, rcgen, time), [H264Encoder] with
    [H264EncoderLaws] (openh264, for the red-screen program).  Where no law is stated the
    theorems hold for any behaviour of that code.
    The iteration order of a [HashMap] is the class [HashOrder]: any order.
    Each class with laws that a theorem relies on has a concrete instance, used
    by the witnesses.

    ** What the theorems show

    - Whole sender: a session that starts handles every input in every
      reachable state without a panic and announces why it fails
      ([sender_session_safe], [event_loop_safe]); start-up uses exactly the
      negotiated parameters ([start_address_spec], [build_spec],
      [serialize_stream_faithful], [validate_spec], [playout_delay_exact]).
    - Streams: reachable states conserve frames and refine a sliding window
      ([stream_conservation], [stream_refines_window]); accepted frames reach a
      receiver intact ([enqueue_frame_delivers], [enqueue_frame_spec]);
      acknowledgements and NACKs do what they say and no acknowledged frame is
      ever sent again ([acknowledge_up_to_spec], [acknowledge_bitvector_spec],
      [handle_nack_spec], [next_packet_in_flight], [acknowledged_once],
      [acknowledge_all_reopens]); timestamp, round-trip and budget arithmetic
      ([media_to_rtp_timestamp_spec], [round_trip_time],
      [max_acceptable_in_flight_duration_spec], [ntp_roundtrip]).
    - Whole runs: an accepted frame is on the wire, packet by packet and in
      order, after finitely many burst ticks, and a receiver that puts it
      together and decrypts it has the frame ([frame_reaches_receiver]); a
      feedback datagram releases and announces exactly the frames it names, in
      order, and touches nothing else ([feedback_closes_loop]); what a stretch
      of a run sends is bounded by its time and its flushes, and not by its time
      alone ([pacing_bound]); over a UDP socket the loop does what it does on
      the datagrams themselves ([udp_loop_refines]); the streams of a session
      keep what was negotiated and refine the abstract window for the session's
      whole life ([session_streams_refine]).
    - Event loop: pacing and order of sending ([flush_queued_packets_spec]),
      authentication of feedback ([process_feedback_unaddressed]), time-outs
      ([timeout_tick_spec]), the statistics debounce ([statistics_debounce]),
      playout-delay changes ([set_target_playout_delay_spec]).
    - Wire formats: RTCP parsing is total and inverse to a reference encoder
      ([parse_compound_safe], [parse_compound_roundtrip]); packetisation is
      total and lossless ([packetize_view], [packetize_reassemble]); frame ids
      and nonces ([frame_id_wire_roundtrip], [nonce_unique]); the control
      channel's codec and framing ([decode_total], [decode_fields_spec],
      [message_roundtrip], [read_message_cancel_safe]); both framings are
      first-in first-out queues of messages however the stream is cut and reads
      are interrupted ([framed_streams_fifo]); frame rates
      ([framerate_roundtrip]).

    - Control connection: every request handed to the control task is answered
      exactly once, and only by the message meant for it
      ([control_answers_once], [response_correlated], [allocate_id_spec]), an
      OFFER goes out under a fresh number and its ANSWER comes back to its caller
      whatever the task does meanwhile ([offer_exchange]); the
      heartbeat watchdog is exact and closing tears every application down
      ([heartbeat_watchdog], [close_tears_down]); the public methods send only
      well-formed commands and never panic, and a launched application is one
      the receiver reported ([client_commands_ok], [launch_spec]); accepted
      device information is clean ([parse_device_info_spec]).
    - Connecting: a connection exists only after the receiver proved its
      identity for this TLS session, and CONNECT is sent only then
      ([connect_authenticated]); an accepted reply satisfies every condition of
      the authentication scheme, the times among them against the clock as the
      run read it ([authentication_sound]); revocation is exact
      ([check_chain_at_spec]); the wire readers are total and agree with the
      codec ([parse_fields_spec], [varint_forms_agree],
      [create_challenge_wellformed]).
    - Setup endpoint: reading ends within its limit ([read_http_response_bounded]),
      the reader's idea of a complete chunked body is the decoder's
      ([chunked_extent_decodes], [chunked_body_roundtrip]), and what a query
      returns is clean ([query_device_info_clean]).
    - Discovery: devices and routes are well-formed, unique and ordered, none is
      made up or lost, whatever the hash table's order, and only a deadline that
      cannot be represented panics ([discover_wellformed],
      [discover_deterministic]);
      merging and deduplication ([merge_device_spec],
      [sort_and_deduplicate_spec]) and the case deduplication misses
      ([port_change_duplicates]).
    - Android TV: cancel-safe framing ([read_frame_cancel_safe]); the pairing
      secret, and the exchange as a script in which each message waits for the
      device's agreement to the one before ([compute_pairing_secret_spec],
      [pairing_session_spec]); credentials, imported, generated and stored
      ([from_der_sound], [credentials_do_not_mix], [generate_spec]); the
      handshake of a remote session, read off the log of what passed, and what
      its task owes every input ([session_start_spec], [remote_task_spec],
      [top_level_field_numbers_spec]); a key reported as sent was written in full,
      in order, and only where the device supports it ([keys_delivered]).
    - Programs: the frames the red-screen program gets accepted form decodable
      groups of pictures, whatever feedback, timers and events do in between
      ([red_screen_decodable]); it ends only at a step that is a reason to, heeds
      Ctrl-C, and returns the cause ([red_screen_ends]); its OFFER is always built and its
      requests come in order ([red_screen_offer], [negotiate_order]), and until
      the first acknowledgement it retries with key frames ([startup_retries]).
      The Android TV console reports as sent exactly the keys that were written,
      ends only when told to or when it cannot read, and does not end at the end of
      its input ([console_tells_the_truth], [console_end_of_input]).

    ** Not modelled

    [lib.rs] only declares modules and re-exports.
    [src/examples/packet_transport_stress.rs] sends filler data through the calls
    the red-screen program makes.  Of the two programs modelled, printing and
    argument parsing are left out, and pairing, discovery and connecting are the
    definitions of their components.  Plain accessors, [Debug]
    output that hides keys, tracing, and the [Drop] implementations that abort a
    task have no counterpart.  Code that prost and serde derive, X.509 and HTTP
    parsing, cryptographic primitives and key generation belong to other crates
    and are the classes above. *)

From stdpp Require Export base list numbers option.
From Stdlib Require Export ZArith Lia.

Declare Scope cast_scope.
Delimit Scope cast_scope with cast.
#[global] Open Scope Z_scope.

(** ** Results of fallible, possibly panicking code

    [Ok]/[Err] are Rust's [Result]; [Panic] is an abort of the program (an
    index or slice out of range, [unwrap] of [None], exhausted loop fuel). *)
Inductive Result (E A : Type) : Type :=
| Ok (a : A)
| Err (e : E)
| Panic.
Arguments Ok {E A} a.
Arguments Err {E A} e.
Arguments Panic {E A}.

Definition bind {E A B} (r : Result E A) (k : A -> Result E B) : Result E B :=
  match r with
  | Ok a => k a
  | Err e => Err e
  | Panic => Panic
  end.

Notation "'let?' x ':=' r 'in' k" := (bind r (fun x => k))
  (at level 10, x pattern, r at level 100, k at level 200) : cast_scope.
#[global] Open Scope cast_scope.

(** [Option::ok_or]. *)
Definition ok_or {E A} (o : option A) (e : E) : Result E A :=
  match o with Some a => Ok a | None => Err e end.

(** [map_err] on the result of a library that does not panic. *)
Definition map_err {E F A} (r : F + A) (f : F -> E) : Result E A :=
  match r with inl e => Err (f e) | inr a => Ok a end.

Definition no_panic {E A} (r : Result E A) : Prop := r <> Panic.

(** A Hoare-style predicate: the code does not panic, and a success
    satisfies [P]. *)
Definition returns {E A} (r : Result E A) (P : A -> Prop) : Prop :=
  match r with Ok a => P a | Err _ => True | Panic => False end.

(** ** Code that acts on a world

    An [async] function that reads, writes or looks at a clock takes the world
    it acts on and returns the new one with its result. *)
Definition Eff (W E A : Type) : Type := W -> W * Result E A.

Definition ret {W E A} (r : Result E A) : Eff W E A := fun w => (w, r).
Definition bind_eff {W E A B} (m : Eff W E A) (k : A -> Eff W E B) : Eff W E B := fun w =>
  match m w with
  | (w, Ok a) => k a w
  | (w, Err e) => (w, Err e)
  | (w, Panic) => (w, Panic)
  end.
Notation "'let!' x ':=' m 'in' k" := (bind_eff m (fun x => k))
  (at level 10, x pattern, m at level 100, k at level 200) : cast_scope.

(** The code does not panic, a success satisfies [P] and an error [Q]. *)
Definition yields {E A} (r : Result E A) (P : A -> Prop) (Q : E -> Prop) : Prop :=
  match r with Ok a => P a | Err e => Q e | Panic => False end.

(** The same of every run in a world. *)
Definition eff_yields {W E A} (m : Eff W E A) (P : A -> Prop) (Q : E -> Prop) : Prop :=
  forall w, yields (snd (m w)) P Q.

(** ** Fixed-width integers *)
Definition wrap_u8 (z : Z) : Z := z mod 2 ^ 8.
Definition wrap_u16 (z : Z) : Z := z mod 2 ^ 16.
Definition wrap_u32 (z : Z) : Z := z mod 2 ^ 32.
Definition wrap_u64 (z : Z) : Z := z mod 2 ^ 64.

(** Two's-complement reading of an unsigned 8-bit value ([as i8]). *)
Definition as_i8 (z : Z) : Z := if z <? 128 then z else z - 256.

Definition u16_max : Z := 2 ^ 16 - 1.
Definition u32_max : Z := 2 ^ 32 - 1.
Definition u64_max : Z := 2 ^ 64 - 1.
Definition u128_max : Z := 2 ^ 128 - 1.

Definition saturating_add_u64 (a b : Z) : Z := Z.min (a + b) u64_max.
Definition saturating_add_u128 (a b : Z) : Z := Z.min (a + b) u128_max.
Definition saturating_mul_u128 (a b : Z) : Z := Z.min (a * b) u128_max.
(** [saturating_sub] of every unsigned type. *)
Definition saturating_sub (a b : Z) : Z := Z.max (a - b) 0.

(** [a.div_ceil(b)] on unsigned integers. *)
Definition div_ceil (a b : Z) : Z := a / b + (if 0 <? a mod b then 1 else 0).

(** ** Bytes

    A byte is a [Z] in [0, 256); a buffer is a list of bytes. *)
Abbreviation bytes := (list Z).

Definition is_byte (b : Z) : Prop := 0 <= b < 256.
Definition bytes_ok (l : bytes) : Prop := Forall is_byte l.

(** The big-endian encoding of the low [n] bytes of [v]
    ([to_be_bytes], [put_u16], [put_u32]). *)
Fixpoint to_be (n : nat) (v : Z) : bytes :=
  match n with
  | O => []
  | S n' => Z.land (Z.shiftr v (8 * Z.of_nat n')) 255 :: to_be n' v
  end.

(** [from_be_bytes]. *)
Fixpoint from_be_acc (acc : Z) (l : bytes) : Z :=
  match l with
  | [] => acc
  | b :: l' => from_be_acc (Z.lor (Z.shiftl acc 8) b) l'
  end.
Definition from_be (l : bytes) : Z := from_be_acc 0 l.

(** [data[i]]: panics out of range. *)
Definition index {E A} (data : list A) (i : nat) : Result E A :=
  match data !! i with Some b => Ok b | None => Panic end.

(** [&data[a..b]]: panics when [a > b] or [b > data.len()]. *)
Definition slice {E A} (data : list A) (a b : nat) : Result E (list A) :=
  if (a <=? b)%nat && (b <=? length data)%nat
  then Ok (take (b - a) (drop a data)) else Panic.

(** ** Record update

    [s <| f := v |>] replaces field [f] of the record [s]; a record opts in
    with an [Eta] instance, its eta expansion. *)
Class Eta (R : Type) := eta : R -> R.
Class Update {R T : Type} (proj : R -> T) := update : T -> R -> R.

Ltac head_of t := lazymatch t with ?f _ => head_of f | _ => t end.

Ltac eta_instance R :=
  let c := constr:(_ : Eta R) in
  let c := lazymatch c with ?f => f end in
  let h := head_of c in
  let t := eval unfold h in c in t.

Ltac derive_update :=
  lazymatch goal with
  | |- @Update ?R ?T ?proj =>
    let e := eta_instance R in
    let f := constr:(fun (v : T) (s : R) =>
      ltac:(let body := eval cbv beta in (e s) in
            let p := eval pattern (proj s) in body in
            lazymatch p with
            | ?g _ => let t := eval cbv beta in (g v) in exact t
            end)) in
    exact f
  end.
#[export] Hint Extern 1 (Update _) => derive_update : typeclass_instances.

Notation "s <| f := v |>" := (update (proj := f) v s)
  (at level 1, f at level 0, v at level 200, left associativity) : cast_scope.

(** ** Automation *)

(** Linear arithmetic with division and remainder by constants. *)
Ltac zlia := (try Z.to_euclidean_division_equations); lia.

(** [bytes_ok] of an explicit list. *)
Ltac solve_bytes :=
  unfold bytes_ok; repeat first
    [ apply Forall_nil_2
    | apply Forall_cons_2; [first [done | unfold is_byte; lia]|] ].

(** Open the width wrappers. *)
Ltac unwrap := unfold wrap_u8, wrap_u16, wrap_u32, wrap_u64 in *.

Create HintDb cast discriminated.
Create Rewrite HintDb cast.

(** ** Lemmas on results *)

Lemma returns_bind {E A B} (r : Result E A) (k : A -> Result E B) P Q :
  returns r P -> (forall a, P a -> returns (k a) Q) -> returns (bind r k) Q.
Proof. destruct r; simpl; auto. Qed.

Lemma returns_weaken {E A} (r : Result E A) (P Q : A -> Prop) :
  returns r P -> (forall a, P a -> Q a) -> returns r Q.
Proof. destruct r; simpl; auto. Qed.

Lemma returns_no_panic {E A} (r : Result E A) P : returns r P -> no_panic r.
Proof. unfold no_panic. destruct r; simpl; intros; congruence || tauto. Qed.

Lemma yields_bind {E A B} (r : Result E A) (k : A -> Result E B) P R Q :
  yields r P Q -> (forall a, P a -> yields (k a) R Q) -> yields (bind r k) R Q.
Proof. destruct r; simpl; auto. Qed.

Lemma yields_weaken {E A} (r : Result E A) (P P' : A -> Prop) Q :
  yields r P Q -> (forall a, P a -> P' a) -> yields r P' Q.
Proof. destruct r; simpl; auto. Qed.

Lemma yields_ok_or {E A} (o : option A) (e : E) (Q : E -> Prop) :
  Q e -> yields (ok_or o e) (fun a => o = Some a) Q.
Proof. by destruct o. Qed.

Lemma yields_map_err {E F A} (r : F + A) (f : F -> E) (Q : E -> Prop) :
  (forall e, Q (f e)) -> yields (map_err r f) (fun a => r = inr a) Q.
Proof. by destruct r; simpl. Qed.

Lemma yields_eq {E A} (r : Result E A) P Q : yields r P Q -> yields r (fun a => P a /\ r = Ok a) Q.
Proof. by destruct r. Qed.

Lemma eff_yields_bind {W E A B} (m : Eff W E A) (k : A -> Eff W E B) P R Q :
  eff_yields m P Q -> (forall a, P a -> eff_yields (k a) R Q) -> eff_yields (bind_eff m k) R Q.
Proof.
  intros Hm Hk w. unfold bind_eff. specialize (Hm w). destruct (m w) as [w' [a|e|]]; simpl in *; [|done|done].
  by apply Hk.
Qed.

Lemma eff_yields_ret {W E A} (r : Result E A) P Q : yields r P Q -> eff_yields (W := W) (ret r) P Q.
Proof. by intros Hr w. Qed.

Lemma eff_yields_weaken {W E A} (m : Eff W E A) (P P' : A -> Prop) Q :
  eff_yields m P Q -> (forall a, P a -> P' a) -> eff_yields m P' Q.
Proof. intros Hm HP w. specialize (Hm w). destruct (snd (m w)); simpl in *; auto. Qed.

(** A run that succeeds is a run of its parts. *)
Lemma bind_eff_Ok {W E A B} (m : Eff W E A) (k : A -> Eff W E B) w w' b :
  bind_eff m k w = (w', Ok b) <-> exists w1 a, m w = (w1, Ok a) /\ k a w1 = (w', Ok b).
Proof.
  unfold bind_eff. destruct (m w) as [w1 [a|e|]]; split;
    try (intros (w2 & a' & [= <- <-] & Hk); done); try done; try (by intros (? & ? & ? & ?)).
  intros Hk. by exists w1, a.
Qed.

Lemma ret_Ok {W E A} (r : Result E A) (w w' : W) a : ret r w = (w', Ok a) <-> w' = w /\ r = Ok a.
Proof. unfold ret. split; [by intros [= <- <-]|by intros [-> ->]]. Qed.

Lemma bind_Ok {E A B} (r : Result E A) (k : A -> Result E B) b :
  bind r k = Ok b <-> exists a, r = Ok a /\ k a = Ok b.
Proof. destruct r; simpl; split; intros H; (destruct H as (?&?&?) || eauto); congruence. Qed.

Lemma index_Ok {E A} (data : list A) i x :
  data !! i = Some x -> @index E A data i = Ok x.
Proof. unfold index. by intros ->. Qed.

Lemma index_returns {E A} (data : list A) i :
  (i < length data)%nat -> returns (@index E A data i) (fun b => data !! i = Some b).
Proof.
  intros H. destruct (lookup_lt_is_Some_2 _ _ H) as [x Hx].
  rewrite (index_Ok _ _ _ Hx). done.
Qed.

Lemma slice_Ok {E A} (data : list A) a b :
  (a <= b)%nat -> (b <= length data)%nat ->
  @slice E A data a b = Ok (take (b - a) (drop a data)).
Proof.
  intros H1 H2. unfold slice.
  by rewrite (proj2 (Nat.leb_le _ _) H1), (proj2 (Nat.leb_le _ _) H2).
Qed.

Lemma index_app_l {E A} (l1 l2 : list A) i :
  (i < length l1)%nat -> @index E A (l1 ++ l2) i = index l1 i.
Proof. intros. unfold index. by rewrite lookup_app_l. Qed.

Lemma index_app_r {E A} (l1 l2 : list A) i :
  @index E A (l1 ++ l2) (length l1 + i) = index l2 i.
Proof.
  unfold index. rewrite lookup_app_r by lia.
  by replace (length l1 + i - length l1)%nat with i by lia.
Qed.

(** ** Lemmas on bit operations and bytes *)

Lemma land_255 z : Z.land z 255 = z mod 256.
Proof. change 255 with (Z.ones 8). by rewrite Z.land_ones. Qed.

Lemma shiftr_div z n : 0 <= n -> Z.shiftr z n = z / 2 ^ n.
Proof. apply Z.shiftr_div_pow2. Qed.

Lemma lor_add_disjoint a b n :
  0 <= n -> 0 <= b < 2 ^ n -> Z.lor (Z.shiftl a n) b = a * 2 ^ n + b.
Proof.
  intros Hn Hb. rewrite <- Z.shiftl_mul_pow2 by lia.
  assert (Hl : Z.land (Z.shiftl a n) b = 0).
  { apply Z.bits_inj'. intros i Hi. rewrite Z.land_spec, Z.bits_0.
    destruct (Z.lt_ge_cases i n) as [Hlt|Hge].
    - by rewrite Z.shiftl_spec_low.
    - replace b with (b mod 2 ^ n) by (by apply Z.mod_small).
      rewrite Z.mod_pow2_bits_high by lia. apply andb_false_r. }
  pose proof (Z.add_lor_land (Z.shiftl a n) b). lia.
Qed.

Lemma lor_byte acc b : is_byte b -> Z.lor (Z.shiftl acc 8) b = acc * 256 + b.
Proof. intros. apply (lor_add_disjoint acc b 8); unfold is_byte in *; lia. Qed.

(** Three bytes combined as a 24-bit value. *)
Lemma lor_three_bytes a b c :
  is_byte b -> is_byte c ->
  Z.lor (Z.lor (Z.shiftl a 16) (Z.shiftl b 8)) c = a * 65536 + b * 256 + c.
Proof.
  intros Hb Hc.
  replace (Z.lor (Z.shiftl a 16) (Z.shiftl b 8)) with (Z.shiftl (Z.lor (Z.shiftl a 8) b) 8)
    by (rewrite Z.shiftl_lor, Z.shiftl_shiftl by lia; done).
  rewrite !lor_byte by done. ring.
Qed.

(** Testing a bit with a mask. *)
Lemma land_mask_testbit v i :
  0 <= i -> (Z.land v (Z.shiftl 1 i) =? 0) = negb (Z.testbit v i).
Proof.
  intros Hi. rewrite Z.shiftl_1_l. destruct (Z.testbit v i) eqn:Ht; simpl.
  - apply Z.eqb_neq. intros Hz. apply (f_equal (fun z => Z.testbit z i)) in Hz.
    by rewrite Z.land_spec, Ht, Z.pow2_bits_true, Z.bits_0 in Hz by lia.
  - apply Z.eqb_eq, Z.bits_inj'. intros j Hj. rewrite Z.land_spec, Z.bits_0.
    destruct (Z.eq_dec j i) as [->|]; [by rewrite Ht|].
    rewrite Z.pow2_bits_false by lia. apply andb_false_r.
Qed.

Lemma length_to_be n v : length (to_be n v) = n.
Proof. induction n; simpl; auto. Qed.

Lemma to_be_ok n v : bytes_ok (to_be n v).
Proof.
  induction n; simpl; constructor; auto.
  rewrite land_255. apply Z.mod_pos_bound. lia.
Qed.

Lemma from_be_acc_to_be n v acc :
  from_be_acc acc (to_be n v) = acc * 2 ^ (8 * Z.of_nat n) + v mod 2 ^ (8 * Z.of_nat n).
Proof.
  revert acc. induction n as [|n IH]; intros acc.
  - simpl. rewrite Z.mod_1_r. lia.
  - cbn [to_be from_be_acc]. rewrite IH, land_255, shiftr_div by lia.
    rewrite lor_byte by (apply Z.mod_pos_bound; lia).
    set (p := 2 ^ (8 * Z.of_nat n)).
    assert (Hp : 2 ^ (8 * Z.of_nat (S n)) = p * 256).
    { unfold p. replace (8 * Z.of_nat (S n)) with (8 * Z.of_nat n + 8) by lia.
      rewrite Z.pow_add_r by lia. reflexivity. }
    rewrite Hp, Z.rem_mul_r by (unfold p; lia). ring.
Qed.

Lemma from_be_to_be n v : from_be (to_be n v) = v mod 2 ^ (8 * Z.of_nat n).
Proof. unfold from_be. rewrite from_be_acc_to_be. lia. Qed.

Lemma from_be_to_be_small n v :
  0 <= v < 2 ^ (8 * Z.of_nat n) -> from_be (to_be n v) = v.
Proof. intros. rewrite from_be_to_be. by apply Z.mod_small. Qed.

Lemma from_be_acc_bound l acc :
  bytes_ok l -> 0 <= acc ->
  0 <= from_be_acc acc l < (acc + 1) * 2 ^ (8 * Z.of_nat (length l)).
Proof.
  intros Hl. revert acc. induction Hl as [|b l Hb Hl IH]; intros acc Hacc.
  - simpl. lia.
  - cbn [from_be_acc length]. rewrite lor_byte by done.
    unfold is_byte in Hb. specialize (IH (acc * 256 + b) ltac:(lia)).
    replace (8 * Z.of_nat (S (length l))) with (8 + 8 * Z.of_nat (length l)) by lia.
    rewrite Z.pow_add_r by lia. change (2 ^ 8) with 256. nia.
Qed.

Lemma from_be_bound l :
  bytes_ok l -> 0 <= from_be l < 2 ^ (8 * Z.of_nat (length l)).
Proof. intros H. pose proof (from_be_acc_bound l 0 H ltac:(lia)). unfold from_be. lia. Qed.

Lemma bytes_ok_app l1 l2 : bytes_ok (l1 ++ l2) <-> bytes_ok l1 /\ bytes_ok l2.
Proof. apply Forall_app. Qed.

Lemma bytes_ok_take n l : bytes_ok l -> bytes_ok (take n l).
Proof. apply Forall_take. Qed.

Lemma bytes_ok_drop n l : bytes_ok l -> bytes_ok (drop n l).
Proof. apply Forall_drop. Qed.

Lemma bytes_ok_lookup l i b : bytes_ok l -> l !! i = Some b -> is_byte b.
Proof. intros H Hi. by apply (Forall_lookup_1 _ _ _ _ H Hi). Qed.

Lemma wrap_u8_byte z : is_byte (wrap_u8 z).
Proof. unfold is_byte, wrap_u8. zlia. Qed.

#[export] Hint Resolve to_be_ok bytes_ok_take bytes_ok_drop wrap_u8_byte : cast.
#[export] Hint Rewrite length_to_be @length_app @length_take @length_drop : cast.

(** ** Lemmas on lists *)

Lemma length_filter_le {A} (P : A -> Prop) `{!forall x, Decision (P x)} (l : list A) :
  (length (filter P l) <= length l)%nat.
Proof.
  induction l as [|x l IH]; [done|]. rewrite filter_cons.
  destruct (decide (P x)); simpl; lia.
Qed.

Lemma list_insert_Forall {A} (P : A -> Prop) (l : list A) i x :
  Forall P l -> P x -> Forall P (<[i:=x]> l).
Proof.
  intros Hl Hx. rewrite Forall_lookup in Hl |- *. intros j y Hy.
  apply list_lookup_insert_Some in Hy as [(-> & <- & _)|[_ Hy]]; eauto.
Qed.

(** The occupied entries of an array of options. *)
Lemma omap_id_split {A} (l : list (option A)) i o :
  l !! i = Some o ->
  omap id l = omap id (take i l) ++ option_list o ++ omap id (drop (S i) l) /\
  forall o', omap id (<[i := o']> l) = omap id (take i l) ++ option_list o' ++ omap id (drop (S i) l).
Proof.
  intros Hi. pose proof (lookup_lt_Some _ _ _ Hi). split.
  - rewrite <- (take_drop_middle l i o Hi) at 1. rewrite omap_app. by destruct o.
  - intros o'. rewrite insert_take_drop by done. rewrite omap_app. by destruct o'.
Qed.

Lemma length_omap_insert_Some {A} (l : list (option A)) i x :
  l !! i = Some None -> length (omap id (<[i := Some x]> l)) = S (length (omap id l)).
Proof.
  intros Hi. destruct (omap_id_split l i None Hi) as [-> H]. rewrite H, !length_app. simpl. lia.
Qed.

Lemma length_omap_insert_None {A} (l : list (option A)) i x :
  l !! i = Some (Some x) -> length (omap id l) = S (length (omap id (<[i := None]> l))).
Proof.
  intros Hi. destruct (omap_id_split l i (Some x) Hi) as [-> H]. rewrite H, !length_app. simpl. lia.
Qed.

Lemma elem_of_omap_id {A} (l : list (option A)) x :
  x ∈ omap id l <-> exists i, l !! i = Some (Some x).
Proof.
  rewrite list_elem_of_omap. split.
  - intros (o & Ho & Hx). apply list_elem_of_lookup in Ho as [i Hi]. unfold id in Hx. subst. eauto.
  - intros [i Hi]. exists (Some x). split; [|done]. apply list_elem_of_lookup. eauto.
Qed.

Lemma filter_filter_comm {A} (f g : A -> bool) (l : list A) :
  List.filter f (List.filter g l) = List.filter (fun x => g x && f x) l.
Proof.
  induction l as [|x l IH]; [done|]. simpl.
  destruct (g x); simpl; [destruct (f x)|]; by rewrite ?IH.
Qed.

Lemma filter_all {A} (f : A -> bool) (l : list A) :
  (forall x, In x l -> f x = true) -> List.filter f l = l.
Proof.
  induction l as [|x l IH]; intros H; [done|]. simpl. rewrite (H x) by (by left).
  f_equal. apply IH. intros y Hy. apply H. by right.
Qed.

Lemma length_omap_le {A} (l : list (option A)) : (length (omap id l) <= length l)%nat.
Proof. induction l as [|[x|] l IH]; cbn; [lia|by apply le_n_S|by apply le_S]. Qed.
