(* ===== verification/Constants.v ===== *)
(** * Protocol constants ([src/src/constants.rs])

    Durations are nanosecond counts, as in [Time.v]. *)

From stdpp Require Import strings.
From S2P Require Import Prelude.

Definition millis (ms : Z) : Z := ms * 1000000.

Definition DEFAULT_TARGET_PLAYOUT_DELAY : Z := millis 400.
Definition ADAPTIVE_PLAYOUT_DELAY_EXTENSION : string := "adaptive_playout_delay".
Definition RTCP_REPORT_INTERVAL : Z := millis 500.
Definition STATISTICS_DEBOUNCE_INTERVAL : Z := millis 100.
Definition BURST_INTERVAL : Z := millis 10.
Definition MAX_UNACKED_FRAMES : Z := 120.
Definition DEFAULT_VIDEO_MAX_BIT_RATE : Z := 10000000.
Definition MAX_BURST_BITRATE : Z := Z.shiftl 128 20.
Definition DEFAULT_AUDIO_SAMPLE_RATE : Z := 48000.
Definition DEFAULT_AUDIO_CHANNELS : Z := 2.
Definition RTP_VIDEO_TIMEBASE : Z := 90000.
Definition DEFAULT_FRAME_RATE : Z := 30.
Definition MAX_RTP_PACKET_SIZE_IPV4 : Z := 1472.
Definition MAX_RTP_PACKET_SIZE_IPV6 : Z := 1452.
Definition RTP_STANDARD_HEADER_SIZE : Z := 12.
Definition CAST_HEADER_WITH_REF_SIZE : Z := 7.
Definition RTP_BASE_HEADER_SIZE : Z := RTP_STANDARD_HEADER_SIZE + CAST_HEADER_WITH_REF_SIZE.
Definition ADAPTIVE_LATENCY_EXT_SIZE : Z := 4.
Definition RTP_MAX_HEADER_SIZE : Z := RTP_BASE_HEADER_SIZE + ADAPTIVE_LATENCY_EXT_SIZE.
Definition RTP_REQUIRED_FIRST_BYTE : Z := 128.
Definition RTCP_SENDER_REPORT : Z := 200.
Definition RTCP_RECEIVER_REPORT : Z := 201.
Definition RTCP_PAYLOAD_SPECIFIC : Z := 206.
Definition RTCP_EXTENDED_REPORTS : Z := 207.
Definition RTCP_SUBTYPE_PICTURE_LOSS : Z := 1.
Definition RTCP_SUBTYPE_FEEDBACK : Z := 15.
Definition CAST_FEEDBACK_MAGIC : Z := 0x43415354.
Definition CAST_ACK_MAGIC : Z := 0x43535432.
Definition ALL_PACKETS_LOST : Z := 0xFFFF.
Definition MINIMUM_AUDIO_SYNC_SOURCE : Z := 1.
Definition MAXIMUM_AUDIO_SYNC_SOURCE : Z := 50000.
Definition MINIMUM_VIDEO_SYNC_SOURCE : Z := 50001.
Definition MAXIMUM_VIDEO_SYNC_SOURCE : Z := 100000.
Definition NTP_EPOCH_OFFSET_SECS : Z := 2208988800.
