(* ===== verification/Time.v ===== *)
(** * Clocks and timestamps ([std::time] as used, [src/src/ntp.rs])

    A [Duration] is its nanosecond count (Rust keeps whole seconds in a [u64]
    and a sub-second [u32] below 10^9, so the count is bounded by
    [duration_max]).  A monotonic [Instant] and a [SystemTime] are nanosecond
    counts from an arbitrary origin and from the Unix epoch. *)

From S2P Require Import Prelude Constants.

Abbreviation Duration := Z.
Abbreviation Instant := Z.
Abbreviation SystemTime := Z.

Definition nanos_per_sec : Z := 1000000000.
Definition duration_max : Z := u64_max * nanos_per_sec + (nanos_per_sec - 1).
Definition duration_ok (d : Duration) : Prop := 0 <= d <= duration_max.

Definition from_secs (s : Z) : Duration := s * nanos_per_sec.
Definition from_millis (ms : Z) : Duration := millis ms.
Definition from_nanos (n : Z) : Duration := n.
Definition as_secs (d : Duration) : Z := d / nanos_per_sec.
Definition subsec_nanos (d : Duration) : Z := d mod nanos_per_sec.
Definition as_millis (d : Duration) : Z := d / 1000000.
Definition as_nanos (d : Duration) : Z := d.

Definition checked_add (a b : Duration) : option Duration :=
  if a + b <=? duration_max then Some (a + b) else None.
Definition checked_sub (a b : Duration) : option Duration :=
  if b <=? a then Some (a - b) else None.
Definition saturating_mul (a n : Z) : Duration := Z.min (a * n) duration_max.

(** [Instant + Duration], which panics when the sum cannot be represented; on
    Unix an [Instant] counts its seconds in an [i64].  It is written out where a
    caller chooses the duration; elsewhere the durations added are constants or
    bounded, and the sum is exact. *)
Definition instant_max : Z := (2 ^ 63 - 1) * nanos_per_sec + (nanos_per_sec - 1).
Definition instant_add {E} (a : Instant) (d : Duration) : Result E Instant :=
  if a + d <=? instant_max then Ok (a + d) else Panic.

(** [a.duration_since(b)] (saturating) and [a.checked_duration_since(b)]. *)
Definition duration_since (a b : Instant) : Duration := saturating_sub a b.
Definition checked_duration_since (a b : Instant) : option Duration :=
  if b <=? a then Some (a - b) else None.

(** ** NTP timestamps: 32 bits of seconds since 1900, 32 bits of fraction *)
Module NtpTimestamp.
Abbreviation t := Z.

Definition from_system_time (time : SystemTime) : t :=
  (* time.duration_since(UNIX_EPOCH).unwrap_or(Duration::ZERO) *)
  let duration := Z.max time 0 in
  let ntp_secs := as_secs duration + NTP_EPOCH_OFFSET_SECS in
  let fraction := wrap_u64 (Z.shiftl (subsec_nanos duration) 32) / 1000000000 in
  Z.lor (wrap_u64 (Z.shiftl ntp_secs 32)) fraction.

Definition seconds (n : t) : Z := Z.shiftr n 32.
Definition fraction (n : t) : Z := wrap_u32 n.
Definition upper_32 (n : t) : Z := wrap_u32 (Z.shiftr n 32).
Definition middle_32 (n : t) : Z := wrap_u32 (Z.shiftr n 16).

Definition to_system_time (n : t) : SystemTime :=
  let secs := saturating_sub (seconds n) NTP_EPOCH_OFFSET_SECS in
  let nanos := Z.shiftr (fraction n * 1000000000) 32 in
  from_secs secs + nanos.
End NtpTimestamp.

(** ** Lemmas *)

(** The NTP word splits into its two 32-bit halves while the seconds fit,
    that is until the NTP era ends in 2036. *)
Lemma from_system_time_halves time :
  0 <= time < from_secs (2 ^ 32 - NTP_EPOCH_OFFSET_SECS) ->
  NtpTimestamp.from_system_time time =
    (as_secs time + NTP_EPOCH_OFFSET_SECS) * 2 ^ 32
      + (subsec_nanos time * 2 ^ 32) / nanos_per_sec.
Proof.
  intros H. unfold NtpTimestamp.from_system_time.
  rewrite Z.max_l by lia.
  unfold from_secs, as_secs, subsec_nanos, nanos_per_sec, NTP_EPOCH_OFFSET_SECS in *.
  unfold wrap_u64. rewrite !Z.shiftl_mul_pow2 by lia.
  rewrite !Z.mod_small by zlia.
  rewrite <- Z.shiftl_mul_pow2 by lia. rewrite lor_add_disjoint; [by rewrite Z.shiftl_mul_pow2 by lia|lia|].
  split; [apply Z.div_pos; zlia|apply Z.div_lt_upper_bound; zlia].
Qed.

(** An NTP round trip loses less than one nanosecond: truncating the
    sub-second part to units of 2^-32 s and back gives the time or the
    nanosecond before it. *)
Theorem ntp_roundtrip time :
  0 <= time < from_secs (2 ^ 32 - NTP_EPOCH_OFFSET_SECS) ->
  let back := NtpTimestamp.to_system_time (NtpTimestamp.from_system_time time) in
  time - 1 <= back <= time.
Proof.
  intros H. cbv zeta. unfold NtpTimestamp.to_system_time.
  rewrite from_system_time_halves by done.
  unfold NtpTimestamp.seconds, NtpTimestamp.fraction, wrap_u32, saturating_sub.
  rewrite !Z.shiftr_div_pow2 by lia.
  unfold from_secs, as_secs, subsec_nanos, nanos_per_sec, NTP_EPOCH_OFFSET_SECS in *.
  set (s := time / 1000000000). set (n := time mod 1000000000).
  assert (Ht : time = s * 1000000000 + n /\ 0 <= n < 1000000000) by (subst s n; zlia).
  set (f := n * 2 ^ 32 / 1000000000).
  assert (Hf : f * 1000000000 <= n * 2 ^ 32 < f * 1000000000 + 1000000000) by (subst f; zlia).
  clearbody s n f.
  set (w := (s + 2208988800) * 2 ^ 32 + f).
  assert (Hs : w / 2 ^ 32 = s + 2208988800) by (subst w; zlia).
  assert (Hr : w mod 2 ^ 32 = f) by (subst w; zlia).
  rewrite Hs, Hr. zlia.
Qed.

Lemma ntp_roundtrip_witness :
  let back := NtpTimestamp.to_system_time (NtpTimestamp.from_system_time 1700000000123456789) in
  1700000000123456788 <= back <= 1700000000123456789.
Proof. apply (ntp_roundtrip 1700000000123456789). vm_compute. split; congruence. Defined.

(** The compact form used to match a Receiver Report with its Sender Report
    is the low half of the seconds followed by the high half of the fraction. *)
Lemma middle_32_spec n :
  NtpTimestamp.middle_32 n =
    (NtpTimestamp.seconds n mod 2 ^ 16) * 2 ^ 16 + NtpTimestamp.fraction n / 2 ^ 16.
Proof.
  unfold NtpTimestamp.middle_32, NtpTimestamp.seconds, NtpTimestamp.fraction, wrap_u32.
  rewrite !Z.shiftr_div_pow2 by lia. zlia.
Qed.
