(* ===== verification/Errors.v ===== *)
(** * Error types ([src/src/error.rs])

    The source's [thiserror] enums; a constructor that two enums share carries
    the enum's name as a prefix.  A wrapped [std::io::Error] keeps the kind the
    program distinguishes and its text, a wrapped [serde_json::Error] its text. *)

From stdpp Require Import strings.
From S2P Require Import Prelude.

Inductive IoErrorKind := Interrupted | UnexpectedEof | InvalidData | TimedOut | OtherKind.
#[export] Instance IoErrorKind_eq_dec : EqDecision IoErrorKind.
Proof. solve_decision. Defined.
Record IoError := MkIoError { io_kind : IoErrorKind; io_message : string }.
#[export] Instance IoError_eq_dec : EqDecision IoError.
Proof. solve_decision. Defined.

Inductive Error :=
| InvalidPacket (message : string)
| CryptoError (message : string)
| NegotiationFailed (message : string)
| NoAcceptedStreams
| ConnectionFailed (message : string)
| AuthenticationFailed (message : string)
| ProtocolError (message : string)
| SetupFailed (message : string)
| AppLaunchFailed (message : string)
| Io (error : IoError)
| JsonError (message : string).
#[export] Instance Error_eq_dec : EqDecision Error.
Proof. solve_decision. Defined.

(** [Display for Error], from the [#[error(...)]] attributes. *)
Definition error_to_string (e : Error) : string :=
  match e with
  | InvalidPacket m => "invalid packet: " +:+ m
  | CryptoError m => "crypto error: " +:+ m
  | NegotiationFailed m => "negotiation failed: " +:+ m
  | NoAcceptedStreams => "no streams accepted by receiver"
  | ConnectionFailed m => "connection failed: " +:+ m
  | AuthenticationFailed m => "device authentication failed: " +:+ m
  | ProtocolError m => "protocol error: " +:+ m
  | SetupFailed m => "setup endpoint query failed: " +:+ m
  | AppLaunchFailed m => "app launch failed: " +:+ m
  | Io e => io_message e
  | JsonError m => m
  end.

Inductive EnqueueError :=
| ReachedIdSpanLimit
| FirstFrameMustBeKeyFrame
| NonMonotonicMediaTimestamp
| EmptyFrame
| EnqueueSessionClosed.
#[export] Instance EnqueueError_eq_dec : EqDecision EnqueueError.
Proof. solve_decision. Defined.

Inductive PlayoutDelayError := InvalidDelay | Unsupported | PlayoutSessionClosed.
#[export] Instance PlayoutDelayError_eq_dec : EqDecision PlayoutDelayError.
Proof. solve_decision. Defined.

Inductive SenderError :=
| SenderSessionClosed
| SenderReceiverTimedOut
| TaskFailed (message : string)
| TransportFailed (operation message : string).
#[export] Instance SenderError_eq_dec : EqDecision SenderError.
Proof. solve_decision. Defined.
