(* ===== verification/Text.v ===== *)
(** * Decimal numbers in strings

    [display] is Rust's [Display] of an unsigned integer and [parse_unsigned]
    its [FromStr], as the negotiation code uses them. *)

From Stdlib Require Import Ascii.
From stdpp Require Import strings.
From S2P Require Import Prelude.

Definition digit_char (d : Z) : ascii := ascii_of_nat (48 + Z.to_nat d).

Definition char_digit (c : ascii) : option Z :=
  let n := Z.of_nat (nat_of_ascii c) in
  if (48 <=? n) && (n <=? 57) then Some (n - 48) else None.

(** Digits from the least significant, in front of [acc]. *)
Fixpoint display_go (fuel : nat) (n : Z) (acc : string) : string :=
  match fuel with
  | O => acc
  | S fuel' =>
    let acc := String (digit_char (n mod 10)) acc in
    if n <? 10 then acc else display_go fuel' (n / 10) acc
  end.

(** A number below [2^(k+1)] has at most [k+1] decimal digits. *)
Definition display (n : Z) : string := display_go (S (Z.to_nat (Z.log2 n))) n "".

(** The checked accumulation of [from_str_radix]: no digit may push the value
    over [max]. *)
Fixpoint parse_digits (max acc : Z) (s : string) : option Z :=
  match s with
  | EmptyString => Some acc
  | String c s' =>
    d ← char_digit c;
    let acc' := acc * 10 + d in
    if acc' <=? max then parse_digits max acc' s' else None
  end.

(** [str::parse::<uN>]: an optional [+], then at least one digit. *)
Definition parse_unsigned (max : Z) (s : string) : option Z :=
  match s with
  | EmptyString => None
  | String "+" EmptyString => None
  | String "+" s' => parse_digits max 0 s'
  | s => parse_digits max 0 s
  end.

(** [s.split_once(c)]. *)
Fixpoint split_once (c : ascii) (s : string) : option (string * string) :=
  match s with
  | EmptyString => None
  | String x s' =>
    if decide (x = c) then Some (EmptyString, s')
    else '(a, b) ← split_once c s'; Some (String x a, b)
  end.

(** A Rust string is its UTF-8 bytes; [utf8] and [of_utf8] go between the byte
    form of messages and the character form of text. *)
Fixpoint utf8 (s : string) : bytes :=
  match s with
  | EmptyString => []
  | String c s' => Z.of_nat (nat_of_ascii c) :: utf8 s'
  end.
Fixpoint of_utf8 (l : bytes) : string :=
  match l with
  | [] => EmptyString
  | b :: l' => String (ascii_of_nat (Z.to_nat b)) (of_utf8 l')
  end.

(** One character of [Debug for str]; characters outside ASCII stay. *)
Definition debug_char (c : ascii) : string :=
  let n := nat_of_ascii c in
  let hex d := String (ascii_of_nat (if (d <? 10)%nat then 48 + d else 87 + d)) EmptyString in
  if (n =? 0)%nat then "\0"
  else if (n =? 9)%nat then "\t"
  else if (n =? 10)%nat then "\n"
  else if (n =? 13)%nat then "\r"
  else if (n =? 34)%nat then String "\" (String (ascii_of_nat 34) EmptyString)
  else if (n =? 92)%nat then "\\"
  else if (n <? 16)%nat then "\u{" +:+ hex n +:+ "}"
  else if (n <? 32)%nat || (n =? 127)%nat then "\u{" +:+ hex (n / 16)%nat +:+ hex (n mod 16)%nat +:+ "}"
  else String c EmptyString.
Fixpoint debug_chars (s : string) : string :=
  match s with EmptyString => EmptyString | String c s' => debug_char c +:+ debug_chars s' end.
Definition debug_str (s : string) : string :=
  String (ascii_of_nat 34) (debug_chars s +:+ String (ascii_of_nat 34) EmptyString).

(** The characters of UTF-8 bytes, each as its bytes: the leading byte says
    how many there are.  The fuel is the length. *)
Definition char_width (b : Z) : nat :=
  if b <? 0x80 then 1 else if b <? 0xE0 then 2 else if b <? 0xF0 then 3 else 4.
Fixpoint chars_go (fuel : nat) (l : bytes) : list bytes :=
  match fuel, l with
  | S fuel', b :: _ => take (char_width b) l :: chars_go fuel' (drop (char_width b) l)
  | _, _ => []
  end.
Definition chars (l : bytes) : list bytes := chars_go (length l) l.

(** [char::is_whitespace]: the code points of Unicode's White_Space. *)
Definition is_whitespace (c : bytes) : bool :=
  match c with
  | [b] => ((9 <=? b) && (b <=? 13)) || (b =? 32)
  | [0xC2; b] => (b =? 0x85) || (b =? 0xA0)
  | [0xE1; 0x9A; 0x80] => true
  | [0xE2; 0x80; b] =>
    ((0x80 <=? b) && (b <=? 0x8A)) || (b =? 0xA8) || (b =? 0xA9) || (b =? 0xAF)
  | [0xE2; 0x81; 0x9F] => true
  | [0xE3; 0x80; 0x80] => true
  | _ => false
  end.

(** [char::is_control]: U+0000 to U+001F and U+007F to U+009F. *)
Definition is_control (c : bytes) : bool :=
  match c with
  | [b] => (b <? 32) || (b =? 127)
  | [0xC2; b] => b <? 0xA0
  | _ => false
  end.

Fixpoint skip_whitespace (cs : list bytes) : list bytes :=
  match cs with
  | c :: cs' => if is_whitespace c then skip_whitespace cs' else cs
  | [] => []
  end.

(** [str::trim], by characters. *)
Definition trim_chars (cs : list bytes) : list bytes :=
  rev (skip_whitespace (rev (skip_whitespace cs))).
Definition trim (s : string) : string := of_utf8 (concat (trim_chars (chars (utf8 s)))).

(** All characters are decimal digits. *)
Fixpoint digits_only (s : string) : Prop :=
  match s with
  | EmptyString => True
  | String c s' => is_Some (char_digit c) /\ digits_only s'
  end.

(** ** Lemmas *)

Lemma of_utf8_utf8 s : of_utf8 (utf8 s) = s.
Proof. induction s as [|c s IH]; [done|]. cbn. by rewrite Nat2Z.id, ascii_nat_embedding, IH. Qed.

Lemma utf8_of_utf8 l : bytes_ok l -> utf8 (of_utf8 l) = l.
Proof.
  induction 1 as [|b l Hb Hl IH]; [done|]. cbn. unfold is_byte in Hb.
  rewrite nat_ascii_embedding by lia. rewrite Z2Nat.id by lia. by rewrite IH.
Qed.

Lemma utf8_bytes_ok s : bytes_ok (utf8 s).
Proof.
  induction s as [|c s IH]; constructor; [|done]. unfold is_byte. pose proof (nat_ascii_bounded c). lia.
Qed.

(** ** Characters and trimming *)

(** Every character has the bytes its leading byte announces; only the last
    may be cut short. *)
Inductive chunked : list bytes -> Prop :=
| chunked_nil : chunked []
| chunked_last b t : (length (b :: t) <= char_width b)%nat -> chunked [b :: t]
| chunked_cons b t cs : length (b :: t) = char_width b -> chunked cs -> chunked ((b :: t) :: cs).

Lemma char_width_pos b : (0 < char_width b)%nat.
Proof. unfold char_width. repeat destruct (_ <? _); lia. Qed.

Lemma chars_go_spec fuel l :
  (length l <= fuel)%nat -> chunked (chars_go fuel l) /\ concat (chars_go fuel l) = l.
Proof.
  revert l. induction fuel as [|fuel IH]; intros l Hl; [destruct l; [by repeat constructor|cbn in Hl; lia]|].
  destruct l as [|b l]; [by repeat constructor|]. cbn [chars_go].
  pose proof (char_width_pos b) as Hw. destruct (char_width b) as [|n] eqn:Hb; [lia|]. cbn [take drop].
  destruct (IH (drop n l)) as [Hc Hcat]; [rewrite length_drop; cbn in Hl; lia|].
  split; [|cbn; by rewrite Hcat, take_drop].
  destruct (le_lt_dec n (length l)) as [Hn|Hn].
  - constructor; [|done]. cbn. rewrite length_take. lia.
  - rewrite drop_ge by lia. destruct fuel; cbn; constructor; cbn; rewrite length_take; lia.
Qed.

Lemma chars_chunked l : chunked (chars l).
Proof. by apply chars_go_spec. Qed.
Lemma concat_chars l : concat (chars l) = l.
Proof. by apply chars_go_spec. Qed.

Lemma chars_go_concat fuel cs :
  chunked cs -> (length (concat cs) <= fuel)%nat -> chars_go fuel (concat cs) = cs.
Proof.
  intros Hc. revert fuel. induction Hc as [|b t Hl|b t cs Hl Hc IH]; intros fuel Hf.
  - by destruct fuel.
  - rewrite concat_cons, app_nil_r in *. destruct fuel as [|fuel]; [cbn in Hf; lia|]. cbn [chars_go].
    rewrite take_ge, drop_ge by done. by destruct fuel.
  - rewrite concat_cons in *. destruct fuel as [|fuel]; [cbn in Hf; lia|]. cbn [chars_go app].
    change (b :: t ++ concat cs) with ((b :: t) ++ concat cs).
    rewrite <- Hl, take_app_length, drop_app_length, IH; [done|].
    rewrite length_app in Hf. cbn in Hf. lia.
Qed.

Lemma chars_concat cs : chunked cs -> chars (concat cs) = cs.
Proof. intros Hc. by apply chars_go_concat. Qed.

Lemma chunked_app_l cs cs' : chunked (cs ++ cs') -> chunked cs.
Proof.
  induction cs as [|c cs IH]; [constructor|]. cbn. intros Hc.
  inversion Hc as [|b t Hl Heq|b t l Hl Hc' Heq]; subst.
  - destruct cs; [by constructor|done].
  - constructor; auto.
Qed.

Lemma chunked_app_r cs cs' : chunked (cs ++ cs') -> chunked cs'.
Proof.
  induction cs as [|c cs IH]; [done|]. cbn. intros Hc. apply IH. inversion Hc as [|b t Hl [Hb Hn]|]; subst; [|done].
  destruct cs; [|done]. cbn in *. subst. constructor.
Qed.

Lemma skip_whitespace_split cs :
  exists pre, cs = pre ++ skip_whitespace cs /\ forallb is_whitespace pre = true.
Proof.
  induction cs as [|c cs IH]; [by exists []|]. cbn. destruct (is_whitespace c) eqn:Hc; [|by exists []].
  destruct IH as (pre & Heq & Hp). exists (c :: pre). cbn. rewrite Hc, Hp. by rewrite <- Heq.
Qed.

Lemma skip_whitespace_head cs c cs' : skip_whitespace cs = c :: cs' -> is_whitespace c = false.
Proof.
  induction cs as [|x cs IH]; [done|]. cbn. destruct (is_whitespace x) eqn:Hx; [apply IH|]. by intros [= <- _].
Qed.

(** Trimming takes white space from both ends and nothing else. *)
Lemma trim_chars_split cs :
  exists pre post, cs = pre ++ trim_chars cs ++ post /\
    forallb is_whitespace pre = true /\ forallb is_whitespace post = true /\
    (forall c cs', trim_chars cs = c :: cs' -> is_whitespace c = false) /\
    (forall c cs', trim_chars cs = cs' ++ [c] -> is_whitespace c = false).
Proof.
  destruct (skip_whitespace_split cs) as (pre & Heq & Hpre). unfold trim_chars.
  destruct (skip_whitespace_split (rev (skip_whitespace cs))) as (post & Heq' & Hpost).
  apply (f_equal (@rev _)) in Heq'. rewrite rev_involutive, rev_app_distr in Heq'.
  set (mid := rev (skip_whitespace (rev (skip_whitespace cs)))) in *.
  exists pre, (rev post). split_and!; [by rewrite <- Heq'|done| | |].
  - apply forallb_forall. intros x Hx. apply in_rev in Hx.
    exact (proj1 (forallb_forall _ _) Hpost x Hx).
  - intros c cs' Hm. rewrite Hm in Heq'. by eapply skip_whitespace_head.
  - intros c cs' Hm. apply (f_equal (@rev _)) in Hm. unfold mid in Hm.
    rewrite rev_involutive, rev_app_distr in Hm. exact (skip_whitespace_head _ c (rev cs') Hm).
Qed.

(** The characters of a trimmed string. *)
Lemma chars_trim s : chars (utf8 (trim s)) = trim_chars (chars (utf8 s)).
Proof.
  destruct (trim_chars_split (chars (utf8 s))) as (pre & post & Heq & _).
  pose proof (chars_chunked (utf8 s)) as Hc. pose proof (concat_chars (utf8 s)) as Hcat.
  pose proof (utf8_bytes_ok s) as Hb. unfold trim.
  set (mid := trim_chars (chars (utf8 s))) in *. rewrite Heq in Hc, Hcat.
  rewrite utf8_of_utf8.
  - apply chars_concat. by eapply chunked_app_l, chunked_app_r.
  - rewrite <- Hcat, !concat_app in Hb. apply Forall_app in Hb as [_ Hb]. by apply Forall_app in Hb as [Hb _].
Qed.

Lemma char_digit_char d : 0 <= d < 10 -> char_digit (digit_char d) = Some d.
Proof.
  intros H. assert (Hd : d = 0 \/ d = 1 \/ d = 2 \/ d = 3 \/ d = 4 \/ d = 5 \/ d = 6 \/ d = 7 \/
    d = 8 \/ d = 9) by lia.
  repeat (destruct Hd as [->|Hd]; [reflexivity|]). by subst.
Qed.

Lemma parse_display_go max fuel n tail :
  0 <= n <= max -> n < 10 ^ Z.of_nat fuel ->
  (0 < fuel)%nat -> parse_digits max 0 (display_go fuel n tail) = parse_digits max n tail.
Proof.
  revert n tail. induction fuel as [|fuel IH]; intros n tail Hn Hf H0; [lia|].
  cbn [display_go]. destruct (Z.ltb_spec n 10) as [Hlt|Hge].
  - cbn [parse_digits]. rewrite Z.mod_small, char_digit_char by lia. cbn [mbind option_bind].
    replace (0 * 10 + n) with n by lia. destruct (Z.leb_spec n max); [done|lia].
  - rewrite Nat2Z.inj_succ, Z.pow_succ_r in Hf by lia.
    destruct fuel as [|fuel]; [simpl in Hf; lia|].
    rewrite IH by zlia. cbn [parse_digits]. rewrite char_digit_char by zlia. cbn [mbind option_bind].
    replace (n / 10 * 10 + n mod 10) with n by zlia. destruct (Z.leb_spec n max); [done|lia].
Qed.

Lemma display_fuel n : 0 <= n -> n < 10 ^ Z.of_nat (S (Z.to_nat (Z.log2 n))).
Proof.
  intros Hn. rewrite Nat2Z.inj_succ, Z2Nat.id by apply Z.log2_nonneg.
  destruct (decide (n = 0)) as [->|]; [done|].
  pose proof (Z.log2_spec n ltac:(lia)) as [_ Hl].
  apply (Z.lt_le_trans _ _ _ Hl). apply Z.pow_le_mono_l. lia.
Qed.

Lemma display_go_digits fuel n tail :
  0 <= n -> digits_only tail -> digits_only (display_go fuel n tail).
Proof.
  revert n tail. induction fuel as [|fuel IH]; intros n tail Hn Ht; [done|]. cbn [display_go].
  assert (Hs : digits_only (String (digit_char (n mod 10)) tail)).
  { split; [|done]. rewrite char_digit_char by zlia. eauto. }
  destruct (n <? 10); [done|]. apply IH; [zlia|done].
Qed.

Lemma display_digits n : 0 <= n -> digits_only (display n).
Proof. intros. by apply display_go_digits. Qed.

Lemma display_go_nonempty fuel n tail : exists c s, display_go (S fuel) n tail = String c s.
Proof.
  revert n tail. induction fuel as [|fuel IH]; intros n tail.
  - simpl. destruct (n <? 10); eauto.
  - cbn [display_go]. destruct (n <? 10); [eauto|apply IH].
Qed.

(** Printing then parsing a number that fits its type gives it back. *)
Lemma parse_display max n : 0 <= n <= max -> parse_unsigned max (display n) = Some n.
Proof.
  intros Hn. pose proof (display_digits n ltac:(lia)) as Hd.
  assert (Hp : parse_digits max 0 (display n) = Some n).
  { unfold display. rewrite parse_display_go; [done|lia|apply display_fuel; lia|lia]. }
  destruct (display_go_nonempty (Z.to_nat (Z.log2 n)) n "") as (c & s & Hc).
  fold (display n) in Hc. rewrite Hc in *. destruct Hd as [[d Hd] _].
  assert (Hplus : c <> "+"%char) by (intros ->; discriminate Hd).
  unfold parse_unsigned. destruct c as [[] [] [] [] [] [] [] []]; done.
Qed.

(** A digit string does not contain a separator that is not a digit. *)
Lemma split_once_digits c a b :
  char_digit c = None -> digits_only a -> split_once c (a +:+ String c b) = Some (a, b).
Proof.
  intros Hc. induction a as [|x a IH]; intros Ha.
  - change ("" +:+ String c b) with (String c b). cbn [split_once]. by rewrite decide_True.
  - change (String x a +:+ String c b) with (String x (a +:+ String c b)). cbn [split_once].
    destruct Ha as [[d Hx] Ha]. rewrite decide_False by congruence. by rewrite IH.
Qed.

Lemma split_once_no c a : char_digit c = None -> digits_only a -> split_once c a = None.
Proof.
  intros Hc. induction a as [|x a IH]; intros Ha; [done|]. destruct Ha as [[d Hx] Ha].
  cbn [split_once].   rewrite decide_False by congruence. by rewrite IH.
Qed.

#[global] Opaque display.
