(* ===== verification/Json.v ===== *)
(** * JSON values

    The values [serde_json] exchanges with the program: a number is an integer
    of 64 bits ([JNumber], signed or unsigned) or a finite [f64] ([JFloat], as
    the Standard Library's [spec_float]).  The text form is [serde_json]'s own:
    the class [JsonText] stands for its parser and printer. *)

From Stdlib Require Import Floats.SpecFloat.
From stdpp Require Import strings.
From S2P Require Import Prelude.

Inductive Json :=
| JNull
| JBool (b : bool)
| JNumber (n : Z)
| JFloat (f : spec_float)
| JString (s : string)
| JArray (l : list Json)
| JObject (fields : list (string * Json)).

(** [value.get(key)]: an object's last entry for the key. *)
Definition json_get (key : string) (v : Json) : option Json :=
  match v with
  | JObject fields => snd <$> List.find (fun kv => bool_decide (fst kv = key)) (rev fields)
  | _ => None
  end.
Definition as_str (v : Json) : option string := match v with JString s => Some s | _ => None end.
Definition as_number (v : Json) : option Z := match v with JNumber n => Some n | _ => None end.
Definition as_bool (v : Json) : option bool := match v with JBool b => Some b | _ => None end.
Definition as_array (v : Json) : option (list Json) := match v with JArray l => Some l | _ => None end.
Definition as_object (v : Json) : option Json := match v with JObject _ => Some v | _ => None end.
Definition as_u64 (v : Json) : option Z :=
  match v with JNumber n => if 0 <=? n then Some n else None | _ => None end.

(** [n as f64]: rounding to nearest, ties to even. *)
Definition f64_of_int (n : Z) : spec_float := binary_normalize 53 1024 n 0 false.
Definition as_f64 (v : Json) : option spec_float :=
  match v with JNumber n => Some (f64_of_int n) | JFloat f => Some f | _ => None end.

(** [value[key] = entry]: [Null] becomes an object, any other value that is
    not an object panics. *)
Definition json_set {E} (key : string) (entry v : Json) : Result E Json :=
  match v with
  | JNull => Ok (JObject [(key, entry)])
  | JObject fields =>
    Ok (JObject (List.filter (fun kv => negb (bool_decide (fst kv = key))) fields ++ [(key, entry)]))
  | _ => Panic
  end.

(** [serde_json::from_str] (an error is its text) and [Value::to_string]. *)
Class JsonText := {
  from_str : string -> Result string Json;
  from_str_total text : from_str text <> Panic;
  json_to_string : Json -> string;
}.

Lemma json_get_set {E} key entry v v' :
  @json_set E key entry v = Ok v' -> json_get key v' = Some entry.
Proof.
  destruct v; try done; intros [= <-]; cbn; [by rewrite bool_decide_eq_true_2|].
  rewrite rev_app_distr. cbn. by rewrite bool_decide_eq_true_2.
Qed.
