(* ===== verification/Codec.v ===== *)
(** * Codecs, resolutions and frame rates ([src/src/codec.rs])

    [Framerate] values travel as the string ["n/d"]; the reader also accepts a
    plain integer. *)

From Stdlib Require Import Ascii Floats.SpecFloat.
From stdpp Require Import strings.
From S2P Require Import Prelude Text Json.

Inductive AudioCodec := Opus | Aac.
Inductive VideoCodec := H264 | Vp8 | Hevc | Vp9 | Av1.
Inductive CastMode := Mirroring | Remoting.
Inductive StreamType := Audio | Video.
#[export] Instance AudioCodec_eq_dec : EqDecision AudioCodec.
Proof. solve_decision. Defined.
#[export] Instance VideoCodec_eq_dec : EqDecision VideoCodec.
Proof. solve_decision. Defined.
#[export] Instance CastMode_eq_dec : EqDecision CastMode.
Proof. solve_decision. Defined.
#[export] Instance StreamType_eq_dec : EqDecision StreamType.
Proof. solve_decision. Defined.

Inductive InvalidResolution := MkInvalidResolution.
Inductive InvalidFramerate := MkInvalidFramerate.

Record Resolution := MkResolution { width : Z; height : Z }.
#[export] Instance Resolution_eq_dec : EqDecision Resolution.
Proof. solve_decision. Defined.

Module Resolution.
Definition new (w h : Z) : Result InvalidResolution Resolution :=
  if (w =? 0) || (h =? 0) then Err MkInvalidResolution else Ok (MkResolution w h).

(** A [u32] member of a JSON object. *)
Definition u32_member (key : string) (v : Json) : option Z :=
  n ← json_get key v ≫= as_number; if (0 <=? n) && (n <=? u32_max) then Some n else None.

(** [Deserialize]: the wire object, then [new]. *)
Definition deserialize (v : Json) : option Resolution :=
  w ← u32_member "width" v; h ← u32_member "height" v;
  match new w h with Ok r => Some r | _ => None end.
End Resolution.

Record Framerate := MkFramerate { numerator : Z; denominator : Z }.
#[export] Instance Framerate_eq_dec : EqDecision Framerate.
Proof. solve_decision. Defined.

Module Framerate.
Definition new (n d : Z) : Result InvalidFramerate Framerate :=
  if (n =? 0) || (d =? 0) then Err MkInvalidFramerate else Ok (MkFramerate n d).

(** Both casts are exact: a [u32] has fewer bits than the significand. *)
Definition as_f64 (self : Framerate) : spec_float :=
  SFdiv 53 1024 (f64_of_int (numerator self)) (f64_of_int (denominator self)).

(** The [Serialize] and [Display] form. *)
Definition serialize (self : Framerate) : string :=
  display (numerator self) +:+ "/" +:+ display (denominator self).

(** [Deserialize]; every failure is a serde error, which carries no data the
    program reads. *)
Definition deserialize (s : string) : option Framerate :=
  '(n, d) ← match split_once "/"%char s with
            | Some (n, d) =>
              n ← parse_unsigned u32_max n; d ← parse_unsigned u32_max d; Some (n, d)
            | None => n ← parse_unsigned u32_max s; Some (n, 1)
            end;
  if (n =? 0) || (d =? 0) then None else
  match new n d with Ok f => Some f | _ => None end.
End Framerate.

Module AudioCodec.
Definition rtp_payload_type (self : AudioCodec) : Z :=
  match self with Opus => 96 | Aac => 97 end.
Definition codec_name (self : AudioCodec) : string :=
  match self with Opus => "opus" | Aac => "aac" end.
End AudioCodec.

Module VideoCodec.
Definition rtp_payload_type (self : VideoCodec) : Z :=
  match self with H264 => 101 | Vp8 => 100 | Hevc => 102 | Vp9 => 103 | Av1 => 104 end.
Definition codec_name (self : VideoCodec) : string :=
  match self with H264 => "h264" | Vp8 => "vp8" | Hevc => "hevc" | Vp9 => "vp9" | Av1 => "av1" end.
End VideoCodec.

(** What [new] guarantees of a frame rate of two [u32]s. *)
Definition framerate_ok (f : Framerate) : Prop :=
  0 < numerator f <= u32_max /\ 0 < denominator f <= u32_max.

(** ** Theorems *)

Lemma parse_digits_bound max acc s n :
  0 <= acc -> parse_digits max acc s = Some n -> 0 <= n /\ (acc <= max -> n <= max).
Proof.
  revert acc. induction s as [|c s IH]; intros acc Ha H; cbn in H.
  - injection H as <-. lia.
  - destruct (char_digit c) as [d|] eqn:Hc; [|done]. cbn in H.
    assert (0 <= d) by (unfold char_digit in Hc; destruct (_ && _) eqn:Hb; [|done];
      apply andb_true_iff in Hb as [Hb _]; apply Z.leb_le in Hb; injection Hc as <-; lia).
    destruct (Z.leb_spec (acc * 10 + d) max); [|done]. apply IH in H; lia.
Qed.

Lemma parse_unsigned_bound max s n : 0 <= max -> parse_unsigned max s = Some n -> 0 <= n <= max.
Proof.
  intros Hm H. assert (Hp : exists s', parse_digits max 0 s' = Some n).
  { unfold parse_unsigned in H. destruct s as [|c s]; [done|].
    destruct c as [[] [] [] [] [] [] [] []]; eauto. destruct s; eauto; done. }
  destruct Hp as [s' Hp]. apply parse_digits_bound in Hp; lia.
Qed.

(** Frame rates survive the OFFER's string form: a valid rate printed as
    ["n/d"] reads back as itself, a plain integer reads as that rate over one,
    and whatever reads successfully is a valid rate of two nonzero [u32]s. *)
Theorem framerate_roundtrip :
  (forall f, framerate_ok f -> Framerate.deserialize (Framerate.serialize f) = Some f) /\
  (forall n, 0 < n <= u32_max -> Framerate.deserialize (display n) = Some (MkFramerate n 1)) /\
  (forall s f, Framerate.deserialize s = Some f -> framerate_ok f).
Proof.
  assert (Hnz : forall a b, (a =? 0) || (b =? 0) = false <-> a <> 0 /\ b <> 0)
    by (intros; rewrite orb_false_iff, !Z.eqb_neq; tauto).
  unfold Framerate.deserialize, Framerate.new. split_and!.
  - intros [n d] [Hn Hd]. cbn [numerator denominator] in *. unfold Framerate.serialize. cbn [numerator denominator].
    change ("/" +:+ display d) with (String "/"%char (display d)).
    rewrite split_once_digits by (done || apply display_digits; lia).
    rewrite !parse_display by lia. cbn. by rewrite (proj2 (Hnz n d)) by lia.
  - intros n Hn. rewrite split_once_no by (done || apply display_digits; lia).
    rewrite parse_display by lia. cbn. destruct (Z.eqb_spec n 0); [lia|done].
  - assert (Hm : 0 <= u32_max) by (unfold u32_max; lia). intros s f.
    destruct (split_once "/"%char s) as [[a b]|]; cbn.
    + destruct (parse_unsigned u32_max a) as [n|] eqn:Hn; [|done].
      destruct (parse_unsigned u32_max b) as [d|] eqn:Hd; [|done]. cbn.
      apply parse_unsigned_bound in Hn, Hd; [|done..].
      destruct (_ || _) eqn:Hz; [done|]. intros [= <-]. apply Hnz in Hz.
      unfold framerate_ok. cbn. lia.
    + destruct (parse_unsigned u32_max s) as [n|] eqn:Hn; [|done]. cbn.
      apply parse_unsigned_bound in Hn; [|done].
      destruct (_ || _) eqn:Hz; [done|]. intros [= <-]. apply (Hnz n 1) in Hz.
      unfold framerate_ok, u32_max in *. cbn. lia.
Qed.

Example as_f64_thirty : Framerate.as_f64 (MkFramerate 60000 2000) = f64_of_int 30.
Proof. reflexivity. Qed.

Lemma framerate_roundtrip_witness :
  Framerate.deserialize (Framerate.serialize (MkFramerate 30000 1001)) = Some (MkFramerate 30000 1001) /\
  Framerate.deserialize (display 60) = Some (MkFramerate 60 1).
Proof.
  destruct framerate_roundtrip as (H1 & H2 & _). split; [apply H1|apply H2];
    unfold framerate_ok, u32_max; cbn; lia.
Defined.
