(* ===== verification/Frame.v ===== *)
(** * Frame identifiers and encoded frames ([src/src/frame.rs])

    A [FrameId] is the [i64] it wraps; the low eight bits travel on the wire
    and the receiver's eight-bit value is expanded against a reference. *)

From S2P Require Import Prelude Time.

Abbreviation FrameId := Z.

Module FrameId.
Definition first : FrameId := 0.
Definition next (self : FrameId) : FrameId := self + 1.
Definition truncate (self : FrameId) : Z := wrap_u8 self.

Definition expand (truncated : Z) (reference : FrameId) : FrameId :=
  let delta := as_i8 (wrap_u8 (truncated - truncate reference)) in
  reference + delta.

Definition expand_lte (truncated : Z) (reference : FrameId) : FrameId :=
  let expanded := expand truncated reference in
  if reference <? expanded then expanded - 256 else expanded.

Definition lower_32 (self : FrameId) : Z := wrap_u32 self.
End FrameId.

Inductive FrameDependency := KeyFrame | Delta.
#[export] Instance FrameDependency_eq_dec : EqDecision FrameDependency.
Proof. solve_decision. Defined.

Record EncodedFrame := MkEncodedFrame {
  dependency : FrameDependency;
  data : bytes;
  media_timestamp : Duration;
  reference_time : Instant;
  duration : option Duration;
}.
#[export] Instance EncodedFrame_eta : Eta EncodedFrame := fun s =>
  MkEncodedFrame (dependency s) (data s) (media_timestamp s) (reference_time s) (duration s).

Module EncodedFrame.
Definition new (dep : FrameDependency) (d : bytes) (ts : Duration) (rt : Instant)
  : EncodedFrame := MkEncodedFrame dep d ts rt None.
Definition with_duration (self : EncodedFrame) (d : Duration) : EncodedFrame :=
  self <| duration := Some d |>.
End EncodedFrame.

(** ** Lemmas *)

Lemma truncate_bound id : is_byte (FrameId.truncate id).
Proof. apply wrap_u8_byte. Qed.

(** [expand] stays within half a byte's span of the reference and keeps the
    wire value. *)
Lemma expand_spec t r :
  is_byte t ->
  -128 <= FrameId.expand t r - r < 128 /\ FrameId.truncate (FrameId.expand t r) = t.
Proof.
  unfold is_byte, FrameId.expand, FrameId.truncate, as_i8. unwrap. cbv zeta.
  intros H. change (2 ^ 8) with 256.
  destruct (Z.ltb_spec ((t - r mod 256) mod 256) 128); zlia.
Qed.

Lemma expand_unique t r id :
  is_byte t -> FrameId.truncate id = t -> -128 <= id - r < 128 -> FrameId.expand t r = id.
Proof.
  intros Ht Hid Hr. destruct (expand_spec t r Ht) as [Hb He].
  rewrite <- He in Hid. revert Hid. unfold FrameId.truncate, wrap_u8.
  change (2 ^ 8) with 256. zlia.
Qed.

Lemma expand_lte_spec t r :
  is_byte t ->
  r - 256 < FrameId.expand_lte t r <= r /\ FrameId.truncate (FrameId.expand_lte t r) = t.
Proof.
  intros Ht. destruct (expand_spec t r Ht) as [Hb He].
  unfold FrameId.expand_lte. cbv zeta.
  destruct (Z.ltb_spec r (FrameId.expand t r)); split; try lia.
  unfold FrameId.truncate, wrap_u8 in *. rewrite <- He at 2.
  change (2 ^ 8) with 256 in *. zlia.
Qed.
#[export] Hint Resolve truncate_bound : cast.

(** A full frame id survives the trip through its eight-bit wire form: a
    NACK id within 128 of the checkpoint is recovered by [expand], and a
    checkpoint id at most 255 behind the newest frame by [expand_lte]. *)
Theorem frame_id_wire_roundtrip id r :
  (-128 <= id - r < 128 -> FrameId.expand (FrameId.truncate id) r = id) /\
  (r - 256 < id <= r -> FrameId.expand_lte (FrameId.truncate id) r = id).
Proof.
  split; intros H.
  - by apply expand_unique; auto with cast.
  - destruct (expand_lte_spec (FrameId.truncate id) r ltac:(auto with cast)) as [Hb He].
    set (e := FrameId.expand_lte _ _) in *. clearbody e.
    revert He. unfold FrameId.truncate, wrap_u8. change (2 ^ 8) with 256. zlia.
Qed.

Lemma frame_id_wire_roundtrip_witness :
  FrameId.expand (FrameId.truncate 300) 290 = 300 /\ FrameId.expand_lte (FrameId.truncate 300) 310 = 300.
Proof.
  split; [apply (proj1 (frame_id_wire_roundtrip 300 290)); lia|
          apply (proj2 (frame_id_wire_roundtrip 300 310)); lia].
Defined.
