(* ===== verification/SyncSource.v ===== *)
(** * Synchronisation-source ranges ([src/src/sync_source.rs])

    The generators draw from [rand::thread_rng()]: the class [Rng] stands for
    the generator's state and draws, [RngLaws] for what [rand] documents (a
    draw lies in its inclusive range, [fill_bytes] fills the buffer). *)

From S2P Require Import Prelude Constants.

Abbreviation SyncSource := Z.

(** [gen_range r lo hi] is [gen_range(lo..=hi)] and [fill_bytes r n] fills an
    [n]-byte array. *)
Class Rng (R : Type) := {
  gen_range : R -> Z -> Z -> R * Z;
  fill_bytes : R -> nat -> R * bytes;
}.

Class RngLaws (R : Type) `{Rng R} : Prop := {
  gen_range_in r lo hi : lo <= hi -> lo <= snd (gen_range r lo hi) <= hi;
  fill_bytes_length r n : length (snd (fill_bytes r n)) = n;
  fill_bytes_ok r n : bytes_ok (snd (fill_bytes r n));
}.

(** A counter as a generator, for the witnesses. *)
#[export] Instance counter_rng : Rng Z := {
  gen_range r lo hi := (r + 1, lo + r mod (hi - lo + 1));
  fill_bytes r n := (r + 1, replicate n (r mod 256));
}.

Definition generate_audio {R} `{Rng R} (r : R) : R * SyncSource :=
  gen_range r MINIMUM_AUDIO_SYNC_SOURCE MAXIMUM_AUDIO_SYNC_SOURCE.

Definition generate_video {R} `{Rng R} (r : R) : R * SyncSource :=
  gen_range r MINIMUM_VIDEO_SYNC_SOURCE MAXIMUM_VIDEO_SYNC_SOURCE.

Definition is_audio (sync_source : SyncSource) : bool :=
  (MINIMUM_AUDIO_SYNC_SOURCE <=? sync_source) && (sync_source <=? MAXIMUM_AUDIO_SYNC_SOURCE).

(** ** Lemmas *)

#[export] Instance counter_rng_laws : RngLaws Z.
Proof.
  split.
  - intros r lo hi H. cbn. pose proof (Z.mod_pos_bound r (hi - lo + 1)). lia.
  - intros r n. apply length_replicate.
  - intros r n. apply Forall_replicate. cbn. pose proof (Z.mod_pos_bound r 256). unfold is_byte. lia.
Qed.

(** The two ranges are told apart by [is_audio], so an audio and a video
    stream never share a sender SSRC, whatever the generator draws. *)
Lemma generated_sources {R} `{RngLaws R} r r' :
  let a := snd (generate_audio r) in let v := snd (generate_video r') in
  0 < a < 2 ^ 32 /\ 0 < v < 2 ^ 32 /\ is_audio a = true /\ is_audio v = false.
Proof.
  pose proof (gen_range_in r MINIMUM_AUDIO_SYNC_SOURCE MAXIMUM_AUDIO_SYNC_SOURCE) as Ha.
  pose proof (gen_range_in r' MINIMUM_VIDEO_SYNC_SOURCE MAXIMUM_VIDEO_SYNC_SOURCE) as Hv.
  unfold generate_audio, generate_video, is_audio, MINIMUM_AUDIO_SYNC_SOURCE,
    MAXIMUM_AUDIO_SYNC_SOURCE, MINIMUM_VIDEO_SYNC_SOURCE, MAXIMUM_VIDEO_SYNC_SOURCE in *.
  cbv zeta. rewrite andb_true_iff, andb_false_iff, !Z.leb_le, !Z.leb_gt. lia.
Qed.
