(* ===== verification/Crypto.v ===== *)
(** * Frame encryption ([src/src/crypto.rs])

    AES-128-CTR comes from the [aes] and [ctr] crates: the class
    [StreamCipher] stands for [Ctr128BE::<Aes128>::new(key, nonce)] followed
    by [apply_keystream], and [StreamCipherLaws] for what those crates
    document (the keystream is xored in place, so the length is kept and a
    second application with the same key and nonce undoes the first). *)

From S2P Require Import Prelude Frame SyncSource.

Class StreamCipher := apply_keystream : bytes -> bytes -> bytes -> bytes.

Class StreamCipherLaws `{StreamCipher} : Prop := {
  apply_keystream_length key nonce d :
    length (apply_keystream key nonce d) = length d;
  apply_keystream_ok key nonce d :
    bytes_ok d -> bytes_ok (apply_keystream key nonce d);
  apply_keystream_involutive key nonce d :
    bytes_ok d -> apply_keystream key nonce (apply_keystream key nonce d) = d;
}.

Record FrameCrypto := MkFrameCrypto {
  key : bytes;
  iv_mask : bytes;
}.

Module FrameCrypto.
Definition new (k mask : bytes) : FrameCrypto := MkFrameCrypto k mask.

Definition build_nonce (self : FrameCrypto) (frame_id : FrameId) : bytes :=
  let nonce := replicate 8 0 ++ to_be 4 (FrameId.lower_32 frame_id) ++ replicate 4 0 in
  zip_with Z.lxor nonce (iv_mask self).

Definition encrypt `{StreamCipher} (self : FrameCrypto) (frame_id : FrameId) (d : bytes) : bytes :=
  apply_keystream (key self) (build_nonce self frame_id) d.

Definition decrypt `{StreamCipher} (self : FrameCrypto) (frame_id : FrameId) (d : bytes) : bytes :=
  encrypt self frame_id d.
End FrameCrypto.

(** [generate_key] and [generate_iv_mask] fill a 16-byte array from the
    thread generator. *)
Definition generate_key {R} `{Rng R} (r : R) : R * bytes := fill_bytes r 16.
Definition generate_iv_mask {R} `{Rng R} (r : R) : R * bytes := fill_bytes r 16.

(** A well-formed context has the array sizes of the Rust type. *)
Definition crypto_ok (c : FrameCrypto) : Prop :=
  length (key c) = 16%nat /\ length (iv_mask c) = 16%nat /\
  bytes_ok (key c) /\ bytes_ok (iv_mask c).

(** A toy cipher that satisfies the laws: xor with one byte drawn from the
    key and the nonce. *)
Definition xor_cipher : StreamCipher := fun k nonce d =>
  let b := Z.lxor (wrap_u8 (nth 0 k 0)) (wrap_u8 (nth 11 nonce 0)) in
  map (fun x => Z.lxor x b) d.

(** ** Lemmas *)

Lemma lxor_byte a b : is_byte a -> is_byte b -> is_byte (Z.lxor a b).
Proof.
  intros Ha Hb. unfold is_byte in *. split; [apply Z.lxor_nonneg; lia|].
  assert (Hx : Z.lxor a b = Z.lxor a b mod 2 ^ 8).
  { rewrite <- Z.land_ones by lia. apply Z.bits_inj'. intros i Hi.
    rewrite Z.land_spec, Z.lxor_spec.
    destruct (Z.lt_ge_cases i 8).
    - rewrite Z.ones_spec_low by lia. by rewrite andb_true_r.
    - rewrite <- (Z.mod_small a (2 ^ 8)), <- (Z.mod_small b (2 ^ 8)) by lia.
      rewrite !Z.mod_pow2_bits_high by lia. done. }
  rewrite Hx. apply Z.mod_pos_bound. lia.
Qed.

Lemma lxor_cancel_r a b : Z.lxor (Z.lxor a b) b = a.
Proof. by rewrite Z.lxor_assoc, Z.lxor_nilpotent, Z.lxor_0_r. Qed.

#[export] Instance xor_cipher_laws : @StreamCipherLaws xor_cipher.
Proof.
  assert (Hb : forall k n, is_byte (Z.lxor (wrap_u8 (nth 0 k 0)) (wrap_u8 (nth 11 n 0))))
    by (intros; apply lxor_byte; auto with cast).
  split; intros k n d; unfold apply_keystream, xor_cipher.
  - by rewrite length_map.
  - intros Hd. apply Forall_map. eapply Forall_impl; [|exact Hd].
    intros x Hx. simpl. by apply lxor_byte.
  - intros _. rewrite map_map. rewrite <- (map_id d) at 2.
    apply map_ext. intros. apply lxor_cancel_r.
Qed.

Lemma zip_with_lxor_inj (m a b : bytes) :
  length a = length m -> length b = length m ->
  zip_with Z.lxor a m = zip_with Z.lxor b m -> a = b.
Proof.
  revert a b. induction m as [|x m IH]; intros [|y a] [|z b]; simpl; try lia; auto.
  intros Ha Hb [= H1 H2]. f_equal; [|apply IH; auto with lia].
  rewrite <- (lxor_cancel_r y x), <- (lxor_cancel_r z x). by f_equal.
Qed.

Lemma length_build_nonce c id :
  crypto_ok c -> length (FrameCrypto.build_nonce c id) = 16%nat.
Proof.
  intros (_ & Hm & _). unfold FrameCrypto.build_nonce. cbv zeta.
  rewrite length_zip_with, !length_app, !length_replicate, length_to_be, Hm. done.
Qed.

(** Counter-mode nonces are never reused within a stream: two distinct
    frames whose ids are less than 2^32 apart get different nonces. *)
Theorem nonce_unique c id1 id2 :
  crypto_ok c -> id1 <> id2 -> Z.abs (id1 - id2) < 2 ^ 32 ->
  FrameCrypto.build_nonce c id1 <> FrameCrypto.build_nonce c id2.
Proof.
  intros (_ & Hm & _) Hne Hd Heq. apply Hne.
  apply zip_with_lxor_inj in Heq; [|by rewrite Hm..].
  apply app_inv_head, app_inv_tail, (f_equal from_be) in Heq.
  rewrite !from_be_to_be_small in Heq
    by (unfold FrameId.lower_32, wrap_u32; apply Z.mod_pos_bound; lia).
  unfold FrameId.lower_32, wrap_u32 in Heq. zlia.
Qed.

Lemma nonce_unique_witness :
  FrameCrypto.build_nonce (MkFrameCrypto (replicate 16 0) (replicate 16 255)) 0 <>
  FrameCrypto.build_nonce (MkFrameCrypto (replicate 16 0) (replicate 16 255)) 256.
Proof.
  apply nonce_unique; [|lia|vm_compute; reflexivity].
  repeat split; try reflexivity; apply Forall_replicate; unfold is_byte; lia.
Defined.

(** Encryption keeps the length of a frame and is undone by decryption with
    the same frame id. *)
Lemma encrypt_decrypt `{StreamCipherLaws} c id d :
  bytes_ok d ->
  FrameCrypto.decrypt c id (FrameCrypto.encrypt c id d) = d /\
  length (FrameCrypto.encrypt c id d) = length d.
Proof.
  intros Hd. unfold FrameCrypto.decrypt, FrameCrypto.encrypt. split.
  - by apply apply_keystream_involutive.
  - apply apply_keystream_length.
Qed.
