(* ===== verification/Rtp.v ===== *)
(** * RTP packetisation ([src/src/rtp.rs])

    [packetize] is the loop of the source; [view] is a reference receiver that
    reads the header fields back, against which the packet layout is stated. *)

From S2P Require Import Prelude Constants Time Frame SyncSource.

Record RtpPacket := MkRtpPacket { packet_data : bytes }.

Record RtpPacketizer := MkRtpPacketizer {
  sync_source : SyncSource;
  payload_type : Z;
  sequence_number : Z;
  max_payload_size : Z;
}.
#[export] Instance RtpPacketizer_eta : Eta RtpPacketizer := fun s =>
  MkRtpPacketizer (sync_source s) (payload_type s) (sequence_number s) (max_payload_size s).

Module RtpPacketizer.
(** The initial sequence number is [rand::thread_rng().gen()]. *)
Definition new (ssrc : SyncSource) (pt : Z) (max_packet_size : Z) (random_u16 : Z)
  : RtpPacketizer :=
  MkRtpPacketizer ssrc pt random_u16 (saturating_sub max_packet_size RTP_MAX_HEADER_SIZE).

(** The fields written before the payload; the buffer calls of the loop body
    in order. *)
Definition header (self : RtpPacketizer) (frame_id : FrameId) (is_key_frame : bool)
    (referenced_frame_id : FrameId) (rtp_timestamp : Z) (new_playout_delay : option Duration)
    (packet_id max_packet_id : Z) (is_last : bool) : bytes :=
  let include_ext := (packet_id =? 0) && bool_decide (is_Some new_playout_delay) in
  let ext_count := if include_ext then 1 else 0 in
  let marker_and_payload_type :=
    Z.lor (if is_last then 0x80 else 0x00) (Z.land (payload_type self) 0x7F) in
  let cast_byte := Z.land ext_count 0x3F in
  let cast_byte := if is_key_frame then Z.lor cast_byte 0x80 else cast_byte in
  let cast_byte := Z.lor cast_byte 0x40 in
  let ext_header := Z.lor (Z.shiftl 1 10) 2 in
  [RTP_REQUIRED_FIRST_BYTE; marker_and_payload_type]
  ++ to_be 2 (sequence_number self)
  ++ to_be 4 rtp_timestamp
  ++ to_be 4 (sync_source self)
  ++ [cast_byte; FrameId.truncate frame_id]
  ++ to_be 2 (wrap_u16 packet_id)
  ++ to_be 2 max_packet_id
  ++ [FrameId.truncate referenced_frame_id]
  ++ (if include_ext
      then to_be 2 ext_header
           ++ to_be 2 (wrap_u16 (as_millis (default 0 new_playout_delay)))
      else []).

(** One iteration of the packet loop. *)
Definition packetize_one {E} (self : RtpPacketizer) (frame_id : FrameId) (is_key_frame : bool)
    (referenced_frame_id : FrameId) (rtp_timestamp : Z) (new_playout_delay : option Duration)
    (payload : bytes) (num_packets packet_id : Z) : Result E (RtpPacket * RtpPacketizer) :=
  let max_packet_id := wrap_u16 (num_packets - 1) in
  let offset := packet_id * max_payload_size self in
  let end_ := Z.min (offset + max_payload_size self) (Z.of_nat (length payload)) in
  let? chunk := slice payload (Z.to_nat offset) (Z.to_nat end_) in
  let is_last := packet_id =? num_packets - 1 in
  let buf := header self frame_id is_key_frame referenced_frame_id rtp_timestamp
               new_playout_delay packet_id max_packet_id is_last ++ chunk in
  Ok (MkRtpPacket buf, self <| sequence_number := wrap_u16 (sequence_number self + 1) |>).

(** [for packet_id in packet_id .. packet_id + n]. *)
Fixpoint packetize_loop {E} (n : nat) (packet_id : Z) (self : RtpPacketizer) (frame_id : FrameId)
    (is_key_frame : bool) (referenced_frame_id : FrameId) (rtp_timestamp : Z)
    (new_playout_delay : option Duration) (payload : bytes) (num_packets : Z)
    : Result E (list RtpPacket * RtpPacketizer) :=
  match n with
  | O => Ok ([], self)
  | S n' =>
    let? (pkt, self') := packetize_one self frame_id is_key_frame referenced_frame_id
                           rtp_timestamp new_playout_delay payload num_packets packet_id in
    let? (pkts, self'') := packetize_loop n' (packet_id + 1) self' frame_id is_key_frame
                             referenced_frame_id rtp_timestamp new_playout_delay payload
                             num_packets in
    Ok (pkt :: pkts, self'')
  end.

Definition packetize {E} (self : RtpPacketizer) (frame_id : FrameId) (is_key_frame : bool)
    (referenced_frame_id : FrameId) (rtp_timestamp : Z) (new_playout_delay : option Duration)
    (payload : bytes) : Result E (list RtpPacket * RtpPacketizer) :=
  let? num_packets :=
    match payload with
    | [] => Ok 1
    | _ => if max_payload_size self =? 0 then Panic (* division by zero *)
           else Ok (div_ceil (Z.of_nat (length payload)) (max_payload_size self))
    end in
  packetize_loop (Z.to_nat num_packets) 0 self frame_id is_key_frame referenced_frame_id
    rtp_timestamp new_playout_delay payload num_packets.
End RtpPacketizer.

Inductive PacketType := Rtp (ssrc : SyncSource) | Rtcp (ssrc : SyncSource) | Unknown.
#[export] Instance PacketType_eq_dec : EqDecision PacketType.
Proof. solve_decision. Defined.

Definition classify_packet {E} (data : bytes) : Result E PacketType :=
  let len := length data in
  if (len <? 8)%nat then Ok Unknown else
  let? first_byte := index data 0 in
  let? second_byte := index data 1 in
  let pt := Z.land second_byte 0x7F in
  if (first_byte =? RTP_REQUIRED_FIRST_BYTE) && ((96 <=? pt) && (pt <=? 127) && (12 <=? len)%nat)
  then
    let? ssrc := slice data 8 12 in Ok (Rtp (from_be ssrc))
  else if (Z.land first_byte 0xC0 =? 0x80)
       && ((200 <=? second_byte) && (second_byte <=? 207) && (8 <=? len)%nat)
  then
    let? ssrc := slice data 4 8 in Ok (Rtcp (from_be ssrc))
  else Ok Unknown.

(** ** The reference receiver *)

Record RtpView := MkView {
  v_marker : bool; v_payload_type : Z; v_sequence : Z; v_timestamp : Z; v_ssrc : Z;
  v_key_frame : bool; v_frame : Z; v_packet_id : Z; v_max_packet_id : Z; v_reference : Z;
  v_playout_delay : option Z; v_payload : bytes;
}.

Definition view (d : bytes) : option RtpView :=
  let u8 (i : nat) := nth i d 0 in
  let be (i n : nat) := from_be (take n (drop i d)) in
  if (length d <? 19)%nat then None else
  let ext := Z.land (u8 12%nat) 0x3F in
  Some (MkView (Z.testbit (u8 1%nat) 7) (Z.land (u8 1%nat) 0x7F) (be 2 2)%nat (be 4 4)%nat (be 8 4)%nat
          (Z.testbit (u8 12%nat) 7) (u8 13%nat) (be 14 2)%nat (be 16 2)%nat (u8 18%nat)
          (if ext =? 1 then Some (be 21 2)%nat else None)
          (drop (19 + 4 * Z.to_nat ext) d)).

(** What the receiver should read from packet [i] of a frame cut into
    [n] packets. *)
Definition expected_view (p : RtpPacketizer) (frame_id : FrameId) (key_frame : bool)
    (reference : FrameId) (ts : Z) (delay : option Duration) (payload : bytes)
    (n i : nat) : RtpView :=
  let m := Z.to_nat (max_payload_size p) in
  MkView (bool_decide (i = n - 1)%nat) (payload_type p)
    (wrap_u16 (sequence_number p + Z.of_nat i)) ts (sync_source p)
    key_frame (FrameId.truncate frame_id) (wrap_u16 (Z.of_nat i)) (wrap_u16 (Z.of_nat n - 1))
    (FrameId.truncate reference)
    (if decide (i = 0)%nat then (fun d => wrap_u16 (as_millis d)) <$> delay else None)
    (take m (drop (i * m) payload)).

(** The field widths of the Rust types. *)
Definition packetizer_ok (p : RtpPacketizer) : Prop :=
  0 <= sync_source p < 2 ^ 32 /\ 0 <= payload_type p < 128 /\
  0 <= sequence_number p < 2 ^ 16 /\ 0 < max_payload_size p.

(** The number of packets a payload needs. *)
Definition packet_count (p : RtpPacketizer) (payload : bytes) : nat :=
  match payload with
  | [] => 1%nat
  | _ => Z.to_nat (div_ceil (Z.of_nat (length payload)) (max_payload_size p))
  end.

(** ** Lemmas *)

Lemma from_be_2 v : from_be [Z.land (Z.shiftr v 8) 255; Z.land (Z.shiftr v 0) 255] = v mod 2 ^ 16.
Proof. exact (from_be_to_be 2 v). Qed.

Lemma from_be_4 v :
  from_be [Z.land (Z.shiftr v 24) 255; Z.land (Z.shiftr v 16) 255;
           Z.land (Z.shiftr v 8) 255; Z.land (Z.shiftr v 0) 255] = v mod 2 ^ 32.
Proof. exact (from_be_to_be 4 v). Qed.

(** The marker bit and the payload type share the second byte. *)
Lemma marker_byte (b : bool) pt :
  0 <= pt < 128 ->
  let x := Z.lor (if b then 0x80 else 0x00) (Z.land pt 0x7F) in
  Z.testbit x 7 = b /\ Z.land x 0x7F = pt.
Proof.
  intros H. cbv zeta. change 0x7F with (Z.ones 7). rewrite !Z.land_ones by lia.
  change (2 ^ 7) with 128. rewrite (Z.mod_small pt) by lia.
  assert (Hx : Z.lor (if b then 0x80 else 0) pt = (if b then 1 else 0) * 2 ^ 7 + pt).
  { destruct b; [apply (lor_add_disjoint 1 pt 7)|apply (lor_add_disjoint 0 pt 7)]; lia. }
  rewrite Hx. rewrite Z.testbit_eqb by lia. change (2 ^ 7) with 128.
  destruct b; split; zlia.
Qed.

Lemma div_ceil_pos a b : 0 < a -> 0 < b -> 0 < div_ceil a b.
Proof.
  intros. unfold div_ceil. pose proof (Z.div_mod a b ltac:(lia)).
  pose proof (Z.mod_pos_bound a b ltac:(lia)). pose proof (Z.div_pos a b ltac:(lia) ltac:(lia)).
  destruct (Z.ltb_spec 0 (a mod b)); nia.
Qed.

(** [div_ceil a b] is the least count of [b]-sized pieces that covers [a]. *)
Lemma div_ceil_spec a b :
  0 <= a -> 0 < b -> (div_ceil a b - 1) * b < a \/ a = 0 /\ div_ceil a b = 0.
Proof.
  intros. unfold div_ceil. pose proof (Z.div_mod a b ltac:(lia)).
  pose proof (Z.mod_pos_bound a b ltac:(lia)).
  destruct (Z.ltb_spec 0 (a mod b)); nia.
Qed.

Lemma div_ceil_cover a b : 0 <= a -> 0 < b -> a <= div_ceil a b * b.
Proof.
  intros. unfold div_ceil. pose proof (Z.div_mod a b ltac:(lia)).
  pose proof (Z.mod_pos_bound a b ltac:(lia)).
  destruct (Z.ltb_spec 0 (a mod b)); nia.
Qed.

(** Consecutive chunks of a list concatenate to the list. *)
Lemma concat_chunks {A} (l : list A) (m n i : nat) :
  (length l <= (i + n) * m)%nat ->
  concat (map (fun j => take m (drop (j * m) l)) (seq i n)) = drop (i * m) l.
Proof.
  revert i. induction n as [|n IH]; intros i Hl; simpl.
  - rewrite drop_ge; [done|lia].
  - rewrite (IH (S i)) by lia.
    replace (S i * m)%nat with (i * m + m)%nat by lia.
    rewrite <- drop_drop. apply take_drop.
Qed.

Section Packetize.
Context (p : RtpPacketizer) (fid : FrameId) (key_frame : bool) (ref : FrameId) (ts : Z)
  (delay : option Duration) (payload : bytes).

(** Packet [i] of [N], as a function of the packetizer the frame started with. *)
Definition packet_at (N i : nat) : bytes :=
  RtpPacketizer.header (p <| sequence_number := wrap_u16 (sequence_number p + Z.of_nat i) |>)
    fid key_frame ref ts delay (Z.of_nat i) (wrap_u16 (Z.of_nat N - 1))
    (Z.of_nat i =? Z.of_nat N - 1)
  ++ take (Z.to_nat (max_payload_size p)) (drop (i * Z.to_nat (max_payload_size p)) payload).

Lemma packet_count_pos : packetizer_ok p -> (0 < packet_count p payload)%nat.
Proof.
  intros (_ & _ & _ & Hm). unfold packet_count. destruct payload as [|x l]; [lia|].
  pose proof (div_ceil_pos (Z.of_nat (length (x :: l))) (max_payload_size p)).
  simpl length in *. lia.
Qed.

Lemma packet_count_cover :
  packetizer_ok p ->
  (length payload <= packet_count p payload * Z.to_nat (max_payload_size p))%nat /\
  ((packet_count p payload - 1) * Z.to_nat (max_payload_size p) <= length payload)%nat.
Proof.
  intros (_ & _ & _ & Hm). unfold packet_count. destruct payload as [|x l]; [simpl; lia|].
  set (a := Z.of_nat (length (x :: l))).
  assert (Ha : 0 < a) by (subst a; simpl length; lia).
  pose proof (div_ceil_cover a (max_payload_size p) ltac:(lia) Hm).
  pose proof (div_ceil_pos a (max_payload_size p) Ha Hm).
  destruct (div_ceil_spec a (max_payload_size p) ltac:(lia) Hm) as [Hs|[? ?]]; [|lia].
  assert (length (x :: l) = Z.to_nat a) as -> by lia. clearbody a. nia.
Qed.

Lemma packetize_one_spec {E} (N i : nat) :
  packetizer_ok p -> (i * Z.to_nat (max_payload_size p) <= length payload)%nat ->
  @RtpPacketizer.packetize_one E
    (p <| sequence_number := wrap_u16 (sequence_number p + Z.of_nat i) |>)
    fid key_frame ref ts delay payload (Z.of_nat N) (Z.of_nat i)
  = Ok (MkRtpPacket (packet_at N i),
        p <| sequence_number := wrap_u16 (sequence_number p + Z.of_nat (S i)) |>).
Proof.
  intros (_ & _ & _ & Hm) Hi. unfold RtpPacketizer.packetize_one. cbn [max_payload_size update].
  set (m := max_payload_size p) in *.
  assert (Ho : Z.to_nat (Z.of_nat i * m) = (i * Z.to_nat m)%nat) by lia.
  rewrite slice_Ok by lia. cbn [bind]. rewrite Ho. f_equal. f_equal; [f_equal|].
  - unfold packet_at. f_equal. fold m.
    destruct (Z.min_spec (Z.of_nat i * m + m) (Z.of_nat (length payload))) as [[? ->]|[? ->]].
    + f_equal. lia.
    + rewrite !take_ge; [done|rewrite length_drop; lia..].
  - cbn [update sequence_number RtpPacketizer_eta sync_source payload_type].
    unfold wrap_u16. rewrite Zplus_mod_idemp_l.
    by replace (sequence_number p + Z.of_nat i + 1)
      with (sequence_number p + Z.of_nat (S i)) by lia.
Qed.

Lemma packetize_loop_spec {E} (N n i : nat) :
  packetizer_ok p -> (i + n <= N)%nat ->
  ((N - 1) * Z.to_nat (max_payload_size p) <= length payload)%nat ->
  @RtpPacketizer.packetize_loop E n (Z.of_nat i)
    (p <| sequence_number := wrap_u16 (sequence_number p + Z.of_nat i) |>)
    fid key_frame ref ts delay payload (Z.of_nat N)
  = Ok (map (fun j => MkRtpPacket (packet_at N j)) (seq i n),
        p <| sequence_number := wrap_u16 (sequence_number p + Z.of_nat (i + n)) |>).
Proof.
  intros Hp. revert i. induction n as [|n IH]; intros i Hi Hl.
  - simpl. by rewrite Nat.add_0_r.
  - cbn [RtpPacketizer.packetize_loop]. rewrite packetize_one_spec by (done || nia).
    cbn [bind]. replace (Z.of_nat i + 1) with (Z.of_nat (S i)) by lia.
    rewrite IH by lia. cbn [bind seq map].
    by replace (S i + n)%nat with (i + S n)%nat by lia.
Qed.

(** [packetize] does not panic, and its packets are [packet_at 0 ..]. *)
Lemma packetize_spec {E} :
  packetizer_ok p ->
  let N := packet_count p payload in
  @RtpPacketizer.packetize E p fid key_frame ref ts delay payload
  = Ok (map (fun j => MkRtpPacket (packet_at N j)) (seq 0 N),
        p <| sequence_number := wrap_u16 (sequence_number p + Z.of_nat N) |>).
Proof.
  intros Hp. cbv zeta. pose proof (packet_count_pos Hp).
  pose proof (packet_count_cover Hp) as [_ Hc].
  assert (Hs : p = p <| sequence_number := wrap_u16 (sequence_number p + Z.of_nat 0) |>).
  { destruct p as [? ? s ?], Hp as (_ & _ & Hs & _). cbn in *. f_equal.
    unfold wrap_u16. rewrite Z.add_0_r, Z.mod_small; done. }
  unfold RtpPacketizer.packetize.
  assert (Hn : match payload with
    | [] => Ok 1
    | _ => if max_payload_size p =? 0 then Panic
           else Ok (div_ceil (Z.of_nat (length payload)) (max_payload_size p))
    end = @Ok E Z (Z.of_nat (packet_count p payload))).
  { unfold packet_count in *. destruct payload as [|x l]; [done|].
    destruct Hp as (_ & _ & _ & Hm). destruct (Z.eqb_spec (max_payload_size p) 0); [lia|].
    f_equal. lia. }
  rewrite Hn. cbn [bind]. rewrite Nat2Z.id.
  pose proof (packetize_loop_spec (E:=E) (packet_count p payload) (packet_count p payload) 0
                Hp ltac:(lia) Hc) as Hloop.
  rewrite <- Hs in Hloop. exact Hloop.
Qed.

Lemma length_header s i mx l :
  length (RtpPacketizer.header s fid key_frame ref ts delay i mx l) =
    if (i =? 0) && bool_decide (is_Some delay) then 23%nat else 19%nat.
Proof.
  unfold RtpPacketizer.header. cbv zeta.
  destruct ((i =? 0) && bool_decide (is_Some delay)); reflexivity.
Qed.

Lemma packet_at_view (N i : nat) :
  packetizer_ok p -> 0 <= ts < 2 ^ 32 -> (0 < N)%nat ->
  view (packet_at N i) = Some (expected_view p fid key_frame ref ts delay payload N i).
Proof.
  intros (Hs & Hpt & Hq & Hm) Hts HN.
  unfold packet_at, RtpPacketizer.header, expected_view. cbv zeta. cbn [sync_source payload_type sequence_number update].
  set (m := Z.to_nat (max_payload_size p)). set (c := take m (drop (i * m) payload)).
  destruct (marker_byte (Z.of_nat i =? Z.of_nat N - 1) (payload_type p) Hpt) as [Hmk Hpt'].
  assert (Hl : bool_decide (i = N - 1)%nat = (Z.of_nat i =? Z.of_nat N - 1)).
  { destruct (Z.eqb_spec (Z.of_nat i) (Z.of_nat N - 1)); case_bool_decide; lia. }
  rewrite Hl. set (b := Z.of_nat i =? Z.of_nat N - 1) in *. clearbody b c.
  set (mb := Z.lor _ _) in *. clearbody mb.
  destruct (Z.eqb_spec (Z.of_nat i) 0), (decide (i = 0)%nat); try lia;
    destruct delay as [d|]; destruct key_frame; cbn -[Z.testbit from_be wrap_u16 FrameId.truncate Z.modulo];
    unfold view; cbn -[Z.testbit from_be wrap_u16 FrameId.truncate Z.modulo Z.shiftr];
    rewrite ?from_be_2, ?from_be_4, ?Hmk, ?Hpt';
    unfold wrap_u16; rewrite ?Zmod_mod, ?(Z.mod_small ts), ?(Z.mod_small (sync_source p)) by lia;
    done.
Qed.

End Packetize.

(** Packetisation is total and lossless: a well-formed packetizer never
    panics, produces [packet_count] packets, and a receiver reading packet [i]
    finds the marker only on the last packet, consecutive wrapping sequence
    numbers, the frame, reference, packet and maximum-packet ids, the playout
    delay on the first packet only, and chunk [i] of the payload. *)
Theorem packetize_view {E} p fid key_frame ref ts delay payload :
  packetizer_ok p -> 0 <= ts < 2 ^ 32 ->
  let N := packet_count p payload in
  exists pkts,
    @RtpPacketizer.packetize E p fid key_frame ref ts delay payload
      = Ok (pkts, p <| sequence_number := wrap_u16 (sequence_number p + Z.of_nat N) |>) /\
    map (fun k => view (packet_data k)) pkts =
      map (fun i => Some (expected_view p fid key_frame ref ts delay payload N i)) (seq 0 N).
Proof.
  intros Hp Hts N. eexists. split; [by apply packetize_spec|].
  rewrite map_map. apply map_ext. intros i. simpl.
  apply packet_at_view; auto. by apply packet_count_pos.
Qed.

Lemma packetize_view_witness :
  exists pkts,
    @RtpPacketizer.packetize False (MkRtpPacketizer 12345 101 65535 10) 5 true 4 90000
      (Some (millis 500)) (seqZ 0 23) = Ok (pkts, MkRtpPacketizer 12345 101 2 10) /\
    map (fun k => view (packet_data k)) pkts =
      map (fun i => Some (expected_view (MkRtpPacketizer 12345 101 65535 10) 5 true 4 90000
                            (Some (millis 500)) (seqZ 0 23) 3 i)) (seq 0 3).
Proof.
  apply (@packetize_view False (MkRtpPacketizer 12345 101 65535 10)).
  - unfold packetizer_ok; simpl; lia.
  - lia.
Defined.

(** C27: reassembly: dropping each packet's header and extension and
    concatenating gives back the frame. *)
Theorem packetize_reassemble {E} p fid key_frame ref ts delay payload pkts p' :
  packetizer_ok p -> 0 <= ts < 2 ^ 32 ->
  @RtpPacketizer.packetize E p fid key_frame ref ts delay payload = Ok (pkts, p') ->
  concat (map (fun k => from_option v_payload [] (view (packet_data k))) pkts) = payload.
Proof.
  intros Hp Hts Hr. rewrite (packetize_spec p) in Hr by done. injection Hr as <- _.
  rewrite map_map. set (N := packet_count p payload).
  rewrite (map_ext _ (fun i => take (Z.to_nat (max_payload_size p))
                                 (drop (i * Z.to_nat (max_payload_size p)) payload))).
  - rewrite concat_chunks; [done|]. pose proof (packet_count_cover p payload Hp). subst N. lia.
  - intros i. cbn [packet_data]. rewrite packet_at_view by (done || by apply packet_count_pos). done.
Qed.

Lemma packetize_reassemble_witness :
  exists pkts p',
    @RtpPacketizer.packetize False (MkRtpPacketizer 1 96 0 4) 0 true 0 7 None (seqZ 0 9) = Ok (pkts, p') /\
    concat (map (fun k => from_option v_payload [] (view (packet_data k))) pkts) = seqZ 0 9.
Proof.
  eexists _, _. split; [reflexivity|].
  apply (@packetize_reassemble False (MkRtpPacketizer 1 96 0 4) 0 true 0 7 None (seqZ 0 9) _
           (MkRtpPacketizer 1 96 3 4)); [unfold packetizer_ok; simpl; lia|lia|reflexivity].
Defined.

(** The bound a datagram must keep: no packet exceeds the maximum packet size
    the packetizer was created with. *)
Lemma packetize_size {E} ssrc pt max_packet_size rnd fid key_frame ref ts delay payload pkts p' :
  RTP_MAX_HEADER_SIZE < max_packet_size ->
  packetizer_ok (RtpPacketizer.new ssrc pt max_packet_size rnd) ->
  @RtpPacketizer.packetize E (RtpPacketizer.new ssrc pt max_packet_size rnd)
    fid key_frame ref ts delay payload = Ok (pkts, p') ->
  Forall (fun k => 19 <= Z.of_nat (length (packet_data k)) <= max_packet_size) pkts.
Proof.
  intros Hmx Hp Hr. rewrite packetize_spec in Hr by done. injection Hr as <- _.
  apply Forall_map, Forall_true. intros i. cbn [packet_data]. unfold packet_at.
  rewrite length_app, length_header, length_take.
  unfold RtpPacketizer.new, saturating_sub, RTP_MAX_HEADER_SIZE, RTP_BASE_HEADER_SIZE,
    ADAPTIVE_LATENCY_EXT_SIZE, RTP_STANDARD_HEADER_SIZE, CAST_HEADER_WITH_REF_SIZE in *.
  cbn [max_payload_size]. destruct (_ && _); lia.
Qed.

(** Every packet of a negotiated payload type is classified as RTP from its
    own source. *)
Lemma packet_at_classify {E} p fid key_frame ref ts delay payload N i :
  packetizer_ok p -> 96 <= payload_type p ->
  @classify_packet E (packet_at p fid key_frame ref ts delay payload N i) = Ok (Rtp (sync_source p)).
Proof.
  intros (Hs & Hpt & _) Hpt'.
  unfold packet_at, RtpPacketizer.header. cbv zeta. cbn [sync_source payload_type sequence_number update].
  destruct (marker_byte (Z.of_nat i =? Z.of_nat N - 1) (payload_type p) ltac:(lia)) as [_ Hm].
  set (mb := Z.lor _ _) in *. clearbody mb.
  unfold classify_packet. cbn -[from_be Z.land Z.shiftr].
  rewrite Hm. unfold index. cbn -[from_be Z.land Z.shiftr].
  destruct (Z.leb_spec 96 (payload_type p)), (Z.leb_spec (payload_type p) 127); try lia.
  cbn -[from_be Z.land Z.shiftr]. rewrite from_be_4, Z.mod_small by lia. done.
Qed.

(** Classification is total: it never indexes out of range. *)
Lemma classify_packet_returns {E} d : exists t, @classify_packet E d = Ok t.
Proof.
  unfold classify_packet.
  destruct (Nat.ltb_spec (length d) 8); [eauto|].
  destruct (lookup_lt_is_Some_2 d 0 ltac:(lia)) as [x Hx].
  destruct (lookup_lt_is_Some_2 d 1 ltac:(lia)) as [y Hy].
  rewrite (index_Ok _ _ _ Hx), (index_Ok _ _ _ Hy). cbn [bind].
  destruct (_ && (_ && (12 <=? length d)%nat)) eqn:Hc.
  - rewrite !andb_true_iff, Nat.leb_le in Hc. rewrite slice_Ok by lia. cbn. eauto.
  - rewrite slice_Ok by lia. destruct (_ && (_ && (8 <=? length d)%nat)); cbn; eauto.
Qed.
