(* ===== verification/Rtcp.v ===== *)
(** * RTCP feedback parsing and Sender Reports ([src/src/rtcp.rs])

    Slices are indexed as the source indexes them; an access out of range is
    [Panic], and so is a loop that outlives its fuel, so the totality theorem
    shows both that no byte string makes the parser panic and that the fuel
    (the length of the input) is enough. *)

From S2P Require Import Prelude Constants Time Frame SyncSource.

Record ReceiverReport := MkReceiverReport {
  rr_receiver_sync_source : SyncSource;
  rr_sync_source : SyncSource;
  rr_fraction_lost : Z;
  rr_cumulative_lost : Z;
  rr_highest_sequence : Z;
  rr_jitter : Z;
  rr_last_sr_timestamp : Z;
  rr_delay_since_last_sr : Z;
}.

Record PacketNack := MkPacketNack {
  nack_frame_id : FrameId;
  nack_packet_id : Z;
}.

Record AckBitvector := MkAckBitvector {
  feedback_count : Z;
  ack_data : bytes;
}.

Record CastFeedback := MkCastFeedback {
  cf_receiver_sync_source : SyncSource;
  cf_sender_sync_source : SyncSource;
  checkpoint_frame_id : Z;
  playout_delay_ms : Z;
  nacks : list PacketNack;
  ack_bitvector : option AckBitvector;
}.

Record PictureLossIndication := MkPictureLoss {
  pl_receiver_sync_source : SyncSource;
  pl_sender_sync_source : SyncSource;
}.

Record ReceiverReferenceTime := MkReferenceTime {
  rt_receiver_sync_source : SyncSource;
  rt_ntp_timestamp : NtpTimestamp.t;
}.

Record CompoundRtcpPacket := MkCompound {
  receiver_reports : list ReceiverReport;
  cast_feedbacks : list CastFeedback;
  picture_loss : list PictureLossIndication;
  receiver_reference_times : list ReceiverReferenceTime;
}.
#[export] Instance CompoundRtcpPacket_eta : Eta CompoundRtcpPacket := fun s =>
  MkCompound (receiver_reports s) (cast_feedbacks s) (picture_loss s) (receiver_reference_times s).
Definition compound_default : CompoundRtcpPacket := MkCompound [] [] [] [].

Inductive ParseError := Truncated | BadVersion | BadMagic | InvalidValue.
#[export] Instance ParseError_eq_dec : EqDecision ParseError.
Proof. solve_decision. Defined.

Definition read_u32 (data : bytes) (offset : nat) : Result ParseError Z :=
  let? a := index data offset in
  let? b := index data (offset + 1) in
  let? c := index data (offset + 2) in
  let? d := index data (offset + 3) in
  Ok (from_be [a; b; c; d]).

Definition read_i24 (data : bytes) (offset : nat) : Result ParseError Z :=
  let? a := index data offset in
  let? b := index data (offset + 1) in
  let? c := index data (offset + 2) in
  let value := Z.lor (Z.lor (Z.shiftl a 16) (Z.shiftl b 8)) c in
  Ok (if negb (Z.land value 0x800000 =? 0) then Z.lor value (Z.lnot 0xffffff) else value).

(** [u16::from_be_bytes([data[offset], data[offset + 1]])]. *)
Definition read_u16 (data : bytes) (offset : nat) : Result ParseError Z :=
  let? a := index data offset in
  let? b := index data (offset + 1) in
  Ok (from_be [a; b]).

Record RtcpHeader := MkRtcpHeader { count : Z; packet_type : Z; hlength : Z }.

Module RtcpHeader.
Definition parse (data : bytes) : Result ParseError RtcpHeader :=
  if (length data <? 4)%nat then Err Truncated else
  let? b0 := index data 0 in
  let version := Z.land (Z.shiftr b0 6) 0x03 in
  if negb (version =? 2) then Err BadVersion else
  let? b1 := index data 1 in
  let? len := read_u16 data 2 in
  Ok (MkRtcpHeader (Z.land b0 0x1F) b1 len).
End RtcpHeader.

(** [for _ in 0..report_count]. *)
Fixpoint parse_report_blocks (n : nat) (payload : bytes) (receiver_sync_source : Z)
    (offset : nat) (out : list ReceiverReport) : Result ParseError (list ReceiverReport) :=
  match n with
  | O => Ok out
  | S n' =>
    if (length payload <? offset + 24)%nat then Err Truncated else
    let? ssrc := read_u32 payload offset in
    let? fraction_lost := index payload (offset + 4) in
    let? cumulative_lost := read_i24 payload (offset + 5) in
    let? highest_sequence := read_u32 payload (offset + 8) in
    let? jitter := read_u32 payload (offset + 12) in
    let? last_sr := read_u32 payload (offset + 16) in
    let? delay := read_u32 payload (offset + 20) in
    parse_report_blocks n' payload receiver_sync_source (offset + 24)
      (out ++ [MkReceiverReport receiver_sync_source ssrc fraction_lost cumulative_lost
                 highest_sequence jitter last_sr delay])
  end.

Definition parse_receiver_report (payload : bytes) (report_count : Z) (out : list ReceiverReport)
  : Result ParseError (list ReceiverReport) :=
  if (length payload <? 4)%nat then Err Truncated else
  let? receiver_sync_source := read_u32 payload 0 in
  parse_report_blocks (Z.to_nat report_count) payload receiver_sync_source 4 out.

(** [for bit in bit .. bit + n] of the NACK bit vector. *)
Fixpoint expand_nack_bits (n : nat) (bit : Z) (bitvector lost_packet_id : Z) (frame_id : FrameId)
    (out : list PacketNack) : Result ParseError (list PacketNack) :=
  match n with
  | O => Ok out
  | S n' =>
    if negb (Z.land bitvector (Z.shiftl 1 bit) =? 0) then
      let? packet_id :=
        ok_or (if lost_packet_id + (1 + bit) <=? u16_max
               then Some (lost_packet_id + (1 + bit)) else None) InvalidValue in
      expand_nack_bits n' (bit + 1) bitvector lost_packet_id frame_id
        (out ++ [MkPacketNack frame_id packet_id])
    else expand_nack_bits n' (bit + 1) bitvector lost_packet_id frame_id out
  end.

(** [for _ in 0..loss_field_count]; returns the NACKs and the final offset. *)
Fixpoint parse_loss_fields (n : nat) (payload : bytes) (checkpoint : Z) (offset : nat)
    (out : list PacketNack) : Result ParseError (list PacketNack * nat) :=
  match n with
  | O => Ok (out, offset)
  | S n' =>
    if (length payload <? offset + 4)%nat then Err Truncated else
    let? within_frame_id := index payload offset in
    let? lost_packet_id := read_u16 payload (offset + 1) in
    let? bitvector := index payload (offset + 3) in
    let frame_id := FrameId.expand within_frame_id checkpoint in
    let out := out ++ [MkPacketNack frame_id lost_packet_id] in
    let? out :=
      if lost_packet_id =? ALL_PACKETS_LOST then Ok out
      else expand_nack_bits 8 0 bitvector lost_packet_id frame_id out in
    parse_loss_fields n' payload checkpoint (offset + 4) out
  end.

Definition parse_ack_bitvector (payload : bytes) (offset : nat)
  : Result ParseError (option AckBitvector) :=
  if (offset + 4 <=? length payload)%nat then
    let? ack_magic := read_u32 payload offset in
    if (ack_magic =? CAST_ACK_MAGIC) && (offset + 6 <=? length payload)%nat then
      let? fb_count := index payload (offset + 4) in
      let? num_octets := index payload (offset + 5) in
      let offset := (offset + 6)%nat in
      if (offset + Z.to_nat num_octets <=? length payload)%nat then
        let? d := slice payload offset (offset + Z.to_nat num_octets) in
        Ok (Some (MkAckBitvector fb_count d))
      else Err Truncated
    else Ok None
  else Ok None.

Definition parse_cast_feedback (payload : bytes) (out : CompoundRtcpPacket)
  : Result ParseError CompoundRtcpPacket :=
  if (length payload <? 16)%nat then Err Truncated else
  let? receiver_sync_source := read_u32 payload 0 in
  let? sender_sync_source := read_u32 payload 4 in
  let? magic := read_u32 payload 8 in
  if negb (magic =? CAST_FEEDBACK_MAGIC) then Err BadMagic else
  let? checkpoint := index payload 12 in
  let? loss_field_count := index payload 13 in
  let? delay := read_u16 payload 14 in
  let? (ns, offset) := parse_loss_fields (Z.to_nat loss_field_count) payload checkpoint 16 [] in
  let? ack := parse_ack_bitvector payload offset in
  Ok (out <| cast_feedbacks := cast_feedbacks out ++
        [MkCastFeedback receiver_sync_source sender_sync_source checkpoint delay ns ack] |>).

Definition parse_payload_specific (payload : bytes) (subtype : Z) (out : CompoundRtcpPacket)
  : Result ParseError CompoundRtcpPacket :=
  if subtype =? RTCP_SUBTYPE_PICTURE_LOSS then
    if (length payload <? 8)%nat then Err Truncated else
    let? receiver_sync_source := read_u32 payload 0 in
    let? sender_sync_source := read_u32 payload 4 in
    Ok (out <| picture_loss := picture_loss out ++
          [MkPictureLoss receiver_sync_source sender_sync_source] |>)
  else if subtype =? RTCP_SUBTYPE_FEEDBACK then parse_cast_feedback payload out
  else Ok out.

(** [while offset + 4 <= payload.len()] over the report blocks. *)
Fixpoint parse_report_extensions (fuel : nat) (payload : bytes) (receiver_sync_source : Z)
    (offset : nat) (out : list ReceiverReferenceTime)
    : Result ParseError (list ReceiverReferenceTime) :=
  match fuel with
  | O => Panic
  | S fuel' =>
    if (offset + 4 <=? length payload)%nat then
      let? block_type := index payload offset in
      let? block_length := read_u16 payload (offset + 2) in
      let block_data_len := (Z.to_nat block_length * 4)%nat in
      let offset := (offset + 4)%nat in
      if (length payload <? offset + block_data_len)%nat then Err Truncated else
      let? out :=
        if (block_type =? 4) && (8 <=? block_data_len)%nat
           && (offset + 8 <=? length payload)%nat then
          let? ntp_seconds := read_u32 payload offset in
          let? ntp_fraction := read_u32 payload (offset + 4) in
          let ntp := Z.lor (wrap_u64 (Z.shiftl ntp_seconds 32)) ntp_fraction in
          Ok (out ++ [MkReferenceTime receiver_sync_source ntp])
        else Ok out in
      parse_report_extensions fuel' payload receiver_sync_source (offset + block_data_len) out
    else Ok out
  end.

Definition parse_extended_reports (payload : bytes) (out : list ReceiverReferenceTime)
  : Result ParseError (list ReceiverReferenceTime) :=
  if (length payload <? 4)%nat then Err Truncated else
  let? receiver_sync_source := read_u32 payload 0 in
  parse_report_extensions (S (length payload)) payload receiver_sync_source 4 out.

(** The [match header.packet_type] of the packet loop. *)
Definition parse_packet (header : RtcpHeader) (payload : bytes) (result : CompoundRtcpPacket)
  : Result ParseError CompoundRtcpPacket :=
  if packet_type header =? RTCP_RECEIVER_REPORT then
    let? l := parse_receiver_report payload (count header) (receiver_reports result) in
    Ok (result <| receiver_reports := l |>)
  else if packet_type header =? RTCP_PAYLOAD_SPECIFIC then
    parse_payload_specific payload (count header) result
  else if packet_type header =? RTCP_EXTENDED_REPORTS then
    let? l := parse_extended_reports payload (receiver_reference_times result) in
    Ok (result <| receiver_reference_times := l |>)
  else Ok result.

(** [while offset + 4 <= data.len()]; returns the result and the final offset. *)
Fixpoint parse_packets (fuel : nat) (data : bytes) (offset : nat) (result : CompoundRtcpPacket)
  : Result ParseError (CompoundRtcpPacket * nat) :=
  match fuel with
  | O => Panic
  | S fuel' =>
    if (offset + 4 <=? length data)%nat then
      let? rest := slice data offset (length data) in
      let? header := RtcpHeader.parse rest in
      let packet_len := (4 + Z.to_nat (hlength header) * 4)%nat in
      if (length data <? offset + packet_len)%nat then Err Truncated else
      let? payload := slice data (offset + 4) (offset + packet_len) in
      let? result := parse_packet header payload result in
      parse_packets fuel' data (offset + packet_len) result
    else Ok (result, offset)
  end.

Definition parse_compound (data : bytes) : Result ParseError CompoundRtcpPacket :=
  let? (result, offset) := parse_packets (S (length data)) data 0 compound_default in
  if negb (offset =? length data)%nat then Err Truncated else Ok result.

Module SenderReportBuilder.
Definition build (ssrc : SyncSource) (ntp_timestamp : NtpTimestamp.t) (rtp_timestamp : Z)
    (packet_count octet_count : Z) : bytes :=
  [0x80; RTCP_SENDER_REPORT]
  ++ to_be 2 6
  ++ to_be 4 ssrc
  ++ to_be 4 (NtpTimestamp.upper_32 ntp_timestamp)
  ++ to_be 4 (NtpTimestamp.fraction ntp_timestamp)
  ++ to_be 4 rtp_timestamp
  ++ to_be 4 packet_count
  ++ to_be 4 octet_count.
End SenderReportBuilder.

(** ** What a parsed packet satisfies: every field is in its Rust type's range *)

Definition u32_ok (v : Z) : Prop := 0 <= v < 2 ^ 32.

Definition report_ok (r : ReceiverReport) : Prop :=
  u32_ok (rr_receiver_sync_source r) /\ u32_ok (rr_sync_source r) /\
  is_byte (rr_fraction_lost r) /\ - 2 ^ 23 <= rr_cumulative_lost r < 2 ^ 23 /\
  u32_ok (rr_highest_sequence r) /\ u32_ok (rr_jitter r) /\
  u32_ok (rr_last_sr_timestamp r) /\ u32_ok (rr_delay_since_last_sr r).

Definition nack_ok (checkpoint : Z) (n : PacketNack) : Prop :=
  -128 <= nack_frame_id n - checkpoint < 128 /\ 0 <= nack_packet_id n <= u16_max.

Definition ack_ok (a : AckBitvector) : Prop :=
  is_byte (feedback_count a) /\ bytes_ok (ack_data a) /\ (length (ack_data a) <= 255)%nat.

Definition feedback_ok (f : CastFeedback) : Prop :=
  u32_ok (cf_receiver_sync_source f) /\ u32_ok (cf_sender_sync_source f) /\
  is_byte (checkpoint_frame_id f) /\ 0 <= playout_delay_ms f <= u16_max /\
  Forall (nack_ok (checkpoint_frame_id f)) (nacks f) /\
  (forall a, ack_bitvector f = Some a -> ack_ok a).

Definition loss_ok (l : PictureLossIndication) : Prop :=
  u32_ok (pl_receiver_sync_source l) /\ u32_ok (pl_sender_sync_source l).

Definition reference_time_ok (t : ReceiverReferenceTime) : Prop :=
  u32_ok (rt_receiver_sync_source t) /\ 0 <= rt_ntp_timestamp t < 2 ^ 64.

Definition compound_ok (c : CompoundRtcpPacket) : Prop :=
  Forall report_ok (receiver_reports c) /\ Forall feedback_ok (cast_feedbacks c) /\
  Forall loss_ok (picture_loss c) /\ Forall reference_time_ok (receiver_reference_times c).

(** ** A reference receiver-side encoder

    The compound packets a Cast receiver sends, and their RFC 3550 / Cast
    layout.  [deliver] is what one of them contributes to the parse. *)

Record LossField := MkLoss { lf_frame : Z; lf_packet : Z; lf_bits : Z }.

Inductive RtcpPacket :=
| PReport (receiver : Z) (blocks : list ReceiverReport)
| PFeedback (receiver sender checkpoint delay : Z) (losses : list LossField) (ack : option AckBitvector)
| PPictureLoss (receiver sender : Z)
| PReferenceTime (receiver : Z) (ntps : list Z)
| PSenderReport (ssrc ntp rtp_ts pkts octets : Z).

Definition encode_block (r : ReceiverReport) : bytes :=
  to_be 4 (rr_sync_source r) ++ [rr_fraction_lost r] ++ to_be 3 (rr_cumulative_lost r)
  ++ to_be 4 (rr_highest_sequence r) ++ to_be 4 (rr_jitter r)
  ++ to_be 4 (rr_last_sr_timestamp r) ++ to_be 4 (rr_delay_since_last_sr r).

Definition encode_loss (l : LossField) : bytes :=
  lf_frame l :: to_be 2 (lf_packet l) ++ [lf_bits l].

(** The optional [CST2] part, padded to a whole number of words. *)
Definition encode_ack (o : option AckBitvector) : bytes :=
  match o with
  | None => []
  | Some a =>
    to_be 4 CAST_ACK_MAGIC ++ [feedback_count a; Z.of_nat (length (ack_data a))] ++ ack_data a
    ++ replicate ((3 - (length (ack_data a) + 1) mod 4))%nat 0
  end.

Definition encode_reference_time (ntp : Z) : bytes :=
  [4; 0; 0; 2] ++ to_be 4 (Z.shiftr ntp 32) ++ to_be 4 (wrap_u32 ntp).

Definition encode_payload (p : RtcpPacket) : bytes :=
  match p with
  | PReport r bs => to_be 4 r ++ concat (map encode_block bs)
  | PFeedback r s cp delay losses ack =>
    to_be 4 r ++ to_be 4 s ++ to_be 4 CAST_FEEDBACK_MAGIC ++ [cp; Z.of_nat (length losses)]
    ++ to_be 2 delay ++ concat (map encode_loss losses) ++ encode_ack ack
  | PPictureLoss r s => to_be 4 r ++ to_be 4 s
  | PReferenceTime r ntps => to_be 4 r ++ concat (map encode_reference_time ntps)
  | PSenderReport ssrc ntp ts pk oc => drop 4 (SenderReportBuilder.build ssrc ntp ts pk oc)
  end.

Definition encode_count (p : RtcpPacket) : Z :=
  match p with
  | PReport _ bs => Z.of_nat (length bs)
  | PFeedback _ _ _ _ _ _ => RTCP_SUBTYPE_FEEDBACK
  | PPictureLoss _ _ => RTCP_SUBTYPE_PICTURE_LOSS
  | PReferenceTime _ _ | PSenderReport _ _ _ _ _ => 0
  end.

Definition encode_type (p : RtcpPacket) : Z :=
  match p with
  | PReport _ _ => RTCP_RECEIVER_REPORT
  | PFeedback _ _ _ _ _ _ | PPictureLoss _ _ => RTCP_PAYLOAD_SPECIFIC
  | PReferenceTime _ _ => RTCP_EXTENDED_REPORTS
  | PSenderReport _ _ _ _ _ => RTCP_SENDER_REPORT
  end.

Definition encode_packet (p : RtcpPacket) : bytes :=
  [128 + encode_count p; encode_type p]
  ++ to_be 2 (Z.of_nat (length (encode_payload p)) / 4) ++ encode_payload p.

(** The packets one loss field names: the packet itself, then the following
    ones whose bit is set. *)
Definition loss_nacks (checkpoint : Z) (l : LossField) : list PacketNack :=
  let frame := FrameId.expand (lf_frame l) checkpoint in
  MkPacketNack frame (lf_packet l) ::
  if lf_packet l =? ALL_PACKETS_LOST then [] else
  map (fun bit => MkPacketNack frame (lf_packet l + (1 + bit)))
    (List.filter (fun bit => Z.testbit (lf_bits l) bit) (seqZ 0 8)).

Definition deliver (c : CompoundRtcpPacket) (p : RtcpPacket) : CompoundRtcpPacket :=
  match p with
  | PReport r bs => c <| receiver_reports := receiver_reports c ++ bs |>
  | PFeedback r s cp delay losses ack =>
    c <| cast_feedbacks := cast_feedbacks c ++
          [MkCastFeedback r s cp delay (concat (map (loss_nacks cp) losses)) ack] |>
  | PPictureLoss r s => c <| picture_loss := picture_loss c ++ [MkPictureLoss r s] |>
  | PReferenceTime r ntps =>
    c <| receiver_reference_times := receiver_reference_times c ++ map (MkReferenceTime r) ntps |>
  | PSenderReport _ _ _ _ _ => c
  end.

Definition loss_field_ok (l : LossField) : Prop :=
  is_byte (lf_frame l) /\ is_byte (lf_bits l) /\
  (0 <= lf_packet l <= u16_max - 8 \/ lf_packet l = ALL_PACKETS_LOST).

Definition rtcp_packet_ok (p : RtcpPacket) : Prop :=
  match p with
  | PReport r bs =>
    u32_ok r /\ (length bs < 32)%nat /\
    Forall (fun b => report_ok b /\ rr_receiver_sync_source b = r) bs
  | PFeedback r s cp delay losses ack =>
    u32_ok r /\ u32_ok s /\ is_byte cp /\ 0 <= delay <= u16_max /\ (length losses < 256)%nat /\
    Forall loss_field_ok losses /\ (forall a, ack = Some a -> ack_ok a)
  | PPictureLoss r s => u32_ok r /\ u32_ok s
  | PReferenceTime r ntps =>
    u32_ok r /\ (length ntps < 1000)%nat /\ Forall (fun n => 0 <= n < 2 ^ 64) ntps
  | PSenderReport _ _ _ _ _ => True
  end.

(** ** Safety: every branch of the parser stays in range *)

Lemma index_byte (d : bytes) i :
  bytes_ok d -> (i < length d)%nat -> returns (@index ParseError Z d i) is_byte.
Proof.
  intros Hd Hi. eapply returns_weaken; [by apply index_returns|].
  intros b Hb. exact (bytes_ok_lookup _ _ _ Hd Hb).
Qed.

Lemma read_u16_returns d off :
  bytes_ok d -> (off + 2 <= length d)%nat ->
  returns (read_u16 d off) (fun v => 0 <= v <= u16_max).
Proof.
  intros Hd Ho. unfold read_u16.
  do 2 (eapply returns_bind; [apply index_byte; [done|lia]|intros ? ?]).
  simpl. pose proof (from_be_bound [a; a0] ltac:(solve_bytes)).
  simpl in *. unfold u16_max. lia.
Qed.

Lemma read_u32_returns d off :
  bytes_ok d -> (off + 4 <= length d)%nat -> returns (read_u32 d off) u32_ok.
Proof.
  intros Hd Ho. unfold read_u32.
  do 4 (eapply returns_bind; [apply index_byte; [done|lia]|intros ? ?]).
  simpl. apply (from_be_bound [a; a0; a1; a2]). solve_bytes.
Qed.

Lemma read_i24_returns d off :
  bytes_ok d -> (off + 3 <= length d)%nat ->
  returns (read_i24 d off) (fun v => - 2 ^ 23 <= v < 2 ^ 23).
Proof.
  intros Hd Ho. unfold read_i24.
  do 3 (eapply returns_bind; [apply index_byte; [done|lia]|intros ? ?]).
  cbn [returns]. rewrite lor_three_bytes by done. unfold is_byte in *.
  set (v := a * 65536 + a0 * 256 + a1). assert (0 <= v < 2 ^ 24) by (subst v; lia).
  clearbody v.
  assert (Hb : (Z.land v 0x800000 =? 0) = negb (Z.testbit v 23)).
  { apply (land_mask_testbit v 23). lia. }
  rewrite Hb, negb_involutive. rewrite Z.testbit_eqb by lia.
  destruct (Z.eqb_spec ((v / 2 ^ 23) mod 2) 1); [|zlia].
  change (Z.lnot 0xffffff) with (Z.shiftl (-1) 24).
  rewrite Z.lor_comm, lor_add_disjoint by lia. zlia.
Qed.

(** Close the leaves of a parser step: run the reads in sequence. *)
Ltac read_step :=
  eapply returns_bind;
  [ first [ apply index_byte | apply read_u16_returns | apply read_u32_returns
          | apply read_i24_returns ]; [done|lia]
  | intros ? ? ].

Lemma header_returns d :
  bytes_ok d ->
  returns (RtcpHeader.parse d) (fun h =>
    0 <= count h < 32 /\ is_byte (packet_type h) /\ 0 <= hlength h <= u16_max).
Proof.
  intros Hd. unfold RtcpHeader.parse. destruct (Nat.ltb_spec (length d) 4); [done|].
  read_step. destruct (negb _); [done|]. do 2 read_step. cbn [returns count packet_type hlength].
  split; [|done]. change 0x1F with (Z.ones 5). rewrite Z.land_ones by lia. zlia.
Qed.

Lemma parse_report_blocks_returns n d rs off out :
  bytes_ok d -> u32_ok rs -> Forall report_ok out ->
  returns (parse_report_blocks n d rs off out) (Forall report_ok).
Proof.
  intros Hd Hrs. revert off out. induction n as [|n IH]; intros off out Hout; [done|].
  cbn [parse_report_blocks]. destruct (Nat.ltb_spec (length d) (off + 24)); [done|].
  do 7 read_step. apply IH, Forall_app. split; [done|]. constructor; [|done].
  unfold report_ok. repeat (split; [assumption|]). assumption.
Qed.

Lemma parse_receiver_report_returns d c out :
  bytes_ok d -> Forall report_ok out ->
  returns (parse_receiver_report d c out) (Forall report_ok).
Proof.
  intros Hd Hout. unfold parse_receiver_report.
  destruct (Nat.ltb_spec (length d) 4); [done|]. read_step.
  by apply parse_report_blocks_returns.
Qed.

Lemma expand_nack_bits_returns n bit bv lost fid cp out :
  0 <= bit -> 0 <= lost -> -128 <= fid - cp < 128 -> Forall (nack_ok cp) out ->
  returns (expand_nack_bits n bit bv lost fid out) (Forall (nack_ok cp)).
Proof.
  intros Hb Hl Hf. revert bit Hb out. induction n as [|n IH]; intros bit Hb out Hout; [done|].
  cbn [expand_nack_bits]. destruct (negb _); [|apply IH; [lia|done]].
  destruct (Z.leb_spec (lost + (1 + bit)) u16_max); [|done].
  apply IH; [lia|]. apply Forall_app. split; [done|]. constructor; [|done].
  unfold nack_ok; simpl. lia.
Qed.

Lemma parse_loss_fields_returns n d cp off out :
  bytes_ok d -> (off <= length d)%nat -> Forall (nack_ok cp) out ->
  returns (parse_loss_fields n d cp off out) (fun '(ns, off') =>
    Forall (nack_ok cp) ns /\ (off' <= length d)%nat).
Proof.
  intros Hd. revert off out. induction n as [|n IH]; intros off out Ho Hout; [done|].
  cbn [parse_loss_fields]. destruct (Nat.ltb_spec (length d) (off + 4)); [done|].
  do 3 read_step. pose proof (expand_spec a cp ltac:(done)) as [He _]. cbv beta in *.
  assert (Hn : Forall (nack_ok cp) (out ++ [MkPacketNack (FrameId.expand a cp) a0])).
  { apply Forall_app. split; [done|]. by constructor. }
  eapply returns_bind; [|intros ns Hns; apply IH; [lia|exact Hns]].
  destruct (a0 =? _); [done|]. apply expand_nack_bits_returns; auto with lia.
Qed.

Lemma parse_ack_returns d off :
  bytes_ok d ->
  returns (parse_ack_bitvector d off) (fun o => forall a, o = Some a -> ack_ok a).
Proof.
  intros Hd. unfold parse_ack_bitvector.
  destruct (Nat.leb_spec (off + 4) (length d)); [|by intros ?].
  read_step. destruct (_ =? _); [|by intros ?].
  destruct (Nat.leb_spec (off + 6) (length d)); [|by intros ?]. simpl.
  do 2 read_step.
  destruct (Nat.leb_spec (off + 6 + Z.to_nat a1) (length d)); [|done].
  rewrite slice_Ok by lia. simpl. intros ack [= <-]. unfold ack_ok, is_byte in *. simpl.
  split; [done|]. split; [auto with cast|]. rewrite length_take. lia.
Qed.

Lemma parse_cast_feedback_returns d out :
  bytes_ok d -> compound_ok out -> returns (parse_cast_feedback d out) compound_ok.
Proof.
  intros Hd (H1 & H2 & H3 & H4). unfold parse_cast_feedback.
  destruct (Nat.ltb_spec (length d) 16); [done|]. do 3 read_step.
  destruct (negb _); [done|]. do 3 read_step.
  eapply returns_bind; [by apply parse_loss_fields_returns|]. intros [ns off'] [Hns _].
  eapply returns_bind; [by apply parse_ack_returns|]. intros ack Hack.
  cbn [returns]. unfold compound_ok. simpl. split_and!; auto.
  apply Forall_app. split; [done|]. constructor; [|done].
  unfold feedback_ok. repeat (split; [assumption|]). assumption.
Qed.

Lemma parse_payload_specific_returns d st out :
  bytes_ok d -> compound_ok out -> returns (parse_payload_specific d st out) compound_ok.
Proof.
  intros Hd Hout. unfold parse_payload_specific. destruct (_ =? _).
  - destruct (Nat.ltb_spec (length d) 8); [done|]. do 2 read_step. cbn [returns].
    destruct Hout as (Hc1 & Hc2 & Hc3 & Hc4). unfold compound_ok. simpl. split_and!; auto.
    apply Forall_app. split; [done|]. by constructor.
  - destruct (_ =? _); [by apply parse_cast_feedback_returns|done].
Qed.

Lemma parse_report_extensions_returns fuel d rs off out :
  bytes_ok d -> u32_ok rs -> (off <= length d)%nat -> (length d < off + fuel)%nat ->
  Forall reference_time_ok out ->
  returns (parse_report_extensions fuel d rs off out) (Forall reference_time_ok).
Proof.
  intros Hd Hrs. revert off out. induction fuel as [|fuel IH]; intros off out Ho Hf Hout.
  - cbn. lia.
  - cbn [parse_report_extensions].
    destruct (Nat.leb_spec (off + 4) (length d)); [|done].
    do 2 read_step. destruct (Nat.ltb_spec (length d) (off + 4 + Z.to_nat a0 * 4)); [done|].
    eapply returns_bind; [|intros o Hout'; apply IH; [lia|lia|exact Hout']].
    destruct (a =? 4); [|done]. destruct (8 <=? Z.to_nat a0 * 4)%nat; [|done].
    destruct (Nat.leb_spec (off + 4 + 8) (length d)); [|done]. cbn [andb].
    do 2 read_step. cbn [returns]. apply Forall_app. split; [done|]. constructor; [|done].
    split; [done|]. cbn [rt_ntp_timestamp]. unfold u32_ok in *.
    unfold wrap_u64. rewrite Z.mod_small by (rewrite Z.shiftl_mul_pow2 by lia; lia).
    rewrite lor_add_disjoint by lia. lia.
Qed.

Lemma parse_extended_reports_returns d out :
  bytes_ok d -> Forall reference_time_ok out ->
  returns (parse_extended_reports d out) (Forall reference_time_ok).
Proof.
  intros Hd Hout. unfold parse_extended_reports.
  destruct (Nat.ltb_spec (length d) 4); [done|]. read_step.
  apply parse_report_extensions_returns; auto; lia.
Qed.

Lemma parse_packet_returns h d out :
  bytes_ok d -> compound_ok out -> returns (parse_packet h d out) compound_ok.
Proof.
  intros Hd Hout. pose proof Hout as (H1 & H2 & H3 & H4). unfold parse_packet.
  destruct (_ =? _); [|destruct (_ =? _); [|destruct (_ =? _)]].
  - eapply returns_bind; [by apply parse_receiver_report_returns|]. done.
  - by apply parse_payload_specific_returns.
  - eapply returns_bind; [by apply parse_extended_reports_returns|]. done.
  - done.
Qed.

Lemma parse_packets_returns fuel d off out :
  bytes_ok d -> compound_ok out -> (off <= length d)%nat -> (length d < off + fuel)%nat ->
  returns (parse_packets fuel d off out) (fun '(c, _) => compound_ok c).
Proof.
  intros Hd. revert off out. induction fuel as [|fuel IH]; intros off out Hout Ho Hf.
  - cbn. lia.
  - cbn [parse_packets]. destruct (Nat.leb_spec (off + 4) (length d)); [|done].
    rewrite slice_Ok by lia. cbn [bind].
    eapply returns_bind; [apply header_returns; auto with cast|]. intros h (_ & _ & Hl).
    destruct (Nat.ltb_spec (length d) (off + (4 + Z.to_nat (hlength h) * 4))); [done|].
    rewrite slice_Ok by lia. cbn [bind].
    eapply returns_bind; [apply parse_packet_returns; auto with cast|]. intros c Hc.
    apply IH; [done|lia..].
Qed.

Lemma parse_compound_returns d : bytes_ok d -> returns (parse_compound d) compound_ok.
Proof.
  intros Hd. unfold parse_compound.
  eapply returns_bind; [apply parse_packets_returns; auto; [repeat split; auto|lia..]|].
  intros [c off'] Hc. by destruct (negb _).
Qed.

(** The RTCP parser is total and type-safe: on every datagram it returns a
    packet or a [ParseError] (it never indexes out of range and every loop
    ends), and every field of a parsed packet is within its declared width. *)
Theorem parse_compound_safe d :
  bytes_ok d -> no_panic (parse_compound d) /\ returns (parse_compound d) compound_ok.
Proof.
  intros Hd. pose proof (parse_compound_returns d Hd) as H.
  split; [by eapply returns_no_panic|done].
Qed.

Lemma parse_compound_safe_witness :
  no_panic (parse_compound [129; 201; 0; 9; 1]) /\ returns (parse_compound [129; 201; 0; 9; 1]) compound_ok.
Proof. apply (parse_compound_safe [129; 201; 0; 9; 1]). solve_bytes. Defined.

(** ** Round trip with the reference encoder *)

Lemma read_u16_shift pre l k : read_u16 (pre ++ l) (length pre + k) = read_u16 l k.
Proof. unfold read_u16. by rewrite <- !Nat.add_assoc, !index_app_r. Qed.

Lemma read_u32_shift pre l k : read_u32 (pre ++ l) (length pre + k) = read_u32 l k.
Proof. unfold read_u32. by rewrite <- !Nat.add_assoc, !index_app_r. Qed.

Lemma read_i24_shift pre l k : read_i24 (pre ++ l) (length pre + k) = read_i24 l k.
Proof. unfold read_i24. by rewrite <- !Nat.add_assoc, !index_app_r. Qed.

Lemma index_shift {E} (pre l : bytes) k : @index E Z (pre ++ l) (length pre + k) = index l k.
Proof. apply index_app_r. Qed.

Lemma index_here {E} (pre l : bytes) : @index E Z (pre ++ l) (length pre) = index l 0.
Proof. rewrite <- (Nat.add_0_r (length pre)) at 1. apply index_app_r. Qed.

(** Reads of an encoded field at the front of a buffer, past [k] bytes. *)
Lemma read_u16_front v l : 0 <= v <= u16_max -> read_u16 (to_be 2 v ++ l) 0 = Ok v.
Proof.
  intros H. transitivity (@Ok ParseError _ (from_be (to_be 2 v))); [done|].
  f_equal. apply from_be_to_be_small. unfold u16_max in H. simpl. lia.
Qed.

Lemma read_u32_front v l : u32_ok v -> read_u32 (to_be 4 v ++ l) 0 = Ok v.
Proof.
  intros H. transitivity (@Ok ParseError _ (from_be (to_be 4 v))); [done|].
  f_equal. apply from_be_to_be_small. exact H.
Qed.

Lemma read_i24_front v l :
  - 2 ^ 23 <= v < 2 ^ 23 -> read_i24 (to_be 3 v ++ l) 0 = Ok v.
Proof.
  intros H. unfold read_i24. cbn -[Z.land Z.shiftr Z.lor Z.shiftl Z.lnot].
  set (w := Z.lor (Z.lor _ _) _).
  assert (Hw : w = v mod 2 ^ 24).
  { subst w. rewrite !land_255, !Z.shiftr_div_pow2 by lia.
    rewrite lor_three_bytes by (apply Z.mod_pos_bound; lia).
    change (2 ^ (8 * Z.of_nat 2)) with 65536. change (2 ^ (8 * Z.of_nat 1)) with 256.
    change (2 ^ (8 * Z.of_nat 0)) with 1. change (2 ^ 24) with 16777216. zlia. }
  rewrite Hw. clear w Hw. change 0x800000 with (Z.shiftl 1 23).
  rewrite land_mask_testbit, negb_involutive, Z.testbit_eqb by lia. f_equal.
  destruct (Z.eqb_spec ((v mod 2 ^ 24 / 2 ^ 23) mod 2) 1); [|zlia].
  change (Z.lnot 0xffffff) with (Z.shiftl (-1) 24).
  rewrite Z.lor_comm, lor_add_disjoint by zlia. zlia.
Qed.

Lemma encode_block_reads b l :
  report_ok b ->
  let d := encode_block b ++ l in
  read_u32 d 0 = Ok (rr_sync_source b) /\ @index ParseError Z d 4 = Ok (rr_fraction_lost b) /\
  read_i24 d 5 = Ok (rr_cumulative_lost b) /\ read_u32 d 8 = Ok (rr_highest_sequence b) /\
  read_u32 d 12 = Ok (rr_jitter b) /\ read_u32 d 16 = Ok (rr_last_sr_timestamp b) /\
  read_u32 d 20 = Ok (rr_delay_since_last_sr b).
Proof.
  intros (_ & H1 & H2 & H3 & H4 & H5 & H6 & H7). cbv zeta. unfold encode_block.
  rewrite <- !app_assoc. split_and!.
  - by apply read_u32_front.
  - done.
  - etransitivity; [|by apply (read_i24_front (rr_cumulative_lost b) l)]. done.
  - etransitivity; [|by apply (read_u32_front (rr_highest_sequence b) l)]. done.
  - etransitivity; [|by apply (read_u32_front (rr_jitter b) l)]. done.
  - etransitivity; [|by apply (read_u32_front (rr_last_sr_timestamp b) l)]. done.
  - etransitivity; [|by apply (read_u32_front (rr_delay_since_last_sr b) l)]. done.
Qed.

Lemma parse_report_blocks_encode pre bs rs out :
  Forall (fun b => report_ok b /\ rr_receiver_sync_source b = rs) bs ->
  parse_report_blocks (length bs) (pre ++ concat (map encode_block bs)) rs (length pre) out
  = Ok (out ++ bs).
Proof.
  intros Hbs. revert pre out. induction Hbs as [|b bs [Hb Hr] Hbs IH]; intros pre out.
  - simpl. by rewrite app_nil_r.
  - cbn [map concat length parse_report_blocks].
    destruct (encode_block_reads b (concat (map encode_block bs)) Hb)
      as (E1 & E2 & E3 & E4 & E5 & E6 & E7).
    rewrite <- (Nat.add_0_r (length pre)) at 2.
    rewrite index_shift, read_i24_shift, !read_u32_shift, E1, E2, E3, E4, E5, E6, E7.
    destruct (Nat.ltb_spec (length (pre ++ encode_block b ++ concat (map encode_block bs)))
                (length pre + 24)) as [Hlt|_].
    { rewrite !length_app in Hlt. change (length (encode_block b)) with 24%nat in Hlt. lia. }
    cbn [bind]. rewrite app_assoc.
    replace (length pre + 24)%nat with (length (pre ++ encode_block b))
      by (rewrite length_app; done).
    rewrite IH, <- app_assoc. do 3 f_equal. destruct b; simpl in *. by subst.
Qed.

Lemma expand_nack_bits_encode n bit bv lost fid out :
  0 <= bit -> lost + bit + Z.of_nat n <= u16_max ->
  expand_nack_bits n bit bv lost fid out =
  Ok (out ++ map (fun b => MkPacketNack fid (lost + (1 + b)))
               (List.filter (fun b => Z.testbit bv b) (seqZ bit (Z.of_nat n)))).
Proof.
  revert bit out. induction n as [|n IH]; intros bit out Hb Hl.
  - simpl. by rewrite app_nil_r.
  - cbn [expand_nack_bits]. rewrite land_mask_testbit, negb_involutive by lia.
    rewrite seqZ_cons by lia. cbn [List.filter].
    replace (Z.pred (Z.of_nat (S n))) with (Z.of_nat n) by lia.
    change (Z.succ bit) with (bit + 1).
    destruct (Z.testbit bv bit).
    + destruct (Z.leb_spec (lost + (1 + bit)) u16_max); [|lia]. cbn [ok_or bind map].
      rewrite IH, <- app_assoc by lia. done.
    + rewrite IH by lia. done.
Qed.

Lemma parse_loss_fields_encode pre post losses cp out :
  Forall loss_field_ok losses ->
  parse_loss_fields (length losses) (pre ++ concat (map encode_loss losses) ++ post) cp
    (length pre) out
  = Ok (out ++ concat (map (loss_nacks cp) losses),
        length (pre ++ concat (map encode_loss losses))).
Proof.
  intros Hl. revert pre out. induction Hl as [|l ls (Hf & Hb & Hp) Hls IH]; intros pre out.
  - simpl. by rewrite !app_nil_r.
  - cbn [map concat length parse_loss_fields]. rewrite <- app_assoc.
    set (post' := concat (map encode_loss ls) ++ post).
    rewrite <- (Nat.add_0_r (length pre)) at 2.
    rewrite !index_shift, read_u16_shift.
    destruct (Nat.ltb_spec (length (pre ++ encode_loss l ++ post')) (length pre + 4)) as [Hlt|_].
    { rewrite !length_app in Hlt. change (length (encode_loss l)) with 4%nat in Hlt. lia. }
    change (read_u16 (encode_loss l ++ post') 1) with (read_u16 (to_be 2 (lf_packet l) ++ lf_bits l :: post') 0).
    rewrite read_u16_front by (unfold u16_max, ALL_PACKETS_LOST in *; lia).
    change (@index ParseError Z (encode_loss l ++ post') 0) with (@Ok ParseError Z (lf_frame l)).
    change (@index ParseError Z (encode_loss l ++ post') 3) with (@Ok ParseError Z (lf_bits l)).
    cbn [bind].
    assert (Hn : (if lf_packet l =? ALL_PACKETS_LOST
       then Ok (out ++ [MkPacketNack (FrameId.expand (lf_frame l) cp) (lf_packet l)])
       else expand_nack_bits 8 0 (lf_bits l) (lf_packet l) (FrameId.expand (lf_frame l) cp)
              (out ++ [MkPacketNack (FrameId.expand (lf_frame l) cp) (lf_packet l)]))
      = Ok (out ++ loss_nacks cp l)).
    { unfold loss_nacks. cbv zeta. destruct (Z.eqb_spec (lf_packet l) ALL_PACKETS_LOST); [done|].
      rewrite expand_nack_bits_encode by lia. by rewrite <- app_assoc. }
    rewrite Hn. cbn [bind]. subst post'. rewrite app_assoc.
    replace (length pre + 4)%nat with (length (pre ++ encode_loss l))
      by (rewrite length_app; done).
    rewrite IH, <- !app_assoc. done.
Qed.

Lemma parse_ack_encode pre o :
  (forall a, o = Some a -> ack_ok a) ->
  parse_ack_bitvector (pre ++ encode_ack o) (length pre) = Ok o.
Proof.
  intros Ho. unfold parse_ack_bitvector. rewrite <- (Nat.add_0_r (length pre)) at 2.
  rewrite read_u32_shift, !index_shift. destruct o as [a|]; cbn [encode_ack].
  - destruct (Ho a eq_refl) as (Hc & Hd & Hl). destruct a as [c d]. cbn [feedback_count ack_data] in *.
    set (pad := replicate _ 0). rewrite !length_app, length_to_be. cbn [length].
    rewrite read_u32_front by (unfold u32_ok, CAST_ACK_MAGIC; lia).
    destruct (Nat.leb_spec (length pre + 4) (length pre + (4 + (2 + (length d + length pad))))); [|lia].
    destruct (Nat.leb_spec (length pre + 6) (length pre + (4 + (2 + (length d + length pad))))); [|lia].
    cbn [bind]. rewrite Z.eqb_refl. cbn [andb].
    change (@index ParseError Z (to_be 4 CAST_ACK_MAGIC ++ [c; Z.of_nat (length d)] ++ d ++ pad) 4)
      with (@Ok ParseError Z c).
    change (@index ParseError Z (to_be 4 CAST_ACK_MAGIC ++ [c; Z.of_nat (length d)] ++ d ++ pad) 5)
      with (@Ok ParseError Z (Z.of_nat (length d))).
    cbn [bind]. rewrite Nat2Z.id.
    destruct (Nat.leb_spec (length pre + 6 + length d)
                (length pre + (4 + (2 + (length d + length pad))))); [|lia].
    rewrite slice_Ok by (rewrite ?length_app, ?length_to_be; simpl; lia).
    replace (length pre + 6 + length d - (length pre + 6))%nat with (length d) by lia.
    rewrite <- drop_drop, drop_app_length. cbn [bind]. do 3 f_equal.
    change (drop 6 _) with (d ++ pad). apply take_app_length.
  - rewrite app_nil_r. destruct (Nat.leb_spec (length pre + 4) (length pre)); [lia|done].
Qed.

Lemma encode_reference_time_length n : length (encode_reference_time n) = 12%nat.
Proof. done. Qed.

Lemma parse_reference_times_encode fuel pre ntps rs out :
  Forall (fun n => 0 <= n < 2 ^ 64) ntps -> (length ntps < fuel)%nat ->
  parse_report_extensions fuel (pre ++ concat (map encode_reference_time ntps)) rs (length pre) out
  = Ok (out ++ map (MkReferenceTime rs) ntps).
Proof.
  intros Hn. revert fuel pre out. induction Hn as [|n ns Hn Hns IH]; intros fuel pre out Hf;
    (destruct fuel as [|fuel]; [simpl in Hf; lia|]); cbn [parse_report_extensions].
  - simpl. rewrite !app_nil_r. destruct (Nat.leb_spec (length pre + 4) (length pre)); [lia|done].
  - cbn [map concat]. set (post := concat (map encode_reference_time ns)).
    assert (Hlen : length (pre ++ encode_reference_time n ++ post) = (length pre + 12 + length post)%nat)
      by (rewrite !length_app, encode_reference_time_length; lia).
    rewrite Hlen. destruct (Nat.leb_spec (length pre + 4) (length pre + 12 + length post)); [|lia].
    rewrite index_here, read_u16_shift.
    change (@index ParseError Z (encode_reference_time n ++ post) 0) with (@Ok ParseError Z 4).
    change (read_u16 (encode_reference_time n ++ post) 2) with (@Ok ParseError Z 2).
    cbn [bind]. change (Z.to_nat 2 * 4)%nat with 8%nat.
    destruct (Nat.ltb_spec (length pre + 12 + length post) (length pre + 4 + 8)); [lia|].
    destruct (Nat.leb_spec (length pre + 4 + 8) (length pre + 12 + length post)); [|lia].
    cbn [andb Z.eqb Nat.leb Pos.eqb].
    rewrite <- (Nat.add_assoc (length pre) 4 4), !read_u32_shift.
    change (read_u32 (encode_reference_time n ++ post) 4)
      with (read_u32 (to_be 4 (Z.shiftr n 32) ++ to_be 4 (wrap_u32 n) ++ post) 0).
    change (read_u32 (encode_reference_time n ++ post) (4 + 4))
      with (read_u32 (to_be 4 (wrap_u32 n) ++ post) 0).
    assert (Hhi : u32_ok (Z.shiftr n 32)) by (unfold u32_ok; rewrite Z.shiftr_div_pow2 by lia; zlia).
    assert (Hlo : u32_ok (wrap_u32 n)) by (unfold u32_ok, wrap_u32; zlia).
    rewrite !read_u32_front by done. cbn [bind].
    assert (Hv : Z.lor (wrap_u64 (Z.shiftl (Z.shiftr n 32) 32)) (wrap_u32 n) = n).
    { unfold u32_ok, wrap_u32, wrap_u64 in *.
      rewrite (Z.mod_small (Z.shiftl _ _)) by (rewrite Z.shiftl_mul_pow2 by lia; lia).
      rewrite lor_add_disjoint by lia. rewrite Z.shiftr_div_pow2 by lia. zlia. }
    rewrite Hv, app_assoc.
    replace (length pre + 4 + 8)%nat with (length (pre ++ encode_reference_time n))
      by (rewrite length_app, encode_reference_time_length; lia).
    rewrite IH by (simpl in Hf; lia). by rewrite <- app_assoc.
Qed.

Lemma concat_length_const {A} (f : A -> bytes) (k : nat) l :
  (forall x, length (f x) = k) -> length (concat (map f l)) = (k * length l)%nat.
Proof. intros Hf. induction l as [|x l IH]; simpl; rewrite ?length_app, ?Hf; lia. Qed.

Lemma encode_payload_length p :
  rtcp_packet_ok p ->
  exists w, length (encode_payload p) = (4 * w)%nat /\ Z.of_nat w <= u16_max.
Proof.
  destruct p as [r bs|r s cp de ls ack|r s|r ns|]; cbn [rtcp_packet_ok encode_payload]; intros Hp.
  - destruct Hp as (_ & Hl & _). exists (1 + 6 * length bs)%nat.
    rewrite length_app, (concat_length_const _ 24), length_to_be by done. unfold u16_max. lia.
  - destruct Hp as (_ & _ & _ & _ & Hl & _ & Ha).
    set (n := match ack with Some a => length (ack_data a) | None => 0%nat end).
    assert (Hack : exists k, length (encode_ack ack) = (4 * k)%nat /\ (4 * k <= n + 9)%nat).
    { destruct ack as [a|]; [|exists 0%nat; simpl; lia]. cbn [encode_ack].
      exists ((4 + (2 + (n + (3 - (n + 1) mod 4)))) / 4)%nat. subst n.
      rewrite !length_app, length_replicate, length_to_be. cbn [length].
      set (m := length (ack_data a)). pose proof (Nat.mod_upper_bound (m + 1) 4).
      pose proof (Nat.div_mod_eq (m + 1) 4).
      rewrite <- (Nat.div_unique (4 + (2 + (m + (3 - (m + 1) mod 4)))) 4 ((m + 1) / 4 + 2) 0) by lia.
      lia. }
    destruct Hack as (k & Hk & Hk').
    assert (n <= 255)%nat by (subst n; destruct ack; [by apply Ha|lia]).
    exists (4 + length ls + k)%nat.
    rewrite !length_app, (concat_length_const _ 4), !length_to_be, Hk by done.
    cbn [length]. unfold u16_max. lia.
  - exists 2%nat. split; [done|unfold u16_max; lia].
  - destruct Hp as (_ & Hl & _). exists (1 + 3 * length ns)%nat.
    rewrite length_app, (concat_length_const _ 12), length_to_be by done. unfold u16_max. lia.
  - exists 6%nat. split; [done|unfold u16_max; lia].
Qed.

Lemma parse_packet_encode p c :
  rtcp_packet_ok p ->
  parse_packet (MkRtcpHeader (encode_count p) (encode_type p)
                  (Z.of_nat (length (encode_payload p)) / 4)) (encode_payload p) c
  = Ok (deliver c p).
Proof.
  destruct p as [r bs|r s cp de ls ack|r s|r ns|]; cbn [rtcp_packet_ok]; intros Hp.
  - destruct Hp as (Hr & Hl & Hbs). unfold parse_packet.
    cbn -[parse_receiver_report encode_payload]. unfold parse_receiver_report.
    cbn [encode_payload]. rewrite length_app, length_to_be.
    destruct (Nat.ltb_spec (4 + length (concat (map encode_block bs))) 4); [lia|].
    rewrite read_u32_front by done. cbn [bind]. rewrite Nat2Z.id.
    by rewrite (parse_report_blocks_encode (to_be 4 r)).
  - destruct Hp as (Hr & Hs & Hcp & Hde & Hl & Hls & Hack). unfold parse_packet.
    cbn -[parse_cast_feedback encode_payload]. unfold parse_cast_feedback.
    cbn [encode_payload]. set (tail := concat (map encode_loss ls) ++ encode_ack ack).
    destruct (Nat.ltb_spec (length (to_be 4 r ++ to_be 4 s ++ to_be 4 CAST_FEEDBACK_MAGIC ++
      [cp; Z.of_nat (length ls)] ++ to_be 2 de ++ tail)) 16) as [Hlt|_];
      [rewrite !length_app, !length_to_be in Hlt; simpl in Hlt; lia|].
    rewrite read_u32_front by done. cbn [bind].
    change (read_u32 (to_be 4 r ++ to_be 4 s ++ ?l) 4) with (read_u32 (to_be 4 s ++ l) 0).
    rewrite read_u32_front by done. cbn [bind].
    change (read_u32 (to_be 4 r ++ to_be 4 s ++ ?l) 8) with (read_u32 l 0).
    rewrite read_u32_front by (unfold u32_ok, CAST_FEEDBACK_MAGIC; lia). cbn [bind].
    rewrite Z.eqb_refl. cbn [negb].
    change (read_u16 (to_be 4 r ++ to_be 4 s ++ to_be 4 ?m ++ [?x; ?y] ++ ?l) 14) with (read_u16 l 0).
    rewrite read_u16_front by done.
    change (index (to_be 4 r ++ to_be 4 s ++ to_be 4 ?m ++ [?x; ?y] ++ ?l) 12) with (@Ok ParseError Z x).
    change (index (to_be 4 r ++ to_be 4 s ++ to_be 4 ?m ++ [?x; ?y] ++ ?l) 13) with (@Ok ParseError Z y).
    cbn [bind]. rewrite Nat2Z.id. subst tail.
    set (pre := to_be 4 r ++ to_be 4 s ++ to_be 4 CAST_FEEDBACK_MAGIC ++
                  [cp; Z.of_nat (length ls)] ++ to_be 2 de).
    assert (Hd : to_be 4 r ++ to_be 4 s ++ to_be 4 CAST_FEEDBACK_MAGIC ++
      [cp; Z.of_nat (length ls)] ++ to_be 2 de ++ concat (map encode_loss ls) ++ encode_ack ack
      = pre ++ concat (map encode_loss ls) ++ encode_ack ack)
      by (subst pre; by rewrite <- !app_assoc).
    rewrite Hd. change 16%nat with (length pre). rewrite parse_loss_fields_encode by done.
    cbn [bind]. rewrite app_assoc, parse_ack_encode by done. done.
  - destruct Hp as (Hr & Hs). unfold parse_packet. cbn -[read_u32].
    change (read_u32 _ 0) with (read_u32 (to_be 4 r ++ to_be 4 s) 0).
    change (read_u32 _ 4) with (read_u32 (to_be 4 s ++ []) 0).
    by rewrite !read_u32_front.
  - destruct Hp as (Hr & Hl & Hns). unfold parse_packet.
    cbn -[parse_extended_reports encode_payload]. unfold parse_extended_reports.
    cbn [encode_payload].
    destruct (Nat.ltb_spec (length (to_be 4 r ++ concat (map encode_reference_time ns))) 4) as [Hlt|_].
    { rewrite length_app, length_to_be in Hlt. lia. }
    rewrite read_u32_front by done. cbn [bind].
    rewrite (parse_reference_times_encode _ (to_be 4 r)); [done|done|].
    rewrite length_app, (concat_length_const _ 12), length_to_be by done. lia.
  - done.
Qed.

Lemma header_encode p l :
  rtcp_packet_ok p ->
  RtcpHeader.parse (encode_packet p ++ l) =
    Ok (MkRtcpHeader (encode_count p) (encode_type p) (Z.of_nat (length (encode_payload p)) / 4)).
Proof.
  intros Hp. destruct (encode_payload_length p Hp) as (w & Hw & Hm).
  assert (Hc : 0 <= encode_count p < 32).
  { destruct p; cbn [encode_count] in *; unfold RTCP_SUBTYPE_FEEDBACK, RTCP_SUBTYPE_PICTURE_LOSS;
      simpl in Hp; lia. }
  unfold RtcpHeader.parse. cbn -[Z.land Z.shiftr read_u16 Z.of_nat encode_payload].
  change 0x1F with (Z.ones 5). change 3 with (Z.ones 2). rewrite !Z.land_ones by lia.
  rewrite Z.shiftr_div_pow2 by lia. change (2 ^ 5) with 32. change (2 ^ 6) with 64. change (2 ^ 2) with 4.
  replace ((128 + encode_count p) / 64 mod 4) with 2 by zlia. cbn [Z.eqb Pos.eqb negb].
  etransitivity; [apply (f_equal (fun r => bind r _));
    apply (read_u16_front (Z.of_nat (length (encode_payload p)) / 4) l)|].
  - rewrite Hw. zlia.
  - cbn [bind]. do 2 f_equal. zlia.
Qed.

Lemma encode_packet_length p :
  rtcp_packet_ok p ->
  length (encode_packet p) =
    (4 + Z.to_nat (Z.of_nat (length (encode_payload p)) / 4) * 4)%nat.
Proof.
  intros Hp. destruct (encode_payload_length p Hp) as (w & Hw & _).
  unfold encode_packet. rewrite !length_app, length_to_be, Hw. cbn [length]. zlia.
Qed.

Lemma parse_packets_encode fuel pre ps c :
  Forall rtcp_packet_ok ps -> (length ps < fuel)%nat ->
  parse_packets fuel (pre ++ concat (map encode_packet ps)) (length pre) c
  = Ok (fold_left deliver ps c, length (pre ++ concat (map encode_packet ps))).
Proof.
  intros Hps. revert fuel pre c. induction Hps as [|p ps Hp Hps IH]; intros fuel pre c Hf;
    (destruct fuel as [|fuel]; [simpl in Hf; lia|]); cbn [parse_packets].
  - simpl. rewrite app_nil_r. destruct (Nat.leb_spec (length pre + 4) (length pre)); [lia|done].
  - cbn [map concat fold_left]. set (post := concat (map encode_packet ps)).
    pose proof (encode_packet_length p Hp) as Hlen.
    set (k := Z.to_nat (Z.of_nat (length (encode_payload p)) / 4)) in *.
    assert (Htot : length (pre ++ encode_packet p ++ post) = (length pre + (4 + k * 4) + length post)%nat)
      by (rewrite !length_app, Hlen; lia).
    destruct (Nat.leb_spec (length pre + 4) (length (pre ++ encode_packet p ++ post))); [|lia].
    rewrite slice_Ok by lia. cbn [bind].
    rewrite drop_app_length, take_ge by (rewrite length_app; lia).
    rewrite header_encode by done. cbn [bind hlength]. fold k.
    destruct (Nat.ltb_spec (length (pre ++ encode_packet p ++ post)) (length pre + (4 + k * 4))); [lia|].
    rewrite slice_Ok by lia. cbn [bind].
    replace (length pre + (4 + k * 4) - (length pre + 4))%nat with (length (encode_payload p))
      by (unfold encode_packet in Hlen; rewrite !length_app, length_to_be in Hlen; simpl in Hlen; lia).
    rewrite <- drop_drop, drop_app_length.
    change (drop 4 (encode_packet p ++ post)) with (encode_payload p ++ post).
    rewrite take_app_length, parse_packet_encode by done. cbn [bind].
    rewrite app_assoc. replace (length pre + (4 + k * 4))%nat with (length (pre ++ encode_packet p))
      by (rewrite length_app; lia).
    apply IH. simpl in Hf. lia.
Qed.

Lemma encode_packets_count ps : (length ps <= length (concat (map encode_packet ps)))%nat.
Proof.
  induction ps as [|p ps IH]; cbn [map concat length]; [lia|].
  rewrite length_app. unfold encode_packet at 1. rewrite !length_app. cbn [length]. lia.
Qed.

Lemma parse_compound_encode ps :
  Forall rtcp_packet_ok ps ->
  parse_compound (concat (map encode_packet ps)) = Ok (fold_left deliver ps compound_default).
Proof.
  intros Hps. unfold parse_compound.
  rewrite (parse_packets_encode _ [] ps) by (done || (pose proof (encode_packets_count ps); lia)).
  cbn [bind app]. by rewrite Nat.eqb_refl.
Qed.

(** C26: parsing inverts encoding: every compound packet a receiver can build
    from report blocks, Cast feedback (loss fields with their bit vectors,
    checkpoint, playout delay, optional ACK bitvector), picture-loss, and
    reference-time packets parses to exactly what those packets carry. *)
Theorem parse_compound_roundtrip ps :
  Forall rtcp_packet_ok ps ->
  parse_compound (concat (map encode_packet ps)) = Ok (fold_left deliver ps compound_default).
Proof. apply parse_compound_encode. Qed.

Lemma parse_compound_roundtrip_witness :
  let ps := [PReport 9 [MkReceiverReport 9 8 1 (-5) 100 2 3 4];
             PFeedback 1 2 250 400 [MkLoss 3 65535 7; MkLoss 255 10 129] (Some (MkAckBitvector 7 [1; 2]));
             PPictureLoss 3 4; PReferenceTime 8 [77]] in
  parse_compound (concat (map encode_packet ps)) = Ok (fold_left deliver ps compound_default).
Proof.
  intros ps. apply (parse_compound_roundtrip ps). subst ps.
  assert (Ha : ack_ok (MkAckBitvector 7 [1; 2]))
    by (split; [unfold is_byte; simpl; lia|split; [solve_bytes|simpl; lia]]).
  repeat match goal with
    | |- Forall _ [] => apply Forall_nil_2
    | |- Forall _ (_ :: _) => apply Forall_cons_2
    | |- _ /\ _ => split
    | |- forall a, Some _ = Some a -> _ => intros a [= <-]; exact Ha
    | |- rtcp_packet_ok _ => cbn [rtcp_packet_ok]
    | |- report_ok _ => unfold report_ok
    | |- loss_field_ok _ => unfold loss_field_ok
    end; unfold u32_ok, is_byte, u16_max, ALL_PACKETS_LOST; simpl; lia.
Defined.
