(* ===== verification/Stream.v ===== *)
(** * Per-stream sender state ([src/src/sender/stream.rs], [src/src/sender/stats.rs])

    The record below has the fields of [StreamState] in the source's order.
    Methods that take [&mut self] return the new state; the clock readings
    they make ([Instant::now], [NtpTimestamp::now]) are arguments.

    Frame ids are [i64] and exact: overflow would need 2^63 frames.  Counters
    keep their widths ([u64], wrapping or saturating as the source says). *)

From S2P Require Import Prelude Constants Time Errors Frame SyncSource Crypto Rtp Rtcp.

Definition SENDER_REPORT_HISTORY : nat := 16.
Definition MINIMUM_IN_FLIGHT_MEDIA_DURATION : Duration := from_millis 66.

Record PendingFrame := MkPendingFrame {
  pf_frame_id : FrameId;
  pf_media_timestamp : Duration;
  pf_duration : option Duration;
  pf_packets : list RtpPacket;
}.

Record QueuedPacket := MkQueued {
  q_frame_id : FrameId;
  q_packet : RtpPacket;
}.

Record SenderReportRecord := MkSenderReport {
  compact_ntp : Z;
  sent_at : Instant;
}.

Record OutboundPacket := MkOutbound {
  o_packet : RtpPacket;
  o_retransmission : bool;
}.

Record StreamParameters := MkParameters {
  p_sender_sync_source : SyncSource;
  p_receiver_sync_source : SyncSource;
  p_rtp_payload_type : Z;
  p_rtp_timebase : Z;
  p_target_playout_delay : Duration;
  p_adaptive_playout_delay : bool;
  p_aes_key : bytes;
  p_aes_iv_mask : bytes;
  p_max_packet_size : Z;
}.

Record StreamState := MkStreamState {
  crypto : FrameCrypto;
  packetizer : RtpPacketizer;
  sender_sync_source : SyncSource;
  receiver_sync_source : SyncSource;
  rtp_timebase : Z;
  target_playout_delay : Duration;
  adaptive_playout_delay : bool;
  pending_playout_delay : option Duration;
  next_frame_id : FrameId;
  checkpoint : FrameId;
  pending : list (option PendingFrame);
  last_media_timestamp : option Duration;
  last_reference_time : option Instant;
  last_rtp_timestamp : Z;
  rtp_packets_sent : Z;
  rtp_octets_sent : Z;
  packets_retransmitted : Z;
  frames_acked : Z;
  frames_dropped_or_skipped : Z;
  nack_count : Z;
  receiver_playout_delay : option Duration;
  current_rtt : option Duration;
  fraction_lost : option Z;
  cumulative_packets_lost : option Z;
  highest_sequence_number : option Z;
  jitter : option Z;
  last_ack_feedback_count : option Z;
  last_ack_bitvector_bytes : option Z;
  receiver_reference_time : option SystemTime;
  sender_reports : list SenderReportRecord;
  send_queue : list QueuedPacket;
  retransmit_queue : list QueuedPacket;
}.
#[export] Instance StreamState_eta : Eta StreamState := fun s =>
  MkStreamState (crypto s) (packetizer s) (sender_sync_source s) (receiver_sync_source s)
    (rtp_timebase s) (target_playout_delay s) (adaptive_playout_delay s)
    (pending_playout_delay s) (next_frame_id s) (checkpoint s) (pending s)
    (last_media_timestamp s) (last_reference_time s) (last_rtp_timestamp s)
    (rtp_packets_sent s) (rtp_octets_sent s) (packets_retransmitted s) (frames_acked s)
    (frames_dropped_or_skipped s) (nack_count s) (receiver_playout_delay s) (current_rtt s)
    (fraction_lost s) (cumulative_packets_lost s) (highest_sequence_number s) (jitter s)
    (last_ack_feedback_count s) (last_ack_bitvector_bytes s) (receiver_reference_time s)
    (sender_reports s) (send_queue s) (retransmit_queue s).

Record StreamStatistics := MkStreamStatistics {
  st_in_flight_frames : Z;
  st_in_flight_media_duration : Duration;
  st_max_acceptable_in_flight_duration : Duration;
  st_current_rtt : option Duration;
  st_receiver_playout_delay : option Duration;
  st_packets_sent : Z;
  st_packets_retransmitted : Z;
  st_frames_acked : Z;
  st_frames_dropped_or_skipped : Z;
  st_nack_count : Z;
  st_fraction_lost : option Z;
  st_cumulative_packets_lost : option Z;
  st_highest_sequence_number : option Z;
  st_jitter : option Z;
  st_last_ack_feedback_count : option Z;
  st_last_ack_bitvector_bytes : option Z;
  st_receiver_reference_time : option SystemTime;
}.

(** ** Free functions *)

Definition media_to_rtp_timestamp (media_timestamp : Duration) (timebase : Z) : Z :=
  let whole_seconds := wrap_u32 (wrap_u64 (as_secs media_timestamp * timebase)) in
  let fractional := subsec_nanos media_timestamp * timebase / 1000000000 in
  wrap_u32 (whole_seconds + wrap_u32 fractional).

Definition duration_from_ntp_short (value : Z) : Duration :=
  from_nanos (value * 1000000000 / 65536).

(** [frame_id.raw() as usize % MAX_UNACKED_FRAMES]. *)
Definition slot_of (frame_id : FrameId) : nat :=
  Z.to_nat (wrap_u64 frame_id mod MAX_UNACKED_FRAMES).

Module StreamState.

(** The random initial sequence number is the packetizer's. *)
Definition new (parameters : StreamParameters) (random_u16 : Z) : StreamState :=
  MkStreamState
    (FrameCrypto.new (p_aes_key parameters) (p_aes_iv_mask parameters))
    (RtpPacketizer.new (p_sender_sync_source parameters) (p_rtp_payload_type parameters)
       (p_max_packet_size parameters) random_u16)
    (p_sender_sync_source parameters)
    (p_receiver_sync_source parameters)
    (p_rtp_timebase parameters)
    (p_target_playout_delay parameters)
    (p_adaptive_playout_delay parameters)
    None
    FrameId.first
    (FrameId.first + -1)
    (replicate (Z.to_nat MAX_UNACKED_FRAMES) None)
    None None 0
    0 0 0 0 0 0
    None None None None None None None None None
    [] [] [].

Definition reject_frame (self : StreamState) (error : EnqueueError)
  : StreamState * Result EnqueueError FrameId :=
  (self <| frames_dropped_or_skipped := saturating_add_u64 (frames_dropped_or_skipped self) 1 |>,
   Err error).

Definition in_flight_id_span (self : StreamState) : Z :=
  wrap_u64 (next_frame_id self - (checkpoint self + 1)).

Definition enqueue_frame `{StreamCipher} (self : StreamState) (frame : EncodedFrame)
  : StreamState * Result EnqueueError FrameId :=
  match data frame with
  | [] => reject_frame self EmptyFrame
  | _ =>
    if (next_frame_id self =? FrameId.first) && bool_decide (dependency frame <> KeyFrame)
    then reject_frame self FirstFrameMustBeKeyFrame
    else if match last_media_timestamp self with
            | Some last => media_timestamp frame <=? last
            | None => false
            end
    then reject_frame self NonMonotonicMediaTimestamp
    else if MAX_UNACKED_FRAMES <=? in_flight_id_span self
    then reject_frame self ReachedIdSpanLimit
    else
      let frame_id := next_frame_id self in
      let is_key := bool_decide (dependency frame = KeyFrame) in
      let rtp_timestamp := media_to_rtp_timestamp (media_timestamp frame) (rtp_timebase self) in
      let referenced_frame_id := if is_key then frame_id else frame_id + -1 in
      let d := FrameCrypto.encrypt (crypto self) frame_id (data frame) in
      let delay := pending_playout_delay self in
      let self := self <| pending_playout_delay := None |> in
      match @RtpPacketizer.packetize EnqueueError (packetizer self) frame_id is_key
              referenced_frame_id rtp_timestamp delay d with
      | Ok (packets, packetizer') =>
        let self := self <| packetizer := packetizer' |> in
        let self := self <| send_queue := send_queue self ++ map (MkQueued frame_id) packets |> in
        let self := self <| pending :=
              <[slot_of frame_id := Some (MkPendingFrame frame_id (media_timestamp frame)
                                            (duration frame) packets)]> (pending self) |> in
        let self := self <| last_media_timestamp := Some (media_timestamp frame) |> in
        let self := self <| last_reference_time := Some (reference_time frame) |> in
        let self := self <| last_rtp_timestamp := rtp_timestamp |> in
        let self := self <| next_frame_id := FrameId.next frame_id |> in
        (self, Ok frame_id)
      | Err e => (self, Err e)
      | Panic => (self, Panic)
      end
  end.

Definition supports_adaptive_playout_delay (self : StreamState) : bool :=
  adaptive_playout_delay self.

(** [debug_assert!(self.adaptive_playout_delay)] holds at its one call, behind the
    test of every stream (lemma [set_target_playout_delay_asserted]). *)
Definition set_target_playout_delay (self : StreamState) (delay : Duration) : StreamState :=
  self <| target_playout_delay := delay |> <| pending_playout_delay := Some delay |>.

(** [self.pending.iter().flatten()]. *)
Definition pending_frames (self : StreamState) : list PendingFrame := omap id (pending self).

Definition in_flight_count (self : StreamState) : Z := Z.of_nat (length (pending_frames self)).

(** The loop of [in_flight_media_duration]: the running (oldest, newest end). *)
Definition media_span_step (acc : option Duration * option Duration) (frame : PendingFrame)
  : option Duration * option Duration :=
  let '(oldest, newest_end) := acc in
  let oldest := Some (match oldest with
                      | Some o => Z.min o (pf_media_timestamp frame)
                      | None => pf_media_timestamp frame end) in
  let end_ := default (pf_media_timestamp frame)
                (d ← pf_duration frame; checked_add (pf_media_timestamp frame) d) in
  (oldest, Some (match newest_end with Some n => Z.max n end_ | None => end_ end)).

Definition in_flight_media_duration (self : StreamState) : Duration :=
  match fold_left media_span_step (pending_frames self) (None, None) with
  | (Some oldest, Some newest) => saturating_sub newest oldest
  | _ => 0
  end.

Definition cancel_queued_frame (self : StreamState) (frame_id : FrameId) : StreamState :=
  self <| send_queue := List.filter (fun q => negb (q_frame_id q =? frame_id)) (send_queue self) |>
       <| retransmit_queue :=
            List.filter (fun q => negb (q_frame_id q =? frame_id)) (retransmit_queue self) |>.

(** [self.pending[slot].as_ref().is_some_and(|p| p.frame_id == frame_id)];
    the slot is below the array length, so the index cannot panic. *)
Definition is_pending (self : StreamState) (frame_id : FrameId) : bool :=
  match pending self !! slot_of frame_id with
  | Some (Some p) => pf_frame_id p =? frame_id
  | _ => false
  end.

(** The body shared by the two acknowledgement loops. *)
Definition release_frame (self : StreamState) (frame_id : FrameId) : StreamState :=
  cancel_queued_frame (self <| pending := <[slot_of frame_id := None]> (pending self) |>) frame_id.

(** [for raw_id in start..start + n]. *)
Fixpoint acknowledge_loop (n : nat) (raw_id : Z) (self : StreamState) (acknowledged : list FrameId)
  : StreamState * list FrameId :=
  match n with
  | O => (self, acknowledged)
  | S n' =>
    if is_pending self raw_id
    then acknowledge_loop n' (raw_id + 1) (release_frame self raw_id) (acknowledged ++ [raw_id])
    else acknowledge_loop n' (raw_id + 1) self acknowledged
  end.

Definition acknowledge_up_to (self : StreamState) (frame_id : FrameId)
  : StreamState * list FrameId :=
  let start := checkpoint self + 1 in
  if frame_id <? start then (self, []) else
  let '(self, acknowledged) := acknowledge_loop (Z.to_nat (frame_id - start + 1)) start self [] in
  let self := self <| checkpoint := frame_id |> in
  let self := self <| frames_acked :=
    saturating_add_u64 (frames_acked self) (Z.of_nat (length acknowledged)) |> in
  (self, acknowledged).

(** [for bit_index in bit_index .. bit_index + n] of byte [byte_index]. *)
Fixpoint ack_bits_loop (n : nat) (bit_index byte_index : Z) (byte : Z) (cp : FrameId)
    (self : StreamState) (acknowledged : list FrameId) : StreamState * list FrameId :=
  match n with
  | O => (self, acknowledged)
  | S n' =>
    let '(self, acknowledged) :=
      if Z.land byte (Z.shiftl 1 bit_index) =? 0 then (self, acknowledged) else
      let offset := 2 + byte_index * 8 + bit_index in
      let frame_id := cp + offset in
      if next_frame_id self <=? frame_id then (self, acknowledged) else
      if is_pending self frame_id
      then (release_frame self frame_id, acknowledged ++ [frame_id])
      else (self, acknowledged) in
    ack_bits_loop n' (bit_index + 1) byte_index byte cp self acknowledged
  end.

Fixpoint ack_bytes_loop (l : bytes) (byte_index : Z) (cp : FrameId) (self : StreamState)
    (acknowledged : list FrameId) : StreamState * list FrameId :=
  match l with
  | [] => (self, acknowledged)
  | byte :: l' =>
    let '(self, acknowledged) := ack_bits_loop 8 0 byte_index byte cp self acknowledged in
    ack_bytes_loop l' (byte_index + 1) cp self acknowledged
  end.

Definition acknowledge_bitvector (self : StreamState) (cp : FrameId) (ack : option AckBitvector)
  : StreamState * list FrameId :=
  let self := self <| last_ack_feedback_count := feedback_count <$> ack |> in
  let self := self <| last_ack_bitvector_bytes :=
    (fun a => Z.of_nat (length (ack_data a))) <$> ack |> in
  match ack with
  | None => (self, [])
  | Some a =>
    let '(self, acknowledged) := ack_bytes_loop (ack_data a) 0 cp self [] in
    (self <| frames_acked :=
       saturating_add_u64 (frames_acked self) (Z.of_nat (length acknowledged)) |>, acknowledged)
  end.

Definition handle_nack (self : StreamState) (frame_id : FrameId) (packet_id : Z)
  : StreamState * Z :=
  let self := self <| nack_count := saturating_add_u64 (nack_count self) 1 |> in
  match pending self !! slot_of frame_id with
  | Some (Some p) =>
    if negb (pf_frame_id p =? frame_id) then (self, 0) else
    if ALL_PACKETS_LOST =? packet_id then
      (self <| retransmit_queue := retransmit_queue self ++ map (MkQueued frame_id) (pf_packets p) |>,
       Z.of_nat (length (pf_packets p)))
    else match pf_packets p !! Z.to_nat packet_id with
         | Some packet =>
           (self <| retransmit_queue := retransmit_queue self ++ [MkQueued frame_id packet] |>, 1)
         | None => (self, 0)
         end
  | _ => (self, 0)
  end.

Definition next_packet (self : StreamState) : StreamState * option OutboundPacket :=
  match retransmit_queue self with
  | q :: rest => (self <| retransmit_queue := rest |>, Some (MkOutbound (q_packet q) true))
  | [] =>
    match send_queue self with
    | q :: rest => (self <| send_queue := rest |>, Some (MkOutbound (q_packet q) false))
    | [] => (self, None)
    end
  end.

Definition accepts_receiver_sync_source (self : StreamState) (ssrc : SyncSource) : bool :=
  receiver_sync_source self =? ssrc.

Definition total_packets_sent (self : StreamState) : Z := wrap_u32 (rtp_packets_sent self).
Definition total_octets_sent (self : StreamState) : Z := wrap_u32 (rtp_octets_sent self).

(** [system_now] is [SystemTime::now] (inside [NtpTimestamp::now]) and
    [monotonic_now] is [Instant::now]. *)
Definition sender_report_timestamp (self : StreamState) (system_now : SystemTime)
    (monotonic_now : Instant) : NtpTimestamp.t * Z :=
  let ntp_now := NtpTimestamp.from_system_time system_now in
  match last_reference_time self with
  | None => (ntp_now, last_rtp_timestamp self)
  | Some reference_time =>
    let rtp_timestamp :=
      if reference_time <=? monotonic_now then
        wrap_u32 (last_rtp_timestamp self
          + media_to_rtp_timestamp (duration_since monotonic_now reference_time) (rtp_timebase self))
      else
        wrap_u32 (last_rtp_timestamp self
          - media_to_rtp_timestamp (duration_since reference_time monotonic_now) (rtp_timebase self)) in
    (ntp_now, rtp_timestamp)
  end.

Definition record_packet_sent (self : StreamState) (packet_size : Z) (retransmission : bool)
  : StreamState :=
  if retransmission then
    self <| packets_retransmitted := saturating_add_u64 (packets_retransmitted self) 1 |>
  else
    let self := self <| rtp_packets_sent := wrap_u64 (rtp_packets_sent self + 1) |> in
    let payload_size := saturating_sub packet_size RTP_STANDARD_HEADER_SIZE in
    self <| rtp_octets_sent := wrap_u64 (rtp_octets_sent self + payload_size) |>.

Definition record_sender_report (self : StreamState) (ntp : Z) (at_ : Instant) : StreamState :=
  let reports := if (length (sender_reports self) =? SENDER_REPORT_HISTORY)%nat
                 then drop 1 (sender_reports self) else sender_reports self in
  self <| sender_reports := reports ++ [MkSenderReport ntp at_] |>.

Definition update_receiver_report (self : StreamState) (report : ReceiverReport)
    (received_at : Instant) : StreamState :=
  let self := self <| fraction_lost := Some (rr_fraction_lost report) |> in
  let self := self <| cumulative_packets_lost := Some (rr_cumulative_lost report) |> in
  let self := self <| highest_sequence_number := Some (rr_highest_sequence report) |> in
  let self := self <| jitter := Some (rr_jitter report) |> in
  if rr_last_sr_timestamp report =? 0 then self else
  match List.find (fun record => compact_ntp record =? rr_last_sr_timestamp report)
          (rev (sender_reports self)) with
  | None => self
  | Some record =>
    let receiver_delay := duration_from_ntp_short (rr_delay_since_last_sr report) in
    self <| current_rtt :=
      (elapsed ← checked_duration_since received_at (sent_at record);
       checked_sub elapsed receiver_delay) |>
  end.

Definition update_playout_delay (self : StreamState) (delay_ms : Z) : StreamState :=
  self <| receiver_playout_delay := Some (from_millis delay_ms) |>.

Definition update_receiver_reference_time (self : StreamState) (report : ReceiverReferenceTime)
  : StreamState :=
  self <| receiver_reference_time := Some (NtpTimestamp.to_system_time (rt_ntp_timestamp report)) |>.

Definition max_acceptable_in_flight_duration (self : StreamState) : Duration :=
  let playout_delay := default (target_playout_delay self) (receiver_playout_delay self) in
  let maximum := Z.max (playout_delay / 3) MINIMUM_IN_FLIGHT_MEDIA_DURATION in
  let network_budget := saturating_mul (default 0 (current_rtt self)) 2 in
  Z.min (Z.max network_budget MINIMUM_IN_FLIGHT_MEDIA_DURATION) maximum.

Definition statistics (self : StreamState) : StreamStatistics :=
  MkStreamStatistics (in_flight_count self) (in_flight_media_duration self)
    (max_acceptable_in_flight_duration self) (current_rtt self) (receiver_playout_delay self)
    (rtp_packets_sent self) (packets_retransmitted self) (frames_acked self)
    (frames_dropped_or_skipped self) (nack_count self) (fraction_lost self)
    (cumulative_packets_lost self) (highest_sequence_number self) (jitter self)
    (last_ack_feedback_count self) (last_ack_bitvector_bytes self) (receiver_reference_time self).
End StreamState.
