(* ===== verification/StreamFacts.v ===== *)
(** * Invariant and behaviour of a stream ([src/src/sender/stream.rs])

    The window invariant of [Stream.v]'s state, its preservation by every
    operation, and what the acknowledgement and retransmission operations do. *)

From S2P Require Import Prelude Constants Time Errors Frame SyncSource Crypto Rtp Rtcp Stream.
Import StreamState.

(** ** The invariant *)

(** The in-flight frame with this id. *)
Definition lookup_frame (s : StreamState) (id : FrameId) : option PendingFrame :=
  match pending s !! slot_of id with
  | Some (Some p) => if pf_frame_id p =? id then Some p else None
  | _ => None
  end.

(** The window: the array has its length, at most [MAX_UNACKED_FRAMES] ids lie
    between the checkpoint and the next id, every occupied slot holds an id of
    that range in its own slot, and every queued packet belongs to a frame that
    is still in flight. *)
Record window_inv (s : StreamState) : Prop := {
  inv_length : length (pending s) = Z.to_nat MAX_UNACKED_FRAMES;
  inv_checkpoint : -1 <= checkpoint s < next_frame_id s;
  inv_range : next_frame_id s < 2 ^ 63;
  inv_span : next_frame_id s - (checkpoint s + 1) <= MAX_UNACKED_FRAMES;
  inv_pending i p : pending s !! i = Some (Some p) ->
    checkpoint s < pf_frame_id p < next_frame_id s /\ i = slot_of (pf_frame_id p);
  inv_queued q : In q (send_queue s ++ retransmit_queue s) ->
    exists p, lookup_frame s (q_frame_id q) = Some p /\ In (q_packet q) (pf_packets p);
}.

(** The accounting: accepted frames are acknowledged or in flight, the report
    history is bounded, the packetizer can split any frame, and no pending
    frame is newer than the last accepted timestamp. *)
Record stream_inv (s : StreamState) : Prop := {
  inv_window : window_inv s;
  inv_account : frames_acked s + in_flight_count s = next_frame_id s;
  inv_acked : 0 <= frames_acked s;
  inv_reports : (length (sender_reports s) <= SENDER_REPORT_HISTORY)%nat;
  inv_packetizer : packetizer_ok (packetizer s);
  inv_media p : In p (pending_frames s) ->
    exists last, last_media_timestamp s = Some last /\ pf_media_timestamp p <= last;
}.

(** ** Acknowledging a list of candidate ids *)

Definition ack_step (acc : StreamState * list FrameId) (id : FrameId) : StreamState * list FrameId :=
  let '(s, acked) := acc in
  if is_pending s id then (release_frame s id, acked ++ [id]) else (s, acked).

Definition ack_all (s : StreamState) (acked ids : list FrameId) : StreamState * list FrameId :=
  fold_left ack_step ids (s, acked).

(** The ids an ACK bitvector names: bit [k] stands for [cp + 2 + k], and ids
    not yet assigned are ignored. *)
Definition bitvector_ids (next cp : FrameId) (l : bytes) : list FrameId :=
  List.filter (fun id => id <? next)
    (map (fun k => cp + 2 + k)
       (List.filter (fun k => Z.testbit (nth (Z.to_nat (k / 8)) l 0) (k mod 8))
          (seqZ 0 (8 * Z.of_nat (length l))))).

(** Whether bit [k] of an ACK bitvector is set; false outside it. *)
Definition ack_bit (l : bytes) (k : Z) : bool :=
  (0 <=? k) && Z.testbit (nth (Z.to_nat (k / 8)) l 0) (k mod 8).

(** [released s s' ids]: [s'] is [s] with the in-flight frames [ids] dropped
    from the window and from both queues. *)
Record released (s s' : StreamState) (ids : list FrameId) : Prop := {
  rel_frame : s' = s <| pending := pending s' |> <| send_queue := send_queue s' |>
                     <| retransmit_queue := retransmit_queue s' |>;
  rel_length : length (pending s') = length (pending s);
  rel_sub i p : pending s' !! i = Some (Some p) -> pending s !! i = Some (Some p);
  rel_lookup id : lookup_frame s' id = if bool_decide (id ∈ ids) then None else lookup_frame s id;
  rel_send : send_queue s' =
    List.filter (fun q => negb (bool_decide (q_frame_id q ∈ ids))) (send_queue s);
  rel_retransmit : retransmit_queue s' =
    List.filter (fun q => negb (bool_decide (q_frame_id q ∈ ids))) (retransmit_queue s);
  rel_count : in_flight_count s' + Z.of_nat (length ids) = in_flight_count s;
}.

(** ** Slots *)

Lemma slot_of_lt id : (slot_of id < Z.to_nat MAX_UNACKED_FRAMES)%nat.
Proof. unfold slot_of, MAX_UNACKED_FRAMES. zlia. Qed.

Lemma slot_of_inj a b :
  0 <= a < 2 ^ 63 -> 0 <= b < 2 ^ 63 -> Z.abs (a - b) < MAX_UNACKED_FRAMES ->
  slot_of a = slot_of b -> a = b.
Proof.
  unfold slot_of, MAX_UNACKED_FRAMES, wrap_u64. intros Ha Hb Hd Hs.
  rewrite !(Z.mod_small _ (2 ^ 64)) in Hs by lia. zlia.
Qed.

Lemma is_pending_lookup s id : is_pending s id = bool_decide (is_Some (lookup_frame s id)).
Proof.
  unfold is_pending, lookup_frame. destruct (pending s !! slot_of id) as [[p|]|];
    [destruct (pf_frame_id p =? id)|..]; symmetry; try (by apply bool_decide_eq_true_2);
    apply bool_decide_eq_false_2; by intros [? ?].
Qed.

Lemma lookup_frame_Some s id p :
  lookup_frame s id = Some p <-> pending s !! slot_of id = Some (Some p) /\ pf_frame_id p = id.
Proof.
  unfold lookup_frame. destruct (pending s !! slot_of id) as [[q|]|]; [|naive_solver..].
  destruct (Z.eqb_spec (pf_frame_id q) id); naive_solver.
Qed.

Lemma lookup_frame_pending s i p :
  window_inv s -> pending s !! i = Some (Some p) -> lookup_frame s (pf_frame_id p) = Some p.
Proof.
  intros Hs Hi. destruct (inv_pending s Hs _ _ Hi) as [_ ->]. by apply lookup_frame_Some.
Qed.

Lemma lookup_frame_range s id p :
  window_inv s -> lookup_frame s id = Some p -> checkpoint s < id < next_frame_id s.
Proof.
  intros Hs Hl. apply lookup_frame_Some in Hl as [Hp <-]. by destruct (inv_pending s Hs _ _ Hp).
Qed.

(** ** Releasing frames *)

Lemma released_nil s : released s s [].
Proof.
  assert (Ht : forall l, l = List.filter (fun q => negb (bool_decide (q_frame_id q ∈ @nil Z))) l)
    by (intros l; symmetry; by apply filter_all).
  constructor; auto; [by destruct s|simpl; lia].
Qed.

Lemma release_frame_released s id :
  is_pending s id = true -> released s (release_frame s id) [id].
Proof.
  rewrite is_pending_lookup, bool_decide_eq_true. intros [p Hp].
  apply lookup_frame_Some in Hp as [Hp Hid]. pose proof (lookup_lt_Some _ _ _ Hp) as Hlt.
  assert (Hq : forall l, List.filter (fun q => negb (q_frame_id q =? id)) l =
    List.filter (fun q => negb (bool_decide (q_frame_id q ∈ [id]))) l).
  { intros l. apply filter_ext. intros q. f_equal.
    destruct (Z.eqb_spec (q_frame_id q) id); symmetry;
      [apply bool_decide_eq_true_2|apply bool_decide_eq_false_2]; by rewrite list_elem_of_singleton. }
  constructor; cbn; auto.
  - apply length_insert.
  - intros i q. rewrite list_lookup_insert. case_decide; naive_solver.
  - intros id'. unfold lookup_frame. cbn. rewrite list_lookup_insert.
    destruct (decide (slot_of id = slot_of id' /\ (slot_of id < length (pending s))%nat)) as [[He _]|Hne].
    + rewrite <- He, Hp. destruct (Z.eqb_spec (pf_frame_id p) id'); case_bool_decide as Hin;
        rewrite list_elem_of_singleton in Hin; naive_solver.
    + case_bool_decide as Hin; [|done]. apply list_elem_of_singleton in Hin as ->. exfalso. apply Hne. done.
  - unfold in_flight_count, pending_frames. cbn.
    rewrite (length_omap_insert_None _ _ _ Hp). lia.
Qed.

Lemma released_trans s s1 s2 ids1 ids2 :
  released s s1 ids1 -> released s1 s2 ids2 -> released s s2 (ids1 ++ ids2).
Proof.
  intros H1 H2.
  assert (Hd : forall id, bool_decide (id ∈ ids1 ++ ids2) =
    bool_decide (id ∈ ids1) || bool_decide (id ∈ ids2)).
  { intros id. rewrite <- bool_decide_or. apply bool_decide_ext, elem_of_app. }
  constructor.
  - rewrite (rel_frame _ _ _ H2), (rel_frame _ _ _ H1). done.
  - rewrite (rel_length _ _ _ H2). apply (rel_length _ _ _ H1).
  - intros i p Hi. by apply (rel_sub _ _ _ H1), (rel_sub _ _ _ H2).
  - intros id. rewrite (rel_lookup _ _ _ H2), (rel_lookup _ _ _ H1), Hd.
    by destruct (bool_decide (id ∈ ids1)), (bool_decide (id ∈ ids2)).
  - rewrite (rel_send _ _ _ H2), (rel_send _ _ _ H1), filter_filter_comm.
    apply filter_ext. intros q. by rewrite Hd, negb_orb.
  - rewrite (rel_retransmit _ _ _ H2), (rel_retransmit _ _ _ H1), filter_filter_comm.
    apply filter_ext. intros q. by rewrite Hd, negb_orb.
  - pose proof (rel_count _ _ _ H1). pose proof (rel_count _ _ _ H2). rewrite length_app. lia.
Qed.

Lemma released_window s s' ids : released s s' ids -> window_inv s -> window_inv s'.
Proof.
  intros H Hs. pose proof (rel_frame _ _ _ H) as Hf.
  assert (Hc : checkpoint s' = checkpoint s) by (by rewrite Hf).
  assert (Hn : next_frame_id s' = next_frame_id s) by (by rewrite Hf).
  constructor; rewrite ?Hc, ?Hn; try apply Hs.
  - rewrite (rel_length _ _ _ H). apply Hs.
  - intros i p Hi. apply (inv_pending s Hs). by apply (rel_sub _ _ _ H).
  - intros q Hq. rewrite (rel_send _ _ _ H), (rel_retransmit _ _ _ H), <- filter_app in Hq.
    apply filter_In in Hq as [Hq Hid]. destruct (inv_queued s Hs q Hq) as (p & Hp & Hin).
    exists p. rewrite (rel_lookup _ _ _ H). by destruct (bool_decide _).
Qed.

(** Acknowledging a duplicate-free list releases exactly its in-flight ids. *)
Lemma ack_all_spec s ids acked :
  NoDup ids ->
  exists s', ack_all s acked ids = (s', acked ++ List.filter (is_pending s) ids) /\
             released s s' (List.filter (is_pending s) ids).
Proof.
  unfold ack_all. intros Hnd. revert s acked.
  induction Hnd as [|id ids Hni Hnd IH]; intros s acked.
  - exists s. split; [by rewrite app_nil_r|apply released_nil].
  - cbn [fold_left ack_step List.filter]. destruct (is_pending s id) eqn:Hp.
    + pose proof (release_frame_released s id Hp) as Hr.
      destruct (IH (release_frame s id) (acked ++ [id])) as (s' & -> & Hs').
      assert (Hf : List.filter (is_pending (release_frame s id)) ids = List.filter (is_pending s) ids).
      { apply filter_ext_in. intros x Hx. rewrite !is_pending_lookup, (rel_lookup _ _ _ Hr).
        rewrite (bool_decide_eq_false_2 (x ∈ [id])); [done|].
        intros ->%list_elem_of_singleton. by apply list_elem_of_In in Hx. }
      rewrite Hf in *. exists s'. split; [by rewrite <- app_assoc|].
      apply (released_trans _ _ _ [id] _ Hr Hs').
    + destruct (IH s acked) as (s' & -> & Hs'). by exists s'.
Qed.

(** ** The source's loops are [ack_all] over their ids *)

Lemma acknowledge_loop_all n raw s acked :
  acknowledge_loop n raw s acked = ack_all s acked (seqZ raw (Z.of_nat n)).
Proof.
  unfold ack_all. revert raw s acked. induction n as [|n IH]; intros raw s acked; [done|].
  rewrite seqZ_cons by lia. replace (Z.pred (Z.of_nat (S n))) with (Z.of_nat n) by lia.
  cbn [acknowledge_loop fold_left ack_step]. change (Z.succ raw) with (raw + 1).
  destruct (is_pending s raw); apply IH.
Qed.

Lemma ack_step_next s acked id s' acked' :
  ack_step (s, acked) id = (s', acked') -> next_frame_id s' = next_frame_id s.
Proof. simpl. destruct (is_pending s id); intros [= <- <-]; done. Qed.

(** One bit of the vector is one candidate, filtered by the bit and by the
    next id. *)
Lemma ack_bits_loop_all n bit bi byte cp s acked next :
  next_frame_id s = next -> 0 <= bit ->
  ack_bits_loop n bit bi byte cp s acked =
  ack_all s acked (List.filter (fun id => id <? next)
    (map (fun k => cp + (2 + bi * 8 + k))
      (List.filter (fun k => Z.testbit byte k) (seqZ bit (Z.of_nat n))))) /\
  next_frame_id (fst (ack_bits_loop n bit bi byte cp s acked)) = next.
Proof.
  unfold ack_all. revert bit s acked. induction n as [|n IH]; intros bit s acked Hn Hb; [done|].
  rewrite seqZ_cons by lia. replace (Z.pred (Z.of_nat (S n))) with (Z.of_nat n) by lia.
  cbn [ack_bits_loop List.filter]. change (Z.succ bit) with (bit + 1).
  rewrite land_mask_testbit by lia. rewrite Hn.
  destruct (Z.testbit byte bit); cbn [negb map List.filter]; [|by apply IH; [|lia]].
  replace (next <=? cp + (2 + bi * 8 + bit)) with (negb (cp + (2 + bi * 8 + bit) <? next))
    by (rewrite Z.ltb_antisym; apply negb_involutive).
  destruct (_ <? next); cbn [negb fold_left]; [|by apply IH; [|lia]].
  destruct (ack_step (s, acked) (cp + (2 + bi * 8 + bit))) as [s1 acked1] eqn:He.
  cbn [ack_step] in He. rewrite He. apply IH; [|lia].
  rewrite <- Hn. by apply (ack_step_next s acked (cp + (2 + bi * 8 + bit)) s1 acked1).
Qed.

Lemma fold_left_ack_app s acked l1 l2 s1 acked1 :
  ack_all s acked l1 = (s1, acked1) -> ack_all s acked (l1 ++ l2) = ack_all s1 acked1 l2.
Proof. unfold ack_all. intros H. by rewrite fold_left_app, H. Qed.

(** The candidates of the bytes from index [bi] on. *)
Lemma bytes_candidates (next cp : FrameId) (pre l : bytes) byte :
  List.filter (fun id => id <? next)
    (map (fun k => cp + (2 + Z.of_nat (length pre) * 8 + k))
      (List.filter (fun k => Z.testbit byte k) (seqZ 0 8))) =
  List.filter (fun id => id <? next)
    (map (fun k => cp + 2 + k)
      (List.filter (fun k => Z.testbit (nth (Z.to_nat (k / 8)) (pre ++ byte :: l) 0) (k mod 8))
        (seqZ (8 * Z.of_nat (length pre)) 8))).
Proof.
  f_equal. rewrite <- (Z.add_0_r (8 * Z.of_nat (length pre))), <- fmap_add_seqZ.
  change (fmap ?f) with (map f). set (m := Z.of_nat (length pre)).
  assert (Hall : Forall (fun k => 0 <= k < 8) (seqZ 0 8)) by (apply Forall_seqZ; intros; lia).
  induction Hall as [|k ks Hk Hks IH]; [done|]. cbn [map List.filter].
  replace ((8 * m + k) / 8) with m by zlia. replace ((8 * m + k) mod 8) with k by zlia.
  replace (Z.to_nat m) with (length pre) by (subst m; lia). rewrite nth_middle.
  destruct (Z.testbit byte k); cbn [map]; rewrite IH; [f_equal; lia|done].
Qed.

Lemma ack_bytes_loop_all (next cp : FrameId) (l pre : bytes) s acked :
  next_frame_id s = next ->
  ack_bytes_loop l (Z.of_nat (length pre)) cp s acked =
  ack_all s acked (List.filter (fun id => id <? next)
    (map (fun k => cp + 2 + k)
      (List.filter (fun k => Z.testbit (nth (Z.to_nat (k / 8)) (pre ++ l) 0) (k mod 8))
        (seqZ (8 * Z.of_nat (length pre)) (8 * Z.of_nat (length l)))))).
Proof.
  revert pre s acked. induction l as [|byte l IH]; intros pre s acked Hn; [done|].
  cbn [ack_bytes_loop length].
  destruct (ack_bits_loop_all 8 0 (Z.of_nat (length pre)) byte cp s acked next Hn ltac:(lia)) as [He Hs].
  destruct (ack_bits_loop 8 0 (Z.of_nat (length pre)) byte cp s acked) as [s1 acked1] eqn:Hl.
  replace (8 * Z.of_nat (S (length l))) with (8 + 8 * Z.of_nat (length l)) by lia.
  rewrite seqZ_app by lia. rewrite !filter_app, map_app, filter_app.
  symmetry. erewrite fold_left_ack_app; [symmetry|rewrite <- bytes_candidates; by symmetry].
  replace (8 * Z.of_nat (length pre) + 8) with (8 * Z.of_nat (length (pre ++ [byte])))
    by (rewrite length_app; simpl; lia).
  replace (Z.of_nat (length pre) + 1) with (Z.of_nat (length (pre ++ [byte])))
    by (rewrite length_app; simpl; lia).
  rewrite (IH (pre ++ [byte])) by done. by rewrite <- app_assoc.
Qed.

Lemma NoDup_bitvector_ids next cp l : NoDup (bitvector_ids next cp l).
Proof.
  apply NoDup_ListNoDup. unfold bitvector_ids. apply List.NoDup_filter, NoDup_ListNoDup.
  assert (Inj (=) (=) (fun k => cp + 2 + k)) by (intros ? ? ?; lia).
  apply (NoDup_fmap_2 (fun k => cp + 2 + k)).
  apply NoDup_ListNoDup, List.NoDup_filter, NoDup_ListNoDup, NoDup_seqZ.
Qed.

(** ** The acknowledgement operations *)

(** Changing fields the window does not read keeps it. *)
Lemma window_inv_ext s s' :
  pending s' = pending s -> next_frame_id s' = next_frame_id s -> checkpoint s' = checkpoint s ->
  (forall q, In q (send_queue s' ++ retransmit_queue s') -> In q (send_queue s ++ retransmit_queue s)) ->
  window_inv s -> window_inv s'.
Proof.
  intros Hp Hn Hc Hq Hs. constructor; rewrite ?Hp, ?Hn, ?Hc; try apply Hs.
  intros q Hin. destruct (inv_queued s Hs q (Hq q Hin)) as (p & Hl & Hpk).
  exists p. split; [|done]. unfold lookup_frame. by rewrite Hp.
Qed.

(** Changing only fields outside the invariant keeps it. *)
Lemma stream_inv_ext s s' :
  pending s' = pending s -> next_frame_id s' = next_frame_id s -> checkpoint s' = checkpoint s ->
  (forall q, In q (send_queue s' ++ retransmit_queue s') -> In q (send_queue s ++ retransmit_queue s)) ->
  frames_acked s' = frames_acked s -> sender_reports s' = sender_reports s ->
  packetizer s' = packetizer s -> last_media_timestamp s' = last_media_timestamp s ->
  stream_inv s -> stream_inv s'.
Proof.
  intros Hp Hn Hc Hq Ha Hr Hk Hm Hs.
  assert (Hf : pending_frames s' = pending_frames s) by (unfold pending_frames; by rewrite Hp).
  constructor; unfold in_flight_count; rewrite ?Hf, ?Ha, ?Hr, ?Hk, ?Hm, ?Hn; try apply Hs.
  apply (window_inv_ext s); auto. apply Hs.
Qed.

(** Releasing frames and counting them as acknowledged keeps the invariant. *)
Lemma released_stream_inv s s' ids n :
  released s s' ids -> stream_inv s -> n = Z.of_nat (length ids) ->
  stream_inv (s' <| frames_acked := saturating_add_u64 (frames_acked s') n |>).
Proof.
  intros H Hs ->. pose proof (rel_frame _ _ _ H) as Hf. pose proof (rel_count _ _ _ H) as Hc.
  pose proof (inv_account s Hs) as Ha. pose proof (inv_acked s Hs).
  pose proof (inv_range s (inv_window s Hs)).
  assert (Hfa : frames_acked s' = frames_acked s) by (by rewrite Hf).
  assert (Hn : next_frame_id s' = next_frame_id s) by (by rewrite Hf).
  assert (0 <= in_flight_count s') by (unfold in_flight_count; lia).
  constructor; cbn.
  - apply (window_inv_ext s'); auto. by apply (released_window s s' ids H), Hs.
  - change (in_flight_count _) with (in_flight_count s'). unfold saturating_add_u64, u64_max.
    rewrite Hfa, Hn. lia.
  - unfold saturating_add_u64, u64_max. lia.
  - replace (sender_reports s') with (sender_reports s) by (by rewrite Hf). apply Hs.
  - replace (packetizer s') with (packetizer s) by (by rewrite Hf). apply Hs.
  - intros p Hp. replace (last_media_timestamp s') with (last_media_timestamp s) by (by rewrite Hf).
    apply (inv_media s Hs). apply list_elem_of_In, elem_of_omap_id in Hp as [i Hi]; cbn in Hi.
    apply list_elem_of_In, elem_of_omap_id. exists i. by apply (rel_sub _ _ _ H).
Qed.

(** The released frames characterised by a predicate on ids in flight. *)
Lemma released_pred s s' ids (P : FrameId -> bool) :
  window_inv s -> released s s' (List.filter (is_pending s) ids) ->
  (forall id, is_Some (lookup_frame s id) -> bool_decide (id ∈ ids) = P id) ->
  (forall id, lookup_frame s' id = if P id then None else lookup_frame s id) /\
  send_queue s' = List.filter (fun q => negb (P (q_frame_id q))) (send_queue s) /\
  retransmit_queue s' = List.filter (fun q => negb (P (q_frame_id q))) (retransmit_queue s).
Proof.
  intros Hs H HP.
  assert (Hd : forall id, is_Some (lookup_frame s id) ->
    bool_decide (id ∈ List.filter (is_pending s) ids) = P id).
  { intros id Hid. rewrite <- (HP id Hid). apply bool_decide_ext.
    rewrite !list_elem_of_In, filter_In, is_pending_lookup, bool_decide_eq_true. tauto. }
  assert (Hq : forall l, (forall q, In q l -> In q (send_queue s ++ retransmit_queue s)) ->
    List.filter (fun q => negb (bool_decide (q_frame_id q ∈ List.filter (is_pending s) ids))) l =
    List.filter (fun q => negb (P (q_frame_id q))) l).
  { intros l Hl. apply filter_ext_in. intros q Hin.
    destruct (inv_queued s Hs q (Hl q Hin)) as (p & Hp & _). by rewrite Hd by eauto. }
  rewrite (rel_send _ _ _ H), (rel_retransmit _ _ _ H).
  split; [|split; apply Hq; intros q; rewrite in_app_iff; auto].
  intros id. rewrite (rel_lookup _ _ _ H). destruct (lookup_frame s id) eqn:Hl.
  - by rewrite Hd by (rewrite Hl; eauto).
  - by destruct (bool_decide _), (P id).
Qed.

Lemma ack_bit_range l k : ack_bit l k = true -> 0 <= k < 8 * Z.of_nat (length l).
Proof.
  unfold ack_bit. rewrite andb_true_iff, Z.leb_le. intros [H0 Hb]. split; [done|].
  destruct (decide (k < 8 * Z.of_nat (length l))); [done|].
  rewrite nth_overflow in Hb by zlia. by rewrite Z.bits_0 in Hb.
Qed.

Lemma elem_of_bitvector_ids next cp l id :
  id ∈ bitvector_ids next cp l <-> id < next /\ ack_bit l (id - cp - 2) = true.
Proof.
  unfold bitvector_ids. rewrite list_elem_of_In, filter_In, in_map_iff, Z.ltb_lt. split.
  - intros [(k & <- & Hk) Hlt]. split; [done|]. apply filter_In in Hk as [Hk Hb].
    apply list_elem_of_In, elem_of_seqZ in Hk. replace (cp + 2 + k - cp - 2) with k by lia.
    unfold ack_bit. rewrite Hb, andb_true_r. lia.
  - intros [Hlt Hb]. split; [|done]. pose proof (ack_bit_range _ _ Hb).
    exists (id - cp - 2). split; [lia|]. apply filter_In. split.
    + apply list_elem_of_In, elem_of_seqZ. lia.
    + unfold ack_bit in Hb. by apply andb_true_iff in Hb as [_ Hb].
Qed.

(** Moving the checkpoint up to an id below which nothing is in flight. *)
Lemma window_inv_checkpoint s id :
  window_inv s -> checkpoint s <= id < next_frame_id s ->
  (forall id', is_Some (lookup_frame s id') -> id < id') ->
  window_inv (s <| checkpoint := id |>).
Proof.
  intros Hw Hid Hl. pose proof (inv_checkpoint s Hw). pose proof (inv_span s Hw).
  constructor; cbn; try apply Hw; try lia.
  intros i p Hi. destruct (inv_pending s Hw i p Hi) as [? ->].
  pose proof (Hl (pf_frame_id p)) as Hp. rewrite (lookup_frame_pending s _ p Hw Hi) in Hp.
  intuition eauto with lia.
Qed.

(** The cumulative acknowledgement drops every frame and every queued packet
    up to [id]. *)
Lemma acknowledge_up_to_frame s id :
  stream_inv s -> id < next_frame_id s ->
  let '(s', acked) := acknowledge_up_to s id in
  stream_inv s' /\
  checkpoint s' = Z.max (checkpoint s) id /\ next_frame_id s' = next_frame_id s /\
  acked = List.filter (is_pending s) (seqZ (checkpoint s + 1) (id - checkpoint s)) /\
  (forall id', lookup_frame s' id' = if id' <=? id then None else lookup_frame s id') /\
  send_queue s' = List.filter (fun q => negb (q_frame_id q <=? id)) (send_queue s) /\
  retransmit_queue s' = List.filter (fun q => negb (q_frame_id q <=? id)) (retransmit_queue s).
Proof.
  intros Hs Hid. pose proof (inv_window s Hs) as Hw. unfold acknowledge_up_to.
  assert (Hold : forall id', is_Some (lookup_frame s id') -> checkpoint s < id')
    by (intros id' [p Hp]; apply (lookup_frame_range s id' p Hw Hp)).
  destruct (Z.ltb_spec id (checkpoint s + 1)) as [Hlt|Hge].
  - destruct (released_pred s s [] (fun id' => id' <=? id) Hw (released_nil s)) as (Hl & Hsq & Hrq).
    { intros id' Hid'. pose proof (Hold _ Hid'). rewrite bool_decide_eq_false_2 by apply not_elem_of_nil. lia. }
    rewrite seqZ_nil by lia. split_and!; auto; lia.
  - rewrite acknowledge_loop_all, Z2Nat.id by lia.
    replace (id - (checkpoint s + 1) + 1) with (id - checkpoint s) by lia.
    destruct (ack_all_spec s (seqZ (checkpoint s + 1) (id - checkpoint s)) []) as (s' & -> & Hr);
      [apply NoDup_seqZ|]. cbn [app].
    destruct (released_pred s s' _ (fun id' => id' <=? id) Hw Hr) as (Hl & Hsq & Hrq).
    { intros id' Hid'. pose proof (Hold _ Hid').
      destruct (Z.leb_spec id' id); [apply bool_decide_eq_true_2|apply bool_decide_eq_false_2];
        rewrite elem_of_seqZ; lia. }
    pose proof (rel_frame _ _ _ Hr) as Hf.
    assert (Hn : next_frame_id s' = next_frame_id s) by (by rewrite Hf).
    assert (Hc : checkpoint s' = checkpoint s) by (by rewrite Hf).
    pose proof (released_stream_inv s s' _ _ Hr Hs eq_refl) as Hs'.
    split; [|split_and!; cbn; auto; lia].
    constructor; try apply Hs'. apply (window_inv_checkpoint _ id (inv_window _ Hs')); cbn; [lia|].
    intros id'. change (lookup_frame _ id') with (lookup_frame s' id'). rewrite Hl.
    destruct (Z.leb_spec id' id); [by intros [? ?]|done].
Qed.

(** An ACK bitvector releases exactly the in-flight frames whose bit is set. *)
Lemma acknowledge_bitvector_frame s cp a :
  stream_inv s ->
  let '(s', acked) := acknowledge_bitvector s cp (Some a) in
  stream_inv s' /\
  checkpoint s' = checkpoint s /\ next_frame_id s' = next_frame_id s /\
  acked = List.filter (is_pending s) (bitvector_ids (next_frame_id s) cp (ack_data a)) /\
  (forall id, lookup_frame s' id =
     if ack_bit (ack_data a) (id - cp - 2) then None else lookup_frame s id) /\
  send_queue s' =
    List.filter (fun q => negb (ack_bit (ack_data a) (q_frame_id q - cp - 2))) (send_queue s) /\
  retransmit_queue s' =
    List.filter (fun q => negb (ack_bit (ack_data a) (q_frame_id q - cp - 2))) (retransmit_queue s).
Proof.
  intros Hs. unfold acknowledge_bitvector. cbn [fmap option_fmap option_map].
  set (s0 := s <| last_ack_feedback_count := _ |> <| last_ack_bitvector_bytes := _ |>).
  assert (Hs0 : stream_inv s0) by (apply (stream_inv_ext s); auto).
  pose proof (inv_window s0 Hs0) as Hw.
  pose proof (ack_bytes_loop_all (next_frame_id s0) cp (ack_data a) [] s0 [] eq_refl) as He.
  cbn [length app] in He. change (8 * Z.of_nat 0) with 0 in He. change (Z.of_nat 0) with 0 in He.
  rewrite He. fold (bitvector_ids (next_frame_id s0) cp (ack_data a)).
  destruct (ack_all_spec s0 (bitvector_ids (next_frame_id s0) cp (ack_data a)) []) as (s' & -> & Hr);
    [apply NoDup_bitvector_ids|]. cbn [app].
  destruct (released_pred s0 s' _ (fun id => ack_bit (ack_data a) (id - cp - 2)) Hw Hr) as (Hl & Hsq & Hrq).
  { intros id [p Hp]. pose proof (lookup_frame_range s0 id p Hw Hp).
    destruct (ack_bit _ _) eqn:Hb; [apply bool_decide_eq_true_2|apply bool_decide_eq_false_2];
      rewrite elem_of_bitvector_ids, Hb; naive_solver lia. }
  pose proof (rel_frame _ _ _ Hr) as Hf.
  split; [by apply (released_stream_inv s0 s' _ _ Hr Hs0)|].
  split; [cbn; by rewrite Hf|]. split; [cbn; by rewrite Hf|]. by split_and!.
Qed.
