(* ===== verification/StreamSteps.v ===== *)
(** * The stream as a state machine ([src/src/sender/stream.rs])

    [stream_step] has one rule per mutating method of [StreamState]; every
    reachable state satisfies [stream_inv].  [Window] is the abstract sliding
    window a Cast sender promises, and [stream_step] refines it. *)

From stdpp Require Import gmap.
From S2P Require Import Prelude Constants Time Errors Frame SyncSource Crypto Rtp Rtcp Stream StreamFacts.
Import StreamState.

(** ** Accepting a frame *)

(** What [enqueue_frame] requires of a frame. *)
Definition acceptable (s : StreamState) (frame : EncodedFrame) : Prop :=
  data frame <> [] /\
  (next_frame_id s = FrameId.first -> dependency frame = KeyFrame) /\
  (forall last, last_media_timestamp s = Some last -> last < media_timestamp frame) /\
  next_frame_id s - (checkpoint s + 1) < MAX_UNACKED_FRAMES.

(** The packets of the frame that would be accepted next. *)
Definition frame_packets `{StreamCipher} (s : StreamState) (frame : EncodedFrame) : list RtpPacket :=
  let id := next_frame_id s in
  let key_frame := bool_decide (dependency frame = KeyFrame) in
  let payload := FrameCrypto.encrypt (crypto s) id (data frame) in
  let n := packet_count (packetizer s) payload in
  map (fun j => MkRtpPacket (packet_at (packetizer s) id key_frame
         (if key_frame then id else id + -1)
         (media_to_rtp_timestamp (media_timestamp frame) (rtp_timebase s))
         (pending_playout_delay s) payload n j)) (seq 0 n).

(** The state after accepting a frame. *)
Definition accepted `{StreamCipher} (s : StreamState) (frame : EncodedFrame) : StreamState :=
  let id := next_frame_id s in
  let packets := frame_packets s frame in
  s <| pending_playout_delay := None |>
    <| packetizer := (packetizer s) <| sequence_number :=
         wrap_u16 (sequence_number (packetizer s) + Z.of_nat (length packets)) |> |>
    <| send_queue := send_queue s ++ map (MkQueued id) packets |>
    <| pending := <[slot_of id := Some (MkPendingFrame id (media_timestamp frame)
                                          (duration frame) packets)]> (pending s) |>
    <| last_media_timestamp := Some (media_timestamp frame) |>
    <| last_reference_time := Some (reference_time frame) |>
    <| last_rtp_timestamp := media_to_rtp_timestamp (media_timestamp frame) (rtp_timebase s) |>
    <| next_frame_id := id + 1 |>.

(** The parameters a stream may be created with: the widths of the Rust
    types and a packet size above the header. *)
Definition parameters_ok (p : StreamParameters) (random_u16 : Z) : Prop :=
  packetizer_ok (RtpPacketizer.new (p_sender_sync_source p) (p_rtp_payload_type p)
                   (p_max_packet_size p) random_u16).

(** ** Steps *)

(** The methods the event loop calls.  The parser bounds a checkpoint by the
    newest frame sent, and 2^63 frames are never sent. *)
Inductive stream_step `{StreamCipher} (s : StreamState) : StreamState -> Prop :=
| step_enqueue_frame frame :
    next_frame_id s + 1 < 2 ^ 63 -> stream_step s (fst (enqueue_frame s frame))
| step_acknowledge_up_to id :
    id < next_frame_id s -> stream_step s (fst (acknowledge_up_to s id))
| step_acknowledge_bitvector cp ack : stream_step s (fst (acknowledge_bitvector s cp ack))
| step_handle_nack id packet_id : stream_step s (fst (handle_nack s id packet_id))
| step_next_packet : stream_step s (fst (next_packet s))
| step_record_packet_sent size retransmission :
    stream_step s (record_packet_sent s size retransmission)
| step_record_sender_report ntp at_ : stream_step s (record_sender_report s ntp at_)
| step_update_receiver_report report at_ : stream_step s (update_receiver_report s report at_)
| step_update_playout_delay ms : stream_step s (update_playout_delay s ms)
| step_update_receiver_reference_time report :
    stream_step s (update_receiver_reference_time s report)
| step_set_target_playout_delay delay : stream_step s (set_target_playout_delay s delay).

Inductive stream_reachable `{StreamCipher} (p : StreamParameters) (rnd : Z) : StreamState -> Prop :=
| reachable_new : stream_reachable p rnd (StreamState.new p rnd)
| reachable_step s s' : stream_reachable p rnd s -> stream_step s s' -> stream_reachable p rnd s'.

(** ** The abstract window *)

Record Window := MkWindow {
  w_next : FrameId;
  w_checkpoint : FrameId;
  w_flight : gset FrameId;
}.

Inductive window_step (w : Window) : Window -> Prop :=
| window_accept :
    w_next w - (w_checkpoint w + 1) < MAX_UNACKED_FRAMES ->
    window_step w (MkWindow (w_next w + 1) (w_checkpoint w) ({[w_next w]} ∪ w_flight w))
| window_cumulative id :
    id < w_next w ->
    window_step w (MkWindow (w_next w) (Z.max (w_checkpoint w) id)
                     (filter (fun i => id < i) (w_flight w)))
| window_selective (acked : gset FrameId) :
    window_step w (MkWindow (w_next w) (w_checkpoint w) (w_flight w ∖ acked)).

(** The window a stream state stands for. *)
Definition abs (s : StreamState) : Window :=
  MkWindow (next_frame_id s) (checkpoint s) (list_to_set (map pf_frame_id (pending_frames s))).

#[export] Instance acceptable_dec s frame : Decision (acceptable s frame).
Proof.
  unfold acceptable. repeat apply and_dec; try apply _.
  destruct (last_media_timestamp s) as [last|]; [|left; naive_solver].
  destruct (decide (last < media_timestamp frame)); [left|right]; naive_solver.
Defined.

(** ** Accepting a frame: lemmas *)

Lemma in_flight_id_span_exact s :
  window_inv s -> in_flight_id_span s = next_frame_id s - (checkpoint s + 1).
Proof.
  intros Hs. unfold in_flight_id_span, wrap_u64. apply Z.mod_small.
  pose proof (inv_checkpoint s Hs). pose proof (inv_span s Hs). unfold MAX_UNACKED_FRAMES in *. lia.
Qed.

(** The code accepts exactly the acceptable frames. *)
Lemma enqueue_frame_accepted `{StreamCipher} s frame :
  stream_inv s -> acceptable s frame ->
  enqueue_frame s frame = (accepted s frame, Ok (next_frame_id s)).
Proof.
  intros Hs (Hd & Hk & Ht & Hw). unfold enqueue_frame.
  destruct (data frame) as [|x l] eqn:Hdata; [done|]. rewrite <- Hdata.
  destruct (Z.eqb_spec (next_frame_id s) FrameId.first) as [Hf|Hf];
    [rewrite (bool_decide_eq_false_2 (dependency frame <> KeyFrame)) by auto|]; cbn [andb].
  all: assert (Hlast : match last_media_timestamp s with
         | Some last => media_timestamp frame <=? last | None => false end = false)
       by (destruct (last_media_timestamp s) as [last|]; [specialize (Ht last eq_refl); lia|done]).
  all: rewrite Hlast, in_flight_id_span_exact by apply Hs.
  all: destruct (Z.leb_spec MAX_UNACKED_FRAMES (next_frame_id s - (checkpoint s + 1))); [lia|].
  all: cbv zeta; cbn [packetizer update]; rewrite packetize_spec by apply Hs.
  all: unfold accepted, frame_packets; cbv zeta; by rewrite length_map, length_seq.
Qed.

(** Any other frame is rejected, and only the drop counter changes. *)
Lemma enqueue_frame_rejected `{StreamCipher} s frame :
  stream_inv s -> ~ acceptable s frame ->
  exists e, enqueue_frame s frame = reject_frame s e /\
    (e = EmptyFrame <-> data frame = []) /\
    (e = FirstFrameMustBeKeyFrame ->
       next_frame_id s = FrameId.first /\ dependency frame <> KeyFrame) /\
    (e = NonMonotonicMediaTimestamp ->
       exists last, last_media_timestamp s = Some last /\ media_timestamp frame <= last) /\
    (e = ReachedIdSpanLimit -> next_frame_id s - (checkpoint s + 1) = MAX_UNACKED_FRAMES) /\
    e <> EnqueueSessionClosed.
Proof.
  intros Hs Hna. unfold enqueue_frame.
  destruct (data frame) as [|x l] eqn:Hdata; [eexists; split; [reflexivity|naive_solver]|].
  destruct (_ && _) eqn:Hk.
  { eexists; split; [reflexivity|]. apply andb_true_iff in Hk as [Hk1 Hk2].
    apply Z.eqb_eq in Hk1. apply bool_decide_eq_true in Hk2. naive_solver. }
  destruct (match last_media_timestamp s with Some _ => _ | None => _ end) eqn:Hl.
  { eexists; split; [reflexivity|]. destruct (last_media_timestamp s) as [last|]; [|done].
    apply Z.leb_le in Hl. naive_solver. }
  rewrite in_flight_id_span_exact by apply Hs.
  destruct (Z.leb_spec MAX_UNACKED_FRAMES (next_frame_id s - (checkpoint s + 1))).
  { eexists; split; [reflexivity|]. pose proof (inv_span s (inv_window s Hs)) as Hsp.
    split; [naive_solver|]. split; [naive_solver|]. split; [naive_solver|]. split; [lia|done]. }
  exfalso. apply Hna. split; [congruence|]. split_and!.
  - intros Hf. apply andb_false_iff in Hk as [Hk|Hk]; [by apply Z.eqb_neq in Hk|].
    apply bool_decide_eq_false in Hk. destruct (dependency frame); [done|by destruct Hk].
  - intros last Hlast. rewrite Hlast in Hl. apply Z.leb_gt in Hl. lia.
  - done.
Qed.

(** The slot of the next id is free whenever the window has room. *)
Lemma next_slot_free s :
  window_inv s -> next_frame_id s - (checkpoint s + 1) < MAX_UNACKED_FRAMES ->
  pending s !! slot_of (next_frame_id s) = Some None.
Proof.
  intros Hs Hw. pose proof (inv_checkpoint s Hs). pose proof (inv_range s Hs).
  assert (Hlt : (slot_of (next_frame_id s) < length (pending s))%nat)
    by (rewrite (inv_length s Hs); apply slot_of_lt).
  destruct (lookup_lt_is_Some_2 _ _ Hlt) as [[p|] Hp]; [|done]. exfalso.
  destruct (inv_pending s Hs _ _ Hp) as [Hr Heq].
  apply slot_of_inj in Heq; lia.
Qed.

(** A lookup after an acceptance. *)
Lemma lookup_frame_accepted `{StreamCipher} s frame id :
  window_inv s -> next_frame_id s - (checkpoint s + 1) < MAX_UNACKED_FRAMES ->
  lookup_frame (accepted s frame) id =
  if id =? next_frame_id s
  then Some (MkPendingFrame id (media_timestamp frame) (duration frame) (frame_packets s frame))
  else lookup_frame s id.
Proof.
  intros Hs Hw. pose proof (next_slot_free s Hs Hw) as Hfree.
  pose proof (lookup_lt_Some _ _ _ Hfree) as Hlt.
  unfold lookup_frame, accepted. cbv zeta. cbn [pending update StreamState_eta].
  rewrite list_lookup_insert. destruct (decide _) as [[He _]|Hne].
  - rewrite <- He, Hfree. cbn [pf_frame_id]. rewrite Z.eqb_sym. destruct (Z.eqb_spec id (next_frame_id s)); by subst.
  - destruct (Z.eqb_spec id (next_frame_id s)) as [->|]; [|done]. exfalso. by apply Hne.
Qed.

Lemma accepted_window `{StreamCipher} s frame :
  window_inv s -> next_frame_id s - (checkpoint s + 1) < MAX_UNACKED_FRAMES ->
  next_frame_id s + 1 < 2 ^ 63 -> window_inv (accepted s frame).
Proof.
  intros Hs Hw Hr. pose proof (inv_checkpoint s Hs) as Hc.
  pose proof (lookup_frame_accepted s frame) as Hl.
  constructor; [..|intros q Hq; rewrite Hl by done]; unfold accepted; cbv zeta;
    cbn [pending checkpoint next_frame_id send_queue retransmit_queue update StreamState_eta]; try lia.
  - rewrite length_insert. apply Hs.
  - intros i p. rewrite list_lookup_insert. destruct (decide _) as [[<- _]|_].
    + intros [= <-]. cbn [pf_frame_id]. split; [lia|done].
    + intros Hi. destruct (inv_pending s Hs i p Hi) as [? ?]. split; [lia|done].
  - unfold accepted in Hq. cbn in Hq. rewrite !in_app_iff, in_map_iff in Hq.
    assert (Hold : In q (send_queue s ++ retransmit_queue s) -> exists p : PendingFrame,
      (if q_frame_id q =? next_frame_id s then Some (MkPendingFrame (q_frame_id q)
         (media_timestamp frame) (duration frame) (frame_packets s frame))
       else lookup_frame s (q_frame_id q)) = Some p /\ In (q_packet q) (pf_packets p)).
    { intros Hin. destruct (inv_queued s Hs q Hin) as (p & Hp & Hpk).
      pose proof (lookup_frame_range s _ p Hs Hp).
      destruct (Z.eqb_spec (q_frame_id q) (next_frame_id s)); [lia|]. by exists p. }
    rewrite in_app_iff in Hold. destruct Hq as [[Hq|(k & <- & Hk)]|Hq]; [auto| |auto].
    cbn [q_frame_id]. rewrite Z.eqb_refl. eexists; by split.
Qed.

Lemma packetizer_ok_sequence p n :
  packetizer_ok p -> packetizer_ok (p <| sequence_number := wrap_u16 n |>).
Proof. unfold packetizer_ok, wrap_u16. cbn. intuition (apply Z.mod_pos_bound || lia); lia. Qed.

Lemma accepted_inv `{StreamCipher} s frame :
  stream_inv s -> acceptable s frame -> next_frame_id s + 1 < 2 ^ 63 ->
  stream_inv (accepted s frame).
Proof.
  intros Hs (_ & _ & Ht & Hw) Hr. pose proof (inv_window s Hs) as Hwin.
  pose proof (next_slot_free s Hwin Hw) as Hfree. constructor.
  - by apply accepted_window.
  - pose proof (inv_account s Hs) as Ha. unfold in_flight_count, pending_frames, accepted in *.
    cbn [pending frames_acked next_frame_id update StreamState_eta].
    rewrite (length_omap_insert_Some _ _ _ Hfree). lia.
  - apply (inv_acked s Hs).
  - apply (inv_reports s Hs).
  - apply packetizer_ok_sequence, Hs.
  - intros p Hp. unfold accepted in *. cbn in *. exists (media_timestamp frame). split; [done|].
    apply list_elem_of_In, elem_of_omap_id in Hp as [i Hi]. cbn in Hi.
    rewrite list_lookup_insert in Hi. destruct (decide _); [by simplify_eq/=|].
    assert (Hin : In p (pending_frames s)) by (apply list_elem_of_In, elem_of_omap_id; by exists i).
    destruct (inv_media s Hs p Hin) as (last & Hlast & Hle). specialize (Ht last Hlast). lia.
Qed.

(** ** Retransmission requests *)

(** A NACK queues packets of an in-flight frame and nothing else. *)
Lemma handle_nack_frame s id pid :
  let '(s', n) := handle_nack s id pid in
  let resend := match lookup_frame s id with
    | None => []
    | Some p => if pid =? ALL_PACKETS_LOST then pf_packets p
                else option_list (pf_packets p !! Z.to_nat pid)
    end in
  n = Z.of_nat (length resend) /\
  s' = s <| nack_count := saturating_add_u64 (nack_count s) 1 |>
         <| retransmit_queue := retransmit_queue s ++ map (MkQueued id) resend |>.
Proof.
  assert (Hnil : forall t : StreamState, t = t <| retransmit_queue := retransmit_queue t ++ [] |>)
    by (intros []; cbn; by rewrite app_nil_r).
  unfold handle_nack, lookup_frame. cbn [pending update StreamState_eta].
  destruct (pending s !! slot_of id) as [[p|]|]; [|split; [done|exact (Hnil (s <| nack_count := _ |>))]..].
  destruct (Z.eqb_spec (pf_frame_id p) id); cbn [negb]; [|split; [done|exact (Hnil (s <| nack_count := _ |>))]].
  rewrite Z.eqb_sym. destruct (pid =? ALL_PACKETS_LOST); [done|].
  destruct (pf_packets p !! Z.to_nat pid); [done|split; [done|exact (Hnil (s <| nack_count := _ |>))]].
Qed.

Lemma handle_nack_inv s id pid : stream_inv s -> stream_inv (fst (handle_nack s id pid)).
Proof.
  intros Hs. pose proof (handle_nack_frame s id pid) as Hn.
  destruct (handle_nack s id pid) as [s' n]. cbv zeta in Hn. destruct Hn as [_ ->]. cbn [fst].
  set (resend := match lookup_frame s id with None => _ | Some _ => _ end).
  assert (Hre : forall k, In k resend -> exists p, lookup_frame s id = Some p /\ In k (pf_packets p)).
  { intros k. subst resend. destruct (lookup_frame s id) as [p|]; [|by intros []].
    destruct (pid =? ALL_PACKETS_LOST); [by exists p|].
    destruct (pf_packets p !! Z.to_nat pid) eqn:He; [|by intros []].
    intros [<-|[]]. exists p. split; [done|]. apply list_elem_of_In. by eapply list_elem_of_lookup_2. }
  clearbody resend. constructor; try apply Hs. pose proof (inv_window s Hs) as Hw.
  constructor; try apply Hw. intros q. cbn. rewrite app_assoc, in_app_iff, in_map_iff.
  intros [Hq|(k & <- & Hk)]; [apply (inv_queued s Hw q Hq)|apply (Hre k Hk)].
Qed.

(** ** The other operations *)

Lemma next_packet_inv s : stream_inv s -> stream_inv (fst (next_packet s)).
Proof.
  intros Hs. unfold next_packet. destruct (retransmit_queue s) as [|q r] eqn:Hr.
  - destruct (send_queue s) as [|q t] eqn:Ht; [done|].
    apply (stream_inv_ext s); cbn; auto. intros q'. rewrite Hr, Ht. simpl. tauto.
  - apply (stream_inv_ext s); cbn; auto. intros q'. rewrite Hr, !in_app_iff. simpl. tauto.
Qed.

Lemma record_sender_report_inv s ntp at_ :
  stream_inv s -> stream_inv (record_sender_report s ntp at_).
Proof.
  intros Hs. pose proof (inv_reports s Hs) as Hr. unfold record_sender_report.
  constructor; try apply Hs; [apply (window_inv_ext s); auto; apply Hs|].
  cbn. unfold SENDER_REPORT_HISTORY in *. rewrite length_app. cbn [length].
  destruct (Nat.eqb_spec (length (sender_reports s)) 16); rewrite ?length_drop; lia.
Qed.

Lemma record_packet_sent_inv s n r : stream_inv s -> stream_inv (record_packet_sent s n r).
Proof. intros Hs. unfold record_packet_sent. destruct r; by apply (stream_inv_ext s). Qed.

Lemma update_receiver_report_inv s rr at_ :
  stream_inv s -> stream_inv (update_receiver_report s rr at_).
Proof.
  intros Hs. unfold update_receiver_report. cbv zeta.
  destruct (_ =? 0); [by apply (stream_inv_ext s)|].
  destruct (List.find _ _); by apply (stream_inv_ext s).
Qed.

Lemma acknowledge_bitvector_inv s cp ack :
  stream_inv s -> stream_inv (fst (acknowledge_bitvector s cp ack)).
Proof.
  intros Hs. destruct ack as [a|]; [|by apply (stream_inv_ext s)].
  pose proof (acknowledge_bitvector_frame s cp a Hs) as Ha.
  by destruct (acknowledge_bitvector s cp (Some a)), Ha as [? _].
Qed.

Lemma acknowledge_up_to_inv s id :
  stream_inv s -> id < next_frame_id s -> stream_inv (fst (acknowledge_up_to s id)).
Proof.
  intros Hs Hid. pose proof (acknowledge_up_to_frame s id Hs Hid) as Ha.
  by destruct (acknowledge_up_to s id), Ha as [? _].
Qed.

Lemma enqueue_frame_inv `{StreamCipher} s frame :
  stream_inv s -> next_frame_id s + 1 < 2 ^ 63 -> stream_inv (fst (enqueue_frame s frame)).
Proof.
  intros Hs Hr. destruct (acceptable_dec s frame) as [Ha|Ha].
  - rewrite enqueue_frame_accepted by done. by apply accepted_inv.
  - destruct (enqueue_frame_rejected s frame Hs Ha) as (e & -> & _). by apply (stream_inv_ext s).
Qed.

Lemma omap_id_replicate_None {A} n : omap (@id (option A)) (replicate n None) = [].
Proof. induction n; [done|]. simpl. done. Qed.

Lemma new_pending_frames p rnd : pending_frames (StreamState.new p rnd) = [].
Proof. apply omap_id_replicate_None. Qed.

Lemma new_inv p rnd : parameters_ok p rnd -> stream_inv (StreamState.new p rnd).
Proof.
  intros Hp. constructor; [constructor|..]; unfold in_flight_count;
    rewrite ?new_pending_frames; cbn -[replicate]; unfold FrameId.first; try done; try lia.
  intros i q Hi. by apply lookup_replicate in Hi as [? _].
Qed.

(** ** Reachable states *)

Lemma stream_step_inv `{StreamCipher} s s' : stream_inv s -> stream_step s s' -> stream_inv s'.
Proof.
  intros Hs Hstep. destruct Hstep;
    auto using enqueue_frame_inv, acknowledge_up_to_inv, acknowledge_bitvector_inv, handle_nack_inv,
      next_packet_inv, record_packet_sent_inv, record_sender_report_inv, update_receiver_report_inv;
    by apply (stream_inv_ext s).
Qed.

Lemma stream_reachable_stream_inv `{StreamCipher} p rnd s :
  parameters_ok p rnd -> stream_reachable p rnd s -> stream_inv s.
Proof. intros Hp. induction 1; eauto using new_inv, stream_step_inv. Qed.

Lemma in_flight_count_bound s : window_inv s -> 0 <= in_flight_count s <= MAX_UNACKED_FRAMES.
Proof.
  intros Hs. unfold in_flight_count, pending_frames. split; [lia|].
  pose proof (inv_length s Hs). pose proof (length_omap_le (pending s)). unfold MAX_UNACKED_FRAMES in *. lia.
Qed.

(** ** The refinement *)

Lemma elem_of_flight s id :
  window_inv s -> id ∈ w_flight (abs s) <-> is_Some (lookup_frame s id).
Proof.
  intros Hs. unfold abs. cbn [w_flight]. rewrite elem_of_list_to_set, list_elem_of_fmap. split.
  - intros (p & -> & Hp). apply elem_of_omap_id in Hp as [i Hi].
    rewrite (lookup_frame_pending s i p Hs Hi). eauto.
  - intros [p Hp]. apply lookup_frame_Some in Hp as [Hp <-]. exists p. split; [done|].
    apply elem_of_omap_id. eauto.
Qed.

(** Two states with the same ids in flight stand for the same window. *)
Lemma abs_eq s w :
  window_inv s -> next_frame_id s = w_next w -> checkpoint s = w_checkpoint w ->
  (forall id, id ∈ w_flight w <-> is_Some (lookup_frame s id)) -> abs s = w.
Proof.
  intros Hs Hn Hc Hf. destruct w as [n c f]. cbn in *. subst. unfold abs. f_equal.
  apply set_eq. intros id. rewrite Hf. by apply elem_of_flight.
Qed.

Lemma abs_enqueue `{StreamCipher} s frame :
  stream_inv s -> next_frame_id s + 1 < 2 ^ 63 ->
  abs (fst (enqueue_frame s frame)) = abs s \/
  window_step (abs s) (abs (fst (enqueue_frame s frame))).
Proof.
  intros Hs Hr. destruct (acceptable_dec s frame) as [Ha|Ha].
  - right. rewrite enqueue_frame_accepted by done. cbn [fst].
    destruct Ha as (_ & _ & _ & Hw). pose proof (inv_window s Hs) as Hwin.
    rewrite (abs_eq (accepted s frame)
      (MkWindow (w_next (abs s) + 1) (w_checkpoint (abs s)) ({[w_next (abs s)]} ∪ w_flight (abs s))));
      [by constructor|by apply accepted_window|done|done|].
    intros id. cbn [w_flight]. rewrite elem_of_union, elem_of_singleton, elem_of_flight by done.
    rewrite lookup_frame_accepted by done. change (w_next (abs s)) with (next_frame_id s).
    destruct (Z.eqb_spec id (next_frame_id s)); naive_solver.
  - left. by destruct (enqueue_frame_rejected s frame Hs Ha) as (e & -> & _).
Qed.

Lemma abs_acknowledge_up_to s id :
  stream_inv s -> id < next_frame_id s -> window_step (abs s) (abs (fst (acknowledge_up_to s id))).
Proof.
  intros Hs Hid. pose proof (acknowledge_up_to_frame s id Hs Hid) as Ha.
  destruct (acknowledge_up_to s id) as [s' acked]. destruct Ha as (Hs' & Hc & Hn & _ & Hl & _).
  cbn [fst]. erewrite (abs_eq s'); [by apply (window_cumulative _ id)|apply Hs'|done|done|].
  intros id'. cbn [w_flight]. rewrite elem_of_filter, elem_of_flight by apply Hs. rewrite Hl.
  destruct (Z.leb_spec id' id); [|naive_solver lia]. split; [intros []; lia|by intros [? ?]].
Qed.

Lemma abs_acknowledge_bitvector s cp ack :
  stream_inv s -> window_step (abs s) (abs (fst (acknowledge_bitvector s cp ack))).
Proof.
  intros Hs. destruct ack as [a|].
  - pose proof (acknowledge_bitvector_frame s cp a Hs) as Ha.
    destruct (acknowledge_bitvector s cp (Some a)) as [s' acked].
    destruct Ha as (Hs' & Hc & Hn & _ & Hl & _). cbn [fst].
    set (acks := filter (fun id => ack_bit (ack_data a) (id - cp - 2) = true) (w_flight (abs s))).
    erewrite (abs_eq s'); [by apply (window_selective _ acks)|apply Hs'|done|done|].
    intros id. cbn [w_flight]. subst acks. rewrite elem_of_difference, elem_of_filter, elem_of_flight by apply Hs.
    rewrite Hl. destruct (ack_bit _ _); [|naive_solver]. split; [naive_solver|by intros [? ?]].
  - erewrite (abs_eq (fst (acknowledge_bitvector s cp None))).
    + by apply (window_selective _ ∅).
    + apply (acknowledge_bitvector_inv s cp None Hs).
    + done.
    + done.
    + intros id. cbn [w_flight]. rewrite difference_empty_L.
      change (lookup_frame _ id) with (lookup_frame s id). by apply elem_of_flight, Hs.
Qed.

Lemma abs_handle_nack s id pid : abs (fst (handle_nack s id pid)) = abs s.
Proof.
  pose proof (handle_nack_frame s id pid) as Hn. destruct (handle_nack s id pid) as [s' n].
  by destruct Hn as [_ ->].
Qed.

Lemma abs_next_packet s : abs (fst (next_packet s)) = abs s.
Proof. unfold next_packet. by destruct (retransmit_queue s), (send_queue s). Qed.

Lemma abs_update_receiver_report s rr at_ : abs (update_receiver_report s rr at_) = abs s.
Proof. unfold update_receiver_report. cbv zeta. destruct (_ =? 0); [done|]. by destruct (List.find _ _). Qed.

(** Every method is a move of the window or leaves it alone. *)
Lemma stream_step_abs `{StreamCipher} s s' :
  stream_inv s -> stream_step s s' -> abs s' = abs s \/ window_step (abs s) (abs s').
Proof.
  intros Hs Hstep. destruct Hstep; auto using abs_enqueue, abs_acknowledge_up_to,
    abs_acknowledge_bitvector, abs_handle_nack, abs_next_packet, abs_update_receiver_report.
  left. unfold record_packet_sent. by destruct retransmission.
Qed.

(** An id that has left the abstract window never comes back. *)
Lemma window_step_gone w w' id :
  window_step w w' -> id < w_next w -> id ∉ w_flight w ->
  id < w_next w' /\ id ∉ w_flight w'.
Proof. intros [Hw|k Hk|acked] Hid Hf; cbn; (split; [lia|]); [|rewrite elem_of_filter; tauto|]; set_solver by lia. Qed.

Lemma stream_steps_gone `{StreamCipher} s s' id :
  rtc stream_step s s' -> stream_inv s -> id < next_frame_id s -> lookup_frame s id = None ->
  stream_inv s' /\ lookup_frame s' id = None.
Proof.
  intros Hsteps. induction Hsteps as [s|s s1 s2 Hstep _ IH]; intros Hs Hid Hl; [done|].
  pose proof (stream_step_inv s s1 Hs Hstep) as Hs1.
  assert (Hg : forall x, stream_inv x -> id ∉ w_flight (abs x) <-> lookup_frame x id = None)
    by (intros x Hx; rewrite elem_of_flight, <- eq_None_not_Some by apply Hx; done).
  apply Hg in Hl; [|done].
  assert (H1 : id < w_next (abs s1) /\ id ∉ w_flight (abs s1)).
  { destruct (stream_step_abs s s1 Hs Hstep) as [->|Hw]; [done|]. by apply (window_step_gone (abs s)). }
  destruct H1 as [Hn1 Hf1]. apply IH; [done|done|by apply Hg].
Qed.
