(* ===== verification/StreamProps.v ===== *)
(** * What a stream promises ([src/src/sender/stream.rs])

    The theorems about [StreamState]: acceptance of frames, delivery to a
    receiver, acknowledgement, retransmission, accounting, the refinement of
    the abstract window, and the timestamp and round-trip arithmetic. *)

From stdpp Require Import gmap.
From S2P Require Import Prelude Constants Time Errors Frame SyncSource Crypto Rtp Rtcp Stream StreamFacts StreamSteps.
Import StreamState.

(** ** A concrete stream for the witnesses *)

Definition demo_parameters : StreamParameters :=
  MkParameters 1000 1001 101 90000 (from_millis 400) true (replicate 16 3) (replicate 16 7) 40.
Definition demo_key_frame : EncodedFrame :=
  MkEncodedFrame KeyFrame (seqZ 1 30) (from_millis 10) (from_millis 5) (Some (from_millis 33)).
Definition demo_delta : EncodedFrame :=
  MkEncodedFrame Delta (seqZ 100 20) (from_millis 43) (from_millis 38) (Some (from_millis 33)).
Definition demo_new : StreamState := StreamState.new demo_parameters 65534.
Definition demo_one : StreamState := fst (@enqueue_frame xor_cipher demo_new demo_key_frame).
Definition demo_two : StreamState := fst (@enqueue_frame xor_cipher demo_one demo_delta).

(** What a receiver with the session keys gets from the packets of a frame. *)
Definition receive_frame `{StreamCipher} (c : FrameCrypto) (id : FrameId) (packets : list RtpPacket)
  : bytes :=
  FrameCrypto.decrypt c id
    (concat (map (fun k => from_option v_payload [] (view (packet_data k))) packets)).

(** Sender reports recorded one after the other. *)
Definition record_reports (s : StreamState) (reports : list SenderReportRecord) : StreamState :=
  fold_left (fun s r => record_sender_report s (compact_ntp r) (sent_at r)) reports s.

(** ** Lemmas *)

Lemma demo_parameters_ok : parameters_ok demo_parameters 65534.
Proof. unfold parameters_ok, packetizer_ok. vm_compute. intuition congruence. Qed.

Lemma demo_one_reachable : @stream_reachable xor_cipher demo_parameters 65534 demo_one.
Proof. eapply reachable_step; [constructor|]. apply step_enqueue_frame. vm_compute. reflexivity. Qed.

Lemma demo_two_reachable : @stream_reachable xor_cipher demo_parameters 65534 demo_two.
Proof. eapply reachable_step; [apply demo_one_reachable|]. apply step_enqueue_frame. vm_compute. reflexivity. Qed.

Lemma demo_new_inv : stream_inv demo_new.
Proof. apply new_inv, demo_parameters_ok. Qed.

Lemma demo_one_inv : stream_inv demo_one.
Proof. apply (stream_reachable_stream_inv _ _ _ demo_parameters_ok demo_one_reachable). Qed.

Lemma demo_two_inv : stream_inv demo_two.
Proof. apply (stream_reachable_stream_inv _ _ _ demo_parameters_ok demo_two_reachable). Qed.
#[export] Hint Resolve demo_parameters_ok demo_one_reachable demo_two_reachable demo_new_inv
  demo_one_inv demo_two_inv : cast.

Lemma media_to_rtp_timestamp_range ts tb : 0 <= media_to_rtp_timestamp ts tb < 2 ^ 32.
Proof. apply Z.mod_pos_bound. lia. Qed.

Lemma frame_packets_payload `{StreamCipher} s frame :
  stream_inv s ->
  concat (map (fun k => from_option v_payload [] (view (packet_data k))) (frame_packets s frame)) =
  FrameCrypto.encrypt (crypto s) (next_frame_id s) (data frame).
Proof.
  intros Hs. unfold frame_packets. cbv zeta.
  set (payload := FrameCrypto.encrypt _ _ _).
  pose proof (packet_count_pos (packetizer s) payload (inv_packetizer s Hs)).
  rewrite map_map. erewrite map_ext.
  2: { intros i. cbn [packet_data]. rewrite packet_at_view by
         (done || apply Hs || apply media_to_rtp_timestamp_range). cbn. reflexivity. }
  rewrite concat_chunks; [done|]. pose proof (packet_count_cover _ payload (inv_packetizer s Hs)). lia.
Qed.

Lemma record_reports_history l s :
  (length (sender_reports s) <= SENDER_REPORT_HISTORY)%nat ->
  let all := sender_reports s ++ l in
  sender_reports (record_reports s l) = drop (length all - SENDER_REPORT_HISTORY) all.
Proof.
  cbv zeta. revert s. induction l as [|r l IH]; intros s Hs.
  - cbn. rewrite app_nil_r. by replace (length (sender_reports s) - SENDER_REPORT_HISTORY)%nat with 0%nat by lia.
  - cbn [record_reports fold_left].
    set (s1 := record_sender_report s (compact_ntp r) (sent_at r)).
    assert (H1 : sender_reports s1 =
      drop (length (sender_reports s) + 1 - SENDER_REPORT_HISTORY) (sender_reports s) ++ [r]).
    { subst s1. unfold record_sender_report, SENDER_REPORT_HISTORY in *. cbn [sender_reports update].
      destruct r as [n t]. cbn [compact_ntp sent_at]. f_equal.
      destruct (Nat.eqb_spec (length (sender_reports s)) 16) as [->|]; [done|].
      by replace (length (sender_reports s) + 1 - 16)%nat with 0%nat by lia. }
    unfold record_reports in IH. rewrite (IH s1); rewrite H1; clear IH H1 s1.
    + rewrite <- app_assoc. cbn [app]. unfold SENDER_REPORT_HISTORY in *.
      destruct (decide (length (sender_reports s) < 16)%nat) as [Hlt|Hge].
      * by replace (length (sender_reports s) + 1 - 16)%nat with 0%nat by lia.
      * replace (length (sender_reports s) + 1 - 16)%nat with 1%nat by lia.
        rewrite <- (drop_app_le _ (r :: l)) by lia.
        rewrite drop_drop, length_drop, length_app. cbn [length]. f_equal. lia.
    + unfold SENDER_REPORT_HISTORY in *. rewrite length_app, length_drop. cbn. lia.
Qed.

Lemma find_rev_last (P : SenderReportRecord -> bool) l r later :
  P r = true -> Forall (fun x => P x = false) later ->
  List.find P (rev (l ++ r :: later)) = Some r.
Proof.
  intros Hr Hl. rewrite rev_app_distr. cbn [rev]. rewrite <- app_assoc.
  assert (Hf : forall l1 l2, Forall (fun x => P x = false) l1 ->
    List.find P (l1 ++ l2) = List.find P l2).
  { intros l1 l2 H. induction H as [|x l1 Hx _ IH]; [done|]. simpl. by rewrite Hx. }
  rewrite Hf; [simpl; by rewrite Hr|]. apply Forall_rev, Hl.
Qed.

(** ** Acceptance and delivery *)

(** C18: [enqueue_frame] never panics and decides every branch: an acceptable
    frame gets the next id, joins the window and its packets join the end of
    the send queue, while the other frames in flight are untouched; any other
    frame is refused with the error that names the violated condition, and
    refusal changes nothing but the drop counter. *)
Theorem enqueue_frame_spec `{StreamCipher} s frame :
  stream_inv s -> next_frame_id s + 1 < 2 ^ 63 ->
  let '(s', r) := enqueue_frame s frame in
  if decide (acceptable s frame) then
    r = Ok (next_frame_id s) /\ stream_inv s' /\
    next_frame_id s' = next_frame_id s + 1 /\ checkpoint s' = checkpoint s /\
    send_queue s' = send_queue s ++ map (MkQueued (next_frame_id s)) (frame_packets s frame) /\
    retransmit_queue s' = retransmit_queue s /\
    (forall id, lookup_frame s' id =
       if id =? next_frame_id s
       then Some (MkPendingFrame id (media_timestamp frame) (duration frame) (frame_packets s frame))
       else lookup_frame s id)
  else
    s' = s <| frames_dropped_or_skipped := saturating_add_u64 (frames_dropped_or_skipped s) 1 |> /\
    exists e, r = Err e /\
      (e = EmptyFrame <-> data frame = []) /\
      (e = FirstFrameMustBeKeyFrame ->
         next_frame_id s = FrameId.first /\ dependency frame <> KeyFrame) /\
      (e = NonMonotonicMediaTimestamp ->
         exists last, last_media_timestamp s = Some last /\ media_timestamp frame <= last) /\
      (e = ReachedIdSpanLimit -> next_frame_id s - (checkpoint s + 1) = MAX_UNACKED_FRAMES) /\
      e <> EnqueueSessionClosed.
Proof.
  intros Hs Hr. destruct (decide (acceptable s frame)) as [Ha|Ha].
  - rewrite enqueue_frame_accepted by done. split_and!; auto; [by apply accepted_inv|].
    intros id. apply lookup_frame_accepted; [apply Hs|apply Ha].
  - destruct (enqueue_frame_rejected s frame Hs Ha) as (e & -> & He). cbn. eauto.
Qed.

Lemma enqueue_frame_spec_witness :
  let '(s', r) := @enqueue_frame xor_cipher demo_one demo_delta in
  r = Ok 1 /\ stream_inv s' /\ next_frame_id s' = 2.
Proof.
  pose proof (@enqueue_frame_spec xor_cipher demo_one demo_delta demo_one_inv ltac:(vm_compute; reflexivity)) as Hw.
  destruct (@enqueue_frame xor_cipher demo_one demo_delta) as [s' r].
  destruct (decide (acceptable demo_one demo_delta)) as [Ha|Ha].
  - destruct Hw as (? & ? & ? & _). by split_and!.
  - exfalso. apply Ha. split_and!; [done|done| |vm_compute; reflexivity].
    intros last Hl. vm_compute in Hl. injection Hl as <-. vm_compute. reflexivity.
Defined.

(** C9: end to end: the packets that an accepted frame adds to the send queue,
    read by a receiver that strips the headers, concatenates the chunks and
    decrypts with the frame's id, give back the frame's data. *)
Theorem enqueue_frame_delivers `{StreamCipherLaws} s frame :
  stream_inv s -> acceptable s frame -> bytes_ok (data frame) ->
  exists packets,
    send_queue (fst (enqueue_frame s frame)) =
      send_queue s ++ map (MkQueued (next_frame_id s)) packets /\
    receive_frame (crypto s) (next_frame_id s) packets = data frame.
Proof.
  intros Hs Ha Hd. exists (frame_packets s frame). rewrite enqueue_frame_accepted by done.
  split; [done|]. unfold receive_frame. rewrite frame_packets_payload by done. by apply encrypt_decrypt.
Qed.

Lemma enqueue_frame_delivers_witness :
  exists packets,
    send_queue (fst (@enqueue_frame xor_cipher demo_new demo_key_frame)) =
      map (MkQueued 0) packets /\
    @receive_frame xor_cipher (crypto demo_new) 0 packets = seqZ 1 30.
Proof.
  apply (@enqueue_frame_delivers xor_cipher _ demo_new demo_key_frame demo_new_inv).
  - split_and!; [done|done|done|vm_compute; reflexivity].
  - cbn [data demo_key_frame]. apply Forall_seqZ. unfold is_byte. lia.
Defined.

(** ** Acknowledgement and retransmission *)

(** C19: a cumulative acknowledgement reports, in order, the frames in flight up
    to [id], and removes them from the window and all their packets from both
    queues; nothing above [id] is touched and the checkpoint never moves back. *)
Theorem acknowledge_up_to_spec s id :
  stream_inv s -> id < next_frame_id s ->
  let '(s', acked) := acknowledge_up_to s id in
  stream_inv s' /\
  checkpoint s' = Z.max (checkpoint s) id /\ next_frame_id s' = next_frame_id s /\
  acked = List.filter (is_pending s) (seqZ (checkpoint s + 1) (id - checkpoint s)) /\
  (forall id', lookup_frame s' id' = if id' <=? id then None else lookup_frame s id') /\
  send_queue s' = List.filter (fun q => negb (q_frame_id q <=? id)) (send_queue s) /\
  retransmit_queue s' = List.filter (fun q => negb (q_frame_id q <=? id)) (retransmit_queue s).
Proof. apply acknowledge_up_to_frame. Qed.

Lemma acknowledge_up_to_spec_witness :
  let '(s', acked) := acknowledge_up_to demo_two 0 in
  stream_inv s' /\ checkpoint s' = 0 /\ next_frame_id s' = 2 /\ acked = [0] /\
  (forall id', lookup_frame s' id' = if id' <=? 0 then None else lookup_frame demo_two id').
Proof.
  pose proof (acknowledge_up_to_spec demo_two 0 demo_two_inv ltac:(vm_compute; reflexivity)) as Hw.
  destruct (acknowledge_up_to demo_two 0) as [s' acked].
  destruct Hw as (? & ? & ? & ? & ? & _). split_and!; auto.
Defined.

(** C20: a selective acknowledgement releases exactly the in-flight frames whose
    bit is set (bit [k] names [cp + 2 + k]), reports them in increasing order,
    removes their packets from both queues and leaves the checkpoint alone. *)
Theorem acknowledge_bitvector_spec s cp a :
  stream_inv s ->
  let '(s', acked) := acknowledge_bitvector s cp (Some a) in
  stream_inv s' /\
  checkpoint s' = checkpoint s /\ next_frame_id s' = next_frame_id s /\
  acked = List.filter (is_pending s) (bitvector_ids (next_frame_id s) cp (ack_data a)) /\
  (forall id, lookup_frame s' id =
     if ack_bit (ack_data a) (id - cp - 2) then None else lookup_frame s id) /\
  send_queue s' =
    List.filter (fun q => negb (ack_bit (ack_data a) (q_frame_id q - cp - 2))) (send_queue s) /\
  retransmit_queue s' =
    List.filter (fun q => negb (ack_bit (ack_data a) (q_frame_id q - cp - 2))) (retransmit_queue s).
Proof. apply acknowledge_bitvector_frame. Qed.

Lemma acknowledge_bitvector_spec_witness :
  let '(s', acked) := acknowledge_bitvector demo_two (-1) (Some (MkAckBitvector 9 [1])) in
  stream_inv s' /\ checkpoint s' = -1 /\ acked = [1].
Proof.
  pose proof (acknowledge_bitvector_spec demo_two (-1) (MkAckBitvector 9 [1]) demo_two_inv) as Hw.
  destruct (acknowledge_bitvector demo_two (-1) (Some (MkAckBitvector 9 [1]))) as [s' acked].
  destruct Hw as (? & ? & _ & ? & _). by split_and!.
Defined.

(** A NACK for a frame in flight queues the named packet, or every packet
    of the frame when the whole frame is lost, after the retransmissions
    already waiting; a NACK for any other frame or packet queues nothing.  The
    returned count is the number queued. *)
Theorem handle_nack_spec s id pid :
  let '(s', n) := handle_nack s id pid in
  let resend := match lookup_frame s id with
    | None => []
    | Some p => if pid =? ALL_PACKETS_LOST then pf_packets p
                else option_list (pf_packets p !! Z.to_nat pid)
    end in
  n = Z.of_nat (length resend) /\
  s' = s <| nack_count := saturating_add_u64 (nack_count s) 1 |>
         <| retransmit_queue := retransmit_queue s ++ map (MkQueued id) resend |>.
Proof. apply handle_nack_frame. Qed.

(** C21: no packet of an acknowledged frame is ever sent: in every reachable
    state, the packet handed to the network belongs to a frame that is still
    in flight, and retransmissions go first. *)
Theorem next_packet_in_flight `{StreamCipher} p rnd s s' o :
  parameters_ok p rnd -> stream_reachable p rnd s -> next_packet s = (s', Some o) ->
  (exists id f, lookup_frame s id = Some f /\ checkpoint s < id /\ In (o_packet o) (pf_packets f)) /\
  (o_retransmission o = negb (bool_decide (retransmit_queue s = []))).
Proof.
  intros Hp Hr Hn. pose proof (inv_window s (stream_reachable_stream_inv _ _ _ Hp Hr)) as Hs.
  assert (Hq : exists q, In q (send_queue s ++ retransmit_queue s) /\ q_packet q = o_packet o /\
    o_retransmission o = negb (bool_decide (retransmit_queue s = []))).
  { unfold next_packet in Hn. destruct (retransmit_queue s) as [|q r].
    - destruct (send_queue s) as [|q t]; [done|]. injection Hn as <- <-. exists q. by split_and!; [left|..].
    - injection Hn as <- <-. exists q. split_and!; [|done|done]. rewrite in_app_iff. right. by left. }
  destruct Hq as (q & Hin & <- & ->). split; [|done]. destruct (inv_queued s Hs q Hin) as (f & Hf & Hpk).
  exists (q_frame_id q), f. split_and!; auto. by destruct (lookup_frame_range s _ f Hs Hf).
Qed.

Lemma next_packet_in_flight_witness :
  exists o, snd (next_packet demo_two) = Some o /\
    exists id f, lookup_frame demo_two id = Some f /\ In (o_packet o) (pf_packets f).
Proof.
  destruct (next_packet demo_two) as [s' [o|]] eqn:He; [|vm_compute in He; congruence].
  destruct (next_packet_in_flight demo_parameters 65534 demo_two s' o demo_parameters_ok
              demo_two_reachable He) as [(id & f & Hl & _ & Hin) _]. eauto 10.
Defined.

(** Acknowledging keeps the last accepted timestamp. *)
Lemma acknowledge_up_to_last s id :
  last_media_timestamp (fst (acknowledge_up_to s id)) = last_media_timestamp s.
Proof.
  unfold acknowledge_up_to. destruct (id <? checkpoint s + 1); [done|].
  rewrite acknowledge_loop_all. unfold ack_all.
  assert (Hf : forall l s a, last_media_timestamp (fst (fold_left ack_step l (s, a))) = last_media_timestamp s).
  { intros l. induction l as [|x l IH]; intros t a; [done|]. cbn [fold_left ack_step].
    destruct (is_pending t x); rewrite IH; done. }
  specialize (Hf (seqZ (checkpoint s + 1) (Z.of_nat (Z.to_nat (id - (checkpoint s + 1) + 1)))) s []).
  destruct (fold_left _ _ _). exact Hf.
Qed.

(** ** Accounting and the abstract window *)

(** C14: conservation in every reachable state: each accepted frame is
    acknowledged or in flight, never both and never lost, at most
    [MAX_UNACKED_FRAMES] are in flight, and every id up to the checkpoint has
    left the window. *)
Theorem stream_conservation `{StreamCipher} p rnd s :
  parameters_ok p rnd -> stream_reachable p rnd s ->
  frames_acked s + in_flight_count s = next_frame_id s /\
  0 <= in_flight_count s <= MAX_UNACKED_FRAMES /\
  (forall id f, lookup_frame s id = Some f -> checkpoint s < id < next_frame_id s) /\
  (length (sender_reports s) <= SENDER_REPORT_HISTORY)%nat.
Proof.
  intros Hp Hr. pose proof (stream_reachable_stream_inv _ _ _ Hp Hr) as Hs.
  split_and!; try apply Hs; try apply in_flight_count_bound, Hs.
  intros id f. apply lookup_frame_range, Hs.
Qed.

Lemma stream_conservation_witness :
  frames_acked demo_two + in_flight_count demo_two = 2 /\
  0 <= in_flight_count demo_two <= MAX_UNACKED_FRAMES.
Proof.
  destruct (stream_conservation demo_parameters 65534 demo_two demo_parameters_ok
              demo_two_reachable) as (Ha & Hb & _). split; [exact Ha|exact Hb].
Defined.

(** The stream refines the abstract sliding window: in a reachable state
    every method either leaves the window (next id, checkpoint, ids in flight)
    unchanged or makes one of its three moves - accept the next id when fewer
    than [MAX_UNACKED_FRAMES] ids are outstanding, drop everything up to an
    acknowledged id, or drop a set of acknowledged ids. *)
Theorem stream_refines_window `{StreamCipher} p rnd s s' :
  parameters_ok p rnd -> stream_reachable p rnd s -> stream_step s s' ->
  abs s' = abs s \/ window_step (abs s) (abs s').
Proof.
  intros Hp Hr. by apply stream_step_abs, (stream_reachable_stream_inv _ _ _ Hp Hr).
Qed.

Lemma stream_refines_window_witness :
  abs demo_two = abs demo_one \/ window_step (abs demo_one) (abs demo_two).
Proof.
  apply (@stream_refines_window xor_cipher demo_parameters 65534 demo_one demo_two
           demo_parameters_ok demo_one_reachable).
  apply step_enqueue_frame. vm_compute. reflexivity.
Defined.

(** A frame is acknowledged at most once: an id reported by a cumulative
    acknowledgement is out of the window and stays out through any further
    sequence of operations, so no later acknowledgement reports it, no NACK
    finds it and no packet of it is queued. *)
Theorem acknowledged_once `{StreamCipher} p rnd s id s' later :
  parameters_ok p rnd -> stream_reachable p rnd s -> id < next_frame_id s ->
  In later (snd (acknowledge_up_to s id)) ->
  rtc stream_step (fst (acknowledge_up_to s id)) s' ->
  lookup_frame s' later = None /\
  (forall id', id' < next_frame_id s' -> ~ In later (snd (acknowledge_up_to s' id'))) /\
  (forall q, In q (send_queue s' ++ retransmit_queue s') -> q_frame_id q <> later).
Proof.
  intros Hp Hr Hid Hin Hsteps. pose proof (stream_reachable_stream_inv _ _ _ Hp Hr) as Hs.
  pose proof (acknowledge_up_to_frame s id Hs Hid) as Ha.
  destruct (acknowledge_up_to s id) as [s1 acked]. cbn [fst snd] in *.
  destruct Ha as (Hs1 & _ & Hn & -> & Hl & _). apply filter_In in Hin as [Hin _].
  apply list_elem_of_In, elem_of_seqZ in Hin.
  assert (H1 : lookup_frame s1 later = None)
    by (rewrite Hl; destruct (Z.leb_spec later id); [done|lia]).
  destruct (stream_steps_gone s1 s' later Hsteps Hs1 ltac:(lia) H1) as [Hs' Hgone].
  split_and!; [done| |].
  - intros id' Hid' Hin'. pose proof (acknowledge_up_to_frame s' id' Hs' Hid') as Ha'.
    destruct (acknowledge_up_to s' id') as [s2 acked2]. destruct Ha' as (_ & _ & _ & -> & _).
    apply filter_In in Hin' as [_ Hp']. rewrite is_pending_lookup, Hgone in Hp'.
    by apply bool_decide_eq_true in Hp' as [? ?].
  - intros q Hq <-. destruct (inv_queued s' (inv_window s' Hs') q Hq) as (f & Hf & _). congruence.
Qed.

Lemma acknowledged_once_witness :
  let s' := fst (acknowledge_up_to demo_two 0) in
  lookup_frame s' 0 = None /\
  (forall id', id' < next_frame_id s' -> ~ In 0 (snd (acknowledge_up_to s' id'))) /\
  (forall q, In q (send_queue s' ++ retransmit_queue s') -> q_frame_id q <> 0).
Proof.
  apply (@acknowledged_once xor_cipher demo_parameters 65534 demo_two 0 _ 0 demo_parameters_ok demo_two_reachable).
  - vm_compute. reflexivity.
  - assert (He : snd (acknowledge_up_to demo_two 0) = [0]) by (vm_compute; reflexivity). rewrite He. by left.
  - apply rtc_refl.
Defined.

(** The window always reopens: once the newest frame is acknowledged the
    stream holds no frame and no packet, and the next non-empty frame with a
    later timestamp is accepted. *)
Theorem acknowledge_all_reopens `{StreamCipher} s frame :
  stream_inv s -> 0 < next_frame_id s < 2 ^ 63 - 1 -> data frame <> [] ->
  (forall last, last_media_timestamp s = Some last -> last < media_timestamp frame) ->
  let s' := fst (acknowledge_up_to s (next_frame_id s - 1)) in
  in_flight_count s' = 0 /\ send_queue s' = [] /\ retransmit_queue s' = [] /\
  snd (enqueue_frame s' frame) = Ok (next_frame_id s).
Proof.
  intros Hs Hn Hd Ht. cbv zeta.
  pose proof (acknowledge_up_to_frame s (next_frame_id s - 1) Hs ltac:(lia)) as Ha.
  assert (Hlast : last_media_timestamp (fst (acknowledge_up_to s (next_frame_id s - 1)))
                  = last_media_timestamp s) by apply acknowledge_up_to_last.
  destruct (acknowledge_up_to s (next_frame_id s - 1)) as [s' acked].
  destruct Ha as (Hs' & Hc & Hn' & _ & Hl & Hsq & Hrq). cbn [fst] in *.
  assert (Hempty : forall id, lookup_frame s' id = None).
  { intros id. destruct (lookup_frame s' id) as [f|] eqn:He; [|done].
    pose proof (lookup_frame_range s' id f (inv_window s' Hs') He).
    rewrite Hl in He. destruct (Z.leb_spec id (next_frame_id s - 1)); [done|lia]. }
  assert (Hq : send_queue s' ++ retransmit_queue s' = []).
  { destruct (send_queue s' ++ retransmit_queue s') as [|q l] eqn:He; [done|].
    destruct (inv_queued s' (inv_window s' Hs') q) as (f & Hf & _); [rewrite He; by left|].
    by rewrite Hempty in Hf. }
  apply app_eq_nil in Hq as [-> ->]. pose proof (inv_checkpoint s (inv_window s Hs)).
  split_and!; [|done|done|].
  - unfold in_flight_count. destruct (pending_frames s') as [|f l] eqn:Hf; [done|].
    assert (Hin : f ∈ omap id (pending s')) by (fold (pending_frames s'); rewrite Hf; left).
    apply elem_of_omap_id in Hin as [i Hi].
    pose proof (lookup_frame_pending s' i f (inv_window s' Hs') Hi) as Hx. by rewrite Hempty in Hx.
  - rewrite enqueue_frame_accepted; [cbn; by f_equal|done|]. split_and!; auto; rewrite ?Hlast; auto.
    + unfold FrameId.first. lia.
    + rewrite Hc, Hn'. unfold MAX_UNACKED_FRAMES. lia.
Qed.

Lemma acknowledge_all_reopens_witness :
  let s' := fst (acknowledge_up_to demo_one 0) in
  in_flight_count s' = 0 /\ send_queue s' = [] /\ retransmit_queue s' = [] /\
  snd (@enqueue_frame xor_cipher s' demo_delta) = Ok 1.
Proof.
  apply (@acknowledge_all_reopens xor_cipher demo_one demo_delta demo_one_inv).
  - vm_compute. split; reflexivity.
  - done.
  - intros last Hl. vm_compute in Hl. injection Hl as <-. vm_compute. reflexivity.
Defined.

(** ** Timestamps, round-trip time, congestion budget *)

(** The RTP timestamp of a media time is the number of whole timebase
    ticks in it, modulo 2^32: splitting off the whole seconds and wrapping
    them separately loses nothing. *)
Theorem media_to_rtp_timestamp_spec ts timebase :
  media_to_rtp_timestamp ts timebase = (ts * timebase / nanos_per_sec) mod 2 ^ 32.
Proof.
  unfold media_to_rtp_timestamp, as_secs, subsec_nanos, nanos_per_sec, wrap_u32, wrap_u64. cbv zeta.
  rewrite <- Zplus_mod, <- Zplus_mod_idemp_l, Z.mod_mod_divide by (by exists (2 ^ 32)).
  rewrite Zplus_mod_idemp_l. f_equal.
  rewrite (Z_div_mod_eq_full ts 1000000000) at 3.
  replace ((1000000000 * (ts / 1000000000) + ts mod 1000000000) * timebase)
    with (ts / 1000000000 * timebase * 1000000000 + ts mod 1000000000 * timebase) by ring.
  by rewrite Z.div_add_l by lia.
Qed.

(** The congestion budget stays between 66 ms and a third of the playout
    delay (or 66 ms when that is larger), never shrinks when the measured
    round trip grows, and is 66 ms while no round trip is known. *)
Theorem max_acceptable_in_flight_duration_spec s :
  let playout := default (target_playout_delay s) (receiver_playout_delay s) in
  let r := max_acceptable_in_flight_duration s in
  MINIMUM_IN_FLIGHT_MEDIA_DURATION <= r <= Z.max (playout / 3) MINIMUM_IN_FLIGHT_MEDIA_DURATION /\
  (current_rtt s = None -> r = MINIMUM_IN_FLIGHT_MEDIA_DURATION) /\
  (forall a b, a <= b ->
     max_acceptable_in_flight_duration (s <| current_rtt := Some a |>) <=
     max_acceptable_in_flight_duration (s <| current_rtt := Some b |>)).
Proof.
  cbv zeta. unfold max_acceptable_in_flight_duration, MINIMUM_IN_FLIGHT_MEDIA_DURATION, from_millis,
    millis, saturating_mul, duration_max, u64_max, nanos_per_sec.
  split_and!; [lia|lia| |].
  - intros ->. cbn [default]. lia.
  - intros a b Hab. cbn. lia.
Qed.

(** The round trip is measured against the right report: as long as at most
    fifteen newer sender reports were sent, a receiver report naming a report
    sent at [t0] sets the round trip to the time since [t0] less the delay the
    receiver held it, and to none when that would be negative. *)
Theorem round_trip_time s ntp t0 later report t1 :
  stream_inv s -> ntp <> 0 -> (length later < SENDER_REPORT_HISTORY)%nat ->
  Forall (fun r => compact_ntp r <> ntp) later ->
  rr_last_sr_timestamp report = ntp -> 0 <= rr_delay_since_last_sr report ->
  let s' := record_reports s (MkSenderReport ntp t0 :: later) in
  let held := rr_delay_since_last_sr report * 1000000000 / 65536 in
  current_rtt (update_receiver_report s' report t1) =
    if t0 + held <=? t1 then Some (t1 - t0 - held) else None.
Proof.
  intros Hs Hz Hlen Hfresh Hrr Hheld. cbv zeta.
  pose proof (record_reports_history (MkSenderReport ntp t0 :: later) s (inv_reports s Hs)) as Hh.
  cbv zeta in Hh. set (s' := record_reports s _) in *. clearbody s'.
  set (all := sender_reports s ++ _) in Hh. unfold update_receiver_report. cbv zeta.
  cbn [sender_reports update StreamState_eta]. rewrite Hrr, Hh.
  destruct (Z.eqb_spec ntp 0); [done|].
  assert (Hd : exists pre, drop (length all - SENDER_REPORT_HISTORY) all
                           = pre ++ MkSenderReport ntp t0 :: later).
  { exists (drop (length all - SENDER_REPORT_HISTORY) (sender_reports s)). subst all.
    apply drop_app_le. rewrite length_app. cbn [length]. lia. }
  destruct Hd as [pre ->]. rewrite find_rev_last; [|cbn; apply Z.eqb_refl|].
  2: { eapply Forall_impl; [|exact Hfresh]. intros r Hr. by apply Z.eqb_neq. }
  cbn [current_rtt update StreamState_eta sent_at].
  unfold checked_duration_since, checked_sub, duration_from_ntp_short, from_nanos.
  assert (0 <= rr_delay_since_last_sr report * 1000000000 / 65536) by (apply Z.div_pos; lia).
  destruct (Z.leb_spec t0 t1); cbn [mbind option_bind].
  - destruct (Z.leb_spec (rr_delay_since_last_sr report * 1000000000 / 65536) (t1 - t0)),
      (Z.leb_spec (t0 + rr_delay_since_last_sr report * 1000000000 / 65536) t1); done || lia.
  - destruct (Z.leb_spec (t0 + rr_delay_since_last_sr report * 1000000000 / 65536) t1); done || lia.
Qed.

Lemma round_trip_time_witness :
  current_rtt (update_receiver_report
      (record_reports demo_one [MkSenderReport 77 1000; MkSenderReport 78 2000])
      (MkReceiverReport 1001 1000 0 0 0 0 77 1) 50000) = Some 33742.
Proof.
  apply (round_trip_time demo_one 77 1000 [MkSenderReport 78 2000]
           (MkReceiverReport 1001 1000 0 0 0 0 77 1) 50000 demo_one_inv); [lia|cbn; unfold SENDER_REPORT_HISTORY; lia| |done|cbn; lia].
  by repeat constructor.
Defined.
