(* ===== verification/EventLoop.v ===== *)
(** * The sender's event loop ([src/src/sender/event_loop.rs])

    [run] is one [select!] loop that owns the session's state.  [LoopState]
    holds its local variables, each arm of the [select!] is a handler that
    returns the new state and whether the loop goes on, and [handle]
    dispatches to them.

    The environment is the class [Transport]: a world the loop reads clocks
    from and sends datagrams into ([src/src/transport.rs], tokio's and std's
    clocks).  The event channel is the bounded tokio channel of capacity
    [EVENT_CHANNEL_CAPACITY] that [start_address] creates; replies on one-shot
    channels are appended to [replies]. *)

From stdpp Require Import strings.
From S2P Require Import Prelude Constants Time Errors Text Codec Frame SyncSource Crypto Rtp Rtcp Stream.

Inductive SocketAddr :=
| V4 (ip port : Z)
| V6 (ip port flowinfo scope_id : Z).
#[export] Instance SocketAddr_eq_dec : EqDecision SocketAddr.
Proof. solve_decision. Defined.

(** The world: sending a datagram gives the number of bytes written, and each
    clock reading may move the world on. *)
Class Transport (W : Type) := {
  send_to : W -> bytes -> SocketAddr -> W * (IoError + Z);
  instant_now : W -> W * Instant;
  system_now : W -> W * SystemTime;
}.

Definition INITIAL_RECEIVER_ACKNOWLEDGEMENT_TIMEOUT : Duration := from_secs 10.
Definition RECEIVER_ACKNOWLEDGEMENT_TIMEOUT : Duration := from_secs 5.
Definition RECEIVER_TIMEOUT_POLL_INTERVAL : Duration := from_secs 1.
Definition RESERVED_TERMINAL_EVENT_SLOTS : nat := 2.
Definition EVENT_CHANNEL_CAPACITY : nat := 64.

Record SessionStatistics := MkSessionStatistics {
  ss_audio : option StreamStatistics;
  ss_video : option StreamStatistics;
}.

Inductive SenderEvent :=
| NeedsKeyFrame (stream : StreamType)
| FrameAcked (stream : StreamType) (frame_id : FrameId)
| PictureLoss (stream : StreamType)
| PacketRetransmission (stream : StreamType) (frame_id : FrameId) (packet_id packets_queued : Z)
| StatisticsUpdated (statistics : SessionStatistics)
| MalformedPacket (description : string)
| ReceiverTimedOut
| FatalError (error : SenderError).

Inductive StreamCommand :=
| EnqueueFrame (stream : StreamType) (frame : EncodedFrame)
| Statistics
| SetTargetPlayoutDelay (delay : Duration)
| Shutdown.

(** What the loop sends back on a command's one-shot channel. *)
Inductive Reply :=
| EnqueueReply (r : Result EnqueueError FrameId)
| StatisticsReply (statistics : SessionStatistics)
| PlayoutDelayReply (r : Result PlayoutDelayError unit)
| ShutdownReply.

Record AcknowledgementWatchdog := MkWatchdog {
  waiting_since : option Instant;
  has_acknowledged : bool;
}.

Record AcknowledgementProgress := MkProgress { p_audio : bool; p_video : bool }.

Record StreamFeedbackState := MkFeedbackState {
  fs_pressure_limited : bool;
  fs_max_acceptable_in_flight_duration : Duration;
  fs_current_rtt : option Duration;
  fs_receiver_playout_delay : option Duration;
  fs_nack_count : Z;
  fs_frames_dropped_or_skipped : Z;
  fs_fraction_lost : option Z;
}.
#[export] Instance StreamFeedbackState_eq_dec : EqDecision StreamFeedbackState.
Proof. solve_decision. Defined.

Record BurstBudget := MkBudget {
  capacity_bytes : Z;
  available_bytes : Z;
  fractional_byte_nanos : Z;
  last_refill : Instant;
}.
#[export] Instance BurstBudget_eta : Eta BurstBudget := fun s =>
  MkBudget (capacity_bytes s) (available_bytes s) (fractional_byte_nanos s) (last_refill s).

(** The session's two optional streams. *)
Record Streams := MkStreams {
  audio_stream : option StreamState;
  video_stream : option StreamState;
}.
#[export] Instance Streams_eta : Eta Streams := fun s => MkStreams (audio_stream s) (video_stream s).

(** The bounded event channel: queued events, and whether its receiver lives. *)
Record EventChannel := MkChannel {
  queued_events : list SenderEvent;
  receiver_open : bool;
}.
#[export] Instance EventChannel_eta : Eta EventChannel := fun s =>
  MkChannel (queued_events s) (receiver_open s).

(** [usize] is 64 bits. *)
Definition usize_max : Z := u64_max.

Module BurstBudget.
Definition bytes_per_second : Z := MAX_BURST_BITRATE / 8.

Definition new (now : Instant) : BurstBudget :=
  let capacity := Z.max (Z.min (saturating_mul_u128 bytes_per_second (as_nanos BURST_INTERVAL)
                                / 1000000000) usize_max) 1 in
  MkBudget capacity capacity 0 now.

Definition refill (self : BurstBudget) (now : Instant) : BurstBudget :=
  let elapsed_nanos := as_nanos (duration_since now (last_refill self)) in
  let self := self <| last_refill := now |> in
  if available_bytes self =? capacity_bytes self
  then self <| fractional_byte_nanos := 0 |>
  else
    let scaled_bytes := saturating_add_u128 (saturating_mul_u128 elapsed_nanos bytes_per_second)
                          (fractional_byte_nanos self) in
    let added_bytes := scaled_bytes / 1000000000 in
    let self := self <| fractional_byte_nanos := scaled_bytes mod 1000000000 |> in
    let self := self <| available_bytes :=
      Z.min (saturating_add_u64 (available_bytes self) (Z.min added_bytes usize_max))
        (capacity_bytes self) |> in
    if available_bytes self =? capacity_bytes self
    then self <| fractional_byte_nanos := 0 |> else self.

Definition has_credit (self : BurstBudget) : bool := negb (available_bytes self =? 0).

Definition consume (self : BurstBudget) (n : Z) : BurstBudget :=
  self <| available_bytes := saturating_sub (available_bytes self) n |>.
End BurstBudget.

Module EventChannel.
(** [Sender::capacity]: the free slots. *)
Definition capacity (self : EventChannel) : nat :=
  EVENT_CHANNEL_CAPACITY - length (queued_events self).

(** [Sender::try_send], its error ignored. *)
Definition try_send (self : EventChannel) (event : SenderEvent) : EventChannel :=
  if receiver_open self && (0 <? capacity self)%nat
  then self <| queued_events := queued_events self ++ [event] |> else self.
End EventChannel.

Definition emit_fatal (event_sender : EventChannel) (error : SenderError) : EventChannel :=
  EventChannel.try_send event_sender (FatalError error).

Definition emit_nonterminal (event_sender : EventChannel) (event : SenderEvent) : EventChannel :=
  if (RESERVED_TERMINAL_EVENT_SLOTS <? EventChannel.capacity event_sender)%nat
  then EventChannel.try_send event_sender event else event_sender.

Definition transport_error (operation : string) (error : IoError) : SenderError :=
  TransportFailed operation (io_message error).

Definition is_expected_receiver_source (source destination : SocketAddr) : bool :=
  match source, destination with
  | V4 source_ip _, V4 destination_ip _ => source_ip =? destination_ip
  | V6 source_ip _ _ source_scope, V6 destination_ip _ _ destination_scope =>
    (source_ip =? destination_ip) &&
    ((destination_scope =? 0) || (source_scope =? destination_scope))
  | _, _ => false
  end.

Definition contains_receiver_feedback (c : CompoundRtcpPacket) : bool :=
  negb (bool_decide (length (receiver_reports c) = 0%nat))
  || negb (bool_decide (length (cast_feedbacks c) = 0%nat))
  || negb (bool_decide (length (picture_loss c) = 0%nat))
  || negb (bool_decide (length (receiver_reference_times c) = 0%nat)).

(** [ParseError]'s [Display]. *)
Definition parse_error_to_string (e : ParseError) : string :=
  match e with
  | Truncated => "packet truncated"
  | BadVersion => "unsupported RTCP version"
  | BadMagic => "bad Cast feedback magic"
  | InvalidValue => "invalid RTCP field value"
  end.

(** ** Streams by type and by SSRC *)

Definition get_stream (t : StreamType) (s : Streams) : option StreamState :=
  match t with Audio => audio_stream s | Video => video_stream s end.

Definition set_stream (t : StreamType) (st : StreamState) (s : Streams) : Streams :=
  match t with
  | Audio => s <| audio_stream := Some st |>
  | Video => s <| video_stream := Some st |>
  end.

(** The returned stream, when there is one, is the one of the returned type. *)
Definition find_stream_by_sender_sync_source (ssrc : SyncSource) (s : Streams)
  : StreamType * option StreamState :=
  if from_option (fun st => sender_sync_source st =? ssrc) false (audio_stream s)
  then (Audio, audio_stream s)
  else if from_option (fun st => sender_sync_source st =? ssrc) false (video_stream s)
  then (Video, video_stream s)
  else if is_audio ssrc then (Audio, None) else (Video, None).

Definition find_stream_by_receiver_sync_source (ssrc : SyncSource) (s : Streams)
  : option (StreamType * StreamState) :=
  if from_option (fun st => receiver_sync_source st =? ssrc) false (audio_stream s)
  then st ← audio_stream s; Some (Audio, st)
  else if from_option (fun st => receiver_sync_source st =? ssrc) false (video_stream s)
  then st ← video_stream s; Some (Video, st)
  else None.

Definition session_statistics (s : Streams) : SessionStatistics :=
  MkSessionStatistics (StreamState.statistics <$> audio_stream s)
    (StreamState.statistics <$> video_stream s).

Definition stream_feedback_state (t : StreamType) (s : Streams) : option StreamFeedbackState :=
  stream ← get_stream t s;
  let st := StreamState.statistics stream in
  Some (MkFeedbackState
    (negb (st_max_acceptable_in_flight_duration st =? 0)
     && (st_max_acceptable_in_flight_duration st <=? st_in_flight_media_duration st))
    (st_max_acceptable_in_flight_duration st) (st_current_rtt st) (st_receiver_playout_delay st)
    (st_nack_count st) (st_frames_dropped_or_skipped st) (st_fraction_lost st)).

Definition session_feedback_state (s : Streams)
  : option StreamFeedbackState * option StreamFeedbackState :=
  (stream_feedback_state Audio s, stream_feedback_state Video s).

Definition set_target_playout_delay (s : Streams) (delay : Duration)
  : Streams * Result PlayoutDelayError unit :=
  if existsb (fun st => negb (StreamState.supports_adaptive_playout_delay st))
       (option_list (audio_stream s) ++ option_list (video_stream s))
  then (s, Err Unsupported)
  else
    (MkStreams ((fun st => StreamState.set_target_playout_delay st delay) <$> audio_stream s)
       ((fun st => StreamState.set_target_playout_delay st delay) <$> video_stream s), Ok tt).

(** ** Receiver feedback *)

(** The loop over receiver reports. *)
Definition process_receiver_report (received_at : Instant) (s : Streams) (report : ReceiverReport)
  : Streams :=
  match find_stream_by_sender_sync_source (rr_sync_source report) s with
  | (t, Some stream) =>
    if negb (StreamState.accepts_receiver_sync_source stream (rr_receiver_sync_source report)) then s
    else set_stream t (StreamState.update_receiver_report stream report received_at) s
  | (_, None) => s
  end.

(** The acknowledgement events of one feedback, in order. *)
Definition emit_acked (t : StreamType) (ids : list FrameId) (ch : EventChannel) : EventChannel :=
  fold_left (fun ch id => emit_nonterminal ch (FrameAcked t id)) ids ch.

(** The loop over a feedback's NACKs. *)
Definition process_nack (t : StreamType) (cp : FrameId) (acc : StreamState * EventChannel)
    (nack : PacketNack) : StreamState * EventChannel :=
  let '(stream, ch) := acc in
  let frame_id := FrameId.expand (FrameId.truncate (nack_frame_id nack)) cp in
  let '(stream, packets_queued) := StreamState.handle_nack stream frame_id (nack_packet_id nack) in
  (stream, emit_nonterminal ch (PacketRetransmission t frame_id (nack_packet_id nack) packets_queued)).

(** The loop over Cast feedbacks. *)
Definition process_cast_feedback (acc : Streams * EventChannel * AcknowledgementProgress)
    (feedback : CastFeedback) : Streams * EventChannel * AcknowledgementProgress :=
  let '(s, ch, progress) := acc in
  match find_stream_by_sender_sync_source (cf_sender_sync_source feedback) s with
  | (_, None) => (s, ch, progress)
  | (t, Some stream) =>
    if negb (StreamState.accepts_receiver_sync_source stream (cf_receiver_sync_source feedback))
    then (s, ch, progress) else
    let stream := StreamState.update_playout_delay stream (playout_delay_ms feedback) in
    let cp := FrameId.expand_lte (checkpoint_frame_id feedback) (next_frame_id stream + -1) in
    let '(stream, acknowledged) := StreamState.acknowledge_up_to stream cp in
    let '(stream, more) := StreamState.acknowledge_bitvector stream cp (ack_bitvector feedback) in
    let acknowledged := acknowledged ++ more in
    let progress :=
      if bool_decide (length acknowledged = 0%nat) then progress else
      match t with
      | Audio => MkProgress true (p_video progress)
      | Video => MkProgress (p_audio progress) true
      end in
    let ch := emit_acked t acknowledged ch in
    let '(stream, ch) := fold_left (process_nack t cp) (nacks feedback) (stream, ch) in
    (set_stream t stream s, ch, progress)
  end.

(** The loop over picture losses. *)
Definition process_picture_loss (s : Streams) (ch : EventChannel) (loss : PictureLossIndication)
  : EventChannel :=
  match find_stream_by_sender_sync_source (pl_sender_sync_source loss) s with
  | (t, Some stream) =>
    if StreamState.accepts_receiver_sync_source stream (pl_receiver_sync_source loss)
    then emit_nonterminal (emit_nonterminal ch (PictureLoss t)) (NeedsKeyFrame t)
    else ch
  | (_, None) => ch
  end.

(** The loop over receiver reference times. *)
Definition process_reference_time (s : Streams) (r : ReceiverReferenceTime) : Streams :=
  match find_stream_by_receiver_sync_source (rt_receiver_sync_source r) s with
  | Some (t, stream) => set_stream t (StreamState.update_receiver_reference_time stream r) s
  | None => s
  end.

Definition process_feedback (c : CompoundRtcpPacket) (received_at : Instant) (s : Streams)
    (ch : EventChannel) : Streams * EventChannel * AcknowledgementProgress :=
  let s := fold_left (process_receiver_report received_at) (receiver_reports c) s in
  let '(s, ch, progress) :=
    fold_left process_cast_feedback (cast_feedbacks c) (s, ch, MkProgress false false) in
  let ch := fold_left (process_picture_loss s) (picture_loss c) ch in
  let s := fold_left process_reference_time (receiver_reference_times c) s in
  (s, ch, progress).

(** ** The effectful part *)

(** The locals of [run]. *)
Record LoopState (W : Type) := MkLoop {
  world : W;
  streams : Streams;
  audio_watchdog : AcknowledgementWatchdog;
  video_watchdog : AcknowledgementWatchdog;
  burst_budget : BurstBudget;
  statistics_pending : bool;
  statistics_trigger_count : Z;
  statistics_deadline : Instant;
  events : EventChannel;
  replies : list Reply;
}.
Arguments MkLoop {W}.
Arguments world {W}.
Arguments streams {W}.
Arguments audio_watchdog {W}.
Arguments video_watchdog {W}.
Arguments burst_budget {W}.
Arguments statistics_pending {W}.
Arguments statistics_trigger_count {W}.
Arguments statistics_deadline {W}.
Arguments events {W}.
Arguments replies {W}.
#[export] Instance LoopState_eta {W} : Eta (LoopState W) := fun s =>
  MkLoop (world s) (streams s) (audio_watchdog s) (video_watchdog s) (burst_budget s)
    (statistics_pending s) (statistics_trigger_count s) (statistics_deadline s) (events s)
    (replies s).

(** Whether the loop goes on or [run] returns. *)
Inductive Flow := Continue | Return (r : Result SenderError unit).

(** What a [select!] arm resolves to. *)
Inductive LoopInput :=
| Command (c : option StreamCommand)
| BurstTick
| Received (r : IoError + bytes * SocketAddr)
| RtcpTick
| StatisticsTimer
| TimeoutTick.

Section Loop.
Context {W : Type} `{Transport W} `{StreamCipher}.

Definition watchdog_default : AcknowledgementWatchdog := MkWatchdog None false.

Definition packet_sent (w : W) (self : AcknowledgementWatchdog) : W * AcknowledgementWatchdog :=
  match waiting_since self with
  | Some _ => (w, self)
  | None => let '(w, now) := instant_now w in (w, MkWatchdog (Some now) (has_acknowledged self))
  end.

Definition acknowledgement_advanced (w : W) (self : AcknowledgementWatchdog)
    (frames_still_in_flight : bool) : W * AcknowledgementWatchdog :=
  if frames_still_in_flight
  then let '(w, now) := instant_now w in (w, MkWatchdog (Some now) true)
  else (w, MkWatchdog None true).

Definition timed_out (w : W) (self : AcknowledgementWatchdog) (frames_in_flight : bool)
  : W * AcknowledgementWatchdog * bool :=
  if negb frames_in_flight then (w, MkWatchdog None (has_acknowledged self), false) else
  let timeout := if has_acknowledged self then RECEIVER_ACKNOWLEDGEMENT_TIMEOUT
                 else INITIAL_RECEIVER_ACKNOWLEDGEMENT_TIMEOUT in
  match waiting_since self with
  | None => (w, self, false)
  | Some since => let '(w, now) := instant_now w in (w, self, timeout <=? duration_since now since)
  end.

Definition send_datagram (w : W) (d : bytes) (remote_address : SocketAddr) (operation : string)
  : W * Result SenderError unit :=
  match send_to w d remote_address with
  | (w, inl error) => (w, Err (transport_error operation error))
  | (w, inr written) =>
    if negb (written =? Z.of_nat (length d))
    then (w, Err (TransportFailed operation
           ("short datagram write: wrote " +:+ display written +:+ " of "
              +:+ display (Z.of_nat (length d)) +:+ " bytes")))
    else (w, Ok tt)
  end.

(** [while budget.has_credit()]: the fuel bounds the iterations. *)
Fixpoint flush_loop (fuel : nat) (w : W) (remote_address : SocketAddr)
    (stream : option StreamState) (watchdog : AcknowledgementWatchdog) (budget : BurstBudget)
    (operation : string)
  : W * option StreamState * AcknowledgementWatchdog * BurstBudget * Result SenderError unit :=
  match fuel with
  | O => (w, stream, watchdog, budget, Panic)
  | S fuel' =>
    if negb (BurstBudget.has_credit budget) then (w, stream, watchdog, budget, Ok tt) else
    match stream with
    | None => (w, stream, watchdog, budget, Ok tt)
    | Some st =>
      match StreamState.next_packet st with
      | (st, None) => (w, Some st, watchdog, budget, Ok tt)
      | (st, Some outbound) =>
        let len := Z.of_nat (length (packet_data (o_packet outbound))) in
        match send_datagram w (packet_data (o_packet outbound)) remote_address operation with
        | (w, Ok _) =>
          let st := StreamState.record_packet_sent st len (o_retransmission outbound) in
          let '(w, watchdog) := packet_sent w watchdog in
          let budget := BurstBudget.consume budget len in
          flush_loop fuel' w remote_address (Some st) watchdog budget operation
        | (w, r) => (w, Some st, watchdog, budget, r)
        end
      end
    end
  end.

(** One more iteration than there are packets queued is enough. *)
Definition flush_fuel (stream : option StreamState) : nat :=
  S (from_option (fun st => length (retransmit_queue st) + length (send_queue st))%nat 0%nat stream).

Definition flush_stream_packets (w : W) (remote_address : SocketAddr)
    (stream : option StreamState) (watchdog : AcknowledgementWatchdog) (budget : BurstBudget)
    (operation : string)
  : W * option StreamState * AcknowledgementWatchdog * BurstBudget * Result SenderError unit :=
  flush_loop (flush_fuel stream) w remote_address stream watchdog budget operation.

Definition flush_queued_packets (remote_address : SocketAddr) (s : LoopState W)
  : LoopState W * Result SenderError unit :=
  let '(w, now) := instant_now (world s) in
  let budget := BurstBudget.refill (burst_budget s) now in
  let '(w, audio, watchdog, budget, r) :=
    flush_stream_packets w remote_address (audio_stream (streams s)) (audio_watchdog s) budget
      "send audio RTP packet" in
  let s := s <| world := w |> <| streams := MkStreams audio (video_stream (streams s)) |>
             <| audio_watchdog := watchdog |> <| burst_budget := budget |> in
  match r with
  | Ok _ =>
    let '(w, video, watchdog, budget, r) :=
      flush_stream_packets (world s) remote_address (video_stream (streams s)) (video_watchdog s)
        (burst_budget s) "send video RTP packet" in
    (s <| world := w |> <| streams := MkStreams (audio_stream (streams s)) video |>
       <| video_watchdog := watchdog |> <| burst_budget := budget |>, r)
  | r => (s, r)
  end.

Definition send_sender_report (w : W) (remote_address : SocketAddr) (stream : StreamState)
    (operation : string) : W * StreamState * Result SenderError unit :=
  let '(w, monotonic) := (* read only when there is a reference time *)
    match last_reference_time stream with None => (w, 0) | Some _ => instant_now w end in
  let '(w, system) := system_now w in
  let '(ntp_timestamp, rtp_timestamp) :=
    StreamState.sender_report_timestamp stream system monotonic in
  let report := SenderReportBuilder.build (sender_sync_source stream) ntp_timestamp rtp_timestamp
                  (StreamState.total_packets_sent stream) (StreamState.total_octets_sent stream) in
  match send_datagram w report remote_address operation with
  | (w, Ok _) =>
    let '(w, at_) := instant_now w in
    (w, StreamState.record_sender_report stream (NtpTimestamp.middle_32 ntp_timestamp) at_, Ok tt)
  | (w, r) => (w, stream, r)
  end.

(** [emit_fatal(&event_sender, &error); return Err(error)]. *)
Definition fail_with (s : LoopState W) (r : Result SenderError unit) : LoopState W * Flow :=
  match r with
  | Err error => (s <| events := emit_fatal (events s) error |>, Return (Err error))
  | r => (s, Return r)
  end.

(** The debounce: the first trigger arms the timer, later ones only count. *)
Definition trigger_statistics (s : LoopState W) : LoopState W :=
  let s := s <| statistics_trigger_count := saturating_add_u64 (statistics_trigger_count s) 1 |> in
  if statistics_pending s then s else
  let '(w, now) := instant_now (world s) in
  s <| statistics_pending := true |> <| world := w |>
    <| statistics_deadline := now + STATISTICS_DEBOUNCE_INTERVAL |>.

Definition reply (s : LoopState W) (r : Reply) : LoopState W := s <| replies := replies s ++ [r] |>.

(** ** The arms of the [select!] *)

Definition on_enqueue (s : LoopState W) (t : StreamType) (frame : EncodedFrame)
  : LoopState W * (bool * bool * bool) (* flush, publish_statistics, panicked *) :=
  let feedback_before := stream_feedback_state t (streams s) in
  match get_stream t (streams s) with
  | None => (reply s (EnqueueReply (Err EnqueueSessionClosed)), (false, false, false))
  | Some stream =>
    let '(stream, result) := StreamState.enqueue_frame stream frame in
    let s := s <| streams := set_stream t stream (streams s) |> in
    match result with
    | Panic => (s, (false, false, true))
    | _ =>
      let flush := match result with Ok _ => true | _ => false end in
      let publish := match result with Err _ => true | _ => false end
        || negb (bool_decide (feedback_before = stream_feedback_state t (streams s))) in
      (reply s (EnqueueReply result), (flush, publish, false))
    end
  end.

Definition on_set_target_playout_delay (s : LoopState W) (delay : Duration)
  : LoopState W * bool (* publish_statistics *) :=
  let feedback_before := session_feedback_state (streams s) in
  let '(streams', result) := set_target_playout_delay (streams s) delay in
  let s := s <| streams := streams' |> in
  let publish := match result with Ok _ => true | _ => false end
    && negb (bool_decide (feedback_before = session_feedback_state (streams s))) in
  (reply s (PlayoutDelayReply result), publish).

(** The tail of the command arm. *)
Definition after_command (remote_address : SocketAddr) (s : LoopState W) (flush publish : bool)
  : LoopState W * Flow :=
  let '(s, r) := if flush then flush_queued_packets remote_address s else (s, Ok tt) in
  match r with
  | Ok _ => (if publish then trigger_statistics s else s, Continue)
  | r => fail_with s r
  end.

Definition on_command (remote_address : SocketAddr) (s : LoopState W) (command : option StreamCommand)
  : LoopState W * Flow :=
  match command with
  | Some (EnqueueFrame t frame) =>
    let '(s, (flush, publish, panicked)) := on_enqueue s t frame in
    if panicked : bool then (s, Return Panic) else after_command remote_address s flush publish
  | Some Statistics =>
    after_command remote_address (reply s (StatisticsReply (session_statistics (streams s)))) false false
  | Some (SetTargetPlayoutDelay delay) =>
    let '(s, publish) := on_set_target_playout_delay s delay in
    after_command remote_address s false publish
  | Some Shutdown => (reply s ShutdownReply, Return (Ok tt))
  | None => (s, Return (Ok tt))
  end.

Definition on_burst_tick (remote_address : SocketAddr) (s : LoopState W) : LoopState W * Flow :=
  let '(s, r) := flush_queued_packets remote_address s in
  match r with Ok _ => (s, Continue) | r => fail_with s r end.

(** [stream.as_ref().is_some_and(|stream| stream.in_flight_count() != 0)]. *)
Definition frames_in_flight (stream : option StreamState) : bool :=
  from_option (fun st => negb (StreamState.in_flight_count st =? 0)) false stream.

(** The acknowledgement watchdogs after a feedback. *)
Definition advance_watchdogs (s : LoopState W) (progress : AcknowledgementProgress) : LoopState W :=
  let s :=
    if p_audio progress then
      let '(w, d) := acknowledgement_advanced (world s) (audio_watchdog s)
                       (frames_in_flight (audio_stream (streams s))) in
      s <| world := w |> <| audio_watchdog := d |>
    else s in
  if p_video progress then
    let '(w, d) := acknowledgement_advanced (world s) (video_watchdog s)
                     (frames_in_flight (video_stream (streams s))) in
    s <| world := w |> <| video_watchdog := d |>
  else s.

(** The [Ok(compound) if contains_receiver_feedback] branch. *)
Definition on_feedback (remote_address : SocketAddr) (s : LoopState W) (c : CompoundRtcpPacket)
  : LoopState W * Flow :=
  let '(w, received_at) := instant_now (world s) in
  let s := s <| world := w |> in
  let feedback_before := session_feedback_state (streams s) in
  let '(streams', events', progress) := process_feedback c received_at (streams s) (events s) in
  let s := s <| streams := streams' |> <| events := events' |> in
  let s := advance_watchdogs s progress in
  let '(s, r) := flush_queued_packets remote_address s in
  match r with
  | Ok _ =>
    (if bool_decide (feedback_before = session_feedback_state (streams s))
     then s else trigger_statistics s, Continue)
  | r => fail_with s r
  end.

Definition on_received (remote_address : SocketAddr) (s : LoopState W)
    (received : IoError + bytes * SocketAddr) : LoopState W * Flow :=
  match received with
  | inl error =>
    if decide (io_kind error = Interrupted) then (s, Continue)
    else fail_with s (Err (transport_error "receive RTCP packet" error))
  | inr (d, address) =>
    if negb (is_expected_receiver_source address remote_address) then (s, Continue) else
    match @classify_packet SenderError d with
    | Ok (Rtcp _) =>
      match parse_compound d with
      | Ok c =>
        if contains_receiver_feedback c then on_feedback remote_address s c else (s, Continue)
      | Err error =>
        (s <| events := emit_nonterminal (events s)
                          (MalformedPacket (parse_error_to_string error)) |>, Continue)
      | Panic => (s, Return Panic)
      end
    | Ok _ => (s, Continue)
    | Err e => (s, Return (Err e))
    | Panic => (s, Return Panic)
    end
  end.

Definition report_stream (remote_address : SocketAddr) (t : StreamType) (operation : string)
    (s : LoopState W) : LoopState W * Result SenderError unit :=
  match get_stream t (streams s) with
  | None => (s, Ok tt)
  | Some stream =>
    let '(w, stream, r) := send_sender_report (world s) remote_address stream operation in
    (s <| world := w |> <| streams := set_stream t stream (streams s) |>, r)
  end.

Definition on_rtcp_tick (remote_address : SocketAddr) (s : LoopState W) : LoopState W * Flow :=
  let '(s, r) := report_stream remote_address Audio "send audio RTCP Sender Report" s in
  match r with
  | Ok _ =>
    let '(s, r) := report_stream remote_address Video "send video RTCP Sender Report" s in
    match r with Ok _ => (s, Continue) | r => fail_with s r end
  | r => fail_with s r
  end.

(** Enabled only while [statistics_pending]. *)
Definition on_statistics_timer (s : LoopState W) : LoopState W * Flow :=
  if statistics_pending s then
    let s := s <| statistics_pending := false |> <| statistics_trigger_count := 0 |> in
    (s <| events := emit_nonterminal (events s)
                      (StatisticsUpdated (session_statistics (streams s))) |>, Continue)
  else (s, Continue).

Definition on_timeout_tick (s : LoopState W) : LoopState W * Flow :=
  let '(w, audio, audio_timed_out) :=
    timed_out (world s) (audio_watchdog s) (frames_in_flight (audio_stream (streams s))) in
  let s := s <| world := w |> <| audio_watchdog := audio |> in
  let '(w, video, video_timed_out) :=
    timed_out (world s) (video_watchdog s) (frames_in_flight (video_stream (streams s))) in
  let s := s <| world := w |> <| video_watchdog := video |> in
  if audio_timed_out || video_timed_out then
    (s <| events := EventChannel.try_send (events s) ReceiverTimedOut |>,
     Return (Err SenderReceiverTimedOut))
  else (s, Continue).

Definition handle (remote_address : SocketAddr) (s : LoopState W) (input : LoopInput)
  : LoopState W * Flow :=
  match input with
  | Command c => on_command remote_address s c
  | BurstTick => on_burst_tick remote_address s
  | Received r => on_received remote_address s r
  | RtcpTick => on_rtcp_tick remote_address s
  | StatisticsTimer => on_statistics_timer s
  | TimeoutTick => on_timeout_tick s
  end.

(** The state [run] starts from. *)
Definition init (w : W) (audio video : option StreamState) : LoopState W :=
  let '(w, now) := instant_now w in
  MkLoop w (MkStreams audio video) watchdog_default watchdog_default (BurstBudget.new now)
    false 0 (now + STATISTICS_DEBOUNCE_INTERVAL) (MkChannel [] true) [].

(** [run] on the inputs its arms resolve to, in order. *)
Fixpoint run_loop (remote_address : SocketAddr) (s : LoopState W) (inputs : list LoopInput)
  : LoopState W * Flow :=
  match inputs with
  | [] => (s, Continue)
  | input :: inputs' =>
    match handle remote_address s input with
    | (s, Continue) => run_loop remote_address s inputs'
    | (s, Return r) => (s, Return r)
    end
  end.

Definition run (w : W) (remote_address : SocketAddr) (audio video : option StreamState)
    (inputs : list LoopInput) : LoopState W * Flow :=
  run_loop remote_address (init w audio video) inputs.
End Loop.
