(* ===== verification/EventLoopFacts.v ===== *)
(** * Invariants of the event loop ([src/src/sender/event_loop.rs])

    Every arm of the loop keeps the streams' invariant, a well-formed budget
    and the reserved event slots; the flush sends queued packets in order and
    within its credit. *)

From stdpp Require Import strings.
From S2P Require Import Prelude Constants Time Errors Text Codec Frame SyncSource Crypto Rtp Rtcp Stream StreamFacts StreamSteps EventLoop.

(** ** Definitions *)

Definition streams_inv (s : Streams) : Prop :=
  forall t st, get_stream t s = Some st -> stream_inv st.

Definition budget_ok (b : BurstBudget) : Prop :=
  0 < capacity_bytes b <= usize_max /\ 0 <= available_bytes b <= capacity_bytes b /\
  0 <= fractional_byte_nanos b < 1000000000.

(** Room for the terminal events. *)
Definition events_ok (ch : EventChannel) : Prop :=
  (length (queued_events ch) + RESERVED_TERMINAL_EVENT_SLOTS <= EVENT_CHANNEL_CAPACITY)%nat.

Record loop_inv {W} (s : LoopState W) : Prop := {
  li_streams : streams_inv (streams s);
  li_budget : budget_ok (burst_budget s);
  li_events : events_ok (events s);
}.

(** What the types and the id space guarantee of an input: a datagram is made
    of bytes, and a stream never runs out of 63-bit ids. *)
Definition input_ok {W} (s : LoopState W) (input : LoopInput) : Prop :=
  match input with
  | Received (inr (d, _)) => bytes_ok d
  | Command (Some (EnqueueFrame t _)) =>
    forall st, get_stream t (streams s) = Some st -> next_frame_id st + 1 < 2 ^ 63
  | _ => True
  end.

(** The event that announces why [run] failed. *)
Definition announces (error : SenderError) (event : SenderEvent) : Prop :=
  event = FatalError error \/ (error = SenderReceiverTimedOut /\ event = ReceiverTimedOut).

(** What holds after an arm: the invariant while the loop goes on or returns
    normally; after a failure, the announcement is the last event queued. *)
Definition outcome_ok {W} (out : LoopState W * Flow) : Prop :=
  match snd out with
  | Continue | Return (Ok _) => loop_inv (fst out)
  | Return (Err error) =>
    receiver_open (events (fst out)) = true ->
    exists earlier event, queued_events (events (fst out)) = earlier ++ [event] /\
      announces error event
  | Return Panic => False
  end.

(** A stream is addressed by its pair of SSRCs. *)
Definition addressed (s : Streams) (sender receiver : SyncSource) : Prop :=
  exists t st, get_stream t s = Some st /\
    sender_sync_source st = sender /\ receiver_sync_source st = receiver.

(** A ghost log of the datagrams handed to the transport; clock readings do
    not send. *)
Class TransportLog (W : Type) `{Transport W} := {
  sent : W -> list (bytes * SocketAddr);
  send_to_sent w d a : sent (fst (send_to w d a)) = sent w ++ [(d, a)];
  instant_now_sent w : sent (fst (instant_now w)) = sent w;
  system_now_sent w : sent (fst (system_now w)) = sent w;
}.

(** The packets waiting in a stream, in the order they will be sent. *)
Definition waiting (st : StreamState) : list RtpPacket :=
  map q_packet (retransmit_queue st) ++ map q_packet (send_queue st).
Definition waiting_in (o : option StreamState) : list RtpPacket := from_option waiting [] o.

Definition packet_bytes (p : RtpPacket) : Z := Z.of_nat (length (packet_data p)).
Definition total_bytes (l : list RtpPacket) : Z := foldr (fun p n => packet_bytes p + n) 0 l.

(** The packets were sent within [credit]: all but the last fit below it. *)
Definition within_credit (credit : Z) (l : list RtpPacket) : Prop :=
  l = [] \/ total_bytes (removelast l) < credit.

(** A world for the witnesses: a clock that advances one microsecond per
    reading and a network that takes every datagram. *)
Record TestWorld := MkTestWorld { tw_clock : Z; tw_sent : list (bytes * SocketAddr) }.
#[export] Instance test_transport : Transport TestWorld := {
  send_to w d a := (MkTestWorld (tw_clock w) (tw_sent w ++ [(d, a)]), inr (Z.of_nat (length d)));
  instant_now w := (MkTestWorld (tw_clock w + 1000) (tw_sent w), tw_clock w);
  system_now w := (w, tw_clock w);
}.
#[export] Instance test_transport_log : TransportLog TestWorld := {
  sent := tw_sent;
  send_to_sent _ _ _ := eq_refl;
  instant_now_sent _ := eq_refl;
  system_now_sent _ := eq_refl;
}.

(** ** Streams by type and SSRC *)

Lemma get_set_stream t t' st s :
  get_stream t' (set_stream t st s) = if decide (t' = t) then Some st else get_stream t' s.
Proof. by destruct t, t'. Qed.

Lemma set_stream_inv t st s : streams_inv s -> stream_inv st -> streams_inv (set_stream t st s).
Proof. intros Hs Hst t' st'. rewrite get_set_stream. case_decide; [by intros [= <-]|apply Hs]. Qed.

Lemma find_sender_get ssrc s t st :
  find_stream_by_sender_sync_source ssrc s = (t, Some st) ->
  get_stream t s = Some st /\ sender_sync_source st = ssrc.
Proof.
  unfold find_stream_by_sender_sync_source. destruct s as [[a|] [v|]]; cbn;
    repeat (case_match; cbn); intros [= <- <-]; split; try done; lia.
Qed.

Lemma find_receiver_get ssrc s t st :
  find_stream_by_receiver_sync_source ssrc s = Some (t, st) ->
  get_stream t s = Some st /\ receiver_sync_source st = ssrc.
Proof.
  unfold find_stream_by_receiver_sync_source. destruct s as [[a|] [v|]]; cbn;
    repeat (case_match; cbn); intros [= <- <-]; split; try done; lia.
Qed.

(** ** Events *)

Lemma emit_nonterminal_ok ch e : events_ok ch -> events_ok (emit_nonterminal ch e).
Proof.
  unfold events_ok, emit_nonterminal, EventChannel.try_send, EventChannel.capacity,
    RESERVED_TERMINAL_EVENT_SLOTS, EVENT_CHANNEL_CAPACITY. intros H.
  destruct (Nat.ltb_spec 2 (64 - length (queued_events ch))); [|done].
  destruct (_ && _); [|done]. cbn. rewrite length_app. cbn. lia.
Qed.
#[export] Hint Resolve emit_nonterminal_ok set_stream_inv : cast.

(** A terminal event always finds a slot. *)
Lemma try_send_terminal ch e :
  events_ok ch -> receiver_open ch = true ->
  queued_events (EventChannel.try_send ch e) = queued_events ch ++ [e].
Proof.
  unfold events_ok, EventChannel.try_send, EventChannel.capacity, RESERVED_TERMINAL_EVENT_SLOTS.
  intros H ->. cbn [andb]. destruct (Nat.ltb_spec 0 (EVENT_CHANNEL_CAPACITY - length (queued_events ch))); [done|].
  unfold EVENT_CHANNEL_CAPACITY in *. lia.
Qed.

Lemma fold_left_inv {A B} (f : A -> B -> A) (P : A -> Prop) l a :
  (forall a b, P a -> P (f a b)) -> P a -> P (fold_left f l a).
Proof. intros Hf. revert a. induction l as [|b l IH]; intros a Ha; cbn; auto. Qed.

(** ** Feedback *)

Lemma expand_lte_le t r : FrameId.expand_lte t r <= r.
Proof.
  unfold FrameId.expand_lte, FrameId.expand, as_i8, wrap_u8. cbv zeta. change (2 ^ 8) with 256.
  pose proof (Z.mod_pos_bound (t - FrameId.truncate r) 256 ltac:(lia)).
  destruct (Z.ltb_spec ((t - FrameId.truncate r) mod 256) 128), (Z.ltb_spec r (r + (t - FrameId.truncate r) mod 256)),
    (Z.ltb_spec r (r + ((t - FrameId.truncate r) mod 256 - 256))); lia.
Qed.

Lemma process_receiver_report_inv at_ s r : streams_inv s -> streams_inv (process_receiver_report at_ s r).
Proof.
  intros Hs. unfold process_receiver_report.
  destruct (find_stream_by_sender_sync_source _ s) as [t [st|]] eqn:Hf; [|done].
  apply find_sender_get in Hf as [Hg _]. destruct (negb _); [done|].
  apply set_stream_inv; [done|]. by apply update_receiver_report_inv, (Hs t).
Qed.

Lemma process_nack_inv t cp st ch n :
  stream_inv st -> events_ok ch ->
  stream_inv (fst (process_nack t cp (st, ch) n)) /\ events_ok (snd (process_nack t cp (st, ch) n)).
Proof.
  intros Hs Hc. unfold process_nack.
  pose proof (handle_nack_inv st (FrameId.expand (FrameId.truncate (nack_frame_id n)) cp) (nack_packet_id n) Hs).
  destruct (StreamState.handle_nack _ _ _) as [st' q]. split; [done|by apply emit_nonterminal_ok].
Qed.

Lemma process_cast_feedback_inv s ch p f :
  streams_inv s -> events_ok ch ->
  let '(s', ch', _) := process_cast_feedback (s, ch, p) f in streams_inv s' /\ events_ok ch'.
Proof.
  intros Hs Hc. unfold process_cast_feedback.
  destruct (find_stream_by_sender_sync_source _ s) as [t [st|]] eqn:Hf; [|done].
  apply find_sender_get in Hf as [Hg _]. destruct (negb _); [done|]. cbv zeta.
  set (st0 := StreamState.update_playout_delay st _).
  assert (H0 : stream_inv st0) by (apply (stream_inv_ext st); auto; by apply (Hs t)).
  set (cp := FrameId.expand_lte _ _).
  assert (Hcp : cp < next_frame_id st0) by (subst cp; pose proof (expand_lte_le (checkpoint_frame_id f) (next_frame_id st0 + -1)); lia).
  pose proof (acknowledge_up_to_inv st0 cp H0 Hcp) as H1.
  destruct (StreamState.acknowledge_up_to st0 cp) as [st1 a1]. cbn [fst] in H1.
  pose proof (acknowledge_bitvector_inv st1 cp (ack_bitvector f) H1) as H2.
  destruct (StreamState.acknowledge_bitvector st1 cp _) as [st2 a2]. cbn [fst] in H2.
  assert (H3 : events_ok (emit_acked t (a1 ++ a2) ch)) by (apply (fold_left_inv _ events_ok); auto with cast).
  destruct (fold_left (process_nack t cp) (nacks f) _) as [st3 ch3] eqn:Hn.
  assert (H4 : stream_inv st3 /\ events_ok ch3).
  { pose proof (fold_left_inv (process_nack t cp) (fun x => stream_inv (fst x) /\ events_ok (snd x))
      (nacks f) (st2, emit_acked t (a1 ++ a2) ch)) as Hi.
    rewrite Hn in Hi. apply Hi; [|done]. intros [? ?] n [? ?]. by apply process_nack_inv. }
  destruct H4. split; [by apply set_stream_inv|done].
Qed.

Lemma process_feedback_inv c at_ s ch :
  streams_inv s -> events_ok ch ->
  let '(s', ch', _) := process_feedback c at_ s ch in streams_inv s' /\ events_ok ch'.
Proof.
  intros Hs Hc. unfold process_feedback.
  assert (H1 : streams_inv (fold_left (process_receiver_report at_) (receiver_reports c) s))
    by (apply (fold_left_inv _ streams_inv); auto using process_receiver_report_inv).
  destruct (fold_left process_cast_feedback _ _) as [[s2 ch2] p2] eqn:Hf.
  assert (H2 : streams_inv s2 /\ events_ok ch2).
  { set (P := fun x : Streams * EventChannel * AcknowledgementProgress =>
      let '(s', ch', _) := x in streams_inv s' /\ events_ok ch').
    change (P (s2, ch2, p2)). rewrite <- Hf. apply (fold_left_inv _ P); [|done].
    intros [[s' ch'] p'] f [? ?]. by apply process_cast_feedback_inv. }
  destruct H2 as [H2 H3]. split.
  - apply (fold_left_inv _ streams_inv); [|done]. intros s' r Hs'. unfold process_reference_time.
    destruct (find_stream_by_receiver_sync_source _ s') as [[t st]|] eqn:Hr; [|done].
    apply find_receiver_get in Hr as [Hg _]. apply set_stream_inv; [done|].
    apply (stream_inv_ext st); auto. by apply (Hs' t).
  - apply (fold_left_inv _ events_ok); [|done]. intros ch' l Hch'. unfold process_picture_loss.
    destruct (find_stream_by_sender_sync_source _ s2) as [t [st|]]; [|done].
    destruct (StreamState.accepts_receiver_sync_source _ _); auto with cast.
Qed.

(** ** The burst budget *)

Lemma budget_new_ok now : budget_ok (BurstBudget.new now).
Proof. unfold budget_ok. vm_compute. intuition congruence. Qed.

Lemma budget_refill_ok b now : budget_ok b -> budget_ok (BurstBudget.refill b now).
Proof.
  unfold budget_ok, BurstBudget.refill. cbv zeta. intros (Hc & Ha & Hf). cbn [available_bytes capacity_bytes fractional_byte_nanos last_refill update BurstBudget_eta].
  destruct (_ =? _); cbn [available_bytes capacity_bytes fractional_byte_nanos last_refill update BurstBudget_eta]; [lia|].
  set (scaled := saturating_add_u128 _ _).
  assert (0 <= scaled).
  { subst scaled. change BurstBudget.bytes_per_second with 16777216.
    unfold saturating_add_u128, saturating_mul_u128, as_nanos, duration_since, saturating_sub, u128_max. lia. }
  pose proof (Z.div_pos scaled 1000000000 ltac:(lia) ltac:(lia)).
  pose proof (Z.mod_pos_bound scaled 1000000000 ltac:(lia)).
  unfold saturating_add_u64, usize_max, u64_max in *.
  destruct (_ =? _); cbn [available_bytes capacity_bytes fractional_byte_nanos last_refill update BurstBudget_eta]; lia.
Qed.

Lemma budget_consume_ok b n : 0 <= n -> budget_ok b -> budget_ok (BurstBudget.consume b n).
Proof. unfold budget_ok, BurstBudget.consume, saturating_sub. cbn. lia. Qed.

(** ** Flushing *)

Section Flush.
Context {W : Type} `{HT : Transport W} `{HC : StreamCipher}.

Lemma waiting_next st st' o :
  StreamState.next_packet st = (st', o) ->
  match o with
  | None => waiting st = [] /\ st' = st
  | Some p => waiting st = o_packet p :: waiting st'
  end.
Proof.
  unfold StreamState.next_packet, waiting. destruct (retransmit_queue st) as [|q r] eqn:Hr.
  - destruct (send_queue st) as [|q t] eqn:Ht; intros [= <- <-]; cbn; [done|]. by rewrite Hr.
  - intros [= <- <-]. done.
Qed.

Lemma waiting_record st n r : waiting (StreamState.record_packet_sent st n r) = waiting st.
Proof. unfold StreamState.record_packet_sent. by destruct r. Qed.

Lemma flush_fuel_waiting o : flush_fuel o = S (length (waiting_in o)).
Proof. destruct o as [st|]; [|done]. unfold flush_fuel, waiting_in, waiting. cbn. by rewrite length_app, !length_map. Qed.

Lemma flush_loop_inv fuel w addr o dog b op :
  (length (waiting_in o) < fuel)%nat -> (forall st, o = Some st -> stream_inv st) -> budget_ok b ->
  let '(w', o', dog', b', r) := flush_loop fuel w addr o dog b op in
  (forall st, o' = Some st -> stream_inv st) /\ budget_ok b' /\ r <> Panic.
Proof.
  revert w o dog b. induction fuel as [|fuel IH]; intros w o dog b Hf Ho Hb; [lia|].
  cbn [flush_loop]. destruct (negb (BurstBudget.has_credit b)); [done|].
  destruct o as [st|]; [|done]. specialize (Ho st eq_refl).
  pose proof (next_packet_inv st Ho) as Hn.
  destruct (StreamState.next_packet st) as [st' [p|]] eqn:He; cbn [fst] in Hn;
    [|by split_and!; [intros ? [= <-]|..]].
  apply waiting_next in He. destruct (send_datagram w _ addr op) as [w1 [u|e|]] eqn:Hs.
  - destruct (packet_sent w1 dog) as [w2 dog'].
    apply IH; [|intros ? [= <-]; by apply record_packet_sent_inv|apply budget_consume_ok; [lia|done]].
    cbn [waiting_in from_option] in *. rewrite waiting_record. rewrite He in Hf. cbn in Hf. lia.
  - by split_and!; [intros ? [= <-]|..].
  - exfalso. unfold send_datagram in Hs. repeat case_match; simplify_eq.
Qed.

Lemma flush_queued_packets_inv addr (s : LoopState W) :
  loop_inv s ->
  let '(s', r) := flush_queued_packets addr s in loop_inv s' /\ r <> Panic.
Proof.
  intros [Hs Hb He]. unfold flush_queued_packets, flush_stream_packets.
  destruct (instant_now (world s)) as [w now].
  pose proof (flush_loop_inv (flush_fuel (audio_stream (streams s))) w addr (audio_stream (streams s))
    (audio_watchdog s) (BurstBudget.refill (burst_budget s) now) "send audio RTP packet"
    ltac:(rewrite flush_fuel_waiting; lia) (Hs Audio) (budget_refill_ok _ _ Hb)) as Ha.
  destruct (flush_loop _ w addr _ _ _ _) as [[[[w1 a] dog] b] r]. destruct Ha as (Ha & Hb1 & Hr).
  assert (Hs1 : streams_inv (MkStreams a (video_stream (streams s))))
    by (intros []; cbn; [apply Ha|apply (Hs Video)]).
  destruct r as [u|e|]; [|by split|done]. cbn [world streams video_stream audio_stream video_watchdog burst_budget update LoopState_eta].
  pose proof (flush_loop_inv (flush_fuel (video_stream (streams s))) w1 addr (video_stream (streams s))
    (video_watchdog s) b "send video RTP packet" ltac:(rewrite flush_fuel_waiting; lia) (Hs Video) Hb1) as Hv.
  destruct (flush_loop _ w1 addr _ _ _ _) as [[[[w2 v] dog2] b2] r2]. destruct Hv as (Hv & Hb2 & Hr2).
  split; [|done]. constructor; cbn; [|done|done].
  intros []; cbn; [apply Ha|apply Hv].
Qed.

(** ** What a flush puts on the wire *)

Context `{!TransportLog W}.

Lemma send_datagram_sent w d addr op w' r :
  send_datagram w d addr op = (w', r) -> sent w' = sent w ++ [(d, addr)].
Proof.
  intros Hs. pose proof (send_to_sent w d addr) as Hl. unfold send_datagram in Hs.
  destruct (send_to w d addr) as [w1 [e|n]]; [by simplify_eq/=|].
  destruct (negb _); by simplify_eq/=.
Qed.

Lemma packet_sent_sent w dog : sent (fst (packet_sent w dog)) = sent w.
Proof.
  unfold packet_sent. destruct (waiting_since dog); [done|].
  pose proof (instant_now_sent w). by destruct (instant_now w).
Qed.

Lemma total_bytes_app l1 l2 : total_bytes (l1 ++ l2) = total_bytes l1 + total_bytes l2.
Proof. unfold total_bytes. induction l1 as [|p l1 IH]; cbn [app foldr]; lia. Qed.

Lemma total_bytes_nonneg l : 0 <= total_bytes l.
Proof. unfold total_bytes, packet_bytes. induction l as [|p l IH]; cbn [foldr]; lia. Qed.

(** Sending one packet with credit left, then more within what remains. *)
Lemma within_credit_cons credit p l :
  0 < credit -> within_credit (saturating_sub credit (packet_bytes p)) l ->
  within_credit credit (p :: l).
Proof.
  unfold within_credit, saturating_sub. intros Hc [->|Hl]; right; [cbn; lia|].
  destruct l as [|q l]; [cbn in *; lia|]. pose proof (total_bytes_nonneg (removelast (q :: l))).
  change (total_bytes (removelast (p :: q :: l))) with (packet_bytes p + total_bytes (removelast (q :: l))).
  lia.
Qed.

(** What sending [out] leaves of a budget. *)
Definition spend (b : BurstBudget) (out : list RtpPacket) : BurstBudget :=
  b <| available_bytes := saturating_sub (available_bytes b) (total_bytes out) |>.

Lemma spend_eq c a f r out :
  spend (MkBudget c a f r) out = MkBudget c (saturating_sub a (total_bytes out)) f r.
Proof. done. Qed.

Lemma spend_nil b : budget_ok b -> spend b [] = b.
Proof.
  destruct b as [c a f r]. intros (_ & Ha & _). rewrite spend_eq. change (total_bytes []) with 0.
  cbn [available_bytes] in Ha. f_equal. unfold saturating_sub. lia.
Qed.

Lemma spend_app b l1 l2 : spend (spend b l1) l2 = spend b (l1 ++ l2).
Proof.
  destruct b. rewrite !spend_eq, total_bytes_app. f_equal. unfold saturating_sub.
  pose proof (total_bytes_nonneg l1). pose proof (total_bytes_nonneg l2). lia.
Qed.

Lemma spend_consume b p out : spend (BurstBudget.consume b (packet_bytes p)) out = spend b (p :: out).
Proof.
  change (p :: out) with ([p] ++ out). rewrite <- spend_app. f_equal. destruct b. rewrite spend_eq.
  change (total_bytes [p]) with (packet_bytes p + 0). by rewrite Z.add_0_r.
Qed.

Lemma flush_loop_sent fuel w addr o dog b op w' o' dog' b' :
  (length (waiting_in o) < fuel)%nat -> budget_ok b ->
  flush_loop fuel w addr o dog b op = (w', o', dog', b', Ok tt) ->
  exists out, waiting_in o = out ++ waiting_in o' /\
    sent w' = sent w ++ map (fun p => (packet_data p, addr)) out /\
    (available_bytes b' = 0 \/ waiting_in o' = []) /\
    b' = spend b out /\ budget_ok b' /\ within_credit (available_bytes b) out.
Proof.
  revert w o dog b. induction fuel as [|fuel IH]; intros w o dog b Hf Hb; [lia|].
  assert (Hnothing : available_bytes b = 0 \/ waiting_in o = [] ->
    exists out, waiting_in o = out ++ waiting_in o /\
      sent w = sent w ++ map (fun p => (packet_data p, addr)) out /\
      (available_bytes b = 0 \/ waiting_in o = []) /\
      b = spend b out /\ budget_ok b /\ within_credit (available_bytes b) out).
  { intros Hstop. exists []. cbn [map app]. rewrite app_nil_r. split_and!; auto; [by rewrite spend_nil|by left]. }
  cbn [flush_loop]. unfold BurstBudget.has_credit.
  destruct (Z.eqb_spec (available_bytes b) 0) as [Hz|Hz]; cbn [negb]; [intros [= <- <- <- <-]; auto|].
  destruct o as [st|]; [|intros [= <- <- <- <-]; auto].
  destruct (StreamState.next_packet st) as [st' [p|]] eqn:He; apply waiting_next in He;
    [|destruct He as [He ->]; intros [= <- <- <- <-]; auto].
  destruct (send_datagram w _ addr op) as [w1 [[]|e|]] eqn:Hs; try done.
  apply send_datagram_sent in Hs. pose proof (packet_sent_sent w1 dog) as Hp.
  destruct (packet_sent w1 dog) as [w2 dog2]. cbn [fst] in Hp. intros Hl.
  apply IH in Hl as (out & Hw & Hsent & Hstop & Hav & Hbo & Hcr);
    [|cbn [waiting_in from_option] in *; rewrite waiting_record; rewrite He in Hf; cbn in Hf; lia
     |apply budget_consume_ok; [lia|done]].
  cbn [waiting_in from_option] in *. rewrite waiting_record in Hw.
  exists (o_packet p :: out). split_and!; [by rewrite He, Hw|by rewrite Hsent, Hp, Hs, <- app_assoc|done| |done|].
  - rewrite Hav. apply spend_consume.
  - destruct Hb as (_ & ? & _). apply within_credit_cons; [lia|done].
Qed.

Lemma within_credit_app credit l1 l2 :
  within_credit credit l1 -> within_credit (saturating_sub credit (total_bytes l1)) l2 ->
  within_credit credit (l1 ++ l2).
Proof.
  intros H1 [->|H2]; [by rewrite app_nil_r|].
  destruct l2 as [|p l2]; [by rewrite app_nil_r|]. right.
  rewrite removelast_app, total_bytes_app by done.
  pose proof (total_bytes_nonneg (removelast (p :: l2))). unfold saturating_sub in H2. lia.
Qed.

Lemma refill_capacity b now : capacity_bytes (BurstBudget.refill b now) = capacity_bytes b.
Proof. unfold BurstBudget.refill. cbv zeta. by repeat case_match. Qed.

(** The account of a flush that succeeds: what left each queue, what went on
    the wire, and what the refilled budget has left. *)
Lemma flush_accounts addr (s s' : LoopState W) :
  loop_inv s -> flush_queued_packets addr s = (s', Ok tt) ->
  let b := BurstBudget.refill (burst_budget s) (snd (instant_now (world s))) in
  exists a v,
    waiting_in (audio_stream (streams s)) = a ++ waiting_in (audio_stream (streams s')) /\
    waiting_in (video_stream (streams s)) = v ++ waiting_in (video_stream (streams s')) /\
    sent (world s') = sent (world s) ++ map (fun p => (packet_data p, addr)) (a ++ v) /\
    burst_budget s' = spend b (a ++ v) /\ within_credit (available_bytes b) (a ++ v) /\
    (available_bytes (burst_budget s') = 0 \/
     waiting_in (audio_stream (streams s')) = [] /\ waiting_in (video_stream (streams s')) = []).
Proof.
  intros [_ Hb _] Hf. unfold flush_queued_packets, flush_stream_packets in Hf.
  pose proof (instant_now_sent (world s)) as Hw0.
  destruct (instant_now (world s)) as [w0 now]. cbn [fst snd] in *. cbv zeta.
  pose proof (budget_refill_ok _ now Hb) as Hb0. set (b0 := BurstBudget.refill _ _) in *. clearbody b0.
  destruct (flush_loop _ w0 addr _ _ b0 _) as [[[[w1 a'] d1] b1] r1] eqn:Ha.
  destruct r1 as [[]|e|]; [|by simplify_eq..].
  apply flush_loop_sent in Ha as (a & Hwa & Hsa & Hstop & -> & Hb1 & Hca);
    [|rewrite flush_fuel_waiting; lia|done].
  cbn [world streams video_stream audio_stream video_watchdog burst_budget update LoopState_eta] in Hf.
  destruct (flush_loop _ w1 addr _ _ _ _) as [[[[w2 v'] d2] b2] r2] eqn:Hv.
  injection Hf as <- ->.
  apply flush_loop_sent in Hv as (v & Hwv & Hsv & Hstopv & -> & Hb2 & Hcv);
    [|rewrite flush_fuel_waiting; lia|done].
  exists a, v. cbn [world streams video_stream audio_stream burst_budget update LoopState_eta].
  split_and!; [done|done|by rewrite Hsv, Hsa, Hw0, map_app, app_assoc|by rewrite spend_app
              |by apply within_credit_app|].
  destruct Hstopv as [|Hnv]; [by left|]. destruct Hstop as [Hz|Hna]; [|by right].
  left. unfold spend, saturating_sub in *. cbn in *. pose proof (total_bytes_nonneg v). lia.
Qed.
End Flush.

(** ** The arms *)

Section Arms.
Context {W : Type} `{HT : Transport W} `{HC : StreamCipher}.
Implicit Types s : LoopState W.

Lemma loop_inv_ext s s' :
  streams s' = streams s -> burst_budget s' = burst_budget s -> events s' = events s ->
  loop_inv s -> loop_inv s'.
Proof. intros H1 H2 H3 [? ? ?]. constructor; by rewrite ?H1, ?H2, ?H3. Qed.

Lemma loop_inv_streams s ss : loop_inv s -> streams_inv ss -> loop_inv (s <| streams := ss |>).
Proof. intros [? ? ?] ?. by constructor. Qed.

Lemma loop_inv_events s ch : loop_inv s -> events_ok ch -> loop_inv (s <| events := ch |>).
Proof. intros [? ? ?] ?. by constructor. Qed.

Lemma announce_ok s e ev (r : Result SenderError unit) :
  loop_inv s -> announces e ev -> r = Err e ->
  outcome_ok (s <| events := EventChannel.try_send (events s) ev |>, Return r).
Proof.
  intros Hs Ha ->. cbn. intros Hopen.
  exists (queued_events (events s)), ev. split; [|done].
  apply try_send_terminal; [apply Hs|]. unfold EventChannel.try_send in Hopen. by destruct (_ && _).
Qed.

Lemma fail_with_ok s r : loop_inv s -> r <> Panic -> outcome_ok (fail_with s r).
Proof.
  intros Hs Hr. destruct r as [u|e|]; [done| |done]. by apply (announce_ok s e); [|left|].
Qed.

Lemma trigger_statistics_inv s : loop_inv s -> loop_inv (trigger_statistics s).
Proof.
  intros Hs. unfold trigger_statistics. cbn [statistics_pending update LoopState_eta world].
  destruct (statistics_pending s); [by apply (loop_inv_ext s)|].
  destruct (instant_now (world s)). by apply (loop_inv_ext s).
Qed.

Lemma on_burst_tick_ok addr s : loop_inv s -> outcome_ok (on_burst_tick addr s).
Proof.
  intros Hs. unfold on_burst_tick. pose proof (flush_queued_packets_inv addr s Hs) as Hf.
  destruct (flush_queued_packets addr s) as [s' r]. destruct Hf as [Hs' Hr].
  destruct r; [done|by apply fail_with_ok..].
Qed.

Lemma after_command_ok addr s flush publish : loop_inv s -> outcome_ok (after_command addr s flush publish).
Proof.
  intros Hs. unfold after_command.
  assert (Hf : let '(s', r) := if flush then flush_queued_packets addr s else (s, Ok tt) in
               loop_inv s' /\ r <> Panic)
    by (destruct flush; [by apply flush_queued_packets_inv|done]).
  destruct (if flush then _ else _) as [s' r]. destruct Hf as [Hs' Hr].
  destruct r; [|by apply fail_with_ok..]. cbn. destruct publish; [by apply trigger_statistics_inv|done].
Qed.

Lemma on_enqueue_ok s t frame :
  loop_inv s -> (forall st, get_stream t (streams s) = Some st -> next_frame_id st + 1 < 2 ^ 63) ->
  loop_inv (fst (on_enqueue s t frame)) /\ snd (snd (on_enqueue s t frame)) = false.
Proof.
  intros Hs Hid. unfold on_enqueue. destruct (get_stream t (streams s)) as [st|] eqn:Hg;
    [|split; [by apply (loop_inv_ext s)|done]].
  pose proof (li_streams s Hs t st Hg) as Hst. specialize (Hid st eq_refl).
  pose proof (enqueue_frame_inv st frame Hst Hid) as Hst'.
  assert (Hr : snd (StreamState.enqueue_frame st frame) <> Panic).
  { destruct (acceptable_dec st frame) as [Ha|Ha].
    - by rewrite enqueue_frame_accepted.
    - by destruct (enqueue_frame_rejected st frame Hst Ha) as (e & -> & _). }
  destruct (StreamState.enqueue_frame st frame) as [st' r]. cbn [fst snd] in *.
  assert (Hl : loop_inv (s <| streams := set_stream t st' (streams s) |>))
    by (apply loop_inv_streams; [done|apply set_stream_inv; [apply Hs|done]]).
  destruct r; [..|done]; (split; [|done]); by apply (loop_inv_ext (s <| streams := set_stream t st' (streams s) |>)).
Qed.

(** The assertion of [StreamState::set_target_playout_delay]: the delay is set
    only when every stream supports it. *)
Lemma set_target_playout_delay_asserted ss d st :
  snd (set_target_playout_delay ss d) = Ok tt ->
  audio_stream ss = Some st \/ video_stream ss = Some st -> adaptive_playout_delay st = true.
Proof.
  unfold set_target_playout_delay. destruct (existsb _ _) eqn:He; [done|]. intros _ Hst.
  destruct (adaptive_playout_delay st) eqn:Ha; [done|]. rewrite <- not_true_iff_false in He. destruct He.
  apply existsb_exists. exists st. split; [|unfold StreamState.supports_adaptive_playout_delay; by rewrite Ha].
  apply in_app_iff. destruct Hst as [-> | ->]; [left|right]; by left.
Qed.

Lemma set_target_playout_delay_inv ss d :
  streams_inv ss -> streams_inv (fst (set_target_playout_delay ss d)).
Proof.
  intros Hs. unfold set_target_playout_delay. destruct (existsb _ _); [done|].
  intros t st Hg. assert (Hx : exists st0, get_stream t ss = Some st0 /\
    st = StreamState.set_target_playout_delay st0 d).
  { destruct t; cbn in Hg |- *; by apply fmap_Some in Hg. }
  destruct Hx as (st0 & Hst0 & ->). apply (stream_inv_ext st0); auto. by apply (Hs t).
Qed.

Lemma on_command_ok addr s c : loop_inv s -> input_ok s (Command c) -> outcome_ok (on_command addr s c).
Proof.
  intros Hs Hi. destruct c as [[t frame| |d|]|]; cbn [on_command].
  - destruct (on_enqueue_ok s t frame Hs Hi) as [Hs' Hp].
    destruct (on_enqueue s t frame) as [s' [[flush publish] p]]. cbn [fst snd] in *. subst p.
    by apply after_command_ok.
  - apply after_command_ok. by apply (loop_inv_ext s).
  - unfold on_set_target_playout_delay.
    pose proof (set_target_playout_delay_inv (streams s) d (li_streams s Hs)) as Hss.
    destruct (set_target_playout_delay (streams s) d) as [ss r]. apply after_command_ok.
    apply (loop_inv_ext (s <| streams := ss |>)); auto. by apply loop_inv_streams.
  - by apply (loop_inv_ext s).
  - done.
Qed.

Lemma advance_watchdogs_inv s p : loop_inv s -> loop_inv (advance_watchdogs s p).
Proof.
  intros Hs. unfold advance_watchdogs. cbv zeta.
  set (s1 := if p_audio p then _ else s).
  assert (H1 : loop_inv s1).
  { subst s1. destruct (p_audio p); [|done].
    destruct (acknowledgement_advanced _ _ _). by apply (loop_inv_ext s). }
  clearbody s1. destruct (p_video p); [|done].
  destruct (acknowledgement_advanced _ _ _) as [w d]. by apply (loop_inv_ext s1).
Qed.

Lemma on_feedback_ok addr s c : loop_inv s -> outcome_ok (on_feedback addr s c).
Proof.
  intros Hs. unfold on_feedback. destruct (instant_now (world s)) as [w at_].
  cbn [streams events update LoopState_eta].
  pose proof (process_feedback_inv c at_ (streams s) (events s) (li_streams s Hs) (li_events s Hs)) as Hp.
  destruct (process_feedback c at_ (streams s) (events s)) as [[ss ch] p]. destruct Hp as [Hss Hch].
  set (s1 := advance_watchdogs _ p).
  assert (H1 : loop_inv s1).
  { subst s1. apply advance_watchdogs_inv, loop_inv_events; [|done].
    apply loop_inv_streams; [by apply (loop_inv_ext s)|done]. }
  pose proof (flush_queued_packets_inv addr s1 H1) as Hf.
  destruct (flush_queued_packets addr s1) as [s2 r]. destruct Hf as [Hs2 Hr].
  destruct r; [|by apply fail_with_ok..]. cbn.
  destruct (bool_decide _); [done|by apply trigger_statistics_inv].
Qed.

Lemma on_received_ok addr s r : loop_inv s -> input_ok s (Received r) -> outcome_ok (on_received addr s r).
Proof.
  intros Hs Hi. destruct r as [e|[d a]]; cbn [on_received].
  { destruct (decide _); [done|]. by apply fail_with_ok. }
  cbn in Hi. destruct (negb _); [done|].
  pose proof (classify_packet_returns (E := SenderError) d) as [t ->]. destruct t; try done.
  pose proof (parse_compound_returns d Hi) as Hp. destruct (parse_compound d) as [c|e|]; [| |done].
  - destruct (contains_receiver_feedback c); [by apply on_feedback_ok|done].
  - cbn. apply loop_inv_events; [done|]. apply emit_nonterminal_ok, Hs.
Qed.

Lemma report_stream_inv addr t op s :
  loop_inv s -> let '(s', r) := report_stream addr t op s in loop_inv s' /\ r <> Panic.
Proof.
  intros Hs. unfold report_stream. destruct (get_stream t (streams s)) as [st|] eqn:Hg; [|done].
  pose proof (li_streams s Hs t st Hg) as Hst. unfold send_sender_report.
  destruct (match last_reference_time st with Some _ => _ | None => _ end) as [w1 m].
  destruct (system_now w1) as [w2 sys].
  destruct (StreamState.sender_report_timestamp st sys m) as [ntp rtp].
  assert (Hset : forall w st', stream_inv st' ->
    loop_inv (s <| world := w |> <| streams := set_stream t st' (streams s) |>)).
  { intros w st' Hst'. apply loop_inv_streams; [by apply (loop_inv_ext s)|]. apply set_stream_inv; [apply Hs|done]. }
  destruct (send_datagram w2 _ addr op) as [w3 [u|e|]] eqn:Hsend.
  - destruct (instant_now w3). split; [|done]. apply Hset. by apply record_sender_report_inv.
  - split; [by apply Hset|done].
  - exfalso. unfold send_datagram in Hsend. repeat case_match; simplify_eq.
Qed.

Lemma on_rtcp_tick_ok addr s : loop_inv s -> outcome_ok (on_rtcp_tick addr s).
Proof.
  intros Hs. unfold on_rtcp_tick.
  pose proof (report_stream_inv addr Audio "send audio RTCP Sender Report" s Hs) as Ha.
  destruct (report_stream addr Audio _ s) as [s1 r1]. destruct Ha as [Hs1 Hr1].
  destruct r1; [|by apply fail_with_ok..].
  pose proof (report_stream_inv addr Video "send video RTCP Sender Report" s1 Hs1) as Hv.
  destruct (report_stream addr Video _ s1) as [s2 r2]. destruct Hv as [Hs2 Hr2].
  destruct r2; [done|by apply fail_with_ok..].
Qed.

Lemma on_timeout_tick_ok s : loop_inv s -> outcome_ok (on_timeout_tick s).
Proof.
  intros Hs. unfold on_timeout_tick. destruct (timed_out (world s) _ _) as [[w1 d1] t1]. cbv zeta.
  destruct (timed_out _ _ _) as [[w2 d2] t2].
  set (s2 := s <| world := w1 |> <| audio_watchdog := d1 |> <| world := w2 |> <| video_watchdog := d2 |>).
  assert (H2 : loop_inv s2) by (by apply (loop_inv_ext s)).
  destruct (t1 || t2); [|done]. apply (announce_ok s2 SenderReceiverTimedOut); [done|by right|done].
Qed.

(** Every arm keeps the invariant, never panics and announces a failure. *)
Lemma handle_ok addr s input : loop_inv s -> input_ok s input -> outcome_ok (handle addr s input).
Proof.
  intros Hs Hi. destruct input; cbn [handle];
    auto using on_command_ok, on_burst_tick_ok, on_received_ok, on_rtcp_tick_ok, on_timeout_tick_ok.
  unfold on_statistics_timer. destruct (statistics_pending s); [|done].
  apply loop_inv_events; [by apply (loop_inv_ext s)|]. apply emit_nonterminal_ok, Hs.
Qed.

Lemma init_inv w audio video :
  (forall st, audio = Some st -> stream_inv st) -> (forall st, video = Some st -> stream_inv st) ->
  loop_inv (init w audio video).
Proof.
  intros Ha Hv. unfold init. destruct (instant_now w). constructor; cbn.
  - intros []; cbn; [apply Ha|apply Hv].
  - apply budget_new_ok.
  - unfold events_ok, RESERVED_TERMINAL_EVENT_SLOTS, EVENT_CHANNEL_CAPACITY. cbn. lia.
Qed.
End Arms.
