(* ===== verification/EventLoopProps.v ===== *)
(** * What the event loop promises ([src/src/sender/event_loop.rs])

    Safety of every arm in every reachable state, pacing and order of what is
    sent, authentication of feedback, time-outs and the statistics debounce. *)

From stdpp Require Import strings.
From S2P Require Import Prelude Constants Time Errors Text Codec Frame SyncSource Crypto Rtp Rtcp Stream StreamFacts StreamSteps StreamProps EventLoop EventLoopFacts.

(** ** Reachable loop states *)

(** Besides the arms of the [select!], the environment acts: the application
    takes events off the channel or drops its receiver, and time passes. *)
Inductive loop_reachable {W} `{Transport W} `{StreamCipher} (addr : SocketAddr) (start : LoopState W)
  : LoopState W -> Prop :=
| loop_start : loop_reachable addr start start
| loop_handle s s' input :
    loop_reachable addr start s -> input_ok s input ->
    handle addr s input = (s', Continue) -> loop_reachable addr start s'
| loop_take_events s n :
    loop_reachable addr start s ->
    loop_reachable addr start
      (s <| events := (events s) <| queued_events := drop n (queued_events (events s)) |> |>)
| loop_drop_receiver s :
    loop_reachable addr start s ->
    loop_reachable addr start (s <| events := (events s) <| receiver_open := false |> |>)
| loop_time_passes s w :
    loop_reachable addr start s -> loop_reachable addr start (s <| world := w |>).

(** A monotonic clock: a reading lies between the clock before and after it. *)
Class ClockLaws (W : Type) `{Transport W} := {
  clock : W -> Instant;
  instant_now_clock w :
    clock w <= snd (instant_now w) <= clock (fst (instant_now w));
}.
#[export] Instance test_clock : ClockLaws TestWorld.
Proof. refine {| clock := tw_clock |}. intros []. cbn. lia. Defined.

Definition watchdog_of {W} (t : StreamType) (s : LoopState W) : AcknowledgementWatchdog :=
  match t with Audio => audio_watchdog s | Video => video_watchdog s end.

(** The instant at which a stream with frames in flight is given up. *)
Definition gives_up_at {W} (s : LoopState W) (t : StreamType) : option Instant :=
  if frames_in_flight (get_stream t (streams s)) then
    since ← waiting_since (watchdog_of t s);
    Some (since + if has_acknowledged (watchdog_of t s) then RECEIVER_ACKNOWLEDGEMENT_TIMEOUT
                  else INITIAL_RECEIVER_ACKNOWLEDGEMENT_TIMEOUT)
  else None.

(** No block of the packet names a stream of the session. *)
Definition unaddressed (s : Streams) (c : CompoundRtcpPacket) : Prop :=
  Forall (fun r => ~ addressed s (rr_sync_source r) (rr_receiver_sync_source r)) (receiver_reports c) /\
  Forall (fun f => ~ addressed s (cf_sender_sync_source f) (cf_receiver_sync_source f))
    (cast_feedbacks c) /\
  Forall (fun l => ~ addressed s (pl_sender_sync_source l) (pl_receiver_sync_source l))
    (picture_loss c) /\
  Forall (fun r => forall t st, get_stream t s = Some st ->
                     receiver_sync_source st <> rt_receiver_sync_source r)
    (receiver_reference_times c).

(** A concrete session for the witnesses. *)
Definition demo_addr : SocketAddr := V4 3232235777 2344.
Definition demo_loop : LoopState TestWorld := init (MkTestWorld 0 []) None (Some demo_two).

(** ** Lemmas *)

Lemma loop_reachable_inv {W} `{Transport W} `{StreamCipher} addr (start s : LoopState W) :
  loop_inv start -> loop_reachable addr start s -> loop_inv s.
Proof.
  intros Hstart. induction 1 as [|s s' input Hr IH Hi He|s n Hr IH|s Hr IH|s w Hr IH].
  - done.
  - pose proof (handle_ok addr s input IH Hi) as Ho. by rewrite He in Ho.
  - apply loop_inv_events; [done|]. destruct IH as [_ _ IH]. unfold events_ok in *. cbn.
    rewrite length_drop. lia.
  - apply loop_inv_events; [done|]. by destruct IH.
  - by apply (loop_inv_ext s).
Qed.

Lemma demo_loop_inv : loop_inv demo_loop.
Proof. apply init_inv; intros st Hst; simplify_eq. apply demo_two_inv. Qed.

(** ** Safety *)

(** C2: in every reachable state of the loop every input is handled without a
    panic; while the loop runs, both streams keep their invariant, the burst
    budget is well formed and two event slots stay free; and when the loop
    fails, the event that announces the failure is queued, so a consumer that
    is slow never misses it. *)
Theorem event_loop_safe {W} `{Transport W} `{StreamCipher} addr w audio video (s : LoopState W) input :
  (forall st, audio = Some st -> stream_inv st) -> (forall st, video = Some st -> stream_inv st) ->
  loop_reachable addr (init w audio video) s -> input_ok s input ->
  outcome_ok (handle addr s input).
Proof. intros Ha Hv Hr. apply handle_ok, (loop_reachable_inv addr (init w audio video)); auto using init_inv. Qed.

Lemma event_loop_safe_witness :
  @outcome_ok TestWorld (@handle TestWorld _ xor_cipher demo_addr demo_loop BurstTick).
Proof.
  apply (@event_loop_safe TestWorld _ xor_cipher demo_addr (MkTestWorld 0 []) None (Some demo_two));
    [done|intros st Hst; simplify_eq; apply demo_two_inv|apply loop_start|done].
Defined.

(** A flush is ordered, paced and work-conserving: it sends a prefix of the
    audio queue and then a prefix of the video queue (retransmissions first in
    each), in order and to the receiver; all packets but the last fit within
    the credit, hence within one burst's capacity; and it stops only when the
    credit is used up or both queues are empty. *)
Theorem flush_queued_packets_spec {W} `{TransportLog W} addr (s s' : LoopState W) :
  loop_inv s -> flush_queued_packets addr s = (s', Ok tt) ->
  exists a v,
    waiting_in (audio_stream (streams s)) = a ++ waiting_in (audio_stream (streams s')) /\
    waiting_in (video_stream (streams s)) = v ++ waiting_in (video_stream (streams s')) /\
    sent (world s') = sent (world s) ++ map (fun p => (packet_data p, addr)) (a ++ v) /\
    within_credit (capacity_bytes (burst_budget s)) (a ++ v) /\
    (available_bytes (burst_budget s') = 0 \/
     waiting_in (audio_stream (streams s')) = [] /\ waiting_in (video_stream (streams s')) = []).
Proof.
  intros Hinv Hf. apply flush_accounts in Hf as (a & v & Ha & Hv & Hsent & Hb & Hc & Hstop); [|done].
  exists a, v. split_and!; try done. destruct Hc as [->|Hc]; [by left|right].
  destruct (budget_refill_ok _ (snd (instant_now (world s))) (li_budget _ Hinv)) as (_ & Hle & _).
  rewrite refill_capacity in Hle. lia.
Qed.

Lemma flush_queued_packets_spec_witness :
  exists s', flush_queued_packets demo_addr demo_loop = (s', Ok tt) /\
  exists a v,
    waiting_in (audio_stream (streams demo_loop)) = a ++ waiting_in (audio_stream (streams s')) /\
    waiting_in (video_stream (streams demo_loop)) = v ++ waiting_in (video_stream (streams s')) /\
    tw_sent (world s') = map (fun p => (packet_data p, demo_addr)) (a ++ v) /\
    within_credit (capacity_bytes (burst_budget demo_loop)) (a ++ v).
Proof.
  destruct (flush_queued_packets demo_addr demo_loop) as [s' r] eqn:He.
  assert (Hr : r = Ok tt) by (apply (f_equal snd) in He; vm_compute in He; by symmetry). subst r.
  exists s'. split; [done|].
  destruct (flush_queued_packets_spec demo_addr demo_loop s' demo_loop_inv He) as (a & v & H1 & H2 & H3 & H4 & _).
  exists a, v. split; [done|]. split; [done|]. split; [exact H3|exact H4].
Defined.

(** ** Authentication of feedback *)

Lemma unaddressed_sender s sender receiver :
  ~ addressed s sender receiver ->
  match find_stream_by_sender_sync_source sender s with
  | (_, None) => True
  | (_, Some st) => StreamState.accepts_receiver_sync_source st receiver = false
  end.
Proof.
  intros Hn. destruct (find_stream_by_sender_sync_source sender s) as [t [st|]] eqn:Hf; [|done].
  apply find_sender_get in Hf as [Hg Hs]. unfold StreamState.accepts_receiver_sync_source.
  apply Z.eqb_neq. intros Hr. apply Hn. by exists t, st.
Qed.

Lemma fold_left_same {A B} (f : A -> B -> A) (P : B -> Prop) l a :
  (forall b, P b -> f a b = a) -> Forall P l -> fold_left f l a = a.
Proof. intros Hf Hl. induction Hl as [|b l Hb _ IH]; cbn; [done|]. by rewrite Hf. Qed.

(** Feedback is authenticated by its SSRC pair: a compound packet none of
    whose blocks names the sender and receiver SSRC of one of the session's
    streams (and none of whose reference times names a receiver SSRC) changes
    no stream, emits no event and reports no progress. *)
Theorem process_feedback_unaddressed c received_at s ch :
  unaddressed s c -> process_feedback c received_at s ch = (s, ch, MkProgress false false).
Proof.
  intros (Hr & Hf & Hl & Ht). unfold process_feedback.
  erewrite (fold_left_same (process_receiver_report received_at)); [| |exact Hr].
  2: { intros r Hn%unaddressed_sender. unfold process_receiver_report.
       destruct (find_stream_by_sender_sync_source _ s) as [t [st|]]; [|done]. by rewrite Hn. }
  erewrite (fold_left_same process_cast_feedback); [| |exact Hf].
  2: { intros f Hn%unaddressed_sender. unfold process_cast_feedback.
       destruct (find_stream_by_sender_sync_source _ s) as [t [st|]]; [|done]. by rewrite Hn. }
  erewrite (fold_left_same (process_picture_loss s)); [| |exact Hl].
  2: { intros l Hn%unaddressed_sender. unfold process_picture_loss.
       destruct (find_stream_by_sender_sync_source _ s) as [t [st|]]; [|done]. by rewrite Hn. }
  erewrite (fold_left_same process_reference_time); [done| |exact Ht].
  intros r Hn. unfold process_reference_time.
  destruct (find_stream_by_receiver_sync_source _ s) as [[t st]|] eqn:Hg; [|done].
  apply find_receiver_get in Hg as [Hg Hs]. by destruct (Hn t st Hg).
Qed.

Lemma process_feedback_unaddressed_witness :
  process_feedback (MkCompound [] [MkCastFeedback 1001 77 1 400 [] None] [MkPictureLoss 5 1000] []) 9
    (MkStreams None (Some demo_two)) (MkChannel [] true)
  = (MkStreams None (Some demo_two), MkChannel [] true, MkProgress false false).
Proof.
  apply process_feedback_unaddressed. unfold unaddressed, addressed. cbn [receiver_reports cast_feedbacks picture_loss receiver_reference_times].
  split_and!; repeat constructor; cbn; intros (t & st & Hg & Hs & Hr); destruct t; cbn in Hg; simplify_eq;
    vm_compute in Hs, Hr; congruence.
Defined.

(** ** Time-outs *)

Lemma timed_out_spec {W} `{ClockLaws W} w dog in_flight :
  let '(w', dog', out) := timed_out w dog in_flight in
  clock w <= clock w' /\
  let deadline := if in_flight then
      since ← waiting_since dog;
      Some (since + if has_acknowledged dog then RECEIVER_ACKNOWLEDGEMENT_TIMEOUT
                    else INITIAL_RECEIVER_ACKNOWLEDGEMENT_TIMEOUT)
    else None in
  (forall d, deadline = Some d -> d <= clock w -> out = true) /\
  (out = true -> exists d, deadline = Some d /\ d <= clock w').
Proof.
  unfold timed_out. destruct in_flight; cbn [negb]; [|split; [lia|done]].
  destruct (waiting_since dog) as [since|]; cbn [mbind option_bind]; [|split; [lia|done]].
  pose proof (instant_now_clock w) as Hc. destruct (instant_now w) as [w' now]. cbn [fst snd] in Hc.
  set (timeout := if has_acknowledged dog then _ else _).
  assert (0 < timeout) by (subst timeout; destruct (has_acknowledged dog); done).
  unfold duration_since, saturating_sub. split; [lia|]. split.
  - intros d [= <-] Hd. lia.
  - intros Hout. eexists. split; [done|]. lia.
Qed.

(** The receiver time-out is exact: if a stream with frames in flight has
    waited past its deadline (10 s before the first acknowledgement, 5 s after
    it), the next poll ends the session with [ReceiverTimedOut]; conversely the
    poll ends the session only if such a deadline has passed by the time it
    returns, so a stream that has nothing in flight or whose deadline lies
    ahead never ends it. *)
Theorem timeout_tick_spec {W} `{ClockLaws W} (s : LoopState W) :
  ((exists t d, gives_up_at s t = Some d /\ d <= clock (world s)) ->
     snd (on_timeout_tick s) = Return (Err SenderReceiverTimedOut)) /\
  (snd (on_timeout_tick s) <> Continue ->
     exists t d, gives_up_at s t = Some d /\ d <= clock (world (fst (on_timeout_tick s)))).
Proof.
  unfold on_timeout_tick.
  pose proof (timed_out_spec (world s) (audio_watchdog s) (frames_in_flight (audio_stream (streams s)))) as Ha.
  destruct (timed_out (world s) _ _) as [[w1 d1] a]. cbn [world streams video_watchdog update LoopState_eta].
  pose proof (timed_out_spec w1 (video_watchdog s) (frames_in_flight (video_stream (streams s)))) as Hv.
  destruct (timed_out w1 _ _) as [[w2 d2] v]. cbv zeta in Ha, Hv.
  destruct Ha as (Hw1 & Ha1 & Ha2), Hv as (Hw2 & Hv1 & Hv2). split.
  - intros (t & d & Hg & Hd). destruct t.
    + by rewrite (Ha1 d Hg Hd).
    + by rewrite (Hv1 d Hg ltac:(lia)), orb_true_r.
  - destruct (a || v) eqn:Hav; cbn [fst snd world update LoopState_eta]; [|done]. intros _.
    apply orb_true_iff in Hav as [->| ->].
    + destruct (Ha2 eq_refl) as (d & Hg & Hd). exists Audio, d. split; [exact Hg|lia].
    + destruct (Hv2 eq_refl) as (d & Hg & Hd). exists Video, d. split; [exact Hg|lia].
Qed.

Lemma timeout_tick_spec_witness :
  snd (on_timeout_tick (MkLoop (MkTestWorld (from_secs 11) []) (MkStreams None (Some demo_two))
         watchdog_default (MkWatchdog (Some (from_secs 1)) false) (BurstBudget.new 0) false 0 0
         (MkChannel [] true) [])) = Return (Err SenderReceiverTimedOut).
Proof.
  apply timeout_tick_spec. exists Video, (from_secs 11). split; [vm_compute; reflexivity|vm_compute; congruence].
Defined.

(** ** Playout delay *)

Lemma map_seq_const {A} (f : nat -> A) a n k :
  (forall i, (k <= i)%nat -> f i = a) -> map f (seq k n) = replicate n a.
Proof.
  revert k. induction n as [|n IH]; intros k Hf; [done|]. cbn [seq map replicate].
  rewrite Hf by lia. f_equal. apply IH. intros i Hi. apply Hf. lia.
Qed.

(** Changing the target playout delay is all or nothing: unless every
    active stream negotiated the extension nothing changes and the caller gets
    [Unsupported]; otherwise the next frame accepted on each stream announces
    the delay in milliseconds in its first packet and in no other packet. *)
Theorem set_target_playout_delay_spec `{StreamCipher} s delay :
  streams_inv s ->
  let '(s', r) := set_target_playout_delay s delay in
  if existsb (fun st => negb (adaptive_playout_delay st))
       (option_list (audio_stream s) ++ option_list (video_stream s))
  then s' = s /\ r = Err Unsupported
  else r = Ok tt /\
    forall t st, get_stream t s' = Some st -> target_playout_delay st = delay /\
      forall frame, acceptable st frame ->
        map (fun p => from_option v_playout_delay None (view (packet_data p))) (frame_packets st frame) =
        Some (wrap_u16 (as_millis delay)) :: replicate (length (frame_packets st frame) - 1) None.
Proof.
  intros Hs. unfold set_target_playout_delay, StreamState.supports_adaptive_playout_delay.
  destruct (existsb _ _); [done|]. split; [done|]. intros t st Hg.
  assert (Hx : exists st0, get_stream t s = Some st0 /\ st = StreamState.set_target_playout_delay st0 delay)
    by (destruct t; cbn in Hg |- *; by apply fmap_Some in Hg).
  destruct Hx as (st0 & Hst0 & ->). split; [done|]. intros frame _.
  pose proof (inv_packetizer st0 (Hs t st0 Hst0)) as Hp. unfold frame_packets. cbv zeta.
  change (packetizer (StreamState.set_target_playout_delay st0 delay)) with (packetizer st0).
  change (pending_playout_delay (StreamState.set_target_playout_delay st0 delay)) with (Some delay).
  set (payload := FrameCrypto.encrypt _ _ _).
  pose proof (packet_count_pos (packetizer st0) payload Hp) as Hn.
  rewrite map_map, length_map, length_seq. erewrite map_ext.
  2: { intros i. cbn [packet_data]. rewrite packet_at_view by
         (done || apply media_to_rtp_timestamp_range). cbn [from_option expected_view v_playout_delay fmap option_fmap option_map]. reflexivity. }
  destruct (packet_count (packetizer st0) payload) as [|n]; [lia|]. cbn [seq map].
  f_equal. rewrite Nat.sub_succ, Nat.sub_0_r. apply map_seq_const.
  intros i Hi. by destruct (decide (i = 0)%nat); [lia|].
Qed.

Lemma set_target_playout_delay_spec_witness :
  let '(s', r) := set_target_playout_delay (MkStreams None (Some demo_one)) (from_millis 250) in
  r = Ok tt /\ forall t st, get_stream t s' = Some st -> target_playout_delay st = from_millis 250.
Proof.
  pose proof (@set_target_playout_delay_spec xor_cipher (MkStreams None (Some demo_one)) (from_millis 250)) as Hw.
  destruct (set_target_playout_delay _ _) as [s' r].
  destruct Hw as [Hr Hst]; [intros [] st Hg; cbn in Hg; simplify_eq; apply demo_one_inv|].
  split; [exact Hr|]. intros t st Hg. exact (proj1 (Hst t st Hg)).
Defined.

(** ** The statistics debounce *)

Lemma flush_statistics {W} `{Transport W} addr (s : LoopState W) :
  statistics_pending (fst (flush_queued_packets addr s)) = statistics_pending s /\
  statistics_deadline (fst (flush_queued_packets addr s)) = statistics_deadline s.
Proof.
  unfold flush_queued_packets. destruct (instant_now (world s)) as [w now].
  destruct (flush_stream_packets w _ _ _ _ _) as [[[[w1 a] d1] b1] [u|e|]]; [|done..].
  destruct (flush_stream_packets _ _ _ _ _ _) as [[[[w2 v] d2] b2] r2]. done.
Qed.

Lemma advance_watchdogs_statistics {W} `{Transport W} (s : LoopState W) p :
  statistics_pending (advance_watchdogs s p) = statistics_pending s /\
  statistics_deadline (advance_watchdogs s p) = statistics_deadline s.
Proof.
  unfold advance_watchdogs. cbv zeta. destruct (p_audio p), (p_video p); try done;
    repeat (destruct (acknowledgement_advanced _ _ _); cbn); done.
Qed.

Lemma trigger_statistics_pending {W} `{Transport W} (s : LoopState W) :
  statistics_pending s = true ->
  statistics_pending (trigger_statistics s) = true /\
  statistics_deadline (trigger_statistics s) = statistics_deadline s.
Proof. intros Hp. unfold trigger_statistics. cbn. rewrite Hp. cbn. by rewrite Hp. Qed.

Lemma after_command_statistics {W} `{Transport W} addr (s s' : LoopState W) flush publish :
  statistics_pending s = true -> after_command addr s flush publish = (s', Continue) ->
  statistics_pending s' = true /\ statistics_deadline s' = statistics_deadline s.
Proof.
  intros Hp Ha. unfold after_command in Ha.
  assert (Hf : let s1 := fst (if flush then flush_queued_packets addr s else (s, Ok tt)) in
    statistics_pending s1 = true /\ statistics_deadline s1 = statistics_deadline s).
  { destruct flush; [|done]. destruct (flush_statistics addr s) as [H1 H2]. cbv zeta. by rewrite H1, H2. }
  destruct (if flush then _ else _) as [s1 [u|e|]]; [|done..]. cbn [fst] in Hf. destruct Hf as [H1 H2].
  injection Ha as <-. destruct publish; [|done].
  destruct (trigger_statistics_pending s1 H1) as [H3 H4]. by rewrite H3, H4.
Qed.

Lemma on_feedback_statistics {W} `{Transport W} addr (s s' : LoopState W) c :
  statistics_pending s = true -> on_feedback addr s c = (s', Continue) ->
  statistics_pending s' = true /\ statistics_deadline s' = statistics_deadline s.
Proof.
  intros Hp Ho. unfold on_feedback in Ho. destruct (instant_now (world s)) as [w at_].
  destruct (process_feedback c at_ _ _) as [[ss ch] p].
  set (s0 := _ <| streams := ss |> <| events := ch |>) in Ho.
  destruct (advance_watchdogs_statistics s0 p) as [Hw1 Hw2].
  destruct (flush_statistics addr (advance_watchdogs s0 p)) as [H1 H2].
  destruct (flush_queued_packets addr _) as [s1 [u|e|]]; [|done..]. cbn [fst] in *.
  rewrite Hw1 in H1. rewrite Hw2 in H2. cbn in H1, H2. rewrite Hp in H1.
  injection Ho as <-. destruct (bool_decide _); [done|].
  destruct (trigger_statistics_pending s1 H1) as [H3 H4]. by rewrite H3, H4.
Qed.

Lemma report_stream_statistics {W} `{Transport W} addr t op (s : LoopState W) :
  statistics_pending (fst (report_stream addr t op s)) = statistics_pending s /\
  statistics_deadline (fst (report_stream addr t op s)) = statistics_deadline s.
Proof.
  unfold report_stream. destruct (get_stream t (streams s)); [|done].
  by destruct (send_sender_report _ _ _ _) as [[? ?] ?].
Qed.

(** The statistics debounce cannot be starved: once an update is pending,
    no command, datagram or tick cancels it or moves its deadline, however
    many further changes occur; and when the timer fires the update is
    published and the next change arms the timer afresh. *)
Theorem statistics_debounce {W} `{Transport W} `{StreamCipher} addr (s s' : LoopState W) input :
  statistics_pending s = true -> handle addr s input = (s', Continue) ->
  match input with
  | StatisticsTimer =>
    statistics_pending s' = false /\ statistics_trigger_count s' = 0 /\
    events s' = emit_nonterminal (events s) (StatisticsUpdated (session_statistics (streams s)))
  | _ => statistics_pending s' = true /\ statistics_deadline s' = statistics_deadline s
  end.
Proof.
  intros Hp Hh. destruct input as [c| |r| | |]; cbn [handle] in Hh.
  - destruct c as [[t frame| |d|]|]; cbn [on_command] in Hh; try done.
    + assert (He : let s1 := fst (on_enqueue s t frame) in
        statistics_pending s1 = statistics_pending s /\ statistics_deadline s1 = statistics_deadline s).
      { unfold on_enqueue. destruct (get_stream t (streams s)); [|done].
        by destruct (StreamState.enqueue_frame _ frame) as [st [id|e|]]. }
      destruct (on_enqueue s t frame) as [s1 [[flush publish] p]]. cbn in He. destruct He as [H1 H2].
      destruct p; [done|]. rewrite <- H2. eapply after_command_statistics; [by rewrite H1|done].
    + by eapply after_command_statistics in Hh.
    + unfold on_set_target_playout_delay in Hh. destruct (set_target_playout_delay _ d) as [ss r].
      by eapply after_command_statistics in Hh.
  - unfold on_burst_tick in Hh. destruct (flush_statistics addr s) as [H1 H2].
    destruct (flush_queued_packets addr s) as [s1 [u|e|]]; [|done..]. injection Hh as <-. cbn in *. by rewrite H1, H2.
  - destruct r as [e|[d a]]; cbn [on_received] in Hh; [destruct (decide _); [by injection Hh as <-|done]|].
    destruct (negb _); [by injection Hh as <-|].
    destruct (classify_packet d) as [[]| |]; try done; try (by injection Hh as <-).
    destruct (parse_compound d) as [c|e|]; [|by injection Hh as <-|done].
    destruct (contains_receiver_feedback c); [by eapply on_feedback_statistics|by injection Hh as <-].
  - unfold on_rtcp_tick in Hh.
    destruct (report_stream_statistics addr Audio "send audio RTCP Sender Report" s) as [H1 H2].
    destruct (report_stream addr Audio _ s) as [s1 [u|e|]]; [|done..].
    destruct (report_stream_statistics addr Video "send video RTCP Sender Report" s1) as [H3 H4].
    destruct (report_stream addr Video _ s1) as [s2 [u2|e|]]; [|done..]. injection Hh as <-.
    cbn [fst] in *. by rewrite H3, H1, H4, H2.
  - unfold on_statistics_timer in Hh. rewrite Hp in Hh. by injection Hh as <-.
  - unfold on_timeout_tick in Hh. destruct (timed_out (world s) _ _) as [[w1 d1] t1].
    destruct (timed_out _ _ _) as [[w2 d2] t2]. destruct (t1 || t2); [done|]. by injection Hh as <-.
Qed.

Lemma statistics_debounce_witness :
  exists s', @handle TestWorld _ xor_cipher demo_addr (trigger_statistics demo_loop) BurstTick = (s', Continue) /\
    statistics_pending s' = true /\
    statistics_deadline s' = statistics_deadline (trigger_statistics demo_loop).
Proof.
  destruct (@handle TestWorld _ xor_cipher demo_addr (trigger_statistics demo_loop) BurstTick) as [s' f] eqn:He.
  assert (Hf : f = Continue) by (apply (f_equal snd) in He; vm_compute in He; by symmetry). subst f.
  exists s'. split; [done|].
  apply (@statistics_debounce TestWorld _ xor_cipher demo_addr (trigger_statistics demo_loop) s' BurstTick); [reflexivity|exact He].
Defined.
