(* ===== verification/Pacing.v ===== *)
(** * Pacing ([src/src/sender/event_loop.rs])

    The burst budget over whole runs of the loop: what each input does to the
    budget and the wire, and a bound on the bytes any stretch of a session
    sends by the time it takes. *)

From stdpp Require Import strings.
From S2P Require Import Prelude Constants Time Errors Codec Frame SyncSource Crypto Rtp Rtcp Stream StreamFacts StreamSteps StreamProps EventLoop EventLoopFacts EventLoopProps.

(** ** Definitions *)

(** Sending and reading the system clock take time, never give it back. *)
Class SendClock (W : Type) `{Transport W} `{!ClockLaws W} : Prop := {
  send_to_clock w d a : clock w <= clock (fst (send_to w d a));
  system_now_clock w : clock w <= clock (fst (system_now w));
}.

(** The budget in billionths of a byte. *)
Definition credit (b : BurstBudget) : Z :=
  available_bytes b * 1000000000 + fractional_byte_nanos b.

(** What one burst may carry. *)
Definition BURST_BYTES : Z := capacity_bytes (BurstBudget.new 0).

Definition datagram_bytes (out : list (bytes * SocketAddr)) : Z :=
  foldr (fun d n => Z.of_nat (length (fst d)) + n) 0 out.

(** Sender Reports are not paced; any other input that sends, flushes. *)
Definition is_report (input : LoopInput) : bool := match input with RtcpTick => true | _ => false end.

(** A run of the loop, with the datagrams each input put on the wire.  Between
    inputs time passes and the application may take events. *)
Inductive loop_run {W} `{TransportLog W} `{!ClockLaws W} `{StreamCipher} (addr : SocketAddr)
  : LoopState W -> list (LoopInput * list (bytes * SocketAddr)) -> LoopState W -> Prop :=
| run_end s : loop_run addr s [] s
| run_input s w ch input s1 out tr s2 :
    sent w = sent (world s) -> clock (world s) <= clock w -> events_ok ch ->
    input_ok s input ->
    handle addr (s <| world := w |> <| events := ch |>) input = (s1, Continue) ->
    sent (world s1) = sent w ++ out ->
    loop_run addr s1 tr s2 ->
    loop_run addr s ((input, out) :: tr) s2.

(** The flushes that sent something. *)
Definition paced (tr : list (LoopInput * list (bytes * SocketAddr))) :=
  List.filter (fun r => negb (is_report (fst r)) && negb (bool_decide (snd r = []))) tr.
Definition paced_bytes (tr : list (LoopInput * list (bytes * SocketAddr))) : Z :=
  foldr (fun r n => datagram_bytes (snd r) + n) 0 (paced tr).

#[export] Instance test_send_clock : SendClock TestWorld.
Proof. constructor; intros []; cbn; lia. Qed.
(** ** The budget *)

Lemma refill_last b now : last_refill (BurstBudget.refill b now) = now.
Proof. unfold BurstBudget.refill. cbv zeta. by repeat case_match. Qed.

Lemma spend_last b out : last_refill (spend b out) = last_refill b.
Proof. done. Qed.

Lemma spend_capacity b out : capacity_bytes (spend b out) = capacity_bytes b.
Proof. done. Qed.

(** Refilling adds at most what the time allows. *)
Lemma refill_credit b now :
  budget_ok b -> last_refill b <= now ->
  credit (BurstBudget.refill b now) <= credit b + BurstBudget.bytes_per_second * (now - last_refill b).
Proof.
  destruct b as [cap avail frac last]. intros (Hc & Ha & Hf) Hn. cbn [last_refill capacity_bytes available_bytes fractional_byte_nanos] in *.
  change BurstBudget.bytes_per_second with 16777216.
  unfold credit, BurstBudget.refill. cbn [update BurstBudget_eta last_refill capacity_bytes available_bytes fractional_byte_nanos].
  destruct (Z.eqb_spec avail cap) as [->|Hne]; cbn [available_bytes fractional_byte_nanos update BurstBudget_eta]; [lia|].
  set (scaled := saturating_add_u128 _ _).
  assert (Hs : 0 <= scaled <= (now - last) * 16777216 + frac).
  { subst scaled. change BurstBudget.bytes_per_second with 16777216.
    unfold saturating_add_u128, saturating_mul_u128, as_nanos, duration_since, saturating_sub, u128_max. lia. }
  clearbody scaled. pose proof (Z.div_mod scaled 1000000000 ltac:(lia)) as Hdm.
  pose proof (Z.mod_pos_bound scaled 1000000000 ltac:(lia)) as Hm.
  pose proof (Z.div_pos scaled 1000000000 ltac:(lia) ltac:(lia)) as Hd.
  unfold saturating_add_u64, usize_max, u64_max in *.
  destruct (_ =? _); cbn [available_bytes fractional_byte_nanos update BurstBudget_eta]; lia.
Qed.

Lemma datagram_bytes_map addr l :
  datagram_bytes (map (fun p => (packet_data p, addr)) l) = total_bytes l.
Proof. unfold datagram_bytes, total_bytes, packet_bytes. induction l as [|p l IH]; cbn [map foldr fst]; lia. Qed.

(** Spending within the credit overshoots by less than one packet. *)
Lemma spend_credit b l m :
  budget_ok b -> within_credit (available_bytes b) l -> 1 <= m -> Forall (fun p => packet_bytes p <= m) l ->
  1000000000 * total_bytes l + credit (spend b l) <= credit b + 1000000000 * (m - 1).
Proof.
  destruct b as [cap avail frac last]. intros (_ & Ha & _) Hw Hm Hl. rewrite spend_eq. unfold credit, saturating_sub.
  cbn [available_bytes fractional_byte_nanos] in *. destruct Hw as [->|Hw]; [change (total_bytes []) with 0; lia|].
  destruct l as [|p l _] using rev_ind; [change (total_bytes []) with 0; lia|].
  rewrite removelast_last in Hw. rewrite total_bytes_app. apply Forall_app in Hl as [_ Hp].
  apply Forall_cons_iff in Hp as [Hp _]. change (total_bytes [p]) with (packet_bytes p + 0). lia.
Qed.

(** ** What an input does to the budget and the wire *)

(** Nothing was sent, the budget is the same, time may have passed. *)
Definition quiet {W} `{TransportLog W} `{!ClockLaws W} (s s' : LoopState W) : Prop :=
  sent (world s') = sent (world s) /\ burst_budget s' = burst_budget s /\ clock (world s) <= clock (world s').

(** One refill, then packets within the credit. *)
Definition flushed {W} `{TransportLog W} `{!ClockLaws W} (addr : SocketAddr) (s s' : LoopState W) : Prop :=
  exists now ps, clock (world s) <= now <= clock (world s') /\
    sent (world s') = sent (world s) ++ map (fun p => (packet_data p, addr)) ps /\
    burst_budget s' = spend (BurstBudget.refill (burst_budget s) now) ps /\
    within_credit (available_bytes (BurstBudget.refill (burst_budget s) now)) ps.

(** A step that leaves world, log and budget alone. *)
Ltac quiet_now := unfold quiet; split_and!; [reflexivity|reflexivity|cbn; lia].

Section Runs.
Context {W : Type} `{HT : Transport W} `{!TransportLog W} `{!ClockLaws W} `{!SendClock W} `{HC : StreamCipher}.
Implicit Types s : LoopState W.

Lemma quiet_trans s1 s2 s3 : quiet s1 s2 -> quiet s2 s3 -> quiet s1 s3.
Proof. intros (A & B & C) (D & E & F). split_and!; [congruence|congruence|lia]. Qed.

Lemma quiet_flushed addr s1 s2 s3 : quiet s1 s2 -> flushed addr s2 s3 -> flushed addr s1 s3.
Proof.
  intros (A & B & C) (now & ps & D & E & F & G). exists now, ps. rewrite <- A, <- B. split_and!; [lia|lia|done..].
Qed.

Lemma flushed_quiet addr s1 s2 s3 : flushed addr s1 s2 -> quiet s2 s3 -> flushed addr s1 s3.
Proof.
  intros (now & ps & D & E & F & G) (A & B & C). exists now, ps. rewrite A, B. split_and!; [lia|lia|done..].
Qed.

Lemma instant_now_quiet s w now : instant_now (world s) = (w, now) -> quiet s (s <| world := w |>).
Proof.
  intros E. pose proof (instant_now_sent (world s)) as A. pose proof (instant_now_clock (world s)) as B.
  rewrite E in A, B. cbn [fst snd] in *. split_and!; [done|done|cbn; lia].
Qed.

Lemma send_datagram_clock w d addr op : clock w <= clock (fst (send_datagram w d addr op)).
Proof.
  pose proof (send_to_clock w d addr) as A. unfold send_datagram.
  destruct (send_to w d addr) as [w1 [e|n]]; [done|]. by destruct (negb _).
Qed.

Lemma packet_sent_clock w dog : clock w <= clock (fst (packet_sent w dog)).
Proof.
  unfold packet_sent. destruct (waiting_since dog); [cbn; lia|].
  pose proof (instant_now_clock w). destruct (instant_now w); cbn in *. lia.
Qed.

Lemma flush_loop_clock fuel w addr o dog b op :
  let '(w', _, _, _, _) := flush_loop fuel w addr o dog b op in clock w <= clock w'.
Proof.
  revert w o dog b. induction fuel as [|fuel IH]; intros w o dog b; cbn [flush_loop]; [lia|].
  destruct (negb _); [lia|]. destruct o as [st|]; [|lia].
  destruct (StreamState.next_packet st) as [st' [p|]]; [|lia].
  pose proof (send_datagram_clock w (packet_data (o_packet p)) addr op) as A.
  destruct (send_datagram w _ addr op) as [w1 [u|e|]]; cbn [fst] in A; [|done..].
  pose proof (packet_sent_clock w1 dog) as B. destruct (packet_sent w1 dog) as [w2 dog']. cbn [fst] in B.
  match goal with |- context [flush_loop fuel ?a ?b' ?c ?d ?e ?f] => specialize (IH a c d e); destruct (flush_loop fuel a b' c d e f) as [[[[w3 ?] ?] ?] ?] end.
  lia.
Qed.

Lemma flush_clock addr s :
  clock (world s) <= snd (instant_now (world s)) <= clock (world (fst (flush_queued_packets addr s))).
Proof.
  unfold flush_queued_packets, flush_stream_packets. pose proof (instant_now_clock (world s)) as A.
  destruct (instant_now (world s)) as [w0 now]. cbn [fst snd] in *.
  match goal with |- context [flush_loop ?n ?a ?b ?c ?d ?e ?f] => pose proof (flush_loop_clock n a b c d e f) as B; destruct (flush_loop n a b c d e f) as [[[[w1 ?] ?] ?] r1] end.
  destruct r1; [|cbn in *; lia..]. cbn [world update LoopState_eta].
  match goal with |- context [flush_loop ?n ?a ?b ?c ?d ?e ?f] => pose proof (flush_loop_clock n a b c d e f) as C; destruct (flush_loop n a b c d e f) as [[[[w2 ?] ?] ?] r2] end.
  cbn [fst world update LoopState_eta] in *. lia.
Qed.

Lemma flush_flushed addr s s' :
  loop_inv s -> flush_queued_packets addr s = (s', Ok tt) -> flushed addr s s'.
Proof.
  intros Hs Hf. pose proof (flush_clock addr s) as Hc. rewrite Hf in Hc. cbn [fst] in Hc.
  apply flush_accounts in Hf as (a & v & _ & _ & Hsent & Hb & Hw & _); [|done].
  exists (snd (instant_now (world s))), (a ++ v). done.
Qed.

Lemma trigger_statistics_quiet s : quiet s (trigger_statistics s).
Proof.
  unfold trigger_statistics. cbv zeta. destruct (statistics_pending _); [quiet_now|].
  cbn [world update LoopState_eta]. destruct (instant_now (world s)) as [w now] eqn:E.
  apply instant_now_quiet in E. exact E.
Qed.

Lemma advance_quiet s dog b w dog' :
  acknowledgement_advanced (world s) dog b = (w, dog') -> quiet s (s <| world := w |>).
Proof.
  unfold acknowledgement_advanced. destruct b; [|intros [= <- _]; quiet_now].
  destruct (instant_now (world s)) as [w1 now] eqn:E. intros [= <- _]. by apply instant_now_quiet in E.
Qed.

Lemma advance_watchdogs_quiet s p : quiet s (advance_watchdogs s p).
Proof.
  unfold advance_watchdogs. cbv zeta. set (s1 := if p_audio p then _ else s).
  assert (H1 : quiet s s1).
  { subst s1. destruct (p_audio p); [|quiet_now].
    destruct (acknowledgement_advanced (world s) _ _) as [w d] eqn:E. by apply advance_quiet in E. }
  clearbody s1. destruct (p_video p); [|done].
  destruct (acknowledgement_advanced (world s1) _ _) as [w d] eqn:E. apply advance_quiet in E.
  by apply (quiet_trans _ _ _ H1).
Qed.

Lemma timed_out_quiet s dog b w dog' out :
  timed_out (world s) dog b = (w, dog', out) -> quiet s (s <| world := w |>).
Proof.
  unfold timed_out. destruct (negb b); [intros [= <- _ _]; quiet_now|].
  destruct (waiting_since dog); [|intros [= <- _ _]; quiet_now].
  destruct (instant_now (world s)) as [w1 now] eqn:E. intros [= <- _ _]. by apply instant_now_quiet in E.
Qed.

Lemma on_timeout_tick_quiet s s' : on_timeout_tick s = (s', Continue) -> quiet s s'.
Proof.
  unfold on_timeout_tick. destruct (timed_out (world s) _ _) as [[w1 d1] t1] eqn:E1. apply timed_out_quiet in E1.
  cbv zeta. match goal with |- context [timed_out ?a ?b ?c] => destruct (timed_out a b c) as [[w2 d2] t2] eqn:E2 end.
  apply (timed_out_quiet (s <| world := w1 |>)) in E2. destruct (t1 || t2); [done|]. intros [= <-].
  by apply (quiet_trans _ _ _ E1).
Qed.

Lemma after_command_paced addr s s' flush publish :
  loop_inv s -> after_command addr s flush publish = (s', Continue) -> quiet s s' \/ flushed addr s s'.
Proof.
  intros Hs. unfold after_command. destruct flush.
  - destruct (flush_queued_packets addr s) as [s1 r] eqn:Hf. destruct r as [[]|e|]; [|done..].
    apply flush_flushed in Hf; [|done]. intros [= <-]. right.
    destruct publish; [|done]. apply (flushed_quiet _ _ _ _ Hf), trigger_statistics_quiet.
  - intros [= <-]. left. destruct publish; [apply trigger_statistics_quiet|quiet_now].
Qed.

Lemma on_feedback_paced addr s s' c :
  loop_inv s -> on_feedback addr s c = (s', Continue) -> flushed addr s s'.
Proof.
  intros Hs. unfold on_feedback. destruct (instant_now (world s)) as [w at_] eqn:E. apply instant_now_quiet in E.
  cbn [streams events update LoopState_eta].
  pose proof (process_feedback_inv c at_ (streams s) (events s) (li_streams s Hs) (li_events s Hs)) as Hp.
  destruct (process_feedback c at_ (streams s) (events s)) as [[ss ch] p]. destruct Hp as [Hss Hch].
  set (s0 := s <| world := w |> <| streams := ss |> <| events := ch |>) in *.
  assert (H0 : loop_inv s0) by (apply loop_inv_events; [apply loop_inv_streams; [by apply (loop_inv_ext s)|done]|done]).
  assert (Q0 : quiet s s0) by apply E. clearbody s0.
  pose proof (quiet_trans _ _ _ Q0 (advance_watchdogs_quiet s0 p)) as Q1.
  pose proof (advance_watchdogs_inv s0 p H0) as H1. set (s1 := advance_watchdogs s0 p) in *. clearbody s1.
  destruct (flush_queued_packets addr s1) as [s2 r] eqn:Hf. destruct r as [[]|e|]; [|done..].
  apply flush_flushed in Hf; [|done]. apply (quiet_flushed _ _ _ _ Q1) in Hf. intros [= <-].
  destruct (bool_decide _); [done|]. apply (flushed_quiet _ _ _ _ Hf), trigger_statistics_quiet.
Qed.

Lemma report_stream_budget addr t op s :
  let '(s', _) := report_stream addr t op s in
  burst_budget s' = burst_budget s /\ clock (world s) <= clock (world s').
Proof.
  unfold report_stream, send_sender_report. destruct (get_stream t (streams s)) as [st|]; [|split; [done|lia]].
  assert (Hm : clock (world s) <= clock (fst (match last_reference_time st with
                 | Some _ => instant_now (world s) | None => (world s, 0) end)))
    by (destruct (last_reference_time st); [pose proof (instant_now_clock (world s)); lia|cbn; lia]).
  destruct (match last_reference_time st with Some _ => _ | None => _ end) as [w1 m]. cbn [fst] in Hm.
  pose proof (system_now_clock w1) as H2. destruct (system_now w1) as [w2 sys]. cbn [fst] in H2.
  destruct (StreamState.sender_report_timestamp st sys m) as [ntp rtp].
  match goal with |- context [send_datagram w2 ?d addr op] => pose proof (send_datagram_clock w2 d addr op) as H3; destruct (send_datagram w2 d addr op) as [w3 [u|e|]] end;
    cbn [fst] in H3; [|split; [done|cbn; lia]..].
  pose proof (instant_now_clock w3) as H4. destruct (instant_now w3) as [w4 at_]. cbn in *. split; [done|lia].
Qed.

Lemma on_rtcp_tick_budget addr s s' :
  on_rtcp_tick addr s = (s', Continue) ->
  burst_budget s' = burst_budget s /\ clock (world s) <= clock (world s').
Proof.
  unfold on_rtcp_tick. pose proof (report_stream_budget addr Audio "send audio RTCP Sender Report" s) as A.
  destruct (report_stream addr Audio _ s) as [s1 r1]. destruct r1; [|done..].
  pose proof (report_stream_budget addr Video "send video RTCP Sender Report" s1) as B.
  destruct (report_stream addr Video _ s1) as [s2 r2]. destruct r2; [|done..]. intros [= <-].
  destruct A as [A1 A2], B as [B1 B2]. split; [congruence|lia].
Qed.

Lemma on_command_paced addr s s' c :
  loop_inv s -> input_ok s (Command c) -> on_command addr s c = (s', Continue) -> quiet s s' \/ flushed addr s s'.
Proof.
  intros Hs Hi. destruct c as [[t frame| |d|]|]; cbn [on_command]; [| | |done|done].
  - pose proof (on_enqueue_ok s t frame Hs Hi) as [Hs1 _].
    assert (Hq : quiet s (fst (on_enqueue s t frame))).
    { unfold on_enqueue. destruct (get_stream t (streams s)) as [st|]; [|quiet_now].
      destruct (StreamState.enqueue_frame st frame) as [st' []]; quiet_now. }
    destruct (on_enqueue s t frame) as [s1 [[flush publish] []]]; cbn [fst] in *; [done|].
    intros He. apply after_command_paced in He as [He|He]; [left|right|done].
    + by apply (quiet_trans _ _ _ Hq).
    + by apply (quiet_flushed _ _ _ _ Hq).
  - intros He. left. unfold after_command in He. injection He as <-. quiet_now.
  - unfold on_set_target_playout_delay. destruct (set_target_playout_delay (streams s) d) as [ss r].
    unfold after_command. intros [= <-]. left. destruct (_ && _); [|quiet_now].
    match goal with |- quiet s (trigger_statistics ?x) => apply (trigger_statistics_quiet x) end.
Qed.

Lemma on_received_paced addr s s' r :
  loop_inv s -> on_received addr s r = (s', Continue) -> quiet s s' \/ flushed addr s s'.
Proof.
  intros Hs. destruct r as [e|[d a]]; cbn [on_received].
  { destruct (decide _); [|done]. intros [= <-]. left. quiet_now. }
  destruct (negb _); [intros [= <-]; left; quiet_now|].
  destruct (classify_packet d) as [[]|e|]; try done; try (intros [= <-]; left; quiet_now).
  destruct (parse_compound d) as [c|e|]; [| |done]; [|intros [= <-]; left; quiet_now].
  destruct (contains_receiver_feedback c); [|intros [= <-]; left; quiet_now].
  intros He. right. by apply on_feedback_paced in He.
Qed.

(** Every input: a report leaves the budget alone, any other is quiet or one
    flush. *)
Lemma handle_paced addr s s' input :
  loop_inv s -> input_ok s input -> handle addr s input = (s', Continue) ->
  if is_report input then burst_budget s' = burst_budget s /\ clock (world s) <= clock (world s')
  else quiet s s' \/ flushed addr s s'.
Proof.
  intros Hs Hi. destruct input as [c| |r| | |]; cbn [handle is_report].
  - by apply on_command_paced.
  - unfold on_burst_tick. destruct (flush_queued_packets addr s) as [s1 r] eqn:Hf.
    destruct r as [[]|e|]; [|done..]. intros [= <-]. right. by apply flush_flushed in Hf.
  - by apply on_received_paced.
  - apply on_rtcp_tick_budget.
  - unfold on_statistics_timer. intros He. left. destruct (statistics_pending s); injection He as <-; quiet_now.
  - intros He. left. by apply on_timeout_tick_quiet in He.
Qed.
End Runs.

(** ** The ceiling *)

Lemma refill_cap b now : budget_ok b -> credit (BurstBudget.refill b now) <= capacity_bytes b * 1000000000.
Proof.
  intros Hb. pose proof (budget_refill_ok b now Hb) as (_ & Ha & Hf). rewrite refill_capacity in Ha.
  assert (Hfull : available_bytes (BurstBudget.refill b now) = capacity_bytes b ->
                  fractional_byte_nanos (BurstBudget.refill b now) = 0).
  { unfold BurstBudget.refill. cbn [update BurstBudget_eta last_refill capacity_bytes available_bytes fractional_byte_nanos].
    destruct (Z.eqb_spec (available_bytes b) (capacity_bytes b)) as [He|Hne]; [done|].
    match goal with |- context [if ?x =? ?y then _ else _] => destruct (Z.eqb_spec x y) as [He|He] end;
      cbn [update BurstBudget_eta available_bytes fractional_byte_nanos]; [done|intros; done]. }
  unfold credit. lia.
Qed.

Section Ceiling.
Context {W : Type} `{HT : Transport W} `{!TransportLog W} `{!ClockLaws W} `{!SendClock W} `{HC : StreamCipher}.
Implicit Types s : LoopState W.

(** Seen from [start], no refill in the future yields more than [k] and what
    the time since [start] earns. *)
Definition earns (start k : Z) s : Prop :=
  forall now, clock (world s) <= now ->
    credit (BurstBudget.refill (burst_budget s) now) <= k + BurstBudget.bytes_per_second * (now - start).

Lemma flushed_earns addr start k m s s' out :
  loop_inv s -> flushed addr s s' -> sent (world s') = sent (world s) ++ out ->
  1 <= m -> Forall (fun d => Z.of_nat (length (fst d)) <= m) out ->
  earns start k s -> earns start (k + 1000000000 * (m - 1) - 1000000000 * datagram_bytes out) s'.
Proof.
  intros Hs (now & ps & Hnow & Hsent & Hb & Hw) Hout Hm Hlen Hk later Hl.
  rewrite Hsent in Hout. apply app_inv_head in Hout. subst out.
  pose proof (budget_refill_ok _ now (li_budget s Hs)) as Hok.
  pose proof (spend_credit _ ps m Hok Hw Hm) as Hspend.
  specialize (Hk now ltac:(lia)). rewrite datagram_bytes_map.
  rewrite Hb. etrans; [apply refill_credit|].
  - unfold spend, saturating_sub. destruct Hok as (? & ? & ?). unfold budget_ok. cbn.
    pose proof (total_bytes_nonneg ps). lia.
  - rewrite spend_last, refill_last. lia.
  - rewrite spend_last, refill_last.
    assert (Forall (fun p => packet_bytes p <= m) ps)
      by (clear -Hlen; induction ps as [|p ps IH]; [constructor|]; apply Forall_cons_iff in Hlen as [? ?]; constructor; auto).
    specialize (Hspend ltac:(done)). unfold BurstBudget.bytes_per_second in *. lia.
Qed.

Lemma flushed_nothing addr start k s s' :
  loop_inv s -> flushed addr s s' -> sent (world s') = sent (world s) ++ [] -> earns start k s -> earns start k s'.
Proof.
  intros Hs Hf Hout Hk. pose proof (flushed_earns addr start k 1 s s' [] Hs Hf Hout) as He.
  replace k with (k + 1000000000 * (1 - 1) - 1000000000 * datagram_bytes []) by (cbn; lia). apply He; [lia|constructor|done].
Qed.

Lemma same_earns start k s s' :
  burst_budget s' = burst_budget s -> clock (world s) <= clock (world s') -> earns start k s -> earns start k s'.
Proof. intros Hb Hc Hk now Hnow. rewrite Hb. apply Hk. lia. Qed.

Lemma loop_run_ceiling addr start k m s tr s' :
  loop_inv s -> 1 <= m -> start <= clock (world s) ->
  Forall (fun r => Forall (fun d => Z.of_nat (length (fst d)) <= m) (snd r)) (paced tr) ->
  earns start k s -> loop_run addr s tr s' ->
  1000000000 * paced_bytes tr <=
    k + 1000000000 * ((m - 1) * Z.of_nat (length (paced tr))) +
    BurstBudget.bytes_per_second * (clock (world s') - start).
Proof.
  intros Hs Hm Hstart Hlen Hk Hrun. revert k Hs Hstart Hlen Hk.
  induction Hrun as [s|s w ch input s1 out tr s2 Hw Hc Hch Hin He Hout Hrun IH]; intros k Hs Hstart Hlen Hk.
  { specialize (Hk _ ltac:(reflexivity)).
    destruct (budget_refill_ok _ (clock (world s)) (li_budget s Hs)) as (_ & ? & ?).
    unfold credit in Hk. unfold paced_bytes. cbn [paced List.filter foldr length]. lia. }
  set (s0 := s <| world := w |> <| events := ch |>) in *.
  assert (H0 : loop_inv s0) by (apply loop_inv_events; [by apply (loop_inv_ext s)|done]).
  assert (Hin0 : input_ok s0 input) by (destruct input as [[[]|]| |[|[]]| | |]; done).
  assert (Hk0 : earns start k s0) by (intros now Hnow; apply Hk; cbn in Hnow; lia).
  assert (Hstart0 : start <= clock (world s0)) by (cbn; lia).
  change (sent (world s1) = sent (world s0) ++ out) in Hout. clearbody s0. clear Hk Hstart Hw Hc Hin Hs s w.
  pose proof (handle_ok addr s0 input H0 Hin0) as H1. rewrite He in H1. cbn in H1.
  pose proof (handle_paced addr s0 s1 input H0 Hin0 He) as Hp.
  unfold paced_bytes in *. cbn [paced List.filter fst snd] in *.
  destruct (is_report input) eqn:Hrep; cbn [negb andb] in *.
  { destruct Hp as [Hb Hc1]. apply IH; auto; [lia|]. by apply (same_earns start k s0). }
  destruct Hp as [(Hsent & Hb & Hc1)|Hf].
  { assert (out = []) as -> by (apply (app_inv_head (sent (world s0))); by rewrite app_nil_r, <- Hout).
    rewrite bool_decide_eq_true_2 in * by done. cbn [negb] in *. apply IH; auto; [lia|]. by apply (same_earns start k s0). }
  assert (Hc1 : start <= clock (world s1)) by (destruct Hf as (now & ? & ? & _); lia).
  case_bool_decide as Hnil; cbn [negb] in *.
  { subst out. apply IH; auto. by apply (flushed_nothing addr start k s0). }
  apply Forall_cons_iff in Hlen as [Hlen1 Hlen]. cbn [snd] in Hlen1.
  pose proof (flushed_earns addr start k m s0 s1 out H0 Hf Hout Hm Hlen1 Hk0) as Hk1.
  specialize (IH _ H1 Hc1 Hlen Hk1). cbn [foldr length snd]. rewrite Nat2Z.inj_succ, Z.mul_succ_r.
  fold (paced tr). lia.
Qed.

(** One input of a run, from the state the environment left. *)
Lemma run_input_inv addr s w ch input s1 :
  loop_inv s -> events_ok ch -> input_ok s input ->
  handle addr (s <| world := w |> <| events := ch |>) input = (s1, Continue) ->
  loop_inv s1 /\ capacity_bytes (burst_budget s1) = capacity_bytes (burst_budget s).
Proof.
  intros Hs Hch Hin He. set (s0 := s <| world := w |> <| events := ch |>) in *.
  assert (H0 : loop_inv s0) by (apply loop_inv_events; [by apply (loop_inv_ext s)|done]).
  assert (Hin0 : input_ok s0 input) by (destruct input as [[[]|]| |[|[]]| | |]; done).
  pose proof (handle_ok addr s0 input H0 Hin0) as H1. rewrite He in H1. split; [done|].
  pose proof (handle_paced addr s0 s1 input H0 Hin0 He) as Hp. change (burst_budget s) with (burst_budget s0).
  destruct (is_report input); [by destruct Hp as [-> _]|].
  destruct Hp as [(_ & -> & _)|(now & ps & _ & _ & -> & _)]; [done|]. by rewrite spend_capacity, refill_capacity.
Qed.

Lemma loop_run_inv addr s tr s' :
  loop_inv s -> loop_run addr s tr s' ->
  loop_inv s' /\ capacity_bytes (burst_budget s') = capacity_bytes (burst_budget s).
Proof.
  intros Hs Hrun. induction Hrun as [s|s w ch input s1 out tr s2 Hw Hc Hch Hin He Hout Hrun IH]; [done|].
  destruct (run_input_inv addr s w ch input s1 Hs Hch Hin He) as [H1 Hcap]. by rewrite <- Hcap; apply IH.
Qed.
End Ceiling.

(** A run computed from its inputs, in the test world. *)
Fixpoint trace (addr : SocketAddr) (s : LoopState TestWorld) (inputs : list LoopInput)
  : option (list (LoopInput * list (bytes * SocketAddr)) * LoopState TestWorld) :=
  match inputs with
  | [] => Some ([], s)
  | input :: inputs' =>
    match @handle TestWorld _ xor_cipher addr s input with
    | (s1, Continue) =>
      '(tr, s2) ← trace addr s1 inputs';
      Some ((input, drop (length (tw_sent (world s))) (tw_sent (world s1))) :: tr, s2)
    | _ => None
    end
  end.

Lemma trace_run addr inputs s tr s' :
  loop_inv s -> Forall (fun i => is_report i = false /\ forall s : LoopState TestWorld, input_ok s i) inputs ->
  trace addr s inputs = Some (tr, s') -> @loop_run TestWorld _ _ _ xor_cipher addr s tr s'.
Proof.
  revert s tr. induction inputs as [|input inputs IH]; intros s tr Hs Hi; cbn [trace]; [intros [= <- <-]; constructor|].
  apply Forall_cons_iff in Hi as [[Hrep Hin] Hi].
  destruct (handle addr s input) as [s1 [|r]] eqn:He; [|done].
  destruct (trace addr s1 inputs) as [[tr1 s2]|] eqn:Ht; [|done]. cbn. intros [= <- <-].
  assert (Hsame : s <| world := world s |> <| events := events s |> = s) by (by destruct s).
  pose proof (handle_paced addr s s1 input Hs (Hin s) He) as Hp. rewrite Hrep in Hp.
  pose proof (handle_ok (HC := xor_cipher) addr s input Hs (Hin s)) as H1. rewrite He in H1.
  apply (run_input addr s (world s) (events s) input s1); [done|lia|apply Hs|auto|by rewrite Hsame| |by apply IH].
  cbn [sent test_transport_log]. destruct Hp as [(Hq & _)|(now & ps & _ & Hq & _)]; cbn [sent test_transport_log] in Hq; rewrite Hq.
  - by rewrite drop_all, app_nil_r.
  - by rewrite drop_app_length.
Qed.

(** A session whose first frame exceeds a burst, and a receiver that sends a
    report, which frees nothing, every few microseconds. *)
Definition flood_parameters : StreamParameters :=
  MkParameters 1000 1001 101 90000 (from_millis 400) true (replicate 16 3) (replicate 16 7)
    MAX_RTP_PACKET_SIZE_IPV4.
Definition flood_frame : EncodedFrame :=
  MkEncodedFrame KeyFrame (concat (replicate 500 (replicate 400 1))) (from_millis 10) (from_millis 5) None.
Definition flood_stream : StreamState :=
  fst (@StreamState.enqueue_frame xor_cipher (StreamState.new flood_parameters 0) flood_frame).
Definition flood_loop : LoopState TestWorld := init (MkTestWorld 0 []) None (Some flood_stream).
Definition flood_report : bytes := encode_packet (PReport 9 [MkReceiverReport 9 8 1 0 100 2 3 4]).
Definition flood_inputs : list LoopInput :=
  BurstTick :: replicate 16 (Received (inr (flood_report, demo_addr))).

Lemma flood_stream_inv frame :
  stream_inv (fst (@StreamState.enqueue_frame xor_cipher (StreamState.new flood_parameters 0) frame)).
Proof.
  apply enqueue_frame_inv; [|vm_compute; done].
  apply new_inv. unfold parameters_ok, packetizer_ok. vm_compute. intuition congruence.
Qed.

Lemma flood_loop_inv : loop_inv flood_loop.
Proof.
  apply init_inv; [done|]. intros st Hst. assert (st = flood_stream) as -> by congruence. apply flood_stream_inv.
Qed.

Lemma flood_exceeds :
  match trace demo_addr flood_loop flood_inputs with
  | Some (tr, s) =>
    1000000000 * (BURST_BYTES + 10 * MAX_RTP_PACKET_SIZE_IPV4)
      + BurstBudget.bytes_per_second * (tw_clock (world s) - tw_clock (world flood_loop))
      <? 1000000000 * paced_bytes tr
  | None => false
  end = true.
Proof. vm_compute. reflexivity. Qed.

(** C13: How far the burst budget bounds the traffic.  Over any stretch of a
    session the RTP bytes sent are at most one burst, what the peak rate earns
    in the elapsed time, and one packet (less a byte) for every flush that sent
    something.  The last term is real: the budget forgets by how much a flush
    overshot it, so a receiver that makes the loop flush often (here sixteen
    reports within 35 microseconds) gets more than ten packets beyond the
    ceiling. *)
Theorem pacing_bound :
  (forall W (HT : Transport W) (HL : TransportLog W) (HK : ClockLaws W) (HS : SendClock W) (HC : StreamCipher)
      addr (w : W) audio video before s tr s' m,
     (forall st, audio = Some st -> stream_inv st) -> (forall st, video = Some st -> stream_inv st) ->
     loop_run addr (init w audio video) before s -> loop_run addr s tr s' ->
     1 <= m -> Forall (fun r => Forall (fun d => Z.of_nat (length (fst d)) <= m) (snd r)) (paced tr) ->
     1000000000 * paced_bytes tr <=
       1000000000 * (BURST_BYTES + (m - 1) * Z.of_nat (length (paced tr))) +
       BurstBudget.bytes_per_second * (clock (world s') - clock (world s))) /\
  (exists tr s', @loop_run TestWorld _ _ _ xor_cipher demo_addr flood_loop tr s' /\
     1000000000 * (BURST_BYTES + 10 * MAX_RTP_PACKET_SIZE_IPV4)
       + BurstBudget.bytes_per_second * (clock (world s') - clock (world flood_loop))
     < 1000000000 * paced_bytes tr).
Proof.
  split.
  - intros W HT HL HK HS HC addr w audio video before s tr s' m Ha Hv Hb Hr Hm Hlen.
    destruct (loop_run_inv addr _ before s (init_inv w audio video Ha Hv) Hb) as [Hs Hcap].
    assert (Hc : capacity_bytes (burst_budget s) = BURST_BYTES)
      by (rewrite Hcap; unfold init; by destruct (instant_now w)).
    assert (He : earns (clock (world s)) (1000000000 * BURST_BYTES) s).
    { intros now Hnow. pose proof (refill_cap (burst_budget s) now (li_budget s Hs)) as Hle. rewrite Hc in Hle.
      change BurstBudget.bytes_per_second with 16777216. lia. }
    pose proof (loop_run_ceiling addr (clock (world s)) _ m s tr s' Hs Hm (Z.le_refl _) Hlen He Hr). lia.
  - pose proof flood_exceeds as He. destruct (trace demo_addr flood_loop flood_inputs) as [[tr s']|] eqn:Ht; [|done].
    exists tr, s'. split; [|by apply Z.ltb_lt in He].
    apply (trace_run _ _ _ _ _ flood_loop_inv) in Ht; [done|]. clear. constructor; [done|].
    apply Forall_replicate. split; [done|]. intros s. vm_compute. repeat constructor; discriminate.
Qed.
