(* ===== verification/Delivery.v ===== *)
(** * Delivery ([src/src/sender/event_loop.rs], [src/src/sender/stream.rs])

    On a network that accepts datagrams, the queues of a session drain at the
    full burst rate: a backlog is sent within as many burst ticks as it fills
    bursts, each stream in order, and a frame handed to the session arrives. *)

From stdpp Require Import strings.
From S2P Require Import Prelude Constants Time Errors Codec Frame SyncSource Crypto Rtp Rtcp Stream StreamFacts StreamSteps StreamProps EventLoop EventLoopFacts EventLoopProps Pacing.

(** ** Definitions *)

(** A network that takes every datagram whole. *)
Class ReliableTransport (W : Type) `{Transport W} : Prop :=
  send_to_whole w d a : snd (send_to w d a) = inr (Z.of_nat (length d)).

(** [n] burst ticks, each after the environment's [wait]. *)
Fixpoint burst_ticks {W} `{Transport W} `{StreamCipher} (addr : SocketAddr) (wait : W -> W) (n : nat)
    (s : LoopState W) : option (LoopState W) :=
  match n with
  | O => Some s
  | S n' =>
    match handle addr (s <| world := wait (world s) |>) BurstTick with
    | (s, Continue) => burst_ticks addr wait n' s
    | _ => None
    end
  end.

(** From [s] to [s'] the loop sent exactly the packets [log]: a prefix of each
    queue, each in its order. *)
Definition sends {W} `{TransportLog W} (addr : SocketAddr) (s : LoopState W) (log : list RtpPacket)
    (s' : LoopState W) : Prop :=
  exists a v,
    waiting_in (audio_stream (streams s)) = a ++ waiting_in (audio_stream (streams s')) /\
    waiting_in (video_stream (streams s)) = v ++ waiting_in (video_stream (streams s')) /\
    sent (world s') = sent (world s) ++ map (fun p => (packet_data p, addr)) log /\
    log ≡ₚ a ++ v /\ a `sublist_of` log /\ v `sublist_of` log.

(** All packets that wait in a state, in bytes. *)
Definition backlog {W} (s : LoopState W) : Z :=
  total_bytes (waiting_in (audio_stream (streams s)) ++ waiting_in (video_stream (streams s))).

#[export] Instance test_reliable : ReliableTransport TestWorld.
Proof. by intros []. Qed.

(** ** One flush *)

(** After a burst interval the budget is full. *)
Lemma refill_full b now :
  budget_ok b -> capacity_bytes b = BURST_BYTES -> last_refill b + BURST_INTERVAL <= now ->
  available_bytes (BurstBudget.refill b now) = BURST_BYTES.
Proof.
  destruct b as [cap avail frac last]. intros (Hc & Ha & Hf) Hcap Hn. cbn [last_refill capacity_bytes available_bytes fractional_byte_nanos] in *.
  subst cap. change BURST_BYTES with 167772 in *. change BURST_INTERVAL with 10000000 in Hn.
  unfold BurstBudget.refill. cbn [update BurstBudget_eta last_refill capacity_bytes available_bytes fractional_byte_nanos].
  destruct (Z.eqb_spec avail 167772) as [->|Hne]; cbn [available_bytes fractional_byte_nanos update BurstBudget_eta]; [done|].
  set (scaled := saturating_add_u128 _ _).
  assert (Hs : 167772000000000 <= scaled).
  { subst scaled. change BurstBudget.bytes_per_second with 16777216.
    unfold saturating_add_u128, saturating_mul_u128, as_nanos, duration_since, saturating_sub, u128_max. lia. }
  clearbody scaled. pose proof (Z.div_le_mono _ _ 1000000000 ltac:(lia) Hs) as Hd.
  change (167772000000000 / 1000000000) with 167772 in Hd.
  unfold saturating_add_u64, usize_max, u64_max in *.
  destruct (_ =? _); cbn [available_bytes fractional_byte_nanos update BurstBudget_eta]; lia.
Qed.

Section Delivery.
Context {W : Type} `{HT : Transport W} `{!TransportLog W} `{!ClockLaws W} `{!SendClock W}.
Context `{!ReliableTransport W} `{HC : StreamCipher}.
Implicit Types s : LoopState W.

Lemma sends_trans addr s1 log1 s2 log2 s3 :
  sends addr s1 log1 s2 -> sends addr s2 log2 s3 -> sends addr s1 (log1 ++ log2) s3.
Proof.
  intros (a1 & v1 & A1 & V1 & S1 & P1 & La1 & Lv1) (a2 & v2 & A2 & V2 & S2 & P2 & La2 & Lv2).
  exists (a1 ++ a2), (v1 ++ v2). split_and!; [by rewrite A1, A2, app_assoc|by rewrite V1, V2, app_assoc| | | |].
  - by rewrite S2, S1, map_app, app_assoc.
  - rewrite P1, P2. solve_Permutation.
  - by apply sublist_app.
  - by apply sublist_app.
Qed.

(** Sending shrinks the backlog by what was sent. *)
Lemma sends_backlog addr s log s' : sends addr s log s' -> backlog s = total_bytes log + backlog s'.
Proof.
  intros (a & v & A & V & _ & P & _). unfold backlog. rewrite A, V.
  assert (Hp : forall l1 l2, l1 ≡ₚ l2 -> total_bytes l1 = total_bytes l2)
    by (intros l1 l2 Hl; unfold total_bytes; induction Hl; cbn [foldr]; lia).
  rewrite (Hp _ _ P), !total_bytes_app. lia.
Qed.

Lemma flush_loop_reliable fuel w addr o dog b op :
  (length (waiting_in o) < fuel)%nat ->
  exists w' o' dog' b', flush_loop fuel w addr o dog b op = (w', o', dog', b', Ok tt).
Proof.
  revert w o dog b. induction fuel as [|fuel IH]; intros w o dog b Hf; [lia|]. cbn [flush_loop].
  destruct (negb _); [by eauto|]. destruct o as [st|]; [|by eauto].
  destruct (StreamState.next_packet st) as [st' [p|]] eqn:He; [|by eauto]. apply waiting_next in He.
  assert (Hs : exists w1, send_datagram w (packet_data (o_packet p)) addr op = (w1, Ok tt)).
  { unfold send_datagram. pose proof (send_to_whole w (packet_data (o_packet p)) addr) as Hw.
    destruct (send_to w _ addr) as [w1 r]. cbn in Hw. subst r. rewrite Z.eqb_refl. by exists w1. }
  destruct Hs as [w1 ->]. destruct (packet_sent w1 dog) as [w2 dog'].
  apply IH. cbn [waiting_in from_option] in *. rewrite waiting_record. rewrite He in Hf. cbn in Hf. lia.
Qed.

Lemma flush_reliable addr s : exists s', flush_queued_packets addr s = (s', Ok tt).
Proof.
  unfold flush_queued_packets, flush_stream_packets. destruct (instant_now (world s)) as [w now].
  destruct (flush_loop_reliable (flush_fuel (audio_stream (streams s))) w addr (audio_stream (streams s))
    (audio_watchdog s) (BurstBudget.refill (burst_budget s) now) "send audio RTP packet") as (w1 & o1 & d1 & b1 & ->);
    [rewrite flush_fuel_waiting; lia|].
  cbn [world streams video_stream audio_stream video_watchdog burst_budget update LoopState_eta].
  destruct (flush_loop_reliable (flush_fuel (video_stream (streams s))) w1 addr (video_stream (streams s))
    (video_watchdog s) b1 "send video RTP packet") as (w2 & o2 & d2 & b2 & ->);
    [rewrite flush_fuel_waiting; lia|by eauto].
Qed.

Lemma flush_sends addr s s' :
  loop_inv s -> flush_queued_packets addr s = (s', Ok tt) ->
  exists log, sends addr s log s' /\
    (available_bytes (BurstBudget.refill (burst_budget s) (snd (instant_now (world s)))) <= total_bytes log \/
     waiting_in (audio_stream (streams s')) = [] /\ waiting_in (video_stream (streams s')) = []).
Proof.
  intros Hs Hf. apply flush_accounts in Hf as (a & v & A & V & S & B & _ & Stop); [|done].
  exists (a ++ v). split.
  - exists a, v. split_and!; [done..|by apply sublist_inserts_r|by apply sublist_inserts_l].
  - destruct Stop as [Hz|Hn]; [left|by right]. rewrite B in Hz. unfold spend, saturating_sub in Hz. cbn in Hz. lia.
Qed.

(** ** Draining the queues *)

(** A state from which a full burst interval restores the full budget. *)
Definition ready s : Prop :=
  loop_inv s /\ capacity_bytes (burst_budget s) = BURST_BYTES /\ last_refill (burst_budget s) <= clock (world s).

Lemma quiet_ready s s' : loop_inv s' -> quiet s s' -> ready s -> ready s'.
Proof. intros Hs' (_ & Hb & Hc) (_ & Hcap & Hl). unfold ready. rewrite Hb. split_and!; [done|done|lia]. Qed.

Lemma flushed_ready addr s s' : loop_inv s' -> flushed addr s s' -> ready s -> ready s'.
Proof.
  intros Hs' (now & ps & Hnow & _ & Hb & _) (_ & Hcap & _). unfold ready.
  rewrite Hb, spend_capacity, spend_last, refill_capacity, refill_last. split_and!; [done|done|lia].
Qed.

Lemma init_ready w audio video :
  (forall st, audio = Some st -> stream_inv st) -> (forall st, video = Some st -> stream_inv st) ->
  ready (init w audio video).
Proof.
  intros Ha Hv. split; [by apply init_inv|]. unfold init. pose proof (instant_now_clock w) as Hc.
  destruct (instant_now w). cbn in *. split; [done|lia].
Qed.

Lemma loop_run_ready addr s tr s' : ready s -> loop_run addr s tr s' -> ready s'.
Proof.
  intros Hs Hrun. induction Hrun as [s|s w ch input s1 out tr s2 Hw Hc Hch Hin He Hout Hrun IH]; [done|]. apply IH.
  destruct (run_input_inv addr s w ch input s1 (proj1 Hs) Hch Hin He) as [H1 _].
  set (s0 := s <| world := w |> <| events := ch |>) in *.
  assert (H0 : ready s0).
  { destruct Hs as (Hs & Hcap & Hl). split_and!; [|done|cbn; lia].
    apply loop_inv_events; [by apply (loop_inv_ext s)|done]. }
  assert (Hin0 : input_ok s0 input) by (destruct input as [[[]|]| |[|[]]| | |]; done).
  pose proof (handle_paced addr s0 s1 input (proj1 H0) Hin0 He) as Hp.
  destruct (is_report input).
  - destruct Hp as [Hb Hc1], H0 as (_ & Hcap & Hl). unfold ready. rewrite Hb. split_and!; [done|done|lia].
  - destruct Hp as [Hq|Hf]; [by apply (quiet_ready s0)|by apply (flushed_ready addr s0)].
Qed.

(** The environment between two ticks: it sends nothing and lets at least a
    burst interval pass. *)
Definition waits (wait : W -> W) : Prop :=
  forall w, sent (wait w) = sent w /\ clock w + BURST_INTERVAL <= clock (wait w).

Lemma burst_tick_sends addr wait s :
  waits wait -> ready s ->
  exists s' log, handle addr (s <| world := wait (world s) |>) BurstTick = (s', Continue) /\ ready s' /\
    sends addr s log s' /\
    (BURST_BYTES <= total_bytes log \/
     waiting_in (audio_stream (streams s')) = [] /\ waiting_in (video_stream (streams s')) = []).
Proof.
  intros Hwait (Hs & Hcap & Hl). destruct (Hwait (world s)) as [Hsent Hclock].
  set (s0 := s <| world := wait (world s) |>).
  assert (H0 : loop_inv s0) by (by apply (loop_inv_ext s)).
  destruct (flush_reliable addr s0) as [s' Hf]. exists s'.
  pose proof (flush_queued_packets_inv addr s0 H0) as Hinv. rewrite Hf in Hinv. destruct Hinv as [Hinv _].
  pose proof (flush_flushed addr s0 s' H0 Hf) as Hfl.
  destruct (flush_sends addr s0 s' H0 Hf) as (log & (a & v & A & V & S & P) & Stop).
  pose proof (instant_now_clock (world s0)) as Hn. change (world s0) with (wait (world s)) in Hn at 1.
  rewrite refill_full in Stop by (apply H0 || done || (change (burst_budget s0) with (burst_budget s); lia)).
  exists log. split_and!; [|split; [done|]| |done].
  - cbn [handle]. unfold on_burst_tick. fold s0. by rewrite Hf.
  - destruct Hfl as (now & ps & Hnow & _ & Hb & _).
    rewrite Hb, spend_capacity, spend_last, refill_capacity, refill_last. split; [done|lia].
  - exists a, v. split_and!; [done|done| |apply P..].
    rewrite S. change (world s0) with (wait (world s)). by rewrite Hsent.
Qed.

Lemma drain addr wait n s :
  waits wait -> ready s -> backlog s < Z.of_nat n * BURST_BYTES ->
  exists s' log, burst_ticks addr wait n s = Some s' /\ sends addr s log s' /\
    waiting_in (audio_stream (streams s')) = [] /\ waiting_in (video_stream (streams s')) = [].
Proof.
  intros Hwait. revert s. induction n as [|n IH]; intros s Hs Hb.
  { pose proof (total_bytes_nonneg (waiting_in (audio_stream (streams s)) ++ waiting_in (video_stream (streams s)))).
    unfold backlog in Hb. lia. }
  cbn [burst_ticks]. destruct (burst_tick_sends addr wait s Hwait Hs) as (s1 & log & -> & H1 & Hsend & Stop).
  pose proof (sends_backlog addr s log s1 Hsend) as Hback.
  assert (Hempty : waiting_in (audio_stream (streams s1)) = [] -> waiting_in (video_stream (streams s1)) = [] ->
    backlog s1 = 0) by (intros E1 E2; unfold backlog; by rewrite E1, E2).
  destruct n as [|n].
  { destruct Stop as [Hge|[E1 E2]]; [|by exists s1, log].
    pose proof (total_bytes_nonneg (waiting_in (audio_stream (streams s1)) ++ waiting_in (video_stream (streams s1)))).
    unfold backlog in Hback, Hb. lia. }
  destruct (IH s1 H1) as (s' & log' & Hticks & Hsend' & E).
  { destruct Stop as [Hge|[E1 E2]]; [lia|]. rewrite Hempty by done. change BURST_BYTES with 167772. lia. }
  exists s', (log ++ log'). split_and!; [done|by apply (sends_trans addr s log s1)|apply E..].
Qed.
End Delivery.

(** ** A frame on its way *)

Lemma flush_replies {W} `{Transport W} addr (s : LoopState W) :
  replies (fst (flush_queued_packets addr s)) = replies s.
Proof.
  unfold flush_queued_packets. destruct (instant_now (world s)).
  destruct (flush_stream_packets _ _ (audio_stream _) _ _ _) as [[[[? ?] ?] ?] []]; [|done..].
  cbn [world streams video_stream audio_stream video_watchdog burst_budget update LoopState_eta].
  by destruct (flush_stream_packets _ _ (video_stream _) _ _ _) as [[[[? ?] ?] ?] ?].
Qed.

Lemma accepted_waiting `{StreamCipher} st frame :
  waiting (accepted st frame) = waiting st ++ frame_packets st frame.
Proof.
  unfold waiting, accepted. cbn. rewrite map_app, map_map, app_assoc. f_equal. apply map_id.
Qed.

Lemma frame_packets_receive `{StreamCipherLaws} st frame :
  stream_inv st -> bytes_ok (data frame) ->
  receive_frame (crypto st) (next_frame_id st) (frame_packets st frame) = data frame.
Proof. intros Hst Hd. unfold receive_frame. rewrite frame_packets_payload by done. by apply encrypt_decrypt. Qed.

(** A queue that is empty afterwards was sent in order. *)
Lemma sends_stream {W} `{TransportLog W} addr (s : LoopState W) log s' t :
  sends addr s log s' -> waiting_in (get_stream t (streams s')) = [] ->
  waiting_in (get_stream t (streams s)) `sublist_of` log.
Proof.
  intros (a & v & A & V & _ & _ & La & Lv) He. destruct t; cbn [get_stream] in *.
  - by rewrite A, He, app_nil_r.
  - by rewrite V, He, app_nil_r.
Qed.

Lemma waiting_set t st s :
  waiting_in (get_stream t (set_stream t st s)) = waiting st /\
  forall t', t' <> t -> waiting_in (get_stream t' (set_stream t st s)) = waiting_in (get_stream t' s).
Proof. rewrite get_set_stream. rewrite decide_True by done. split; [done|]. intros t' Ht. by rewrite get_set_stream, decide_False. Qed.

Lemma backlog_streams {W} (s : LoopState W) t st packets st' :
  get_stream t (streams s) = Some st -> waiting st' = waiting st ++ packets ->
  forall s' : LoopState W, streams s' = set_stream t st' (streams s) ->
  backlog s' = backlog s + total_bytes packets.
Proof.
  intros Hg Hw s' Hs'. unfold backlog. rewrite Hs'.
  destruct t; cbn [get_stream set_stream audio_stream video_stream update Streams_eta] in *; rewrite Hg;
    cbn [waiting_in from_option]; rewrite Hw, !total_bytes_app; lia.
Qed.

(** The command arm on an acceptable frame: the identifier is the reply, and
    the frame's packets join the queue and begin to leave. *)
Lemma enqueue_command {W} `{HT : Transport W} `{!TransportLog W} `{!ClockLaws W} `{!SendClock W}
    `{!ReliableTransport W} `{HC : StreamCipher} addr (s : LoopState W) t st frame :
  ready s -> get_stream t (streams s) = Some st -> acceptable st frame -> next_frame_id st + 1 < 2 ^ 63 ->
  exists s0 s1 log,
    streams s0 = set_stream t (accepted st frame) (streams s) /\ sent (world s0) = sent (world s) /\
    handle addr s (Command (Some (EnqueueFrame t frame))) = (s1, Continue) /\
    replies s1 = replies s ++ [EnqueueReply (Ok (next_frame_id st))] /\
    ready s1 /\ sends addr s0 log s1.
Proof.
  intros Hr Hg Hacc Hid. pose proof Hr as (Hs & Hcap & Hl).
  assert (Hin : input_ok s (Command (Some (EnqueueFrame t frame)))) by (intros st' Hst'; by simplify_eq).
  pose proof (on_enqueue_ok s t frame Hs Hin) as [Hs0 _].
  cbn [handle on_command]. unfold on_enqueue in *. rewrite Hg in *.
  pose proof (enqueue_frame_accepted st frame (li_streams s Hs t st Hg) Hacc) as Hef. rewrite Hef in Hs0 |- *.
  cbn [fst] in Hs0. cbv zeta in *.
  set (s0 := reply (s <| streams := set_stream t (accepted st frame) (streams s) |>) (EnqueueReply (Ok (next_frame_id st)))) in *.
  assert (Hr0 : ready s0) by done. cbn [after_command]. unfold after_command.
  destruct (flush_reliable addr s0) as [s1 Hf]. rewrite Hf. cbn [orb].
  pose proof (flush_queued_packets_inv addr s0 Hs0) as Hinv. rewrite Hf in Hinv. destruct Hinv as [Hinv _].
  pose proof (flush_flushed addr s0 s1 Hs0 Hf) as Hfl. apply (flushed_ready addr s0 s1 Hinv) in Hfl; [|done].
  destruct (flush_sends addr s0 s1 Hs0 Hf) as (log & Hsend & _).
  assert (Hrep : replies s1 = replies s ++ [EnqueueReply (Ok (next_frame_id st))])
    by (pose proof (flush_replies addr s0) as E; rewrite Hf in E; exact E).
  match goal with |- context [if ?b then trigger_statistics s1 else s1] => destruct b end.
  - exists s0, (trigger_statistics s1), log. pose proof (trigger_statistics_quiet s1) as Hq.
    split_and!; [done|done|done| |by apply (quiet_ready s1), Hfl; [apply trigger_statistics_inv|]|].
    + unfold trigger_statistics. cbv zeta. by repeat case_match.
    + destruct Hsend as (a & v & A & V & S & P). exists a, v.
      assert (Hst : streams (trigger_statistics s1) = streams s1)
        by (unfold trigger_statistics; cbv zeta; by repeat case_match).
      rewrite Hst. split_and!; [done|done|by rewrite (proj1 Hq)|apply P..].
  - by exists s0, s1, log.
Qed.

(** C3: A frame handed to the session arrives.  On a network that takes every
    datagram, an acceptable frame gets the next id at once, and however the
    session got to this state, within [n] burst ticks - [n] bursts exceeding
    what was waiting and the frame's own packets - every waiting packet has been
    sent, each stream in order; the receiver puts the frame's packets together
    and decrypts exactly the frame's data. *)
Theorem frame_reaches_receiver {W} `{HT : Transport W} `{!TransportLog W} `{!ClockLaws W} `{!SendClock W}
    `{!ReliableTransport W} `{StreamCipherLaws} addr (w : W) audio video tr s t st frame wait n :
  (forall st, audio = Some st -> stream_inv st) -> (forall st, video = Some st -> stream_inv st) ->
  loop_run addr (init w audio video) tr s ->
  get_stream t (streams s) = Some st -> acceptable st frame -> bytes_ok (data frame) ->
  next_frame_id st + 1 < 2 ^ 63 ->
  waits wait -> backlog s + total_bytes (frame_packets st frame) < Z.of_nat n * BURST_BYTES ->
  exists s1 s' log packets,
    handle addr s (Command (Some (EnqueueFrame t frame))) = (s1, Continue) /\
    replies s1 = replies s ++ [EnqueueReply (Ok (next_frame_id st))] /\
    burst_ticks addr wait n s1 = Some s' /\ backlog s' = 0 /\
    sent (world s') = sent (world s) ++ map (fun p => (packet_data p, addr)) log /\
    waiting st ++ packets `sublist_of` log /\
    receive_frame (crypto st) (next_frame_id st) packets = data frame.
Proof.
  intros Ha Hv Hrun Hg Hacc Hd Hid Hwait Hn.
  pose proof (loop_run_ready addr _ tr s (init_ready w audio video Ha Hv) Hrun) as Hr.
  destruct (enqueue_command addr s t st frame Hr Hg Hacc Hid) as (s0 & s1 & log1 & Hst0 & Hw0 & He & Hrep & Hr1 & Hsend1).
  assert (Hb0 : backlog s0 = backlog s + total_bytes (frame_packets st frame))
    by (eapply backlog_streams; [done|apply accepted_waiting|done]).
  pose proof (sends_backlog addr s0 log1 s1 Hsend1) as Hb1. pose proof (total_bytes_nonneg log1).
  destruct (drain addr wait n s1 Hwait Hr1 ltac:(lia)) as (s' & log2 & Hticks & Hsend2 & E1 & E2).
  destruct (sends_trans addr s0 log1 s1 log2 s' Hsend1 Hsend2) as (a & v & _ & _ & S & _).
  pose proof (sends_stream addr s0 _ s' t (sends_trans addr s0 log1 s1 log2 s' Hsend1 Hsend2)) as Hsub.
  rewrite Hst0, (proj1 (waiting_set t _ _)), accepted_waiting in Hsub.
  exists s1, s', (log1 ++ log2), (frame_packets st frame). split_and!; [done|done|done| | | |].
  - unfold backlog. by rewrite E1, E2.
  - by rewrite S, Hw0.
  - apply Hsub. by destruct t.
  - exact (frame_packets_receive st frame (li_streams s (proj1 Hr) t st Hg) Hd).
Qed.

(** The next frame of the demo session, and a timer that fires every 10 ms. *)
Definition demo_next : EncodedFrame :=
  MkEncodedFrame Delta (seqZ 100 20) (from_millis 76) (from_millis 71) (Some (from_millis 33)).
Definition demo_wait (w : TestWorld) : TestWorld := MkTestWorld (tw_clock w + 10000000) (tw_sent w).

Lemma frame_reaches_receiver_witness :
  exists s1 s' log packets,
    @handle TestWorld _ xor_cipher demo_addr demo_loop (Command (Some (EnqueueFrame Video demo_next))) = (s1, Continue) /\
    @burst_ticks TestWorld _ xor_cipher demo_addr demo_wait 1 s1 = Some s' /\
    tw_sent (world s') = map (fun p => (packet_data p, demo_addr)) log /\
    waiting demo_two ++ packets `sublist_of` log /\
    @receive_frame xor_cipher (crypto demo_two) (next_frame_id demo_two) packets = data demo_next.
Proof.
  destruct (@frame_reaches_receiver TestWorld _ _ _ _ _ xor_cipher xor_cipher_laws demo_addr (MkTestWorld 0 []) None
    (Some demo_two) [] demo_loop Video demo_two demo_next demo_wait 1) as (s1 & s' & log & packets & H1 & _ & H2 & _ & H3 & H4 & H5).
  - done.
  - intros st Hst. simplify_eq. apply demo_two_inv.
  - constructor.
  - done.
  - apply (bool_decide_eq_true_1 (acceptable demo_two demo_next)). vm_compute. reflexivity.
  - vm_compute. repeat constructor; discriminate.
  - vm_compute. reflexivity.
  - intros w. cbn. change BURST_INTERVAL with 10000000. split; [done|lia].
  - vm_compute. reflexivity.
  - exists s1, s', log, packets. auto.
Defined.
