(* ===== verification/Feedback.v ===== *)
(** * Feedback, from the wire to the window ([src/src/sender/event_loop.rs])

    A Cast feedback datagram from the receiver, taken through classification,
    parsing, dispatch by SSRC, acknowledgement and the flush that follows: what
    it releases, what it announces, and that it touches nothing else. *)

From stdpp Require Import strings sorting.
From S2P Require Import Prelude Constants Time Errors Codec Frame SyncSource Crypto Rtp Rtcp Stream StreamFacts StreamSteps StreamProps EventLoop EventLoopFacts EventLoopProps Pacing Delivery.

(** ** Definitions *)

(** The same frames in flight, at the same ids. *)
Definition same_window (st st' : StreamState) : Prop :=
  pending st' = pending st /\ checkpoint st' = checkpoint st /\ next_frame_id st' = next_frame_id st.
Definition same_window_opt (o o' : option StreamState) : Prop :=
  match o, o' with
  | Some st, Some st' => same_window st st'
  | None, None => True
  | _, _ => False
  end.
Definition same_windows (s s' : Streams) : Prop :=
  forall t, same_window_opt (get_stream t s) (get_stream t s').

(** Whether feedback with checkpoint [id] acknowledges [id']. *)
Definition acknowledges (id : FrameId) (ack : option AckBitvector) (id' : FrameId) : bool :=
  (id' <=? id) || from_option (fun a => ack_bit (ack_data a) (id' - id - 2)) false ack.

(** The ids in flight that it releases, in increasing order. *)
Definition released_by (st : StreamState) (id : FrameId) (ack : option AckBitvector) : list FrameId :=
  List.filter (fun id' => StreamState.is_pending st id' && acknowledges id ack id')
    (seqZ (checkpoint st + 1) (next_frame_id st - (checkpoint st + 1))).

(** ** Sorted lists of ids *)

Lemma seqZ_sorted a n : StronglySorted Z.lt (seqZ a n).
Proof.
  destruct (Z.le_gt_cases n 0); [rewrite seqZ_nil by lia; constructor|].
  rewrite <- (Z2Nat.id n) by lia. clear. revert a. induction (Z.to_nat n) as [|k IH]; intros a; [rewrite seqZ_nil by lia; constructor|].
  rewrite seqZ_cons by lia. replace (Z.pred (Z.of_nat (S k))) with (Z.of_nat k) by lia.
  constructor; [apply IH|]. apply stdpp.list_relations.list.Forall_forall. intros x Hx%elem_of_seqZ. lia.
Qed.

Lemma filter_sorted (f : Z -> bool) l : StronglySorted Z.lt l -> StronglySorted Z.lt (List.filter f l).
Proof.
  induction 1 as [|x l Hl IH Hx]; cbn; [constructor|]. destruct (f x); [|done]. constructor; [done|].
  apply stdpp.list_relations.list.Forall_forall. intros y Hy. apply list_elem_of_In, filter_In in Hy as [Hy _].
  eapply stdpp.list_relations.list.Forall_forall; [done|by apply list_elem_of_In].
Qed.

Lemma map_add_sorted k l : StronglySorted Z.lt l -> StronglySorted Z.lt (map (fun x => k + x) l).
Proof.
  induction 1 as [|x l Hl IH Hx]; cbn; constructor; [done|].
  apply stdpp.list_relations.list.Forall_forall. intros y Hy. apply list_elem_of_In, in_map_iff in Hy as (z & <- & Hz).
  eapply stdpp.list_relations.list.Forall_forall in Hx; [|by apply list_elem_of_In]. lia.
Qed.

Lemma sorted_app l1 l2 :
  StronglySorted Z.lt l1 -> StronglySorted Z.lt l2 -> (forall x y, In x l1 -> In y l2 -> x < y) ->
  StronglySorted Z.lt (l1 ++ l2).
Proof.
  induction 1 as [|x l Hl IH Hx]; intros H2 Hc; cbn; [done|]. constructor; [apply IH; [done|]; intros; apply Hc; cbn; auto|].
  apply Forall_app. split; [done|]. apply stdpp.list_relations.list.Forall_forall. intros y Hy. apply Hc; [by left|by apply list_elem_of_In].
Qed.

(** Two increasing lists with the same members are equal. *)
Lemma sorted_ext l1 l2 :
  StronglySorted Z.lt l1 -> StronglySorted Z.lt l2 -> (forall x, In x l1 <-> In x l2) -> l1 = l2.
Proof.
  assert (Hd : forall l, StronglySorted Z.lt l -> NoDup l).
  { induction 1 as [|x l Hl IH Hx]; constructor; [|done]. intros Hin.
    eapply stdpp.list_relations.list.Forall_forall in Hx; [|done]. lia. }
  intros H1 H2 Hin. apply (StronglySorted_unique_strong Z.lt); [intros; lia|done|done|].
  apply NoDup_Permutation; auto. intros x. rewrite !list_elem_of_In. apply Hin.
Qed.

(** ** What feedback releases *)

Lemma bitvector_ids_sorted next cp l : StronglySorted Z.lt (bitvector_ids next cp l).
Proof. apply filter_sorted, map_add_sorted, filter_sorted, seqZ_sorted. Qed.

Lemma acknowledge_all_parts st id ack :
  stream_inv st -> id < next_frame_id st ->
  let '(s1, l1) := StreamState.acknowledge_up_to st id in
  let '(s2, l2) := StreamState.acknowledge_bitvector s1 id ack in
  l1 ++ l2 = released_by st id ack /\ stream_inv s2 /\
  checkpoint s2 = Z.max (checkpoint st) id /\ next_frame_id s2 = next_frame_id st /\
  (forall id', lookup_frame s2 id' = if acknowledges id ack id' then None else lookup_frame st id').
Proof.
  intros Hs Hid. pose proof (acknowledge_up_to_frame st id Hs Hid) as H1.
  destruct (StreamState.acknowledge_up_to st id) as [s1 l1]. destruct H1 as (Hs1 & Hc1 & Hn1 & -> & Hl1 & _).
  assert (Hpend : forall i, StreamState.is_pending st i = true -> checkpoint st < i < next_frame_id st).
  { intros i. rewrite is_pending_lookup, bool_decide_eq_true. intros [q Hq].
    apply (lookup_frame_range st i q (inv_window st Hs) Hq). }
  assert (H2 : let '(s2, l2) := StreamState.acknowledge_bitvector s1 id ack in
    stream_inv s2 /\ checkpoint s2 = checkpoint s1 /\ next_frame_id s2 = next_frame_id s1 /\
    l2 = List.filter (StreamState.is_pending s1)
           (from_option (fun a => bitvector_ids (next_frame_id s1) id (ack_data a)) [] ack) /\
    (forall i, lookup_frame s2 i =
       if from_option (fun a => ack_bit (ack_data a) (i - id - 2)) false ack then None else lookup_frame s1 i)).
  { destruct ack as [a|].
    - pose proof (acknowledge_bitvector_frame s1 id a Hs1) as H2.
      destruct (StreamState.acknowledge_bitvector s1 id (Some a)) as [s2 l2].
      destruct H2 as (? & ? & ? & ? & ? & _). by split_and!.
    - cbn. split_and!; try done. by apply (stream_inv_ext s1). }
  destruct (StreamState.acknowledge_bitvector s1 id ack) as [s2 l2]. destruct H2 as (Hs2 & Hc2 & Hn2 & -> & Hl2).
  split_and!; [|done|by rewrite Hc2|by rewrite Hn2|].
  - apply sorted_ext.
    + apply sorted_app; [apply filter_sorted, seqZ_sorted| |].
      * apply filter_sorted. destruct ack as [a|]; cbn; [apply bitvector_ids_sorted|constructor].
      * intros x y Hx Hy. apply filter_In in Hx as [Hx _]. apply list_elem_of_In, elem_of_seqZ in Hx.
        apply filter_In in Hy as [_ Hy]. rewrite is_pending_lookup, Hl1 in Hy.
        destruct (Z.leb_spec y id); [by apply bool_decide_eq_true in Hy as [? ?]|lia].
    + apply filter_sorted, seqZ_sorted.
    + intros x. unfold released_by, acknowledges. rewrite in_app_iff, !filter_In, andb_true_iff, orb_true_iff, Z.leb_le.
      rewrite <- !list_elem_of_In, !elem_of_seqZ. split.
      * intros [[Hx Hp]|[Hx Hp]].
        -- pose proof (Hpend x Hp). split; [lia|]. split; [done|]. left. lia.
        -- rewrite is_pending_lookup, Hl1 in Hp. destruct (Z.leb_spec x id); [by apply bool_decide_eq_true in Hp as [? ?]|].
           rewrite <- is_pending_lookup in Hp. pose proof (Hpend x Hp). split; [lia|]. split; [done|]. right.
           destruct ack as [a|]; cbn in *; [|by apply elem_of_nil in Hx]. by apply elem_of_bitvector_ids in Hx as [_ Hx].
      * intros [Hx [Hp Hor]]. pose proof (Hpend x Hp). destruct (Z.le_gt_cases x id) as [Hle|Hgt]; [left; split; [lia|done]|].
        destruct Hor as [|Hb]; [lia|]. right. destruct ack as [a|]; cbn in *; [|done].
        split; [apply elem_of_bitvector_ids; split; [lia|done]|].
        rewrite is_pending_lookup, Hl1. destruct (Z.leb_spec x id); [lia|]. by rewrite <- is_pending_lookup.
  - intros i. rewrite Hl2, Hl1. unfold acknowledges. destruct (i <=? id), (from_option _ _ ack); done.
Qed.

(** ** The datagram *)

Lemma feedback_classified {E} r s cp delay losses ack :
  exists ssrc, @classify_packet E (encode_packet (PFeedback r s cp delay losses ack)) = Ok (Rtp.Rtcp ssrc).
Proof.
  unfold classify_packet, encode_packet. cbn [encode_count encode_type app to_be length].
  eexists. cbn -[Z.shiftr Z.land]. reflexivity.
Qed.

(** ** The flush leaves the windows alone *)

Lemma flush_loop_window {W} `{Transport W} fuel (w : W) addr o dog b op :
  let '(_, o', _, _, _) := flush_loop fuel w addr o dog b op in
  same_window_opt o o'.
Proof.
  revert w o dog b. induction fuel as [|fuel IH]; intros w o dog b; cbn [flush_loop]; [by destruct o|].
  destruct (negb _); [by destruct o|]. destruct o as [st|]; [|done].
  assert (Hn : same_window st (fst (StreamState.next_packet st)))
    by (unfold StreamState.next_packet; by destruct (retransmit_queue st), (send_queue st)).
  destruct (StreamState.next_packet st) as [st' [p|]]; cbn [fst] in Hn; [|done].
  destruct (send_datagram w _ addr op) as [w1 [u|e|]]; [|done..].
  destruct (packet_sent w1 dog) as [w2 dog'].
  match goal with |- context [flush_loop fuel ?a addr (Some ?c) ?d ?e op] =>
    specialize (IH a (Some c) d e); destruct (flush_loop fuel a addr (Some c) d e op) as [[[[? o'] ?] ?] ?] end.
  destruct o' as [st''|]; [|done]. destruct Hn as (A & B & C).
  assert (Hrec : forall n r, same_window st' (StreamState.record_packet_sent st' n r)) by (intros n []; done).
  destruct (Hrec (Z.of_nat (length (packet_data (o_packet p)))) (o_retransmission p)) as (A2 & B2 & C2).
  destruct IH as (A1 & B1 & C1). split_and!; congruence.
Qed.

Lemma flush_windows {W} `{Transport W} addr (s : LoopState W) :
  same_windows (streams s) (streams (fst (flush_queued_packets addr s))) /\
  events (fst (flush_queued_packets addr s)) = events s.
Proof.
  unfold flush_queued_packets, flush_stream_packets. destruct (instant_now (world s)) as [w now].
  match goal with |- context [flush_loop ?n ?a ?b ?c ?d ?e ?f] =>
    pose proof (flush_loop_window n a b c d e f) as Ha; destruct (flush_loop n a b c d e f) as [[[[w1 a'] ?] ?] r1] end.
  assert (Hself : forall o, same_window_opt o o) by (intros []; done).
  destruct r1; [|split; [intros []; [exact Ha|apply (Hself (video_stream (streams s)))]|done]..].
  cbn [world streams video_stream audio_stream video_watchdog burst_budget update LoopState_eta].
  match goal with |- context [flush_loop ?n ?a ?b ?c ?d ?e ?f] =>
    pose proof (flush_loop_window n a b c d e f) as Hv; destruct (flush_loop n a b c d e f) as [[[[w2 v'] ?] ?] r2] end.
  split; [|done]. intros []; [exact Ha|exact Hv].
Qed.

(** A flush fails because a datagram could not be sent. *)
Definition send_failure (e : SenderError) : Prop := exists operation message, e = TransportFailed operation message.

Lemma flush_loop_failure {W} `{Transport W} fuel (w : W) addr o dog b op e :
  snd (flush_loop fuel w addr o dog b op) = Err e -> send_failure e.
Proof.
  revert w o dog b. induction fuel as [|fuel IH]; intros w o dog b; cbn [flush_loop]; [done|].
  destruct (negb _); [done|]. destruct o as [st|]; [|done].
  destruct (StreamState.next_packet st) as [st' [p|]]; [|done].
  destruct (send_datagram w _ addr op) as [w1 r] eqn:Hs.
  destruct r as [u|e'|]; [|cbn; intros [= <-]|done].
  - destruct (packet_sent w1 dog) as [w2 dog']. apply IH.
  - revert Hs. unfold send_datagram, transport_error. destruct (send_to w _ addr) as [w3 [e0|n]]; [intros [= _ <-]; by eexists _, _|].
    destruct (negb _); [intros [= _ <-]; by eexists _, _|done].
Qed.

Lemma flush_failure {W} `{Transport W} addr (s : LoopState W) e :
  snd (flush_queued_packets addr s) = Err e -> send_failure e.
Proof.
  unfold flush_queued_packets, flush_stream_packets. destruct (instant_now (world s)) as [w now].
  match goal with |- context [flush_loop ?n ?a ?b ?c ?d ?e0 ?f] =>
    pose proof (flush_loop_failure n a b c d e0 f) as Ha; destruct (flush_loop n a b c d e0 f) as [[[[w1 a'] ?] ?] r1] end.
  destruct r1 as [u|e1|]; [|cbn in *; intros [= <-]; by apply Ha|done].
  cbn [world streams video_stream audio_stream video_watchdog burst_budget update LoopState_eta].
  match goal with |- context [flush_loop ?n ?a ?b ?c ?d ?e0 ?f] =>
    pose proof (flush_loop_failure n a b c d e0 f) as Hv; destruct (flush_loop n a b c d e0 f) as [[[[w2 v'] ?] ?] r2] end.
  apply Hv.
Qed.

(** ** The handler *)

(** The event a NACK is announced with. *)
Definition announces_nack (t : StreamType) (cp : FrameId) (nack : PacketNack) (event : SenderEvent) : Prop :=
  exists queued, event = PacketRetransmission t (FrameId.expand (FrameId.truncate (nack_frame_id nack)) cp)
    (nack_packet_id nack) queued.

(** NACKs change no window; each is announced. *)
Lemma process_nacks_window t cp l st ch :
  exists st' announced, fold_left (process_nack t cp) l (st, ch) = (st', fold_left emit_nonterminal announced ch) /\
    same_window st st' /\ Forall2 (announces_nack t cp) l announced.
Proof.
  revert st ch. induction l as [|nack l IH]; intros st ch; cbn [fold_left process_nack].
  { by exists st, []. }
  set (frame_id := FrameId.expand _ cp).
  assert (Hw : same_window st (fst (StreamState.handle_nack st frame_id (nack_packet_id nack))))
    by (unfold StreamState.handle_nack; by repeat case_match).
  destruct (StreamState.handle_nack st frame_id (nack_packet_id nack)) as [st1 queued].
  destruct (IH st1 (emit_nonterminal ch (PacketRetransmission t frame_id (nack_packet_id nack) queued))) as (st' & announced & -> & Hw' & Hf).
  exists st', (PacketRetransmission t frame_id (nack_packet_id nack) queued :: announced). split; [done|]. split.
  - cbn [fst] in Hw. destruct Hw as (? & ? & ?), Hw' as (? & ? & ?). split_and!; congruence.
  - constructor; [by exists queued|done].
Qed.

Lemma process_one_feedback s ch t st id delay lost ack received_at :
  stream_inv st -> find_stream_by_sender_sync_source (sender_sync_source st) s = (t, Some st) ->
  next_frame_id st - 256 <= id < next_frame_id st ->
  let c := MkCompound [] [MkCastFeedback (receiver_sync_source st) (sender_sync_source st)
                            (FrameId.truncate id) delay lost ack] [] [] in
  exists st' announced progress,
    process_feedback c received_at s ch =
      (set_stream t st' s, fold_left emit_nonterminal announced (emit_acked t (released_by st id ack) ch), progress) /\
    Forall2 (announces_nack t id) lost announced /\
    checkpoint st' = Z.max (checkpoint st) id /\ next_frame_id st' = next_frame_id st /\
    (forall id', lookup_frame st' id' = if acknowledges id ack id' then None else lookup_frame st id').
Proof.
  intros Hst Hfind Hid. cbv zeta. unfold process_feedback.
  cbn [receiver_reports cast_feedbacks picture_loss receiver_reference_times fold_left].
  unfold process_cast_feedback. cbn [cf_sender_sync_source cf_receiver_sync_source playout_delay_ms checkpoint_frame_id ack_bitvector nacks].
  rewrite Hfind. unfold StreamState.accepts_receiver_sync_source. rewrite Z.eqb_refl. cbn [negb].
  set (st0 := StreamState.update_playout_delay st delay).
  change (next_frame_id st0) with (next_frame_id st).
  rewrite (proj2 (frame_id_wire_roundtrip id (next_frame_id st + -1))) by lia.
  pose proof (acknowledge_all_parts st0 id ack ltac:(by apply (stream_inv_ext st)) ltac:(cbn; lia)) as Hp.
  destruct (StreamState.acknowledge_up_to st0 id) as [s1 l1].
  destruct (StreamState.acknowledge_bitvector s1 id ack) as [s2 l2]. destruct Hp as (Hl & _ & Hc & Hn & Hlook).
  rewrite Hl. change (released_by st0 id ack) with (released_by st id ack).
  destruct (process_nacks_window t id lost s2 (emit_acked t (released_by st id ack) ch)) as (st' & announced & -> & (A & B & C) & Hf).
  eexists st', announced, _. split_and!; [reflexivity|exact Hf|by rewrite B|by rewrite C|].
  intros id'. rewrite <- Hlook. unfold lookup_frame. by rewrite A.
Qed.

Lemma advance_watchdogs_state {W} `{Transport W} (s : LoopState W) p :
  streams (advance_watchdogs s p) = streams s /\ events (advance_watchdogs s p) = events s.
Proof. unfold advance_watchdogs. cbv zeta. by repeat case_match. Qed.

Lemma trigger_statistics_state {W} `{Transport W} (s : LoopState W) :
  streams (trigger_statistics s) = streams s /\ events (trigger_statistics s) = events s.
Proof. unfold trigger_statistics. cbv zeta. by repeat case_match. Qed.


