(* ===== verification/LoopStreams.v ===== *)
(** * The event loop moves its streams by the streams' own operations

    Every arm of the loop ([src/src/sender/event_loop.rs]) changes a stream only
    through the methods of [StreamState], and only an enqueue command assigns an
    id or a media timestamp.  So the streams of a running session are reachable
    stream states, and what is proved of those holds of the session. *)

From stdpp Require Import strings relations.
From S2P Require Import Prelude Constants Time Errors Codec Frame SyncSource Crypto Rtp Rtcp Stream StreamFacts StreamSteps EventLoop EventLoopFacts EventLoopProps.

Section Quiet.
Context `{StreamCipher}.

(** What a stream is negotiated with. *)
Definition negotiated (st : StreamState) :=
  (sender_sync_source st, receiver_sync_source st, crypto st, rtp_timebase st).
(** No id and no timestamp assigned, and the stream's identity. *)
Definition kept (st : StreamState) := (next_frame_id st, last_media_timestamp st, negotiated st).

(** A step that assigns no id and no timestamp. *)
Definition quiet_step (st st' : StreamState) : Prop := stream_step st st' /\ kept st' = kept st.

Definition quiet_opt (o o' : option StreamState) : Prop :=
  match o, o' with
  | Some st, Some st' => rtc quiet_step st st'
  | None, None => True
  | _, _ => False
  end.
Definition quiet_streams (s s' : Streams) : Prop := forall t, quiet_opt (get_stream t s) (get_stream t s').

#[export] Instance quiet_opt_preorder : PreOrder quiet_opt.
Proof.
  split; [intros [st|]; [apply rtc_refl|done]|]. intros [x|] [y|] [z|]; cbn; try done. by intros ? ?; etrans.
Qed.
#[export] Instance quiet_streams_preorder : PreOrder quiet_streams.
Proof. split; [intros s t; reflexivity|]. intros a b c H1 H2 t. etrans; [apply H1|apply H2]. Qed.

Lemma quiet_set t st st' s :
  get_stream t s = Some st -> rtc quiet_step st st' -> quiet_streams s (set_stream t st' s).
Proof. intros Hg Hq t'. rewrite get_set_stream. case_decide; [subst; by rewrite Hg|done]. Qed.

Lemma quiet_kept st st' : rtc quiet_step st st' -> rtc stream_step st st' /\ kept st' = kept st.
Proof.
  induction 1 as [|a b c [Hs Hk] _ [Hr Hk']]; [done|]. split; [by eapply rtc_l|congruence].
Qed.

(** ** The methods *)

Lemma acknowledge_loop_same n raw st acked :
  let '(st', _) := StreamState.acknowledge_loop n raw st acked in
  kept st' = kept st.
Proof.
  revert raw st acked. induction n as [|n IH]; intros raw st acked; cbn [StreamState.acknowledge_loop]; [done|].
  destruct (StreamState.is_pending st raw); [|apply IH].
  match goal with |- let '(_, _) := StreamState.acknowledge_loop n ?r ?s ?l in _ =>
    specialize (IH r s l); destruct (StreamState.acknowledge_loop n r s l) end. done.
Qed.

Lemma quiet_acknowledge_up_to st id :
  id < next_frame_id st -> quiet_step st (fst (StreamState.acknowledge_up_to st id)).
Proof.
  intros Hid. split; [by constructor|]. unfold StreamState.acknowledge_up_to. destruct (_ <? _); [done|].
  match goal with |- context [StreamState.acknowledge_loop ?n ?r ?s ?l] =>
    pose proof (acknowledge_loop_same n r s l) as Hl; destruct (StreamState.acknowledge_loop n r s l) end. done.
Qed.

Lemma ack_bits_loop_same n bit bi byte cp st acked :
  let '(st', _) := StreamState.ack_bits_loop n bit bi byte cp st acked in
  kept st' = kept st.
Proof.
  revert bit st acked. induction n as [|n IH]; intros bit st acked; cbn [StreamState.ack_bits_loop]; [done|].
  destruct (_ =? 0); [apply IH|]. destruct (_ <=? _); [apply IH|]. destruct (StreamState.is_pending _ _); [|apply IH].
  match goal with |- let '(_, _) := StreamState.ack_bits_loop n ?a ?b ?c ?d ?s ?l in _ =>
    specialize (IH a s l); destruct (StreamState.ack_bits_loop n a b c d s l) end. done.
Qed.

Lemma ack_bytes_loop_same l bi cp st acked :
  let '(st', _) := StreamState.ack_bytes_loop l bi cp st acked in
  kept st' = kept st.
Proof.
  revert bi st acked. induction l as [|byte l IH]; intros bi st acked; cbn [StreamState.ack_bytes_loop]; [done|].
  pose proof (ack_bits_loop_same 8 0 bi byte cp st acked) as Hb. destruct (StreamState.ack_bits_loop _ _ _ _ _ _ _) as [st1 a1].
  specialize (IH (bi + 1) st1 a1). destruct (StreamState.ack_bytes_loop _ _ _ _ _).
  congruence.
Qed.

Lemma quiet_acknowledge_bitvector st cp ack : quiet_step st (fst (StreamState.acknowledge_bitvector st cp ack)).
Proof.
  split; [by constructor|]. unfold StreamState.acknowledge_bitvector. destruct ack as [a|]; [|done].
  match goal with |- context [StreamState.ack_bytes_loop ?n ?r ?s ?l ?k] =>
    pose proof (ack_bytes_loop_same n r s l k) as Hl; destruct (StreamState.ack_bytes_loop n r s l k) end. done.
Qed.

Lemma quiet_handle_nack st id pid : quiet_step st (fst (StreamState.handle_nack st id pid)).
Proof. split; [by constructor|]. unfold StreamState.handle_nack. repeat case_match; done. Qed.

Lemma quiet_next_packet st : quiet_step st (fst (StreamState.next_packet st)).
Proof. split; [by constructor|]. unfold StreamState.next_packet. by repeat case_match. Qed.

Lemma quiet_record_packet_sent st n r : quiet_step st (StreamState.record_packet_sent st n r).
Proof. split; [by constructor|]. by destruct r. Qed.

Lemma quiet_receiver_report st r at_ : quiet_step st (StreamState.update_receiver_report st r at_).
Proof. split; [by constructor|]. unfold StreamState.update_receiver_report. by repeat case_match. Qed.

Lemma quiet_others st ntp at_ ms report delay :
  quiet_step st (StreamState.record_sender_report st ntp at_) /\
  quiet_step st (StreamState.update_playout_delay st ms) /\
  quiet_step st (StreamState.update_receiver_reference_time st report) /\
  quiet_step st (StreamState.set_target_playout_delay st delay).
Proof. split_and!; (split; [by constructor|done]). Qed.

(** ** Feedback *)

Lemma quiet_process_receiver_report at_ s r : quiet_streams s (process_receiver_report at_ s r).
Proof.
  unfold process_receiver_report. destruct (find_stream_by_sender_sync_source _ s) as [t [st|]] eqn:Hf; [|done].
  destruct (negb _); [done|]. apply find_sender_get in Hf as [Hg _].
  by eapply quiet_set, rtc_once, quiet_receiver_report.
Qed.

Lemma quiet_process_nacks t cp l st ch : rtc quiet_step st (fst (fold_left (process_nack t cp) l (st, ch))).
Proof.
  revert st ch. induction l as [|n l IH]; intros st ch; [done|]. cbn [fold_left process_nack].
  pose proof (quiet_handle_nack st (FrameId.expand (FrameId.truncate (nack_frame_id n)) cp) (nack_packet_id n)) as Hq.
  destruct (StreamState.handle_nack _ _ _) as [st1 k]. eapply rtc_l; [exact Hq|]. apply IH.
Qed.

Lemma quiet_process_cast_feedback acc f : quiet_streams (fst (fst acc)) (fst (fst (process_cast_feedback acc f))).
Proof.
  destruct acc as [[s ch] p]. unfold process_cast_feedback.
  destruct (find_stream_by_sender_sync_source _ s) as [t [st|]] eqn:Hf; [|done]. apply find_sender_get in Hf as [Hg _].
  destruct (negb _); [done|]. destruct (quiet_others st 0 0 (playout_delay_ms f) (MkReferenceTime 0 0) 0) as (_ & Hd & _).
  set (st0 := StreamState.update_playout_delay st _) in *.
  set (cp := FrameId.expand_lte _ _). pose proof (expand_lte_le (checkpoint_frame_id f) (next_frame_id st0 + -1)) as Hcp.
  pose proof (quiet_acknowledge_up_to st0 cp ltac:(lia)) as H1. destruct (StreamState.acknowledge_up_to st0 cp) as [st1 a1].
  pose proof (quiet_acknowledge_bitvector st1 cp (ack_bitvector f)) as H2.
  destruct (StreamState.acknowledge_bitvector st1 cp _) as [st2 a2]. cbn [fst] in H1, H2.
  match goal with |- context [fold_left (process_nack t cp) ?l (st2, ?c)] =>
    pose proof (quiet_process_nacks t cp l st2 c) as H3; destruct (fold_left (process_nack t cp) l (st2, c)) as [st3 ch3] end.
  eapply quiet_set; [exact Hg|]. eapply rtc_l; [exact Hd|]. eapply rtc_l; [exact H1|]. eapply rtc_l; [exact H2|exact H3].
Qed.

Lemma quiet_process_reference_time s r : quiet_streams s (process_reference_time s r).
Proof.
  unfold process_reference_time. destruct (find_stream_by_receiver_sync_source _ s) as [[t st]|] eqn:Hf; [|done].
  apply find_receiver_get in Hf as [Hg _]. eapply quiet_set, rtc_once; [exact Hg|].
  destruct (quiet_others st 0 0 0 r 0) as (_ & _ & Hr & _). exact Hr.
Qed.

Lemma quiet_process_feedback c at_ s ch : quiet_streams s (fst (fst (process_feedback c at_ s ch))).
Proof.
  unfold process_feedback. set (s1 := fold_left (process_receiver_report at_) _ s).
  assert (H1 : quiet_streams s s1).
  { apply (fold_left_inv _ (quiet_streams s)); [|done]. intros a b Ha. etrans; [exact Ha|]. apply quiet_process_receiver_report. }
  match goal with |- context [fold_left process_cast_feedback ?l ?a] =>
    assert (H2 : quiet_streams s (fst (fst (fold_left process_cast_feedback l a)))) end.
  { apply (fold_left_inv _ (fun acc => quiet_streams s (fst (fst acc)))); [|done].
    intros a b Ha. etrans; [exact Ha|]. apply quiet_process_cast_feedback. }
  destruct (fold_left process_cast_feedback _ _) as [[s2 ch2] p]. cbn [fst] in *.
  apply (fold_left_inv _ (quiet_streams s)); [|done]. intros a b Ha. etrans; [exact Ha|]. apply quiet_process_reference_time.
Qed.
End Quiet.

(** ** The arms *)

Section Arms.
Context {W : Type} `{HT : Transport W} `{HC : StreamCipher}.

Lemma quiet_flush_loop fuel (w : W) addr o dog b op :
  let '(_, o', _, _, _) := flush_loop fuel w addr o dog b op in quiet_opt o o'.
Proof.
  revert w o dog b. induction fuel as [|fuel IH]; intros w o dog b; cbn [flush_loop]; [reflexivity|].
  destruct (negb _); [reflexivity|]. destruct o as [st|]; [|done].
  pose proof (quiet_next_packet st) as Hn. destruct (StreamState.next_packet st) as [st1 [p|]]; [|by apply rtc_once].
  destruct (send_datagram w _ addr op) as [w1 [u|e|]]; [|by apply rtc_once..].
  destruct (packet_sent w1 dog) as [w2 dog'].
  match goal with |- context [flush_loop fuel ?a addr (Some (StreamState.record_packet_sent st1 ?n ?r)) ?d ?e op] =>
    pose proof (quiet_record_packet_sent st1 n r) as Hr; specialize (IH a (Some (StreamState.record_packet_sent st1 n r)) d e);
    destruct (flush_loop fuel a addr (Some (StreamState.record_packet_sent st1 n r)) d e op) as [[[[? o'] ?] ?] ?] end.
  destruct o' as [st2|]; [|done]. eapply rtc_l; [exact Hn|]. by eapply rtc_l.
Qed.

Lemma quiet_flush addr (s : LoopState W) :
  quiet_streams (streams s) (streams (fst (flush_queued_packets addr s))) /\
  replies (fst (flush_queued_packets addr s)) = replies s.
Proof.
  unfold flush_queued_packets, flush_stream_packets. destruct (instant_now (world s)) as [w now].
  match goal with |- context [flush_loop ?n w ?a ?b ?c ?d ?e] => pose proof (quiet_flush_loop n w a b c d e) as Ha;
    destruct (flush_loop n w a b c d e) as [[[[w1 oa] da] ba] ra] end.
  destruct ra as [u|e|]; [|by split; [intros []|]..]. cbn [world streams video_watchdog burst_budget video_stream update LoopState_eta].
  match goal with |- context [flush_loop ?n w1 ?a ?b ?c ?d ?e] => pose proof (quiet_flush_loop n w1 a b c d e) as Hb;
    destruct (flush_loop n w1 a b c d e) as [[[[w2 ob] db] bb] rb] end.
  by split; [intros []|].
Qed.

Lemma trigger_statistics_streams (s : LoopState W) :
  streams (trigger_statistics s) = streams s /\ replies (trigger_statistics s) = replies s.
Proof.
  destruct s as [w ss aw vw bb [] sc sd ev re]; [done|]. unfold trigger_statistics. cbn. by destruct (instant_now w).
Qed.

Lemma fail_with_streams (s : LoopState W) r :
  streams (fst (fail_with s r)) = streams s /\ replies (fst (fail_with s r)) = replies s.
Proof. by destruct r. Qed.

(** A flush and what follows it. *)
Lemma quiet_flush_then addr (s : LoopState W) (k : LoopState W -> LoopState W) :
  (forall s, streams (k s) = streams s /\ replies (k s) = replies s) ->
  let s' := fst (let '(s, r) := flush_queued_packets addr s in
                 match r with Ok _ => (k s, Continue) | r => fail_with s r end) in
  quiet_streams (streams s) (streams s') /\ replies s' = replies s.
Proof.
  intros Hk. pose proof (quiet_flush addr s) as [Hq Hr]. destruct (flush_queued_packets addr s) as [s1 r]. cbn [fst] in Hq, Hr.
  destruct r as [u|e|]; cbn [fst]; [|by split..]. destruct (Hk s1) as [-> ->]. by split.
Qed.

Lemma quiet_after_command addr (s : LoopState W) flush publish :
  quiet_streams (streams s) (streams (fst (after_command addr s flush publish))) /\
  replies (fst (after_command addr s flush publish)) = replies s.
Proof.
  unfold after_command.
  assert (Hk : forall s : LoopState W, streams (if publish then trigger_statistics s else s) = streams s /\
    replies (if publish then trigger_statistics s else s) = replies s)
    by (intros s0; destruct publish; [apply trigger_statistics_streams|done]).
  destruct flush; [by apply (quiet_flush_then addr s)|]. cbn. destruct (Hk s) as [-> ->]. by split.
Qed.

Lemma quiet_report_stream addr t op (s : LoopState W) :
  quiet_streams (streams s) (streams (fst (report_stream addr t op s))) /\ replies (fst (report_stream addr t op s)) = replies s.
Proof.
  unfold report_stream. destruct (get_stream t (streams s)) as [st|] eqn:Hg; [|done]. unfold send_sender_report.
  destruct (match last_reference_time st with None => (world s, 0) | Some _ => instant_now (world s) end) as [w m].
  destruct (system_now w) as [w1 sys]. destruct (StreamState.sender_report_timestamp st sys m) as [ntp rtp].
  destruct (send_datagram w1 _ addr op) as [w2 [u|e|]]; [|by split; [eapply quiet_set; [exact Hg|reflexivity]|]..].
  destruct (instant_now w2) as [w3 at_]. split; [|done]. eapply quiet_set, rtc_once; [exact Hg|].
  by destruct (quiet_others st (NtpTimestamp.middle_32 ntp) at_ 0 (MkReferenceTime 0 0) 0) as (Hr & _).
Qed.

(** Every input but an enqueue leaves ids and timestamps alone. *)
Definition enqueues (input : LoopInput) : bool :=
  match input with Command (Some (EnqueueFrame _ _)) => true | _ => false end.

Lemma quiet_set_target s delay : quiet_streams s (fst (set_target_playout_delay s delay)).
Proof.
  unfold set_target_playout_delay. destruct (existsb _ _); [done|]. destruct s as [a v].
  intros []; cbn; [destruct a as [st|]|destruct v as [st|]]; try done; apply rtc_once;
    by destruct (quiet_others st 0 0 0 (MkReferenceTime 0 0) delay) as (_ & _ & _ & Hs).
Qed.

Lemma quiet_handle addr (s : LoopState W) input :
  enqueues input = false -> quiet_streams (streams s) (streams (fst (handle addr s input))).
Proof.
  intros Hi. destruct input as [c| |r| | |]; cbn [handle].
  - destruct c as [[t frame| |delay|]|]; [done| | |done|done]; cbn [on_command].
    + exact (proj1 (quiet_after_command addr (reply s _) _ _)).
    + unfold on_set_target_playout_delay. pose proof (quiet_set_target (streams s) delay) as Hq.
      destruct (set_target_playout_delay (streams s) delay) as [ss res]. etrans; [exact Hq|].
      exact (proj1 (quiet_after_command addr (reply (s <| streams := ss |>) (PlayoutDelayReply res)) _ _)).
  - exact (proj1 (quiet_flush_then addr s id (fun _ => conj eq_refl eq_refl))).
  - unfold on_received. destruct r as [e|[d a]]; [case_decide; [done|by rewrite (proj1 (fail_with_streams _ _))]|].
    destruct (negb _); [done|]. destruct (classify_packet d) as [[]| |]; try done.
    destruct (parse_compound d) as [c|e|]; [|done..]. destruct (contains_receiver_feedback c); [|done].
    unfold on_feedback. destruct (instant_now (world s)) as [w at_]. cbn [streams events update LoopState_eta].
    pose proof (quiet_process_feedback c at_ (streams s) (events s)) as Hq.
    destruct (process_feedback c at_ (streams s) (events s)) as [[ss ev] p]. cbn [fst] in Hq.
    set (before := session_feedback_state (streams s)). etrans; [exact Hq|].
    set (s1 := advance_watchdogs _ p).
    assert (Hs1 : streams s1 = ss).
    { subst s1. unfold advance_watchdogs. by repeat (destruct (acknowledgement_advanced _ _ _) || case_match). }
    rewrite <- Hs1. refine (proj1 (quiet_flush_then addr s1 (fun s => if bool_decide (before = session_feedback_state (streams s))
      then s else trigger_statistics s) _)).
    intros s2. destruct (bool_decide _); [done|apply trigger_statistics_streams].
  - unfold on_rtcp_tick. pose proof (proj1 (quiet_report_stream addr Audio "send audio RTCP Sender Report" s)) as Ha.
    destruct (report_stream addr Audio _ s) as [s1 r]. cbn [fst] in Ha.
    destruct r as [u|e|]; [|by rewrite (proj1 (fail_with_streams _ _))..].
    pose proof (proj1 (quiet_report_stream addr Video "send video RTCP Sender Report" s1)) as Hv.
    destruct (report_stream addr Video _ s1) as [s2 r]. cbn [fst] in Hv. etrans; [exact Ha|].
    destruct r as [u'|e|]; [done|by rewrite (proj1 (fail_with_streams _ _))..].
  - unfold on_statistics_timer. by destruct (statistics_pending s).
  - unfold on_timeout_tick. repeat (destruct (timed_out _ _ _) as [[? ?] ?]). by destruct (_ || _).
Qed.

(** An enqueue command applies [enqueue_frame] once, replies with its result,
    and is quiet after that. *)
Lemma handle_enqueue addr (s : LoopState W) t frame st :
  get_stream t (streams s) = Some st -> snd (StreamState.enqueue_frame st frame) <> Panic ->
  let s' := fst (handle addr s (Command (Some (EnqueueFrame t frame)))) in
  quiet_streams (set_stream t (fst (StreamState.enqueue_frame st frame)) (streams s)) (streams s') /\
  replies s' = replies s ++ [EnqueueReply (snd (StreamState.enqueue_frame st frame))].
Proof.
  intros Hg Hp. cbn [handle on_command]. unfold on_enqueue. rewrite Hg.
  destruct (StreamState.enqueue_frame st frame) as [st1 r]. cbn [fst snd] in *.
  destruct r as [id|e|]; [| |done]; cbv beta iota zeta.
  - exact (quiet_after_command addr (reply (s <| streams := set_stream t st1 (streams s) |>) (EnqueueReply (Ok id))) _ _).
  - exact (quiet_after_command addr (reply (s <| streams := set_stream t st1 (streams s) |>) (EnqueueReply (Err e))) _ _).
Qed.

(** ** Streams over a run *)

Lemma enqueue_negotiated st frame : negotiated (fst (StreamState.enqueue_frame st frame)) = negotiated st.
Proof.
  unfold StreamState.enqueue_frame, StreamState.reject_frame. repeat case_match; done.
Qed.

(** Where a stream has gone. *)
Definition advanced (st st' : StreamState) : Prop := rtc stream_step st st' /\ negotiated st' = negotiated st.

Lemma quiet_advanced st st' : rtc quiet_step st st' -> advanced st st'.
Proof. intros [Hs Hk]%quiet_kept. split; [done|]. unfold kept in Hk. congruence. Qed.

Lemma advanced_trans a b c : advanced a b -> advanced b c -> advanced a c.
Proof. intros [H1 H2] [H3 H4]. split; [by etrans|congruence]. Qed.

Lemma handle_advanced addr (s : LoopState W) input t :
  loop_inv s -> input_ok s input ->
  match get_stream t (streams s), get_stream t (streams (fst (handle addr s input))) with
  | Some st, Some st' => advanced st st'
  | None, None => True
  | _, _ => False
  end.
Proof.
  intros Hs Hi. destruct (enqueues input) eqn:He.
  2: { pose proof (quiet_handle addr s input He t) as Hq.
       destruct (get_stream t (streams s)), (get_stream t (streams (fst _))); try done. by apply quiet_advanced. }
  destruct input as [[[t' frame| | |]|]| | | | |]; try done. cbn [input_ok] in Hi.
  destruct (get_stream t' (streams s)) as [st|] eqn:Hg.
  - assert (Hp : snd (StreamState.enqueue_frame st frame) <> Panic).
    { pose proof (on_enqueue_ok s t' frame Hs ltac:(by rewrite Hg)) as [_ Hp]. unfold on_enqueue in Hp. rewrite Hg in Hp.
      destruct (StreamState.enqueue_frame st frame) as [st1 [| |]]; cbn in *; congruence. }
    destruct (handle_enqueue addr s t' frame st Hg Hp) as [Hq _]. specialize (Hq t). rewrite get_set_stream in Hq.
    case_decide as Ht; [subst t'; rewrite Hg|].
    + destruct (get_stream t (streams (fst _))); [|done]. eapply advanced_trans; [|by apply quiet_advanced].
      split; [apply rtc_once; by constructor; apply Hi|apply enqueue_negotiated].
    + destruct (get_stream t (streams s)), (get_stream t (streams (fst _))); try done. by apply quiet_advanced.
  - cbn [handle on_command]. unfold on_enqueue. rewrite Hg. cbv beta iota.
    pose proof (proj1 (quiet_after_command addr (reply s (EnqueueReply (Err EnqueueSessionClosed))) false false) t) as Hq.
    cbn [reply streams update LoopState_eta] in Hq.
    destruct (get_stream t (streams s)), (get_stream t (streams (fst _))); try done. by apply quiet_advanced.
Qed.

(** The streams of every reachable state are those the loop started with,
    advanced by their own operations. *)
Lemma reachable_advanced addr (start s : LoopState W) t :
  loop_inv start -> loop_reachable addr start s ->
  match get_stream t (streams start), get_stream t (streams s) with
  | Some st, Some st' => advanced st st'
  | None, None => True
  | _, _ => False
  end.
Proof.
  intros Hstart. induction 1 as [|s s' input Hr IH Hi He|s n Hr IH|s Hr IH|s w Hr IH]; [|..|done|done|done].
  - destruct (get_stream t (streams start)); [by split|done].
  - pose proof (handle_advanced addr s input t (loop_reachable_inv addr start s Hstart Hr) Hi) as Ha. rewrite He in Ha.
    cbn [fst] in Ha. destruct (get_stream t (streams start)), (get_stream t (streams s)), (get_stream t (streams s')); try done.
    by eapply advanced_trans.
Qed.
End Arms.
