(* ===== verification/UdpTransport.v ===== *)
(** * The default transport ([src/src/transport.rs])

    [UdpTransport] forwards the trait to a tokio UDP socket (the class
    [UdpSocket]).  The loop receives into one buffer of 2048 bytes that lives as
    long as the loop does; the theorem is that this loop, over a socket, is the
    loop of [EventLoop] on the datagrams of the socket. *)

From stdpp Require Import strings.
From S2P Require Import Prelude Constants Time Errors Text Codec Frame SyncSource Crypto Rtp Rtcp Stream EventLoop EventLoopFacts.

(** Sockets [S] of a network [N].  Receiving takes the caller's buffer and
    returns it with what was written. *)
Class UdpSocket (N S : Type) := {
  socket_bind : N -> SocketAddr -> N * (IoError + S);
  socket_send_to : S -> bytes -> SocketAddr -> S * (IoError + Z);
  socket_recv_from : S -> bytes -> S * bytes * (IoError + Z * SocketAddr);
  socket_local_addr : S -> IoError + SocketAddr;
}.

(** The clocks, [std::time::Instant] and [SystemTime]. *)
Class Clocks (C : Type) := {
  clock_instant_now : C -> C * Instant;
  clock_system_now : C -> C * SystemTime;
}.

Module UdpTransport.
Record t (S : Type) := MkUdpTransport { socket : S }.
Arguments MkUdpTransport {S} _.
Arguments socket {S} _.

Section Udp.
Context {N S : Type} `{UdpSocket N S}.

Definition bind (n : N) (address : SocketAddr) : N * (IoError + t S) :=
  match socket_bind n address with
  | (n, inl e) => (n, inl e)
  | (n, inr socket) => (n, inr (MkUdpTransport socket))
  end.

Definition from_socket (socket : S) : t S := MkUdpTransport socket.

Definition send_to (self : t S) (d : bytes) (address : SocketAddr) : t S * (IoError + Z) :=
  let '(socket, r) := socket_send_to (socket self) d address in (MkUdpTransport socket, r).

Definition recv_from (self : t S) (buf : bytes) : t S * bytes * (IoError + Z * SocketAddr) :=
  let '(socket, buf, r) := socket_recv_from (socket self) buf in (MkUdpTransport socket, buf, r).

Definition local_addr (self : t S) : IoError + SocketAddr := socket_local_addr (socket self).
End Udp.
End UdpTransport.

(** The loop's world over UDP: the transport and the clocks. *)
#[export] Instance udp_transport {N S C} `{UdpSocket N S} `{Clocks C} : Transport (UdpTransport.t S * C) := {|
  send_to w d a := let '(t, r) := UdpTransport.send_to (fst w) d a in ((t, snd w), r);
  instant_now w := let '(c, now) := clock_instant_now (snd w) in ((fst w, c), now);
  system_now w := let '(c, now) := clock_system_now (snd w) in ((fst w, c), now);
|}.

Definition RECEIVE_BUFFER_BYTES : nat := 2048.

(** ** The loop sees its world through the transport only

    Two worlds related by [R], in which sending and reading the clocks give the
    same results and related worlds, cannot be told apart by the loop. *)
Definition with_world {W1 W2} (s : LoopState W1) (w : W2) : LoopState W2 :=
  MkLoop w (streams s) (audio_watchdog s) (video_watchdog s) (burst_budget s) (statistics_pending s)
    (statistics_trigger_count s) (statistics_deadline s) (events s) (replies s).

Section Parametric.
Context {W1 W2 : Type} `{Transport W1} `{Transport W2} `{StreamCipher} (R : W1 -> W2 -> Prop).

(** Related results of two computations. *)
Definition related {A} (r1 : W1 * A) (r2 : W2 * A) : Prop := R (fst r1) (fst r2) /\ snd r1 = snd r2.
Definition sim (s1 : LoopState W1) (s2 : LoopState W2) : Prop :=
  exists w2, R (world s1) w2 /\ s2 = with_world s1 w2.
Definition sim_with {A} (r1 : LoopState W1 * A) (r2 : LoopState W2 * A) : Prop :=
  sim (fst r1) (fst r2) /\ snd r1 = snd r2.

Hypothesis R_send : forall w1 w2 d a, R w1 w2 -> related (send_to w1 d a) (send_to w2 d a).
Hypothesis R_instant : forall w1 w2, R w1 w2 -> related (instant_now w1) (instant_now w2).
Hypothesis R_system : forall w1 w2, R w1 w2 -> related (system_now w1) (system_now w2).

(** Run a related pair of computations on both sides. *)
Tactic Notation "both" constr(H) "as" ident(v1) ident(v2) ident(x) ident(Hv) :=
  let Hr := fresh in pose proof H as Hr; unfold related in Hr;
  match type of Hr with R (fst ?a) (fst ?b) /\ _ =>
    let y := fresh in
    destruct a as [v1 x]; destruct b as [v2 y]; cbn [fst snd] in Hr; destruct Hr as [Hv <-]
  end.
Ltac in_sim := cbn [fst snd]; split; [eexists; split; [|reflexivity]; cbn; eassumption|try done].

Lemma packet_sent_sim w1 w2 dog : R w1 w2 -> related (packet_sent w1 dog) (packet_sent w2 dog).
Proof. intros Hw. unfold packet_sent. destruct (waiting_since dog); [done|]. by both (R_instant w1 w2 Hw) as v1 v2 x Hv. Qed.

Lemma acknowledgement_advanced_sim w1 w2 dog b :
  R w1 w2 -> related (acknowledgement_advanced w1 dog b) (acknowledgement_advanced w2 dog b).
Proof.
  intros Hw. unfold acknowledgement_advanced. destruct b; [|done]. by both (R_instant w1 w2 Hw) as v1 v2 x Hv.
Qed.

Lemma send_datagram_sim w1 w2 d a op : R w1 w2 -> related (send_datagram w1 d a op) (send_datagram w2 d a op).
Proof.
  intros Hw. unfold send_datagram. both (R_send w1 w2 d a Hw) as v1 v2 x Hv.
  destruct x; [done|]. by destruct (negb _).
Qed.

Lemma timed_out_sim w1 w2 dog b :
  R w1 w2 ->
  let '(w1', dog1, t1) := timed_out w1 dog b in
  let '(w2', dog2, t2) := timed_out w2 dog b in R w1' w2' /\ dog1 = dog2 /\ t1 = t2.
Proof.
  intros Hw. unfold timed_out. destruct (negb b); [done|]. destruct (waiting_since dog); [|done].
  by both (R_instant w1 w2 Hw) as v1 v2 x Hv.
Qed.

Lemma flush_loop_sim fuel w1 w2 addr o dog b op :
  R w1 w2 ->
  let '(w1', o1, dog1, b1, r1) := flush_loop fuel w1 addr o dog b op in
  let '(w2', o2, dog2, b2, r2) := flush_loop fuel w2 addr o dog b op in
  R w1' w2' /\ (o1, dog1, b1, r1) = (o2, dog2, b2, r2).
Proof.
  revert w1 w2 o dog b. induction fuel as [|fuel IH]; intros w1 w2 o dog b Hw; cbn [flush_loop]; [done|].
  destruct (negb _); [done|]. destruct o as [st|]; [|done].
  destruct (StreamState.next_packet st) as [st' [p|]]; [|done].
  both (send_datagram_sim w1 w2 (packet_data (o_packet p)) addr op Hw) as v1 v2 x Hv. destruct x as [u|e|]; [|done..].
  both (packet_sent_sim v1 v2 dog Hv) as u1 u2 y Hu. by apply IH.
Qed.

Lemma flush_queued_packets_sim addr s1 s2 :
  sim s1 s2 -> sim_with (flush_queued_packets addr s1) (flush_queued_packets addr s2).
Proof.
  intros (w2 & Hw & ->). destruct s1 as [w1 ss aw vw bb sp sc sd ev re]. unfold flush_queued_packets, flush_stream_packets, with_world.
  cbn [world streams audio_watchdog video_watchdog burst_budget statistics_pending statistics_trigger_count
    statistics_deadline events replies audio_stream video_stream] in *.
  both (R_instant w1 w2 Hw) as v1 v2 now Hv.
  pose proof (flush_loop_sim (flush_fuel (audio_stream ss)) v1 v2 addr (audio_stream ss) aw
    (BurstBudget.refill bb now) "send audio RTP packet" Hv) as Ha.
  destruct (flush_loop _ v1 _ _ _ _ _) as [[[[u1 oa] da] ba] ra], (flush_loop _ v2 _ _ _ _ _) as [[[[u2 ?] ?] ?] ?].
  destruct Ha as [Hu [= <- <- <- <-]]. destruct ra as [u|e|]; [|in_sim..].
  cbn [world streams video_watchdog burst_budget video_stream audio_stream update LoopState_eta].
  match goal with |- context [flush_loop ?n u1 ?b' ?c ?d ?e ?f] => pose proof (flush_loop_sim n u1 u2 b' c d e f Hu) as Hb;
    destruct (flush_loop n u1 b' c d e f) as [[[[x1 ?] ?] ?] ?], (flush_loop n u2 b' c d e f) as [[[[x2 ?] ?] ?] ?] end.
  destruct Hb as [Hx [= <- <- <- <-]]. in_sim.
Qed.

Lemma fail_with_sim s1 s2 r : sim s1 s2 -> sim_with (fail_with s1 r) (fail_with s2 r).
Proof. intros (w2 & Hw & ->). unfold fail_with. destruct r; in_sim. Qed.

Lemma trigger_statistics_sim s1 s2 : sim s1 s2 -> sim (trigger_statistics s1) (trigger_statistics s2).
Proof.
  intros (w2 & Hw & ->). destruct s1 as [w1 ss aw vw bb [] sc sd ev re]; [by exists w2|].
  unfold trigger_statistics, with_world. cbn in Hw |- *.
  both (R_instant w1 w2 Hw) as v1 v2 now Hv. by exists v2.
Qed.

(** A flush, then [publish] or the fatal error. *)
Lemma flush_then_sim addr s1 s2 (k1 : LoopState W1 -> LoopState W1) (k2 : LoopState W2 -> LoopState W2) :
  sim s1 s2 -> (forall s1 s2, sim s1 s2 -> sim (k1 s1) (k2 s2)) ->
  sim_with
    (let '(s, r) := flush_queued_packets addr s1 in match r with Ok _ => (k1 s, Continue) | r => fail_with s r end)
    (let '(s, r) := flush_queued_packets addr s2 in match r with Ok _ => (k2 s, Continue) | r => fail_with s r end).
Proof.
  intros Hs Hk. pose proof (flush_queued_packets_sim addr s1 s2 Hs) as Hf.
  destruct (flush_queued_packets addr s1) as [t1 r], (flush_queued_packets addr s2) as [t2 ?].
  destruct Hf as [Ht Hr]. cbn [fst snd] in Ht, Hr. rewrite <- Hr. destruct r; [split; [by apply Hk|done]|by apply fail_with_sim..].
Qed.

Lemma after_command_sim addr s1 s2 flush publish :
  sim s1 s2 -> sim_with (after_command addr s1 flush publish) (after_command addr s2 flush publish).
Proof.
  intros Hs. unfold after_command.
  assert (Hk : forall s1 s2, sim s1 s2 -> sim (if publish then trigger_statistics s1 else s1)
    (if publish then trigger_statistics s2 else s2)) by (intros; destruct publish; [by apply trigger_statistics_sim|done]).
  destruct flush; [by apply (flush_then_sim addr s1 s2)|]. split; [by apply Hk|done].
Qed.

Lemma on_command_sim addr s1 s2 c : sim s1 s2 -> sim_with (on_command addr s1 c) (on_command addr s2 c).
Proof.
  intros (w2 & Hw & ->). unfold on_command. destruct c as [[t frame| |delay|]|]; [| | |in_sim|in_sim].
  - unfold on_enqueue. cbn [streams with_world]. destruct (get_stream t (streams s1)) as [st|].
    + destruct (StreamState.enqueue_frame st frame) as [st' [r|e|]]; cbv beta iota; [| |in_sim];
        apply after_command_sim; by exists w2.
    + apply after_command_sim. by exists w2.
  - apply after_command_sim. by exists w2.
  - unfold on_set_target_playout_delay. cbn [streams with_world].
    destruct (set_target_playout_delay (streams s1) delay) as [ss r]. apply after_command_sim. by exists w2.
Qed.

Lemma advance_watchdogs_sim s1 s2 p : sim s1 s2 -> sim (advance_watchdogs s1 p) (advance_watchdogs s2 p).
Proof.
  intros (w2 & Hw & ->). unfold advance_watchdogs. destruct p as [pa pv]. cbn [p_audio p_video].
  assert (Hv : forall s1 s2, sim s1 s2 -> sim
    (if pv then let '(w, d) := acknowledgement_advanced (world s1) (video_watchdog s1)
       (frames_in_flight (video_stream (streams s1))) in s1 <| world := w |> <| video_watchdog := d |> else s1)
    (if pv then let '(w, d) := acknowledgement_advanced (world s2) (video_watchdog s2)
       (frames_in_flight (video_stream (streams s2))) in s2 <| world := w |> <| video_watchdog := d |> else s2)).
  { intros t1 t2 (x2 & Hx & ->). destruct pv; [|by exists x2].
    cbn [world streams video_watchdog with_world].
    both (acknowledgement_advanced_sim (world t1) x2 (video_watchdog t1) (frames_in_flight (video_stream (streams t1))) Hx)
      as v1 v2 d Hv. by exists v2. }
  cbv zeta. apply Hv. destruct pa; [|by exists w2].
  cbn [world streams audio_watchdog with_world].
  both (acknowledgement_advanced_sim (world s1) w2 (audio_watchdog s1) (frames_in_flight (audio_stream (streams s1))) Hw)
    as v1 v2 d Hv'. by exists v2.
Qed.

Lemma on_feedback_sim addr s1 s2 c : sim s1 s2 -> sim_with (on_feedback addr s1 c) (on_feedback addr s2 c).
Proof.
  intros (w2 & Hw & ->). unfold on_feedback. cbn [world streams events with_world].
  both (R_instant (world s1) w2 Hw) as v1 v2 at_ Hv. cbn [streams events update LoopState_eta].
  change (streams (with_world s1 w2)) with (streams s1). change (events (with_world s1 w2)) with (events s1).
  destruct (process_feedback c at_ (streams s1) (events s1)) as [[ss ev] p].
  set (before := session_feedback_state (streams s1)).
  apply (flush_then_sim addr (advance_watchdogs (s1 <| world := v1 |> <| streams := ss |> <| events := ev |>) p)
    (advance_watchdogs ((with_world s1 v2) <| streams := ss |> <| events := ev |>) p)
    (fun s => if bool_decide (before = session_feedback_state (streams s)) then s else trigger_statistics s)
    (fun s => if bool_decide (before = session_feedback_state (streams s)) then s else trigger_statistics s)).
  - apply advance_watchdogs_sim. by exists v2.
  - intros t1 t2 Ht. assert (streams t2 = streams t1) as -> by (destruct Ht as (x & _ & ->); done).
    destruct (bool_decide _); [done|by apply trigger_statistics_sim].
Qed.

Lemma on_received_sim addr s1 s2 r : sim s1 s2 -> sim_with (on_received addr s1 r) (on_received addr s2 r).
Proof.
  intros Hs. unfold on_received. destruct r as [e|[d a]]; [case_decide; [by split|by apply fail_with_sim]|].
  destruct (negb _); [by split|]. destruct (classify_packet d) as [[]| |]; try by split.
  destruct (parse_compound d) as [c|e|]; [|destruct Hs as (w2 & Hw & ->); in_sim|by split].
  destruct (contains_receiver_feedback c); [by apply on_feedback_sim|by split].
Qed.

Lemma report_stream_sim addr t op s1 s2 : sim s1 s2 -> sim_with (report_stream addr t op s1) (report_stream addr t op s2).
Proof.
  intros (w2 & Hw & ->). unfold report_stream, send_sender_report. cbn [world streams with_world].
  destruct (get_stream t (streams s1)) as [st|]; [|in_sim].
  assert (Hm : related (match last_reference_time st with None => (world s1, 0) | Some _ => instant_now (world s1) end)
    (match last_reference_time st with None => (w2, 0) | Some _ => instant_now w2 end))
    by (destruct (last_reference_time st); [by apply R_instant|done]).
  both Hm as v1 v2 mono Hv. both (R_system v1 v2 Hv) as u1 u2 sys Hu.
  destruct (StreamState.sender_report_timestamp st sys mono) as [ntp rtp].
  match goal with |- context [send_datagram u1 ?d ?a ?o] => both (send_datagram_sim u1 u2 d a o Hu) as x1 x2 r Hx end.
  destruct r as [[]|e|]; [|in_sim..]. both (R_instant x1 x2 Hx) as y1 y2 at_ Hy. in_sim.
Qed.

Lemma on_rtcp_tick_sim addr s1 s2 : sim s1 s2 -> sim_with (on_rtcp_tick addr s1) (on_rtcp_tick addr s2).
Proof.
  intros Hs. unfold on_rtcp_tick.
  pose proof (report_stream_sim addr Audio "send audio RTCP Sender Report" s1 s2 Hs) as Ha.
  destruct (report_stream _ Audio _ s1) as [t1 r], (report_stream _ Audio _ s2) as [t2 r'].
  destruct Ha as [Ht Hr]. cbn [fst snd] in Ht, Hr. subst r'. destruct r as [u|e|]; [|by apply fail_with_sim..].
  pose proof (report_stream_sim addr Video "send video RTCP Sender Report" t1 t2 Ht) as Hv.
  destruct (report_stream _ Video _ t1) as [x1 r], (report_stream _ Video _ t2) as [x2 r'].
  destruct Hv as [Hx Hr]. cbn [fst snd] in Hx, Hr. subst r'. destruct r; [by split|by apply fail_with_sim..].
Qed.

Lemma on_timeout_tick_sim s1 s2 : sim s1 s2 -> sim_with (on_timeout_tick s1) (on_timeout_tick s2).
Proof.
  intros (w2 & Hw & ->). unfold on_timeout_tick. destruct s1 as [w1 ss aw vw bb sp sc sd ev re]. unfold with_world. cbn in Hw |- *.
  pose proof (timed_out_sim w1 w2 aw (frames_in_flight (audio_stream ss)) Hw) as Ha.
  destruct (timed_out w1 _ _) as [[v1 da] ta], (timed_out w2 _ _) as [[v2 ?] ?]. destruct Ha as (Hv & <- & <-). cbn.
  pose proof (timed_out_sim v1 v2 vw (frames_in_flight (video_stream ss)) Hv) as Hb.
  destruct (timed_out v1 _ _) as [[u1 dv] tv], (timed_out v2 _ _) as [[u2 ?] ?]. destruct Hb as (Hu & <- & <-).
  destruct (ta || tv); in_sim.
Qed.

Lemma handle_sim addr s1 s2 input : sim s1 s2 -> sim_with (handle addr s1 input) (handle addr s2 input).
Proof.
  intros Hs. destruct input; cbn [handle].
  - by apply on_command_sim.
  - by apply (flush_then_sim addr s1 s2 id id).
  - by apply on_received_sim.
  - by apply on_rtcp_tick_sim.
  - unfold on_statistics_timer. destruct Hs as (w2 & Hw & ->). cbn [statistics_pending with_world].
    destruct (statistics_pending s1); in_sim.
  - by apply on_timeout_tick_sim.
Qed.

Lemma init_sim w1 w2 audio video : R w1 w2 -> sim (init w1 audio video) (init w2 audio video).
Proof. intros Hw. unfold init. both (R_instant w1 w2 Hw) as v1 v2 now Hv. by exists v2. Qed.
End Parametric.

(** ** The loop over a socket *)

(** The arms of the [select!]; all but the socket's resolve to an input. *)
Inductive Arm := OnCommand (c : option StreamCommand) | OnBurst | OnSocket | OnRtcp | OnStatistics | OnTimeout.
Definition arm_input (arm : Arm) : option LoopInput :=
  match arm with
  | OnCommand c => Some (Command c)
  | OnBurst => Some BurstTick
  | OnSocket => None
  | OnRtcp => Some RtcpTick
  | OnStatistics => Some StatisticsTimer
  | OnTimeout => Some TimeoutTick
  end.

Section UdpLoop.
Context {N S C : Type} `{UdpSocket N S} `{Clocks C} `{StreamCipher}.

(** The receive arm: [receive_buffer[..length]] is taken once the source is the
    expected one, and panics beyond the buffer. *)
Definition receive_arm (remote_address : SocketAddr) (s : LoopState (UdpTransport.t S * C)) (receive_buffer : bytes)
  : bytes * (LoopState (UdpTransport.t S * C) * Flow) :=
  let '(transport, receive_buffer, received) := UdpTransport.recv_from (fst (world s)) receive_buffer in
  let s := s <| world := (transport, snd (world s)) |> in
  (receive_buffer,
   match received with
   | inl error => on_received remote_address s (inl error)
   | inr (length, address) =>
     if is_expected_receiver_source address remote_address && (Z.of_nat (List.length receive_buffer) <? length)
     then (s, Return Panic)
     else on_received remote_address s (inr (take (Z.to_nat length) receive_buffer, address))
   end).

Fixpoint socket_loop (remote_address : SocketAddr) (s : LoopState (UdpTransport.t S * C)) (receive_buffer : bytes)
    (ready : list Arm) : LoopState (UdpTransport.t S * C) * Flow :=
  match ready with
  | [] => (s, Continue)
  | r :: ready' =>
    let '(receive_buffer, (s, flow)) :=
      match arm_input r with
      | None => receive_arm remote_address s receive_buffer
      | Some input => (receive_buffer, handle remote_address s input)
      end in
    match flow with
    | Continue => socket_loop remote_address s receive_buffer ready'
    | Return r => (s, Return r)
    end
  end.

Definition udp_run (w : UdpTransport.t S * C) (remote_address : SocketAddr) (audio video : option StreamState)
    (ready : list Arm) : LoopState (UdpTransport.t S * C) * Flow :=
  socket_loop remote_address (init w audio video) (replicate RECEIVE_BUFFER_BYTES 0) ready.
End UdpLoop.

(** ** The loop over a socket is the loop on its datagrams *)

(** A UDP socket is a queue of what it will deliver and a sending half.  A
    receive writes the datagram, cut to the buffer, at the buffer's start and
    leaves the rest of it alone. *)
Class UdpSocketLaws (N S O : Type) `{UdpSocket N S} := {
  incoming : S -> list (IoError + bytes * SocketAddr);
  outgoing : S -> O;
  outgoing_send : O -> bytes -> SocketAddr -> O * (IoError + Z);
  socket_send_law s d a :
    incoming (fst (socket_send_to s d a)) = incoming s /\
    (outgoing (fst (socket_send_to s d a)), snd (socket_send_to s d a)) = outgoing_send (outgoing s) d a;
  socket_recv_error s buf e q : incoming s = inl e :: q ->
    exists s', socket_recv_from s buf = (s', buf, inl e) /\ incoming s' = q /\ outgoing s' = outgoing s;
  socket_recv_datagram s buf d a q : incoming s = inr (d, a) :: q ->
    exists s', socket_recv_from s buf =
        (s', take (length buf) d ++ drop (length d) buf, inr (Z.of_nat (length d `min` length buf), a)) /\
      incoming s' = q /\ outgoing s' = outgoing s;
}.

(** The sending half and the clocks are a transport of their own. *)
#[export] Instance outgoing_transport {N S O C} `{UdpSocketLaws N S O} `{Clocks C} : Transport (O * C) := {|
  send_to w d a := let '(o, r) := outgoing_send (fst w) d a in ((o, snd w), r);
  instant_now w := let '(c, now) := clock_instant_now (snd w) in ((fst w, c), now);
  system_now w := let '(c, now) := clock_system_now (snd w) in ((fst w, c), now);
|}.

(** What the loop is to see of a delivery: at most a buffer of the datagram. *)
Definition delivered (x : IoError + bytes * SocketAddr) : IoError + bytes * SocketAddr :=
  match x with inl e => inl e | inr (d, a) => inr (take RECEIVE_BUFFER_BYTES d, a) end.

(** The inputs of the arms when the socket delivers [q]; none when it has
    nothing for an arm that waits on it. *)
Fixpoint inputs_of (q : list (IoError + bytes * SocketAddr)) (ready : list Arm) : option (list LoopInput) :=
  match ready with
  | [] => Some []
  | arm :: ready' =>
    match arm_input arm, q with
    | Some input, _ => cons input <$> inputs_of q ready'
    | None, x :: q' => cons (Received (delivered x)) <$> inputs_of q' ready'
    | None, [] => None
    end
  end.

Section Refines.
Context {N S O C : Type} `{HL : UdpSocketLaws N S O} `{Clocks C} `{StreamCipher}.

(** A socket with [q] to deliver and its sending half. *)
Definition halves (q : list (IoError + bytes * SocketAddr)) (w : UdpTransport.t S * C) (o : O * C) : Prop :=
  incoming (UdpTransport.socket (fst w)) = q /\ o = (outgoing (UdpTransport.socket (fst w)), snd w).

Lemma halves_send q w1 w2 d a : halves q w1 w2 -> related (halves q) (send_to w1 d a) (send_to w2 d a).
Proof.
  intros [Hq ->]. destruct w1 as [[s] c]. cbn. unfold UdpTransport.send_to. cbn in Hq |- *.
  destruct (socket_send_law s d a) as [Hin Hout]. rewrite <- Hout.
  destruct (socket_send_to s d a) as [s' r]. cbn in Hin |- *. split; [|done]. split; [cbn; etrans; [exact Hin|exact Hq]|done].
Qed.

Lemma halves_instant q w1 w2 : halves q w1 w2 -> related (halves q) (instant_now w1) (instant_now w2).
Proof. intros [Hq ->]. destruct w1 as [t c]. cbn. by destruct (clock_instant_now c). Qed.

Lemma halves_system q w1 w2 : halves q w1 w2 -> related (halves q) (system_now w1) (system_now w2).
Proof. intros [Hq ->]. destruct w1 as [t c]. cbn. by destruct (clock_system_now c). Qed.

(** The buffer holds the cut datagram at its start, whatever it held before. *)
Lemma received_prefix (d buf : bytes) :
  length buf = RECEIVE_BUFFER_BYTES ->
  length (take (length buf) d ++ drop (length d) buf) = RECEIVE_BUFFER_BYTES /\
  take (length d `min` length buf) (take (length buf) d ++ drop (length d) buf) = take RECEIVE_BUFFER_BYTES d.
Proof.
  intros Hb. rewrite length_app, length_take, length_drop, Hb. split; [lia|].
  rewrite take_app_le by (rewrite length_take; lia). rewrite take_take.
  destruct (decide (length d <= RECEIVE_BUFFER_BYTES)%nat); [by rewrite !take_ge by lia|f_equal; lia].
Qed.

Lemma receive_arm_sim addr s1 s2 buf x q :
  length buf = RECEIVE_BUFFER_BYTES -> sim (halves (x :: q)) s1 s2 ->
  exists buf', fst (receive_arm addr s1 buf) = buf' /\ length buf' = RECEIVE_BUFFER_BYTES /\
    sim_with (halves q) (snd (receive_arm addr s1 buf)) (on_received addr s2 (delivered x)).
Proof.
  intros Hbuf (w2 & [Hq ->] & ->). destruct s1 as [[[s] c] ss aw vw bb sp sc sd ev re].
  unfold receive_arm, UdpTransport.recv_from. cbn [world fst snd UdpTransport.socket] in *.
  destruct x as [e|[d a]].
  - destruct (socket_recv_error s buf e q Hq) as (s' & -> & Hin & Hout). exists buf. split_and!; [done..|].
    apply on_received_sim; [apply halves_send|apply halves_instant|].
    eexists. split; [by split|]. unfold with_world. cbn. by rewrite Hout.
  - destruct (socket_recv_datagram s buf d a q Hq) as (s' & -> & Hin & Hout).
    destruct (received_prefix d buf Hbuf) as [Hlen Hpre]. eexists. split_and!; [done..|]. cbn [snd].
    rewrite Hlen, (proj2 (Z.ltb_ge _ _)), andb_false_r, Nat2Z.id, Hpre by lia.
    apply on_received_sim; [apply halves_send|apply halves_instant|].
    eexists. split; [by split|]. unfold with_world. cbn. by rewrite Hout.
Qed.

Lemma socket_loop_sim addr ready s1 s2 buf q inputs :
  length buf = RECEIVE_BUFFER_BYTES -> sim (halves q) s1 s2 -> inputs_of q ready = Some inputs ->
  exists q', sim_with (halves q') (socket_loop addr s1 buf ready) (run_loop addr s2 inputs).
Proof.
  revert s1 s2 buf q inputs. induction ready as [|arm ready IH]; intros s1 s2 buf q inputs Hbuf Hs; cbn [inputs_of].
  { intros [= <-]. by exists q. }
  cbn [socket_loop]. destruct (arm_input arm) as [input|].
  - destruct (inputs_of q ready) as [inputs'|] eqn:Hi; [|done]. cbn. intros [= <-]. cbn [run_loop].
    pose proof (handle_sim (halves q) (halves_send q) (halves_instant q) (halves_system q) addr s1 s2 input Hs) as Hh.
    destruct (handle addr s1 input) as [t1 f], (handle addr s2 input) as [t2 f']. destruct Hh as [Ht Hf].
    cbn [fst snd] in Ht, Hf. subst f'. destruct f; [by apply (IH _ _ _ q)|by exists q].
  - destruct q as [|x q]; [done|]. destruct (inputs_of q ready) as [inputs'|] eqn:Hi; [|done]. cbn. intros [= <-].
    cbn [run_loop handle]. destruct (receive_arm_sim addr s1 s2 buf x q Hbuf Hs) as (buf' & Hb & Hlen & Hr).
    destruct (receive_arm addr s1 buf) as [b [t1 f]], (on_received addr s2 (delivered x)) as [t2 f'].
    destruct Hr as [Ht Hf]. cbn [fst snd] in *. subst f' b. destruct f; [by apply (IH _ _ _ q)|by exists q].
Qed.
End Refines.

(** C16: The event loop over a UDP socket, with its one receive buffer reused for
    every datagram, does what the loop does on the datagrams themselves: each arm
    that waits on the socket handles the next delivery, cut to 2048 bytes and
    with no byte of an earlier one, every other arm is unchanged, and the loop
    ends at the same point with the same result, streams, watchdogs, budget,
    events and replies, having sent the same. *)
Theorem udp_loop_refines {N S O C} `{UdpSocketLaws N S O} `{Clocks C} `{StreamCipher}
    (transport : UdpTransport.t S) (c : C) addr audio video ready inputs :
  inputs_of (incoming (UdpTransport.socket transport)) ready = Some inputs ->
  let '(s1, flow1) := udp_run (transport, c) addr audio video ready in
  let '(s2, flow2) := run (outgoing (UdpTransport.socket transport), c) addr audio video inputs in
  flow1 = flow2 /\
  s2 = with_world s1 (outgoing (UdpTransport.socket (fst (world s1))), snd (world s1)).
Proof.
  intros Hi. unfold udp_run, run.
  destruct (socket_loop_sim addr ready (init (transport, c) audio video)
    (init (outgoing (UdpTransport.socket transport), c) audio video) (replicate RECEIVE_BUFFER_BYTES 0)
    (incoming (UdpTransport.socket transport)) inputs) as [q' Hs]; [apply length_replicate| |done|].
  { by apply init_sim; [apply halves_instant|]. }
  destruct (socket_loop _ _ _ _) as [s1 f1], (run_loop _ _ _) as [s2 f2].
  destruct Hs as [(w2 & [_ ->] & Heq) Hf]. by split.
Qed.

(** A socket for the witness: deliveries in a list, every send taken. *)
Module ToySocket.
Record toy := MkToy { toy_incoming : list (IoError + bytes * SocketAddr); toy_sent : list (bytes * SocketAddr) }.
#[local] Instance toy_socket : UdpSocket unit toy := {|
  socket_bind n _ := (n, inr (MkToy [] []));
  socket_send_to s d a := (MkToy (toy_incoming s) (toy_sent s ++ [(d, a)]), inr (Z.of_nat (length d)));
  socket_recv_from s buf :=
    match toy_incoming s with
    | [] => (s, buf, inr (0, V4 0 0))
    | inl e :: q => (MkToy q (toy_sent s), buf, inl e)
    | inr (d, a) :: q => (MkToy q (toy_sent s), take (length buf) d ++ drop (length d) buf,
        inr (Z.of_nat (length d `min` length buf), a))
    end;
  socket_local_addr _ := inr (V4 0 0);
|}.
#[local] Instance toy_socket_laws : UdpSocketLaws unit toy (list (bytes * SocketAddr)).
Proof.
  refine {| incoming := toy_incoming; outgoing := toy_sent;
            outgoing_send o d a := (o ++ [(d, a)], inr (Z.of_nat (length d))) |}.
  - done.
  - intros [i o] buf e q Hq. cbn in Hq. subst i. by eexists.
  - intros [i o] buf d a q Hq. cbn in Hq. subst i. by eexists.
Defined.
#[local] Existing Instance xor_cipher.
#[local] Instance toy_clocks : Clocks Z := {|
  clock_instant_now c := (c + 1000, c);
  clock_system_now c := (c, c);
|}.

(** A long datagram, then a malformed report shorter than it: the second is
    parsed alone. *)
Lemma udp_loop_refines_witness :
  inputs_of [inr (replicate 4000 7, V4 1 2); inr ([0x80; 201; 0; 9; 0; 0; 0; 1], V4 1 2)] [OnSocket; OnBurst; OnSocket] =
    Some [Received (inr (replicate 2048 7, V4 1 2)); BurstTick; Received (inr ([0x80; 201; 0; 9; 0; 0; 0; 1], V4 1 2))] /\
  length (queued_events (events (fst (@udp_run unit toy Z _ _ xor_cipher
    (UdpTransport.MkUdpTransport (MkToy [inr (replicate 4000 7, V4 1 2); inr ([0x80; 201; 0; 9; 0; 0; 0; 1], V4 1 2)] []), 0)
    (V4 1 2) None None [OnSocket; OnBurst; OnSocket])))) = 1%nat.
Proof.
  split; [vm_compute; reflexivity|].
  pose proof (@udp_loop_refines unit toy _ Z _ toy_socket_laws _ xor_cipher
    (UdpTransport.MkUdpTransport (MkToy [inr (replicate 4000 7, V4 1 2); inr ([0x80; 201; 0; 9; 0; 0; 0; 1], V4 1 2)] [])) 0
    (V4 1 2) None None [OnSocket; OnBurst; OnSocket]
    [Received (inr (replicate 2048 7, V4 1 2)); BurstTick; Received (inr ([0x80; 201; 0; 9; 0; 0; 0; 1], V4 1 2))]
    ltac:(vm_compute; reflexivity)) as Hr.
  destruct (udp_run _ _ _ _ _) as [s1 f1]. cbn [fst].
  match type of Hr with context [run ?w ?a ?b ?c ?d] =>
    assert (He : length (queued_events (events (fst (run w a b c d)))) = 1%nat) by (vm_compute; reflexivity);
    destruct (run w a b c d) as [s2 f2] end.
  destruct Hr as [_ ->]. exact He.
Defined.
End ToySocket.
