(* ===== verification/Offer.v ===== *)
(** * OFFER construction ([src/src/offer.rs])

    [OfferBuilder.build] validates the configurations and draws SSRCs, keys
    and IV masks from the generator; [serialize] is the JSON the OFFER message
    carries. *)

From Stdlib Require Import Ascii.
From stdpp Require Import strings.
From S2P Require Import Prelude Constants Time Text Json Codec Frame SyncSource Crypto.

Record AudioStreamConfig := MkAudioConfig {
  ac_codec : AudioCodec;
  ac_bit_rate : Z;
  ac_sample_rate : Z;
  ac_channels : Z;
  ac_target_delay : Duration;
}.

Record VideoStreamConfig := MkVideoConfig {
  vc_codec : VideoCodec;
  vc_max_bit_rate : Z;
  vc_max_frame_rate : Framerate;
  vc_resolutions : list Resolution;
  vc_target_delay : Duration;
}.

Inductive StreamOfferType := AudioSource | VideoSource.
#[export] Instance StreamOfferType_eq_dec : EqDecision StreamOfferType.
Proof. solve_decision. Defined.

Record AudioExtra := MkAudioExtra { ae_bit_rate : Z }.
Record VideoExtra := MkVideoExtra {
  ve_max_frame_rate : Framerate;
  ve_max_bit_rate : Z;
  ve_resolutions : list Resolution;
}.

Record StreamOffer := MkStreamOffer {
  so_index : Z;
  so_stream_type : StreamOfferType;
  so_channels : Z;
  so_rtp_payload_type : Z;
  so_sync_source : SyncSource;
  so_target_delay : Duration;
  so_aes_key : bytes;
  so_aes_iv_mask : bytes;
  so_rtp_timebase : Z;
  so_codec_name : string;
  so_rtp_extensions : list string;
  so_audio_extra : option AudioExtra;
  so_video_extra : option VideoExtra;
}.

Record Offer := MkOffer { cast_mode : CastMode; offer_streams : list StreamOffer }.

Record OfferBuilder := MkOfferBuilder {
  ob_cast_mode : CastMode;
  ob_audio : list AudioStreamConfig;
  ob_video : list VideoStreamConfig;
}.
#[export] Instance OfferBuilder_eta : Eta OfferBuilder := fun s =>
  MkOfferBuilder (ob_cast_mode s) (ob_audio s) (ob_video s).

Inductive OfferError :=
| NoStreams
| InvalidAudioStream (index : Z) (reason : string)
| InvalidVideoStream (index : Z) (reason : string).
#[export] Instance OfferError_eq_dec : EqDecision OfferError.
Proof. solve_decision. Defined.

Module Offer.
Definition builder : OfferBuilder := MkOfferBuilder Mirroring [] [].

(** [self.streams.iter().find(|s| s.index == index)]. *)
Definition find_index (self : Offer) (index : Z) : option StreamOffer :=
  List.find (fun s => so_index s =? index) (offer_streams self).

Definition stream_aes_key (self : Offer) (index : Z) : option bytes := so_aes_key <$> find_index self index.
Definition stream_aes_iv_mask (self : Offer) (index : Z) : option bytes := so_aes_iv_mask <$> find_index self index.
Definition stream_sync_source (self : Offer) (index : Z) : option SyncSource := so_sync_source <$> find_index self index.
Definition stream_rtp_timebase (self : Offer) (index : Z) : option Z := so_rtp_timebase <$> find_index self index.
Definition stream_rtp_payload_type (self : Offer) (index : Z) : option Z := so_rtp_payload_type <$> find_index self index.
Definition stream_target_delay (self : Offer) (index : Z) : option Duration := so_target_delay <$> find_index self index.
Definition stream_type (self : Offer) (index : Z) : option StreamType :=
  (fun s => match so_stream_type s with AudioSource => Audio | VideoSource => Video end)
    <$> find_index self index.
Definition has_video (self : Offer) : bool :=
  existsb (fun s => bool_decide (so_stream_type s = VideoSource)) (offer_streams self).
End Offer.

Definition valid_target_delay (delay : Duration) : bool :=
  let milliseconds := as_millis delay in
  ((1 <=? milliseconds) && (milliseconds <=? u32_max))
  && (delay =? from_millis (wrap_u64 milliseconds)).

Module OfferBuilder.
Definition with_cast_mode (self : OfferBuilder) (mode : CastMode) : OfferBuilder :=
  self <| ob_cast_mode := mode |>.
Definition audio (self : OfferBuilder) (config : AudioStreamConfig) : OfferBuilder :=
  self <| ob_audio := ob_audio self ++ [config] |>.
Definition video (self : OfferBuilder) (config : VideoStreamConfig) : OfferBuilder :=
  self <| ob_video := ob_video self ++ [config] |>.

Definition delay_reason : string :=
  "target delay must be a whole number of milliseconds between 1 and 4294967295".

(** The reason an audio configuration is refused, if any. *)
Definition audio_reason (a : AudioStreamConfig) : option string :=
  if ac_bit_rate a =? 0 then Some "bit rate must be nonzero"
  else if ac_sample_rate a =? 0 then Some "sample rate must be nonzero"
  else if ac_channels a =? 0 then Some "channel count must be nonzero"
  else if negb (valid_target_delay (ac_target_delay a)) then Some delay_reason
  else None.

Definition video_reason (v : VideoStreamConfig) : option string :=
  if vc_max_bit_rate v =? 0 then Some "maximum bit rate must be nonzero"
  else if bool_decide (length (vc_resolutions v) = 0%nat) then Some "at least one resolution is required"
  else if negb (valid_target_delay (vc_target_delay v)) then Some delay_reason
  else None.

(** [for (index, c) in configs.iter().enumerate()] with an early return. *)
Fixpoint check_configs {C} (reason : C -> option string) (mk : Z -> string -> OfferError)
    (index : Z) (configs : list C) : Result OfferError unit :=
  match configs with
  | [] => Ok tt
  | c :: configs' =>
    match reason c with
    | Some reason => Err (mk index reason)
    | None => check_configs reason mk (index + 1) configs'
    end
  end.

Section Build.
Context {R : Type} `{Rng R}.

Definition offer_audio (r : R) (index : Z) (a : AudioStreamConfig) : R * StreamOffer :=
  let '(r, ssrc) := generate_audio r in
  let '(r, key) := generate_key r in
  let '(r, mask) := generate_iv_mask r in
  (r, MkStreamOffer index AudioSource (ac_channels a) (AudioCodec.rtp_payload_type (ac_codec a)) ssrc
        (ac_target_delay a) key mask (ac_sample_rate a) (AudioCodec.codec_name (ac_codec a))
        [ADAPTIVE_PLAYOUT_DELAY_EXTENSION] (Some (MkAudioExtra (ac_bit_rate a))) None).

Definition offer_video (r : R) (index : Z) (v : VideoStreamConfig) : R * StreamOffer :=
  let '(r, ssrc) := generate_video r in
  let '(r, key) := generate_key r in
  let '(r, mask) := generate_iv_mask r in
  (r, MkStreamOffer index VideoSource 1 (VideoCodec.rtp_payload_type (vc_codec v)) ssrc
        (vc_target_delay v) key mask RTP_VIDEO_TIMEBASE (VideoCodec.codec_name (vc_codec v))
        [ADAPTIVE_PLAYOUT_DELAY_EXTENSION] None
        (Some (MkVideoExtra (vc_max_frame_rate v) (vc_max_bit_rate v) (vc_resolutions v)))).

(** [for c in configs { streams.push(..); index += 1 }]. *)
Fixpoint offer_configs {C} (offer : R -> Z -> C -> R * StreamOffer) (r : R) (index : Z)
    (configs : list C) (streams : list StreamOffer) : R * Z * list StreamOffer :=
  match configs with
  | [] => (r, index, streams)
  | c :: configs' =>
    let '(r, s) := offer r index c in
    offer_configs offer r (index + 1) configs' (streams ++ [s])
  end.

Definition build (r : R) (self : OfferBuilder) : R * Result OfferError Offer :=
  if bool_decide (length (ob_audio self) = 0%nat) && bool_decide (length (ob_video self) = 0%nat)
  then (r, Err NoStreams) else
  match (let? _ := check_configs audio_reason InvalidAudioStream 0 (ob_audio self) in
         check_configs video_reason InvalidVideoStream 0 (ob_video self)) with
  | Ok _ =>
    let '(r, index, streams) := offer_configs offer_audio r 0 (ob_audio self) [] in
    let '(r, _, streams) := offer_configs offer_video r index (ob_video self) streams in
    (r, Ok (MkOffer (ob_cast_mode self) streams))
  | Err e => (r, Err e)
  | Panic => (r, Panic)
  end.
End Build.
End OfferBuilder.

(** ** Serialisation *)

Definition HEX : string := "0123456789ABCDEF".
Definition hex_digit (n : Z) : ascii := default zero (String.get (Z.to_nat n) HEX).

Fixpoint hex_encode (l : bytes) : string :=
  match l with
  | [] => ""
  | byte :: l' =>
    String (hex_digit (Z.shiftr byte 4)) (String (hex_digit (Z.land byte 0x0f)) (hex_encode l'))
  end.

Definition serialize_cast_mode (m : CastMode) : Json :=
  JString (match m with Mirroring => "mirroring" | Remoting => "remoting" end).
Definition serialize_resolution (r : Resolution) : Json :=
  JObject [("width", JNumber (width r)); ("height", JNumber (height r))].

Definition serialize_stream (s : StreamOffer) : Json :=
  JObject ([
    ("index", JNumber (so_index s));
    ("type", JString (match so_stream_type s with
                      | AudioSource => "audio_source" | VideoSource => "video_source" end));
    ("codecName", JString (so_codec_name s));
    ("rtpProfile", JString "cast");
    ("rtpPayloadType", JNumber (so_rtp_payload_type s));
    ("ssrc", JNumber (so_sync_source s));
    ("timeBase", JString ("1/" +:+ display (so_rtp_timebase s)));
    ("targetDelay", JNumber (wrap_u32 (as_millis (so_target_delay s))));
    ("aesKey", JString (hex_encode (so_aes_key s)));
    ("aesIvMask", JString (hex_encode (so_aes_iv_mask s)));
    ("channels", JNumber (so_channels s));
    ("rtpExtensions", JArray (map JString (so_rtp_extensions s)))]
  ++ match so_audio_extra s with
     | Some a => [("bitRate", JNumber (ae_bit_rate a))]
     | None => [] end
  ++ match so_video_extra s with
     | Some v => [("maxFrameRate", JString (Framerate.serialize (ve_max_frame_rate v)));
                  ("maxBitRate", JNumber (ve_max_bit_rate v));
                  ("resolutions", JArray (map serialize_resolution (ve_resolutions v)))]
     | None => [] end).

Definition serialize_offer (o : Offer) : Json :=
  JObject [("castMode", serialize_cast_mode (cast_mode o));
           ("supportedStreams", JArray (map serialize_stream (offer_streams o)))].

Definition default_audio_config : AudioStreamConfig :=
  MkAudioConfig Opus 128000 DEFAULT_AUDIO_SAMPLE_RATE DEFAULT_AUDIO_CHANNELS
    DEFAULT_TARGET_PLAYOUT_DELAY.
(** The two [expect]s hold: the constants are nonzero. *)
Definition default_video_config : VideoStreamConfig :=
  MkVideoConfig H264 DEFAULT_VIDEO_MAX_BIT_RATE (MkFramerate DEFAULT_FRAME_RATE 1)
    [MkResolution 1920 1080] DEFAULT_TARGET_PLAYOUT_DELAY.
