(* ===== verification/Session.v ===== *)
(** * ANSWER validation and session start
    ([src/src/answer.rs], [src/src/sender/mod.rs])

    [start_address] turns an OFFER and the receiver's ANSWER into the two
    streams the event loop runs; the spawned task is [EventLoop.run].  A
    [SenderSession]'s methods send one command and wait for its reply: they are
    modelled by what reaches the loop and what comes back. *)

From stdpp Require Import strings gmap.
From S2P Require Import Prelude Constants Time Errors Text Codec Frame SyncSource Crypto Rtp Rtcp Stream EventLoop Offer.

(** ** ANSWER *)

(** An [f64], as its bit pattern: the program never computes with it. *)
Abbreviation f64 := Z.

Record AudioConstraints := MkAudioConstraints {
  aco_max_sample_rate : option Z;
  aco_max_channels : option Z;
  aco_min_bit_rate : option Z;
  aco_max_bit_rate : option Z;
  aco_max_delay : option Z;
}.

Record Dimensions := MkDimensions {
  dim_width : Z;
  dim_height : Z;
  dim_frame_rate : option Framerate;
}.

Record VideoConstraints := MkVideoConstraints {
  vco_max_pixels_per_second : option f64;
  vco_min_resolution : option Resolution;
  vco_max_dimensions : option Dimensions;
  vco_min_bit_rate : option Z;
  vco_max_bit_rate : option Z;
  vco_max_delay : option Z;
}.

Record Constraints := MkConstraints {
  con_audio : option AudioConstraints;
  con_video : option VideoConstraints;
}.

Record DisplayDescription := MkDisplay {
  dd_dimensions : option Dimensions;
  dd_aspect_ratio : option string;
  dd_scaling : option string;
}.

Record Answer := MkAnswer {
  udp_port : Z;
  send_indexes : list Z;
  sync_sources : list SyncSource;
  constraints : option Constraints;
  display_description : option DisplayDescription;
  rtp_extensions : option (list (list string));
}.

(** [iter().copied().collect::<HashSet<_>>().len()]. *)
Definition distinct_count (l : list Z) : nat := size (list_to_set l : gset Z).

Definition zero_dimension (d : option Dimensions) : bool :=
  from_option (fun d => (dim_width d =? 0) || (dim_height d =? 0)) false d.

Definition validate (self : Answer) : Result string unit :=
  let n := length (send_indexes self) in
  let m := length (sync_sources self) in
  if (n =? 0)%nat then Err "no streams accepted"
  else if negb (n =? m)%nat then
    Err ("sendIndexes length (" +:+ display (Z.of_nat n) +:+ ") != sync_sources length ("
         +:+ display (Z.of_nat m) +:+ ")")
  else if from_option (fun e => negb (length e =? n)%nat) false (rtp_extensions self) then
    Err ("rtpExtensions length ("
         +:+ display (from_option (fun e => Z.of_nat (length e)) 0 (rtp_extensions self))
         +:+ ") != sendIndexes length (" +:+ display (Z.of_nat n) +:+ ")")
  else if udp_port self =? 0 then Err "udpPort is 0"
  else if existsb (fun s => s =? 0) (sync_sources self) then Err "receiver SSRC must not be zero"
  else if negb (distinct_count (send_indexes self) =? n)%nat
  then Err "sendIndexes contains a duplicate stream"
  else if negb (distinct_count (sync_sources self) =? m)%nat
  then Err "ssrcs contains a duplicate receiver SSRC"
  else if zero_dimension (c ← constraints self; v ← con_video c; vco_max_dimensions v)
  then Err "video maxDimensions contains a zero dimension"
  else if zero_dimension (d ← display_description self; dd_dimensions d)
  then Err "display dimensions contains a zero dimension"
  else Ok tt.

(** ** Starting a session *)

Inductive IpAddr := IpV4 (ip : Z) | IpV6 (ip : Z).

(** [SocketAddr::new]. *)
Definition socket_addr_new (ip : IpAddr) (port : Z) : SocketAddr :=
  match ip with IpV4 a => V4 a port | IpV6 a => V6 a port 0 0 end.

Definition media_address (endpoint : SocketAddr) (port : Z) : SocketAddr :=
  match endpoint with
  | V4 ip _ => V4 ip port
  | V6 ip _ flowinfo scope_id => V6 ip port flowinfo scope_id
  end.

Definition is_ipv6 (a : SocketAddr) : bool := match a with V4 _ _ => false | V6 _ _ _ _ => true end.

Definition negotiation_failed {A} (message : string) : Result Error A := Err (NegotiationFailed message).

Section Start.
Context {R : Type} `{Rng R}.

(** [StreamState::new] draws the packetizer's first sequence number. *)
Definition new_stream (r : R) (p : StreamParameters) : R * StreamState :=
  let '(r, seq) := gen_range r 0 u16_max in (r, StreamState.new p seq).

(** The parameters of one accepted stream: the first half of the loop body. *)
Definition stream_parameters (offer : Offer) (answer : Answer) (max_packet_size : Z)
    (accepted_index : nat) (offer_index : Z) : Result Error (StreamParameters * StreamType) :=
  let not_found := "send_index " +:+ display offer_index +:+ " not found in offer" in
  let omitted what := "stream " +:+ display offer_index +:+ " omitted its " +:+ what in
  let? sender := ok_or (Offer.stream_sync_source offer offer_index) (NegotiationFailed not_found) in
  let? aes_key := ok_or (Offer.stream_aes_key offer offer_index) (NegotiationFailed (omitted "AES key")) in
  let? aes_iv_mask :=
    ok_or (Offer.stream_aes_iv_mask offer offer_index) (NegotiationFailed (omitted "AES IV mask")) in
  let? timebase :=
    ok_or (Offer.stream_rtp_timebase offer offer_index) (NegotiationFailed (omitted "RTP timebase")) in
  let? payload_type :=
    ok_or (Offer.stream_rtp_payload_type offer offer_index)
      (NegotiationFailed (omitted "RTP payload type")) in
  let? delay :=
    ok_or (Offer.stream_target_delay offer offer_index) (NegotiationFailed (omitted "target delay")) in
  let adaptive :=
    from_option (fun extensions =>
        existsb (fun e => bool_decide (e = ADAPTIVE_PLAYOUT_DELAY_EXTENSION)) extensions) false
      (streams ← rtp_extensions answer; streams !! accepted_index) in
  let? stream_type := ok_or (Offer.stream_type offer offer_index) (NegotiationFailed not_found) in
  let? receiver := index (sync_sources answer) accepted_index in
  if receiver =? sender then
    negotiation_failed ("stream " +:+ display offer_index +:+ " uses the same sender and receiver SSRC")
  else Ok (MkParameters sender receiver payload_type timebase delay adaptive aes_key aes_iv_mask
             max_packet_size, stream_type).

(** [for (accepted_index, &offer_index) in answer.send_indexes.iter().enumerate()]. *)
Fixpoint start_streams (r : R) (offer : Offer) (answer : Answer) (max_packet_size : Z)
    (accepted_index : nat) (indexes : list Z) (s : Streams) : R * Result Error Streams :=
  match indexes with
  | [] => (r, Ok s)
  | offer_index :: indexes' =>
    match stream_parameters offer answer max_packet_size accepted_index offer_index with
    | Err e => (r, Err e)
    | Panic => (r, Panic)
    | Ok (p, stream_type) =>
      let '(r, state) := new_stream r p in
      match stream_type, get_stream stream_type s with
      | Audio, Some _ => (r, negotiation_failed "receiver accepted more than one audio stream")
      | Video, Some _ => (r, negotiation_failed "receiver accepted more than one video stream")
      | _, None =>
        start_streams r offer answer max_packet_size (S accepted_index) indexes'
          (set_stream stream_type state s)
      end
    end
  end.

Record SenderSession := MkSession {
  remote : SocketAddr;
  started : Streams;
  has_audio : bool;
  has_video : bool;
  session_adaptive_playout_delay : bool;
}.

(** What [start_address] hands to the spawned loop, and the session's own
    fields. *)
Definition start_address (r : R) (offer : Offer) (answer : Answer) (remote_address : SocketAddr)
  : R * Result Error SenderSession :=
  match validate answer with
  | Err m => (r, negotiation_failed m)
  | Panic => (r, Panic)
  | Ok _ =>
    let remote_address := media_address remote_address (udp_port answer) in
    let max_packet_size :=
      if is_ipv6 remote_address then MAX_RTP_PACKET_SIZE_IPV6 else MAX_RTP_PACKET_SIZE_IPV4 in
    let '(r, result) :=
      start_streams r offer answer max_packet_size 0 (send_indexes answer) (MkStreams None None) in
    (r, let? s := result in
        if bool_decide (audio_stream s = None) && bool_decide (video_stream s = None)
        then Err NoAcceptedStreams else
        Ok (MkSession remote_address s
              (negb (bool_decide (audio_stream s = None))) (negb (bool_decide (video_stream s = None)))
              (forallb StreamState.supports_adaptive_playout_delay
                 (option_list (audio_stream s) ++ option_list (video_stream s)))))
  end.

Definition start (r : R) (offer : Offer) (answer : Answer) (remote_ip : IpAddr)
  : R * Result Error SenderSession :=
  start_address r offer answer (socket_addr_new remote_ip (udp_port answer)).
End Start.

(** ** The session's handle *)

Definition valid_playout_delay (delay : Duration) : bool :=
  let milliseconds := as_millis delay in
  ((1 <=? milliseconds) && (milliseconds <=? u16_max))
  && (delay =? from_millis (wrap_u64 milliseconds)).

Module SenderSession.
(** The handle of a stream, if the receiver accepted it. *)
Definition audio (self : SenderSession) : option StreamType := if has_audio self then Some Audio else None.
Definition video (self : SenderSession) : option StreamType := if has_video self then Some Video else None.

(** The command sent to the loop, or the error returned without sending. *)
Definition set_target_playout_delay_command (self : SenderSession) (delay : Duration)
  : Result PlayoutDelayError StreamCommand :=
  if negb (valid_playout_delay delay) then Err InvalidDelay
  else if negb (session_adaptive_playout_delay self) then Err Unsupported
  else Ok (SetTargetPlayoutDelay delay).

(** What the method returns, given the loop's reply; [None] when the command
    or the reply channel is closed. *)
Definition set_target_playout_delay (self : SenderSession) (delay : Duration)
    (reply : option (Result PlayoutDelayError unit)) : Result PlayoutDelayError unit :=
  let? _ := set_target_playout_delay_command self delay in
  match reply with Some r => r | None => Err PlayoutSessionClosed end.

Definition statistics (reply : option SessionStatistics) : Result SenderError SessionStatistics :=
  ok_or reply SenderSessionClosed.

(** [task] is the joined task's result, [inl] its panic message. *)
Definition shutdown (task : string + Result SenderError unit) : Result SenderError unit :=
  match task with inl message => Err (TaskFailed message) | inr r => r end.
End SenderSession.

Module StreamHandle.
Definition send (self : StreamType) (frame : EncodedFrame)
    (reply : option (Result EnqueueError FrameId)) : StreamCommand * Result EnqueueError FrameId :=
  (EnqueueFrame self frame, match reply with Some r => r | None => Err EnqueueSessionClosed end).
End StreamHandle.
