(* ===== verification/NegotiationProps.v ===== *)
(** * What negotiation promises
    ([src/src/offer.rs], [src/src/answer.rs], [src/src/sender/mod.rs])

    The OFFER builder's result, its JSON form, ANSWER validation, and that a
    started session satisfies everything the event loop needs. *)

From Stdlib Require Import Ascii.
From stdpp Require Import strings gmap.
From S2P Require Import Prelude Constants Time Errors Text Json Codec Frame SyncSource Crypto Rtp Rtcp Stream StreamFacts StreamSteps StreamProps EventLoop EventLoopFacts EventLoopProps Offer Session.

(** ** Definitions *)

(** What the builder guarantees of each stream it offers. *)
Record stream_offer_ok (s : StreamOffer) : Prop := {
  so_ssrc_ok : 0 < so_sync_source s < 2 ^ 32;
  so_ssrc_type : is_audio (so_sync_source s) = bool_decide (so_stream_type s = AudioSource);
  so_payload_ok : 96 <= so_rtp_payload_type s <= 127;
  so_key_ok : length (so_aes_key s) = 16%nat /\ bytes_ok (so_aes_key s);
  so_mask_ok : length (so_aes_iv_mask s) = 16%nat /\ bytes_ok (so_aes_iv_mask s);
  so_delay_ok : valid_target_delay (so_target_delay s) = true;
  so_timebase_ok : so_rtp_timebase s <> 0;
}.

(** A well-formed OFFER: the streams are numbered by position. *)
Record offer_ok (o : Offer) : Prop := {
  offer_indexes : map so_index (offer_streams o) = seqZ 0 (Z.of_nat (length (offer_streams o)));
  offer_streams_ok : Forall stream_offer_ok (offer_streams o);
}.

Definition config_error (b : OfferBuilder) : option OfferError :=
  if bool_decide (length (ob_audio b) = 0%nat) && bool_decide (length (ob_video b) = 0%nat)
  then Some NoStreams
  else match (let? _ := OfferBuilder.check_configs OfferBuilder.audio_reason InvalidAudioStream 0 (ob_audio b) in
              OfferBuilder.check_configs OfferBuilder.video_reason InvalidVideoStream 0 (ob_video b)) with
       | Err e => Some e
       | _ => None
       end.

(** What the builder asks of a configuration, in words of its own. *)
Definition delay_valid (limit : Z) (d : Duration) : Prop := exists k, 1 <= k <= limit /\ d = millis k.
Definition audio_valid (a : AudioStreamConfig) : Prop :=
  ac_bit_rate a <> 0 /\ ac_sample_rate a <> 0 /\ ac_channels a <> 0 /\
  delay_valid u32_max (ac_target_delay a).
Definition video_valid (v : VideoStreamConfig) : Prop :=
  vc_max_bit_rate v <> 0 /\ vc_resolutions v <> [] /\ delay_valid u32_max (vc_target_delay v).

(** A reference decoder of the hexadecimal form. *)
Definition hex_value (c : ascii) : Z :=
  let n := Z.of_nat (nat_of_ascii c) in if n <? 65 then n - 48 else n - 55.
Fixpoint hex_decode (s : string) : bytes :=
  match s with
  | String a (String b s') => (16 * hex_value a + hex_value b) :: hex_decode s'
  | _ => []
  end.

(** What a usable ANSWER is. *)
Record answer_ok (a : Answer) : Prop := {
  ans_streams : send_indexes a <> [];
  ans_lengths : length (sync_sources a) = length (send_indexes a);
  ans_extensions e : rtp_extensions a = Some e -> length e = length (send_indexes a);
  ans_port : udp_port a <> 0;
  ans_ssrcs : Forall (fun s => s <> 0) (sync_sources a);
  ans_indexes_distinct : NoDup (send_indexes a);
  ans_ssrcs_distinct : NoDup (sync_sources a);
  ans_dimensions c v d : constraints a = Some c -> con_video c = Some v ->
    vco_max_dimensions v = Some d -> dim_width d <> 0 /\ dim_height d <> 0;
  ans_display dd d : display_description a = Some dd -> dd_dimensions dd = Some d ->
    dim_width d <> 0 /\ dim_height d <> 0;
}.

(** How an accepted stream relates to the OFFER and the ANSWER. *)
Record stream_negotiated (offer : Offer) (answer : Answer) (t : StreamType) (st : StreamState) : Prop := {
  neg_witness : exists i offer_index so,
    send_indexes answer !! i = Some offer_index /\
    sync_sources answer !! i = Some (receiver_sync_source st) /\
    Offer.find_index offer offer_index = Some so /\
    so_stream_type so = (match t with Audio => AudioSource | Video => VideoSource end) /\
    sender_sync_source st = so_sync_source so /\
    crypto st = MkFrameCrypto (so_aes_key so) (so_aes_iv_mask so) /\
    rtp_timebase st = so_rtp_timebase so /\
    target_playout_delay st = so_target_delay so;
  neg_ssrcs : sender_sync_source st <> receiver_sync_source st;
  neg_inv : stream_inv st;
  neg_crypto : crypto_ok (crypto st);
}.

Definition demo_builder : OfferBuilder :=
  OfferBuilder.video (OfferBuilder.audio Offer.builder default_audio_config) default_video_config.
Definition demo_offer : Offer :=
  match snd (OfferBuilder.build 5 demo_builder) with Ok o => o | _ => MkOffer Mirroring [] end.
Definition demo_answer : Answer := MkAnswer 2344 [1; 0] [700; 701] None None None.

(** ** OFFER *)

Lemma check_configs_Ok {C} (reason : C -> option string) mk i l :
  OfferBuilder.check_configs reason mk i l = Ok tt <-> Forall (fun c => reason c = None) l.
Proof.
  revert i. induction l as [|c l IH]; intros i; cbn; [split; auto|].
  rewrite Forall_cons_iff. destruct (reason c); [|rewrite IH; naive_solver]. naive_solver.
Qed.

Lemma check_configs_no_panic {C} (reason : C -> option string) mk i l :
  OfferBuilder.check_configs reason mk i l <> Panic.
Proof. revert i. induction l as [|c l IH]; intros i; cbn; [done|]. by destruct (reason c). Qed.

Section Offers.
Context {R : Type} `{RngLaws R}.

Lemma offer_audio_ok r i a :
  OfferBuilder.audio_reason a = None ->
  stream_offer_ok (snd (OfferBuilder.offer_audio r i a)) /\
  so_index (snd (OfferBuilder.offer_audio r i a)) = i /\
  so_stream_type (snd (OfferBuilder.offer_audio r i a)) = AudioSource.
Proof.
  intros Ha. unfold OfferBuilder.offer_audio.
  pose proof (generated_sources r r) as (Hs & _ & Ht & _).
  destruct (generate_audio r) as [r1 ssrc]. cbn [snd] in *. unfold generate_key, generate_iv_mask.
  pose proof (fill_bytes_length r1 16). pose proof (fill_bytes_ok r1 16).
  destruct (fill_bytes r1 16) as [r2 key]. cbn [snd] in *.
  pose proof (fill_bytes_length r2 16). pose proof (fill_bytes_ok r2 16).
  destruct (fill_bytes r2 16) as [r3 mask]. cbn [snd] in *.
  split_and!; [|done|done].
  unfold OfferBuilder.audio_reason in Ha. repeat case_match; try done.
  constructor; cbn; auto; [by destruct (ac_codec a)|by apply negb_false_iff|by apply Z.eqb_neq].
Qed.

Lemma offer_video_ok r i v :
  OfferBuilder.video_reason v = None ->
  stream_offer_ok (snd (OfferBuilder.offer_video r i v)) /\
  so_index (snd (OfferBuilder.offer_video r i v)) = i /\
  so_stream_type (snd (OfferBuilder.offer_video r i v)) = VideoSource.
Proof.
  intros Ha. unfold OfferBuilder.offer_video.
  pose proof (generated_sources r r) as (_ & Hs & _ & Ht).
  destruct (generate_video r) as [r1 ssrc]. cbn [snd] in *. unfold generate_key, generate_iv_mask.
  pose proof (fill_bytes_length r1 16). pose proof (fill_bytes_ok r1 16).
  destruct (fill_bytes r1 16) as [r2 key]. cbn [snd] in *.
  pose proof (fill_bytes_length r2 16). pose proof (fill_bytes_ok r2 16).
  destruct (fill_bytes r2 16) as [r3 mask]. cbn [snd] in *.
  split_and!; [|done|done].
  unfold OfferBuilder.video_reason in Ha. repeat case_match; try done.
  constructor; cbn; auto; [by destruct (vc_codec v)|by apply negb_false_iff].
Qed.

(** The push loop appends one well-formed stream per configuration. *)
Lemma offer_configs_spec {C} (offer : R -> Z -> C -> R * StreamOffer) (P : C -> Prop) ty r i l acc :
  (forall r i c, P c -> stream_offer_ok (snd (offer r i c)) /\ so_index (snd (offer r i c)) = i /\
                        so_stream_type (snd (offer r i c)) = ty) ->
  Forall P l ->
  exists new, snd (OfferBuilder.offer_configs offer r i l acc) = acc ++ new /\
    snd (fst (OfferBuilder.offer_configs offer r i l acc)) = i + Z.of_nat (length l) /\
    Forall stream_offer_ok new /\ map so_index new = seqZ i (Z.of_nat (length l)) /\
    map so_stream_type new = replicate (length l) ty.
Proof.
  intros Hoff Hl. revert r i acc. induction Hl as [|c l Hc Hl IH]; intros r i acc.
  - exists []. cbn. rewrite app_nil_r. split_and!; auto. lia.
  - cbn [OfferBuilder.offer_configs]. destruct (Hoff r i c Hc) as (Hok & Hi & Ht).
    destruct (offer r i c) as [r1 s]. cbn [snd] in *.
    destruct (IH r1 (i + 1) (acc ++ [s])) as (new & -> & -> & Hnew & Hidx & Hty).
    exists (s :: new). rewrite <- app_assoc. split_and!; [done|cbn; lia|by constructor| |].
    + cbn [map length]. rewrite seqZ_cons by lia. f_equal; [done|]. rewrite Hidx. f_equal; lia.
    + cbn [map length replicate]. by rewrite Ht, Hty.
Qed.

Lemma build_ok r b :
  match config_error b with
  | Some e => OfferBuilder.build r b = (r, Err e)
  | None => exists o, snd (OfferBuilder.build r b) = Ok o /\ offer_ok o /\
      cast_mode o = ob_cast_mode b /\
      map so_stream_type (offer_streams o) =
        replicate (length (ob_audio b)) AudioSource ++ replicate (length (ob_video b)) VideoSource
  end.
Proof.
  unfold config_error, OfferBuilder.build. destruct (_ && _); [done|].
  destruct (OfferBuilder.check_configs OfferBuilder.audio_reason _ _ _) as [[]|e|] eqn:Ha; cbn [bind]; [|done|by destruct (check_configs_no_panic _ _ _ _ Ha)].
  destruct (OfferBuilder.check_configs OfferBuilder.video_reason _ _ _) as [[]|e|] eqn:Hv; [|done|by destruct (check_configs_no_panic _ _ _ _ Hv)].
  apply check_configs_Ok in Ha, Hv.
  destruct (offer_configs_spec OfferBuilder.offer_audio _ AudioSource r 0 _ [] offer_audio_ok Ha) as (na & Hsa & Hia & Hoka & Hxa & Hta).
  destruct (OfferBuilder.offer_configs OfferBuilder.offer_audio r 0 _ []) as [[r1 i1] s1]. cbn [fst snd] in *. subst i1 s1.
  destruct (offer_configs_spec OfferBuilder.offer_video _ VideoSource r1 (0 + Z.of_nat (length (ob_audio b))) _ ([] ++ na) offer_video_ok Hv) as (nv & Hsv & Hiv & Hokv & Hxv & Htv).
  destruct (OfferBuilder.offer_configs OfferBuilder.offer_video r1 _ _ _) as [[r2 i2] s2]. cbn [fst snd] in *. subst s2.
  eexists. split; [reflexivity|]. cbn [app offer_streams cast_mode].
  assert (Hla : length na = length (ob_audio b)) by (apply (f_equal length) in Hta; by rewrite length_map, length_replicate in Hta).
  assert (Hlv : length nv = length (ob_video b)) by (apply (f_equal length) in Htv; by rewrite length_map, length_replicate in Htv).
  split_and!; [|done|by rewrite map_app, Hta, Htv].
  constructor; cbn [offer_streams]; [|by apply Forall_app].
  rewrite map_app, Hxa, Hxv, length_app, Hla, Hlv, Nat2Z.inj_add. by rewrite seqZ_app by lia.
Qed.
End Offers.

Lemma delay_check limit d :
  0 < limit < 2 ^ 64 ->
  (1 <=? as_millis d) && (as_millis d <=? limit) && (d =? from_millis (wrap_u64 (as_millis d))) = true
  <-> delay_valid limit d.
Proof.
  intros Hl. unfold delay_valid, from_millis, millis, as_millis, wrap_u64.
  rewrite !andb_true_iff, !Z.leb_le, Z.eqb_eq. split.
  - intros [Hr Hd]. rewrite Z.mod_small in Hd by lia. eauto.
  - intros (k & Hk & ->). rewrite Z.div_mul by lia. rewrite Z.mod_small by lia. lia.
Qed.

Lemma audio_reason_valid a : OfferBuilder.audio_reason a = None <-> audio_valid a.
Proof.
  unfold OfferBuilder.audio_reason, audio_valid.
  assert (Hd : valid_target_delay (ac_target_delay a) = true <-> delay_valid u32_max (ac_target_delay a))
    by (apply delay_check; unfold u32_max; lia).
  destruct (Z.eqb_spec (ac_bit_rate a) 0); [split; [done|tauto]|].
  destruct (Z.eqb_spec (ac_sample_rate a) 0); [split; [done|tauto]|].
  destruct (Z.eqb_spec (ac_channels a) 0); [split; [done|tauto]|].
  destruct (valid_target_delay (ac_target_delay a)); cbn [negb]; [tauto|].
  split; [done|]. intros (_ & _ & _ & Hv). by apply Hd in Hv.
Qed.

Lemma video_reason_valid v : OfferBuilder.video_reason v = None <-> video_valid v.
Proof.
  unfold OfferBuilder.video_reason, video_valid.
  assert (Hd : valid_target_delay (vc_target_delay v) = true <-> delay_valid u32_max (vc_target_delay v))
    by (apply delay_check; unfold u32_max; lia).
  destruct (Z.eqb_spec (vc_max_bit_rate v) 0); [naive_solver|].
  destruct (vc_resolutions v) as [|x l]; [naive_solver|].
  rewrite bool_decide_eq_false_2 by done.
  destruct (valid_target_delay (vc_target_delay v)); naive_solver.
Qed.

Lemma config_error_None b :
  config_error b = None <->
  (ob_audio b <> [] \/ ob_video b <> []) /\ Forall audio_valid (ob_audio b) /\ Forall video_valid (ob_video b).
Proof.
  assert (Hn : bool_decide (length (ob_audio b) = 0%nat) && bool_decide (length (ob_video b) = 0%nat) = false
    <-> ob_audio b <> [] \/ ob_video b <> [])
    by (destruct (ob_audio b), (ob_video b); naive_solver).
  assert (Ha : Forall audio_valid (ob_audio b) <->
    OfferBuilder.check_configs OfferBuilder.audio_reason InvalidAudioStream 0 (ob_audio b) = Ok tt).
  { rewrite check_configs_Ok. apply Forall_iff. intros a. by rewrite audio_reason_valid. }
  assert (Hv : Forall video_valid (ob_video b) <->
    OfferBuilder.check_configs OfferBuilder.video_reason InvalidVideoStream 0 (ob_video b) = Ok tt).
  { rewrite check_configs_Ok. apply Forall_iff. intros a. by rewrite video_reason_valid. }
  rewrite Ha, Hv, <- Hn. unfold config_error. destruct (_ && _); [naive_solver|].
  destruct (OfferBuilder.check_configs OfferBuilder.audio_reason _ _ _) as [[]|e|] eqn:He1; cbn [bind];
    [|naive_solver|by destruct (check_configs_no_panic _ _ _ _ He1)].
  destruct (OfferBuilder.check_configs OfferBuilder.video_reason _ _ _) as [[]|e|] eqn:He2;
    [naive_solver..|by destruct (check_configs_no_panic _ _ _ _ He2)].
Qed.

(** The OFFER builder is total and accepts exactly the valid
    configurations: at least one stream, nonzero rates and channel counts, at
    least one resolution per video stream and delays of 1 to 2^32 - 1 whole
    milliseconds.  The OFFER then lists the audio streams first, numbers the
    streams by position, and gives each an SSRC of its media type's range, a
    16-byte key and IV mask and a dynamic payload type. *)
Theorem build_spec {R} `{RngLaws R} (r : R) b :
  ((ob_audio b <> [] \/ ob_video b <> []) /\ Forall audio_valid (ob_audio b) /\
   Forall video_valid (ob_video b) ->
   exists o, snd (OfferBuilder.build r b) = Ok o /\ offer_ok o /\ cast_mode o = ob_cast_mode b /\
     map so_stream_type (offer_streams o) =
       replicate (length (ob_audio b)) AudioSource ++ replicate (length (ob_video b)) VideoSource) /\
  (~ ((ob_audio b <> [] \/ ob_video b <> []) /\ Forall audio_valid (ob_audio b) /\
      Forall video_valid (ob_video b)) ->
   exists e, OfferBuilder.build r b = (r, Err e)).
Proof.
  rewrite <- config_error_None. pose proof (build_ok r b) as Hb.
  destruct (config_error b); naive_solver.
Qed.

Lemma build_spec_witness :
  exists o, snd (OfferBuilder.build 5 demo_builder) = Ok o /\ offer_ok o /\ cast_mode o = Mirroring /\
    map so_stream_type (offer_streams o) = [AudioSource; VideoSource].
Proof.
  apply (build_spec 5 demo_builder). split; [by left|].
  split; (constructor; [|constructor]);
    split_and!; try done; exists 400; vm_compute; split_and!; congruence.
Defined.

(** ** The JSON form *)

Lemma hex_digit_value n : 0 <= n < 16 -> hex_value (hex_digit n) = n.
Proof.
  intros Hn.
  assert (Hall : Forall (fun m => hex_value (hex_digit m) = m) (seqZ 0 16)) by (repeat constructor).
  rewrite stdpp.list_relations.list.Forall_forall in Hall. apply Hall, elem_of_seqZ. lia.
Qed.

Lemma hex_roundtrip l : bytes_ok l -> hex_decode (hex_encode l) = l.
Proof.
  induction 1 as [|x l Hx Hl IH]; [done|]. cbn [hex_encode hex_decode]. unfold is_byte in Hx.
  change 15 with (Z.ones 4). rewrite Z.land_ones, Z.shiftr_div_pow2 by lia. change (2 ^ 4) with 16.
  rewrite !hex_digit_value by zlia. f_equal; [zlia|done].
Qed.

(** The OFFER message tells the receiver exactly the parameters the sender
    will use: of a well-formed stream, the JSON's hexadecimal key and IV mask
    decode to the stream's own, the SSRC and payload type are its own, the
    target delay in milliseconds loses nothing, and the time base reads back
    as the RTP clock rate. *)
Theorem serialize_stream_faithful s :
  stream_offer_ok s -> 0 <= so_rtp_timebase s <= u32_max ->
  let json := serialize_stream s in
  (hex_decode <$> (json_get "aesKey" json ≫= as_str)) = Some (so_aes_key s) /\
  (hex_decode <$> (json_get "aesIvMask" json ≫= as_str)) = Some (so_aes_iv_mask s) /\
  json_get "ssrc" json = Some (JNumber (so_sync_source s)) /\
  json_get "rtpPayloadType" json = Some (JNumber (so_rtp_payload_type s)) /\
  (millis <$> (json_get "targetDelay" json ≫= as_number)) = Some (so_target_delay s) /\
  (text ← json_get "timeBase" json ≫= as_str; Framerate.deserialize text) =
    Some (MkFramerate 1 (so_rtp_timebase s)).
Proof.
  intros Hs Ht. cbv zeta.
  assert (Hget : forall k v, In (k, v) [("aesKey", JString (hex_encode (so_aes_key s)));
      ("aesIvMask", JString (hex_encode (so_aes_iv_mask s))); ("ssrc", JNumber (so_sync_source s));
      ("rtpPayloadType", JNumber (so_rtp_payload_type s));
      ("targetDelay", JNumber (wrap_u32 (as_millis (so_target_delay s))));
      ("timeBase", JString ("1/" +:+ display (so_rtp_timebase s)))] ->
    json_get k (serialize_stream s) = Some v).
  { intros k v Hin. unfold serialize_stream.
    destruct (so_audio_extra s), (so_video_extra s); repeat (destruct Hin as [[= <- <-]|Hin]; [reflexivity|]); done. }
  rewrite !(Hget "aesKey" _ ltac:(cbn; tauto)), !(Hget "aesIvMask" _ ltac:(cbn; tauto)),
    !(Hget "ssrc" _ ltac:(cbn; tauto)), !(Hget "rtpPayloadType" _ ltac:(cbn; tauto)),
    !(Hget "targetDelay" _ ltac:(cbn; tauto)), !(Hget "timeBase" _ ltac:(cbn; tauto)).
  cbn [mbind option_bind as_str as_number fmap option_fmap option_map].
  rewrite !hex_roundtrip by apply Hs. split_and!; try done.
  - pose proof (so_delay_ok s Hs) as Hd. apply delay_check in Hd as (k & Hk & Hd); [|unfold u32_max; lia].
    rewrite Hd. unfold as_millis, millis, wrap_u32, u32_max in *. rewrite Z.div_mul, Z.mod_small by lia. done.
  - pose proof (so_timebase_ok s Hs). unfold Framerate.deserialize.
    assert (Hsp : split_once "/"%char ("1/" +:+ display (so_rtp_timebase s)) =
      Some ("1", display (so_rtp_timebase s)))
      by exact (split_once_digits "/"%char "1" _ eq_refl (conj (ex_intro _ 1 eq_refl) I)).
    rewrite Hsp. cbn [mbind option_bind].
    change (parse_unsigned u32_max "1") with (Some 1). rewrite parse_display by lia.
    cbn [mbind option_bind]. unfold Framerate.new.
    by destruct (Z.eqb_spec (so_rtp_timebase s) 0).
Qed.

Lemma serialize_stream_faithful_witness :
  exists s, stream_offer_ok s /\ 0 <= so_rtp_timebase s <= u32_max /\
  json_get "ssrc" (serialize_stream s) = Some (JNumber 6) /\
  (hex_decode <$> (json_get "aesKey" (serialize_stream s) ≫= as_str)) = Some (replicate 16 6).
Proof.
  set (s := snd (OfferBuilder.offer_audio 5 0 default_audio_config)). exists s.
  assert (Hs : stream_offer_ok s) by (apply offer_audio_ok; vm_compute; reflexivity).
  assert (Ht : 0 <= so_rtp_timebase s <= u32_max) by (vm_compute; split; congruence).
  destruct (serialize_stream_faithful s Hs Ht) as (H1 & _ & H3 & _).
  split; [exact Hs|]. split; [exact Ht|]. split; [exact H3|exact H1].
Defined.

(** ** ANSWER *)

Lemma distinct_count_le l : (distinct_count l <= length l)%nat.
Proof.
  unfold distinct_count. induction l as [|x l IH]; [by rewrite list_to_set_nil, size_empty|].
  rewrite list_to_set_cons, size_union_alt, size_singleton. cbn [length].
  assert (Hs : (size ((list_to_set l : gset Z) ∖ {[x]}) <= size (list_to_set l : gset Z))%nat)
    by (apply subseteq_size; set_solver).
  lia.
Qed.

Lemma distinct_count_NoDup l : distinct_count l = length l <-> NoDup l.
Proof.
  split; [|intros Hl; unfold distinct_count; by apply size_list_to_set].
  induction l as [|x l IH]; intros Hl; [constructor|].
  pose proof (distinct_count_le l). unfold distinct_count in *. rewrite list_to_set_cons in Hl. cbn [length] in Hl.
  destruct (decide (x ∈ l)) as [Hin|Hni].
  - rewrite subseteq_union_1_L in Hl by set_solver. lia.
  - constructor; [done|]. apply IH. rewrite size_union in Hl by set_solver.
    rewrite size_singleton in Hl. lia.
Qed.

Lemma zero_dimension_false o :
  zero_dimension o = false <-> forall d, o = Some d -> dim_width d <> 0 /\ dim_height d <> 0.
Proof.
  unfold zero_dimension. destruct o as [d|]; cbn; [|naive_solver].
  rewrite orb_false_iff, !Z.eqb_neq. split; [intros Hd d' [= <-]; exact Hd|intros Hd; by apply Hd].
Qed.

Lemma existsb_zero l : existsb (fun s => s =? 0) l = false <-> Forall (fun s => s <> 0) l.
Proof. induction l as [|x l IH]; cbn; [done|]. rewrite orb_false_iff, Z.eqb_neq, IH, Forall_cons_iff. done. Qed.

Lemma if_error_Ok {E A} (c : bool) (e : E) (r : Result E A) x :
  (if c then Err e else r) = Ok x <-> c = false /\ r = Ok x.
Proof. destruct c; naive_solver. Qed.

Lemma validate_ok a : validate a = Ok tt <-> answer_ok a.
Proof.
  unfold validate. cbv zeta. rewrite !if_error_Ok, !negb_false_iff, !Nat.eqb_eq, Nat.eqb_neq, Z.eqb_neq,
    existsb_zero, !distinct_count_NoDup, !zero_dimension_false.
  assert (He : from_option (fun e : list (list string) => negb (length e =? length (send_indexes a))%nat) false
      (rtp_extensions a) = false <->
    (forall e, rtp_extensions a = Some e -> length e = length (send_indexes a))).
  { destruct (rtp_extensions a) as [e|]; cbn; [|naive_solver].
    rewrite negb_false_iff, Nat.eqb_eq. naive_solver. }
  rewrite He. split.
  - intros (H1 & H2 & H3 & H4 & H5 & H6 & H7 & H8 & H9 & _). constructor; auto.
    + by destruct (send_indexes a).
    + intros c v d Hc Hv Hd. apply H8. rewrite Hc. cbn. by rewrite Hv.
    + intros dd d Hdd Hd. apply H9. by rewrite Hdd.
  - intros []. split_and!; auto.
    + destruct (send_indexes a); [done|]. cbn. lia.
    + intros d. destruct (constraints a) as [c|] eqn:Hc; [|done]. cbn.
      destruct (con_video c) as [v|] eqn:Hv; [|done]. cbn. eauto.
    + intros d. destruct (display_description a) as [dd|] eqn:Hc; [|done]. cbn. eauto.
Qed.

(** ANSWER validation is sound and complete: it succeeds exactly on the
    answers that accept at least one stream, give each accepted stream one
    nonzero receiver SSRC, repeat neither a stream nor an SSRC, list one set of
    extensions per stream if any, name a UDP port and no zero dimension; and
    it never panics. *)
Theorem validate_spec a : (validate a = Ok tt <-> answer_ok a) /\ no_panic (validate a).
Proof.
  split; [apply validate_ok|]. unfold no_panic, validate. cbv zeta.
  by repeat match goal with |- (if ?c then _ else _) <> _ => destruct c; [done|] end.
Qed.

Lemma validate_spec_witness : answer_ok demo_answer.
Proof. apply (proj1 (validate_spec demo_answer)). vm_compute. reflexivity. Defined.

(** ** Starting a session *)

Section Starting.
Context {R : Type} `{RngLaws R}.

Lemma find_index_ok o i s : offer_ok o -> Offer.find_index o i = Some s -> stream_offer_ok s.
Proof.
  intros Ho Hf. apply find_some in Hf as [Hin _]. pose proof (offer_streams_ok o Ho) as Hall.
  rewrite List.Forall_forall in Hall. by apply Hall.
Qed.

Lemma ok_or_Ok {E A} (o : option A) (e : E) a : ok_or o e = Ok a -> o = Some a.
Proof. destruct o; cbn; congruence. Qed.

(** The parameters of an accepted stream come from the OFFER's entry. *)
Lemma stream_parameters_spec offer answer size i oi p t :
  stream_parameters offer answer size i oi = Ok (p, t) ->
  exists so receiver, Offer.find_index offer oi = Some so /\ sync_sources answer !! i = Some receiver /\
    receiver <> so_sync_source so /\
    so_stream_type so = (match t with Audio => AudioSource | Video => VideoSource end) /\
    exists adaptive, p = MkParameters (so_sync_source so) receiver (so_rtp_payload_type so)
      (so_rtp_timebase so) (so_target_delay so) adaptive (so_aes_key so) (so_aes_iv_mask so) size.
Proof.
  unfold stream_parameters, Offer.stream_sync_source, Offer.stream_aes_key, Offer.stream_aes_iv_mask,
    Offer.stream_rtp_timebase, Offer.stream_rtp_payload_type, Offer.stream_target_delay, Offer.stream_type.
  destruct (Offer.find_index offer oi) as [so|]; [|done]. cbn [fmap option_fmap option_map ok_or bind].
  unfold index. destruct (sync_sources answer !! i) as [receiver|] eqn:Hr; [|done]. cbn [bind].
  destruct (Z.eqb_spec receiver (so_sync_source so)); [done|]. intros [= <- <-].
  exists so, receiver. split_and!; try done; [by destruct (so_stream_type so)|eauto].
Qed.

Lemma stream_parameters_no_panic offer answer size i oi :
  (i < length (sync_sources answer))%nat -> no_panic (stream_parameters offer answer size i oi).
Proof.
  intros Hi. unfold no_panic, stream_parameters, Offer.stream_sync_source, Offer.stream_aes_key,
    Offer.stream_aes_iv_mask, Offer.stream_rtp_timebase, Offer.stream_rtp_payload_type,
    Offer.stream_target_delay, Offer.stream_type.
  destruct (Offer.find_index offer oi) as [so|]; [|done]. cbn [fmap option_fmap option_map ok_or bind].
  destruct (lookup_lt_is_Some_2 _ _ Hi) as [x Hx]. rewrite (index_Ok _ _ _ Hx). cbn [bind].
  by destruct (_ =? _).
Qed.

(** A freshly started stream. *)
Lemma new_stream_negotiated r offer answer size i oi p t :
  offer_ok offer -> RTP_MAX_HEADER_SIZE < size -> send_indexes answer !! i = Some oi ->
  stream_parameters offer answer size i oi = Ok (p, t) ->
  stream_negotiated offer answer t (snd (new_stream r p)).
Proof.
  intros Ho Hsize Hi Hp. destruct (stream_parameters_spec _ _ _ _ _ _ _ Hp) as (so & rcv & Hf & Hr & Hne & Ht & ad & ->).
  pose proof (find_index_ok offer oi so Ho Hf) as Hso. unfold new_stream.
  pose proof (gen_range_in r 0 u16_max ltac:(unfold u16_max; lia)) as Hg.
  destruct (gen_range r 0 u16_max) as [r1 n]. cbn [snd] in *.
  constructor; cbn.
  - exists i, oi, so. by split_and!.
  - congruence.
  - apply new_inv. unfold parameters_ok, packetizer_ok, RtpPacketizer.new, saturating_sub, u16_max in *. cbn.
    pose proof (so_ssrc_ok so Hso). pose proof (so_payload_ok so Hso). lia.
  - unfold crypto_ok. cbn. destruct (so_key_ok so Hso), (so_mask_ok so Hso). done.
Qed.

Lemma start_streams_ok r offer answer size i l s :
  offer_ok offer -> answer_ok answer -> RTP_MAX_HEADER_SIZE < size -> l = drop i (send_indexes answer) ->
  (forall t st, get_stream t s = Some st -> stream_negotiated offer answer t st) ->
  match snd (start_streams r offer answer size i l s) with
  | Ok s' => forall t st, get_stream t s' = Some st -> stream_negotiated offer answer t st
  | Err e => exists m, e = NegotiationFailed m
  | Panic => False
  end.
Proof.
  intros Ho Ha Hsize. revert r i s. induction l as [|oi l IH]; intros r i s Hl Hs; [done|].
  assert (Hi : send_indexes answer !! i = Some oi)
    by (rewrite <- (Nat.add_0_r i), <- lookup_drop, <- Hl; done).
  assert (Hlt : (i < length (sync_sources answer))%nat)
    by (rewrite (ans_lengths answer Ha); by eapply lookup_lt_Some).
  cbn [start_streams]. pose proof (stream_parameters_no_panic offer answer size i oi Hlt) as Hnp.
  destruct (stream_parameters offer answer size i oi) as [[p t]|e|] eqn:Hp; [| |done].
  - pose proof (new_stream_negotiated r offer answer size i oi p t Ho Hsize Hi Hp) as Hn.
    destruct (new_stream r p) as [r1 st]. cbn [snd] in Hn.
    assert (Hgo : match snd (start_streams r1 offer answer size (S i) l (set_stream t st s)) with
      | Ok s' => forall t' st', get_stream t' s' = Some st' -> stream_negotiated offer answer t' st'
      | Err e => exists m, e = NegotiationFailed m
      | Panic => False end).
    { apply IH.
      - rewrite (drop_S _ oi) in Hl by done. by injection Hl.
      - intros t' st'. rewrite get_set_stream. case_decide; [by intros [= <-]; subst|apply Hs]. }
    destruct t; cbn [get_stream]; [destruct (audio_stream s)|destruct (video_stream s)]; cbn; eauto.
  - cbn. unfold stream_parameters, negotiation_failed in Hp.
    repeat match type of Hp with
      | bind (ok_or ?o ?e') _ = _ => destruct o; cbn [ok_or bind] in Hp; [|injection Hp as <-; eauto]
      end.
    unfold index in Hp. destruct (sync_sources answer !! i); cbn [bind] in Hp; [|done].
    destruct (_ =? _); [injection Hp as <-; eauto|done].
Qed.

Lemma start_address_ok r offer answer addr :
  offer_ok offer ->
  match snd (start_address r offer answer addr) with
  | Ok sess =>
    answer_ok answer /\ remote sess = media_address addr (udp_port answer) /\
    (has_audio sess = true \/ has_video sess = true) /\
    (forall t st, get_stream t (started sess) = Some st -> stream_negotiated offer answer t st)
  | Err e => e = NoAcceptedStreams \/ exists m, e = NegotiationFailed m
  | Panic => False
  end.
Proof.
  intros Ho. unfold start_address. destruct (validate answer) as [[]|m|] eqn:Hv; [|cbn; eauto|].
  2: { exfalso. revert Hv. unfold validate. cbv zeta.
       by repeat match goal with |- (if ?c then _ else _) = _ -> _ => destruct c; [done|] end. }
  apply validate_ok in Hv. cbv zeta.
  set (size := if is_ipv6 _ then _ else _).
  assert (Hsize : RTP_MAX_HEADER_SIZE < size) by (subst size; destruct (is_ipv6 _); done).
  pose proof (start_streams_ok r offer answer size 0 (send_indexes answer) (MkStreams None None) Ho Hv Hsize
    eq_refl ltac:(intros []; done)) as Hs.
  destruct (start_streams _ _ _ _ _ _ _) as [r1 [s|e|]]; cbn [snd bind] in *; [|by right|done].
  destruct (bool_decide (audio_stream s = None)) eqn:Hb1, (bool_decide (video_stream s = None)) eqn:Hb2;
    cbn [andb]; [by left|..]; cbn; split_and!; auto.
Qed.
End Starting.

(** C30: starting a session is total and faithful: it never panics; it succeeds
    only on a valid ANSWER and then runs at least one stream; and every stream
    it runs uses the SSRC, key, IV mask, clock rate and delay of the OFFER's
    entry the ANSWER accepted, the receiver SSRC the ANSWER paired with it
    (different from the sender's), and starts in its invariant.  Any failure is
    [NoAcceptedStreams] or [NegotiationFailed]. *)
Theorem start_address_spec {R} `{RngLaws R} (r : R) offer answer addr :
  offer_ok offer ->
  match snd (start_address r offer answer addr) with
  | Ok sess =>
    answer_ok answer /\ remote sess = media_address addr (udp_port answer) /\
    (has_audio sess = true \/ has_video sess = true) /\
    (forall t st, get_stream t (started sess) = Some st -> stream_negotiated offer answer t st)
  | Err e => e = NoAcceptedStreams \/ exists m, e = NegotiationFailed m
  | Panic => False
  end.
Proof. apply start_address_ok. Qed.

Lemma demo_offer_ok : offer_ok demo_offer.
Proof.
  pose proof (build_ok 5 demo_builder) as Hb.
  assert (Hc : config_error demo_builder = None) by (vm_compute; reflexivity).
  rewrite Hc in Hb. destruct Hb as (o & Ho & Hok & _). unfold demo_offer. by rewrite Ho.
Qed.

Lemma start_address_spec_witness :
  exists sess, snd (start_address 9 demo_offer demo_answer demo_addr) = Ok sess /\
    answer_ok demo_answer /\ (has_audio sess = true \/ has_video sess = true).
Proof.
  pose proof (start_address_spec 9 demo_offer demo_answer demo_addr demo_offer_ok) as Hw.
  destruct (snd (start_address 9 demo_offer demo_answer demo_addr)) as [sess|e|] eqn:He.
  - exists sess. destruct Hw as (Ha & _ & Hh & _). split; [reflexivity|]. split; [exact Ha|exact Hh].
  - exfalso. vm_compute in He. congruence.
  - exfalso. vm_compute in He. congruence.
Defined.

(** C1: the whole sender, from configuration to wire: whatever valid
    configuration was offered, whatever the receiver answered and whatever it
    and the application then send, a session that starts handles every input
    without panicking, keeps its invariants while it runs, and announces the
    reason when it fails. *)
Theorem sender_session_safe {R W} `{RngLaws R} `{Transport W} `{StreamCipher}
    (r r' : R) builder offer answer addr sess (w : W) s input :
  snd (OfferBuilder.build r builder) = Ok offer ->
  snd (start_address r' offer answer addr) = Ok sess ->
  loop_reachable (remote sess) (init w (audio_stream (started sess)) (video_stream (started sess))) s ->
  input_ok s input ->
  outcome_ok (handle (remote sess) s input).
Proof.
  intros Hb Hs Hr. pose proof (build_ok r builder) as Ho.
  destruct (config_error builder); [by rewrite Ho in Hb|].
  destruct Ho as (o & Hb' & Ho & _). assert (o = offer) as -> by congruence.
  pose proof (start_address_ok r' offer answer addr Ho) as Hst. rewrite Hs in Hst.
  destruct Hst as (_ & _ & _ & Hst).
  apply handle_ok, (loop_reachable_inv _ _ _ (init_inv w _ _ (fun st He => neg_inv _ _ _ _ (Hst Audio st He))
    (fun st He => neg_inv _ _ _ _ (Hst Video st He))) Hr).
Qed.

Lemma sender_session_safe_witness :
  exists sess, snd (start_address 9 demo_offer demo_answer demo_addr) = Ok sess /\
    outcome_ok (@handle TestWorld _ xor_cipher (remote sess)
      (init (MkTestWorld 0 []) (audio_stream (started sess)) (video_stream (started sess))) RtcpTick).
Proof.
  destruct (snd (start_address 9 demo_offer demo_answer demo_addr)) as [sess|e|] eqn:He.
  - exists sess. split; [reflexivity|].
    apply (@sender_session_safe Z TestWorld _ _ _ xor_cipher 5 9 demo_builder demo_offer demo_answer demo_addr sess
             (MkTestWorld 0 [])); [vm_compute; reflexivity|exact He|apply loop_start|exact I].
  - exfalso. vm_compute in He. congruence.
  - exfalso. vm_compute in He. congruence.
Defined.

(** The playout-delay field is exact: the API accepts exactly the delays
    of 1 to 65535 whole milliseconds, and for those the sixteen-bit field of
    the RTP extension denotes the delay itself. *)
Theorem playout_delay_exact d :
  (valid_playout_delay d = true <-> delay_valid u16_max d) /\
  (valid_playout_delay d = true -> millis (wrap_u16 (as_millis d)) = d).
Proof.
  assert (Hv : valid_playout_delay d = true <-> delay_valid u16_max d)
    by (apply delay_check; unfold u16_max; lia).
  split; [done|]. intros Hd. apply Hv in Hd as (k & Hk & ->).
  unfold as_millis, millis, wrap_u16, u16_max in *. rewrite Z.div_mul, Z.mod_small by lia. done.
Qed.

Lemma playout_delay_exact_witness : millis (wrap_u16 (as_millis (millis 250))) = millis 250.
Proof. apply playout_delay_exact. vm_compute. reflexivity. Defined.
