(* ===== verification/SessionStreams.v ===== *)
(** * The streams of a running session

    From the negotiation ([src/src/sender/mod.rs]) through the event loop
    ([src/src/sender/event_loop.rs]) to the streams ([src/src/sender/stream.rs]):
    what a session's streams are at any time of its life. *)

From stdpp Require Import strings gmap relations.
From S2P Require Import Prelude Constants Time Errors Codec Frame SyncSource Crypto Rtp Rtcp Stream StreamFacts StreamSteps StreamProps EventLoop EventLoopFacts EventLoopProps LoopStreams Offer Session NegotiationProps.

(** The window of a stream that has sent nothing. *)
Definition empty_window : Window := MkWindow FrameId.first (FrameId.first - 1) ∅.

Lemma new_window p rnd : abs (StreamState.new p rnd) = empty_window.
Proof. unfold abs. by rewrite new_pending_frames. Qed.

Lemma start_streams_new {R} `{Rng R} (r : R) offer answer size i l s :
  (forall t st, get_stream t s = Some st -> exists p rnd, st = StreamState.new p rnd) ->
  match snd (start_streams r offer answer size i l s) with
  | Ok s' => forall t st, get_stream t s' = Some st -> exists p rnd, st = StreamState.new p rnd
  | _ => True
  end.
Proof.
  revert r i s. induction l as [|oi l IH]; intros r i s Hs; [done|]. cbn [start_streams].
  destruct (stream_parameters _ _ _ _ _) as [[p t]|e|]; [|done..].
  unfold new_stream. destruct (gen_range r 0 u16_max) as [r1 n].
  assert (Hgo : match snd (start_streams r1 offer answer size (S i) l (set_stream t (StreamState.new p n) s)) with
    | Ok s' => forall t st, get_stream t s' = Some st -> exists p rnd, st = StreamState.new p rnd | _ => True end).
  { apply IH. intros t' st'. rewrite get_set_stream. case_decide; [intros [= <-]; eauto|apply Hs]. }
  destruct t; cbn [get_stream]; [destruct (audio_stream s)|destruct (video_stream s)]; done.
Qed.

Lemma start_address_new {R} `{Rng R} (r : R) offer answer addr sess t st :
  snd (start_address r offer answer addr) = Ok sess -> get_stream t (started sess) = Some st ->
  exists p rnd, st = StreamState.new p rnd.
Proof.
  unfold start_address. destruct (validate answer); [|done..].
  match goal with |- context [start_streams r offer answer ?z ?i ?l ?s] =>
    pose proof (start_streams_new r offer answer z i l s ltac:(by intros [])) as Hn;
    destruct (start_streams r offer answer z i l s) as [r1 [s'|e|]] end; [|done..].
  cbn [snd bind] in *. destruct (_ && _); [done|]. intros [= <-]. apply Hn.
Qed.

Lemma steps_window `{StreamCipher} st st' :
  stream_inv st -> rtc stream_step st st' -> stream_inv st' /\ rtc window_step (abs st) (abs st').
Proof.
  intros Hs Hr. induction Hr as [|a b c Hstep _ IH]; [done|].
  destruct (IH (stream_step_inv _ _ Hs Hstep)) as [Hc Hw]. split; [done|].
  destruct (stream_step_abs _ _ Hs Hstep) as [<-|Hm]; [done|by eapply rtc_l].
Qed.

(** C10: The streams of a session, through its whole life.  In every state the
    event loop of a started session can reach, it has exactly the streams that
    were negotiated; each still has the SSRCs, key, IV mask and clock rate its
    OFFER entry and the ANSWER gave it, is its fresh state advanced by the
    stream's own operations, and its ids in flight are what a sequence of moves
    of the abstract sliding window makes of the empty window: at most
    [MAX_UNACKED_FRAMES] of them, all assigned and none below the checkpoint. *)
Theorem session_streams_refine {R W} `{RngLaws R} `{Transport W} `{StreamCipher}
    (r r' : R) builder offer answer addr sess (w : W) s t :
  snd (OfferBuilder.build r builder) = Ok offer ->
  snd (start_address r' offer answer addr) = Ok sess ->
  loop_reachable (remote sess) (init w (audio_stream (started sess)) (video_stream (started sess))) s ->
  match get_stream t (started sess), get_stream t (streams s) with
  | None, None => True
  | Some st0, Some st =>
    stream_negotiated offer answer t st0 /\ negotiated st = negotiated st0 /\ rtc stream_step st0 st /\
    rtc window_step empty_window (abs st) /\
    0 <= StreamState.in_flight_count st <= MAX_UNACKED_FRAMES /\
    forall id, id ∈ w_flight (abs st) -> checkpoint st < id < next_frame_id st
  | _, _ => False
  end.
Proof.
  intros Hb Hs Hr. pose proof (build_ok r builder) as Ho. destruct (config_error builder); [by rewrite Ho in Hb|].
  destruct Ho as (o & Hb' & Ho & _). assert (o = offer) as -> by congruence.
  pose proof (start_address_ok r' offer answer addr Ho) as Hst. rewrite Hs in Hst. destruct Hst as (_ & _ & _ & Hst).
  set (start := init w _ _) in *.
  assert (Hstreams : streams start = started sess) by (subst start; unfold init; destruct (instant_now w); by destruct (started sess)).
  assert (Hinv : loop_inv start)
    by (apply init_inv; [intros st He; exact (neg_inv _ _ _ _ (Hst Audio st He))|intros st He; exact (neg_inv _ _ _ _ (Hst Video st He))]).
  pose proof (reachable_advanced (remote sess) start s t Hinv Hr) as Ha. rewrite Hstreams in Ha.
  destruct (get_stream t (started sess)) as [st0|] eqn:Hg, (get_stream t (streams s)) as [st|]; try done.
  destruct Ha as [Hsteps Hneg]. destruct (steps_window st0 st (neg_inv _ _ _ _ (Hst t st0 Hg)) Hsteps) as [Hi Hw].
  destruct (start_address_new r' offer answer addr sess t st0 Hs Hg) as (p & rnd & ->). rewrite new_window in Hw.
  split_and!; try done; [by apply Hst|by apply in_flight_count_bound, Hi|by apply in_flight_count_bound, Hi|].
  intros id [p' Hp]%elem_of_flight; [|apply Hi]. by eapply lookup_frame_range; [apply Hi|].
Qed.

Lemma session_streams_refine_witness :
  exists sess, snd (start_address 9 demo_offer demo_answer demo_addr) = Ok sess /\
    match get_stream Video (started sess) with
    | Some st0 => stream_negotiated demo_offer demo_answer Video st0
    | None => False
    end.
Proof.
  destruct (snd (start_address 9 demo_offer demo_answer demo_addr)) as [sess|e|] eqn:He.
  2, 3: exfalso; vm_compute in He; congruence.
  exists sess. split; [reflexivity|].
  assert (Hb : snd (OfferBuilder.build 5 demo_builder) = Ok demo_offer) by (vm_compute; reflexivity).
  pose proof (@session_streams_refine Z TestWorld _ _ _ xor_cipher 5 9 demo_builder demo_offer demo_answer demo_addr sess
    (MkTestWorld 0 []) _ Video Hb He (loop_start _ _)) as Hr.
  destruct (get_stream Video (started sess)) as [st0|] eqn:Hg.
  - destruct (get_stream Video (streams _)) as [st|]; [exact (proj1 Hr)|destruct Hr].
  - vm_compute in He. injection He as <-. vm_compute in Hg. discriminate.
Defined.
