(* ===== verification/RedScreen.v ===== *)
(** * The red-screen program ([src/examples/red_screen.rs])

    The repository's own client of the crate: it casts one picture as an H.264
    stream.  Modelled here is the program from the OFFER on: the streaming loop,
    the task that reads the session's events beside it, and the teardown.  The
    program runs against the session of [Session] and the event loop of
    [EventLoop], not against a stand-in: a command of the program is an input of
    [handle], and what it gets back is the reply the loop queued.

    The H.264 encoder ([openh264]) is a third-party library: the class
    [H264Encoder] has the two calls the program makes, and [H264EncoderLaws]
    what the program relies on. *)

From stdpp Require Import strings.
From S2P Require Import Prelude Constants Time Errors Codec Frame SyncSource Crypto Rtp Rtcp Stream StreamFacts StreamSteps EventLoop EventLoopFacts EventLoopProps LoopStreams Offer Session NegotiationProps.

(** ** Pacing of key frames *)

Definition WIDTH : Z := 1920.
Definition HEIGHT : Z := 1080.
Definition FRAME_INTERVAL : Duration := from_millis 33.
Definition KEY_FRAME_INTERVAL : Z := 150.
Definition STARTUP_KEY_FRAME_INTERVAL : Z := 15.

Definition startup_key_frame_due (frame_index frames_acked : Z) : bool :=
  (frames_acked =? 0) && (frame_index mod STARTUP_KEY_FRAME_INTERVAL =? 0).

Definition should_throttle (under_pressure : bool) (frame_index frames_acked : Z) : bool :=
  under_pressure && negb (startup_key_frame_due frame_index frames_acked).

(** ** Errors *)

(** [Box<dyn std::error::Error>], by what was boxed. *)
Inductive AppError :=
| AppIo (e : IoError)
| AppSender (e : SenderError)
| AppEnqueue (e : EnqueueError)
| AppEncoder (message : string)
| AppTryFromInt
| AppMessage (message : string)
| AppControl (e : Error)
| AppFramerate (e : InvalidFramerate)
| AppResolution (e : InvalidResolution).

(** [?] in [main]: the error is boxed. *)
Definition boxed {E A} (f : E -> AppError) (r : Result E A) : Result AppError A :=
  match r with Ok a => Ok a | Err e => Err (f e) | Panic => Panic end.

(** ** The OFFER the program makes *)

(** [Offer::builder().video(..)], whose two [?] box the errors of the types. *)
Definition red_screen_builder : Result AppError OfferBuilder :=
  let? max_frame_rate := boxed AppFramerate (Framerate.new 30 1) in
  let? resolution := boxed AppResolution (Resolution.new (wrap_u32 WIDTH) (wrap_u32 HEIGHT)) in
  Ok (OfferBuilder.video Offer.builder
        (MkVideoConfig H264 5000000 max_frame_rate [resolution] (from_millis 400))).

(** ** The encoder *)

(** The frame types the program names, and the rest with their debug text. *)
Inductive FrameType := IDR | FrameI | FrameP | FrameSkip | FrameOther (text : string).

Class H264Encoder (E Yuv : Type) := {
  force_intra_frame : E -> E;
  encode : E -> Yuv -> E * (string + FrameType * bytes);
}.

(** What the program relies on: once asked for an intra frame, the encoder
    produces no frame that depends on an earlier one until it has made one; a
    skipped picture is not a frame; and a frame has bytes. *)
Class H264EncoderLaws (E Yuv : Type) `{H264Encoder E Yuv} := {
  intra_pending : E -> bool;
  force_intra_pending e : intra_pending (force_intra_frame e) = true;
  encode_law e yuv :
    match encode e yuv with
    | (e', inr (FrameSkip, _)) => intra_pending e = true -> intra_pending e' = true
    | (_, inr (FrameP, bits)) => intra_pending e = false /\ bits <> []
    | (_, inr (_, bits)) => bits <> []
    | _ => True
    end;
}.

(** ** The streaming loop *)

(** Where the loop is suspended: in the [select!], after the statistics have
    come back, after [send] has come back, or at its end. *)
Inductive Pc :=
| Waiting
| Measured (reply : option SessionStatistics)
| Sent (result : Result EnqueueError FrameId)
| Finished (result : Result AppError unit).

(** The locals of [main] while it streams, the session's event loop and, once
    that has returned, its result. *)
Record App (W E : Type) := MkApp {
  pc : Pc;
  frame_index : Z;
  needs_key_frame : bool;
  encoder : E;
  session : LoopState W;
  task : option (Result SenderError unit);
}.
Arguments MkApp {W E}.
Arguments pc {W E}.
Arguments frame_index {W E}.
Arguments needs_key_frame {W E}.
Arguments encoder {W E}.
Arguments session {W E}.
Arguments task {W E}.
#[export] Instance App_eta {W E} : Eta (App W E) := fun a =>
  MkApp (pc a) (frame_index a) (needs_key_frame a) (encoder a) (session a) (task a).

(** What can happen next: the frame timer, Ctrl-C (or a failure to wait for
    it), the loop's code going on after an [await], the event task taking the
    next event, an arm of the session's own loop, and time passing. *)
Inductive AppInput (W : Type) :=
| Tick
| CtrlC (result : IoError + unit)
| Resume
| TakeEvent
| Session (input : LoopInput)
| World (w : W).
Arguments Tick {W}.
Arguments CtrlC {W}.
Arguments Resume {W}.
Arguments TakeEvent {W}.
Arguments Session {W}.
Arguments World {W}.

(** A frame the encoder has produced, and what [send] said to it. *)
Definition Output : Type := FrameDependency * Result EnqueueError FrameId.

Section Program.
Context {W E Yuv : Type} `{Transport W} `{StreamCipher} `{H264Encoder E Yuv}.
Context (remote_address : SocketAddr) (yuv : Yuv) (timeline_origin : Instant).

(** One arm of the session's loop, while it runs. *)
Definition session_step (input : LoopInput) (a : App W E) : App W E :=
  match task a with
  | Some _ => a
  | None =>
    let '(s, flow) := handle remote_address (session a) input in
    let a := a <| session := s |> in
    match flow with
    | Continue => a
    | Return r => a <| task := Some r |>
    end
  end.

(** A command and its reply, [None] when the loop has ended or ends without
    one.  The caller waits: what the loop does before it takes the command is
    what it does before the call. *)
Definition call (c : StreamCommand) (a : App W E) : App W E * option Reply :=
  let a' := session_step (Command (Some c)) a in
  (a', drop (length (replies (session a))) (replies (session a')) !! 0%nat).

Definition stop (r : Result AppError unit) (a : App W E) : App W E := a <| pc := Finished r |>.

(** [frame_index += 1] and back to the [select!]; the increment is checked. *)
Definition next_tick (a : App W E) : App W E :=
  if u64_max <=? frame_index a then stop Panic a
  else a <| frame_index := frame_index a + 1 |> <| pc := Waiting |>.

Definition on_tick (a : App W E) : App W E :=
  let '(a, reply) := call Statistics a in
  a <| pc := Measured (match reply with Some (StatisticsReply s) => Some s | _ => None end) |>.

Definition send_frame (dep : FrameDependency) (bitstream : bytes) (a : App W E) : App W E * list Output :=
  if u32_max <? frame_index a then (stop (Err AppTryFromInt) a, []) else
  let ts := FRAME_INTERVAL * frame_index a in
  let frame := EncodedFrame.with_duration (EncodedFrame.new dep bitstream ts (timeline_origin + ts)) FRAME_INTERVAL in
  let '(a, reply) := call (EnqueueFrame Video frame) a in
  let result := snd (StreamHandle.send Video frame
    (match reply with Some (EnqueueReply r) => Some r | _ => None end)) in
  (a <| pc := Sent result |>, [(dep, result)]).

Definition encode_frame (a : App W E) : App W E * list Output :=
  let '(e, bitstream) := encode (encoder a) yuv in
  let a := a <| encoder := e |> in
  match bitstream with
  | inl message => (stop (Err (AppEncoder message)) a, [])
  | inr (frame_type, bits) =>
    match frame_type with
    | IDR | FrameI => send_frame KeyFrame bits a
    | FrameP => send_frame Delta bits a
    | FrameSkip => (next_tick a, [])
    | FrameOther text => (stop (Err (AppMessage ("unsupported OpenH264 frame type: " +:+ text))) a, [])
    end
  end.

Definition under_pressure (v : StreamStatistics) : bool :=
  negb (st_in_flight_frames v =? 0) &&
  (st_max_acceptable_in_flight_duration v <=? st_in_flight_media_duration v).

Definition on_statistics (reply : option SessionStatistics) (a : App W E) : App W E * list Output :=
  match SenderSession.statistics reply with
  | Err e => (stop (Err (AppSender e)) a, [])
  | Panic => (stop Panic a, [])
  | Ok statistics =>
    match ss_video statistics with
    | None => (stop (Err (AppMessage "video statistics disappeared")) a, [])
    | Some v =>
      let startup_key_frame := startup_key_frame_due (frame_index a) (st_frames_acked v) in
      if should_throttle (under_pressure v) (frame_index a) (st_frames_acked v) then (next_tick a, []) else
      let key_frame_requested := needs_key_frame a in
      let a := a <| needs_key_frame := false |> in
      let a := if startup_key_frame || key_frame_requested || (frame_index a mod KEY_FRAME_INTERVAL =? 0)
               then a <| encoder := force_intra_frame (encoder a) |> else a in
      encode_frame a
    end
  end.

Definition on_sent (result : Result EnqueueError FrameId) (a : App W E) : App W E :=
  match result with
  | Ok _ => next_tick a
  | Err ReachedIdSpanLimit => next_tick (a <| needs_key_frame := true |>)
  | Err error => stop (Err (AppEnqueue error)) a
  | Panic => stop Panic a
  end.

(** The event task: one event taken off the session's channel. *)
Definition take_event (a : App W E) : App W E :=
  match queued_events (events (session a)) with
  | [] => a
  | event :: rest =>
    let s := (session a) <| events := (events (session a)) <| queued_events := rest |> |> in
    let a := a <| session := s |> in
    match event with
    | NeedsKeyFrame _ => a <| needs_key_frame := true |>
    | _ => a
    end
  end.

(** One step.  Ctrl-C and the timer are looked at in the [select!] only. *)
Definition step (input : AppInput W) (a : App W E) : App W E * list Output :=
  match input, pc a with
  | Tick, Waiting => (on_tick a, [])
  | CtrlC (inl e), Waiting => (stop (Err (AppIo e)) a, [])
  | CtrlC (inr _), Waiting => (stop (Ok tt) a, [])
  | Resume, Measured reply => on_statistics reply a
  | Resume, Sent result => (on_sent result a, [])
  | TakeEvent, _ => (take_event a, [])
  | Session input, _ => (session_step input a, [])
  | World w, _ => (a <| session := (session a) <| world := w |> |>, [])
  | _, _ => (a, [])
  end.

(** The program on what happens to it, in order, and the frames it has handed
    to [send]. *)
Fixpoint run_app (inputs : list (AppInput W)) (a : App W E) : App W E * list Output :=
  match inputs with
  | [] => (a, [])
  | input :: inputs' =>
    let '(a, out) := step input a in
    let '(a, out') := run_app inputs' a in
    (a, out ++ out')
  end.

(** The state the loop starts in. *)
Definition start_app (w : W) (e : E) (sess : SenderSession) : Result AppError (App W E) :=
  match SenderSession.video sess with
  | None => Err (AppMessage "receiver rejected the video stream")
  | Some _ =>
    Ok (MkApp Waiting 0 true e (init w (audio_stream (started sess)) (video_stream (started sess))) None)
  end.

(** ** Teardown *)

(** What [main] returns: the session is shut down, the event task joined and
    the receiver application stopped and the connection closed, all of them
    whatever came before, and the first failure in this order is the result.
    [join_error] is the text of a task that panicked. *)
Definition finish (a : App W E) (join_error : string) (stream_result : Result AppError unit)
    (event_result : string + unit) (stop_result close_result : Result Error unit)
  : App W E * Result AppError unit :=
  let '(a, _) := call Shutdown a in
  let sender_result := SenderSession.shutdown
    (match task a with Some Panic | None => inl join_error | Some r => inr r end) in
  (a, let? _ := boxed AppSender sender_result in
      let? _ := stream_result in
      let? _ := map_err event_result AppMessage in
      let? _ := boxed AppControl stop_result in
      boxed AppControl close_result).
End Program.
