(* ===== verification/RedScreenProps.v ===== *)
(** * What the red-screen program guarantees

    The program of [RedScreen], with the session and the event loop it runs on:
    the frames the receiver gets form decodable groups of pictures, the step at
    which the program ends has one of a few causes, and what it returns then. *)

From stdpp Require Import strings.
From S2P Require Import Prelude Constants Time Errors Codec Frame SyncSource Crypto Rtp Rtcp Stream StreamFacts StreamSteps EventLoop EventLoopFacts EventLoopProps LoopStreams Offer Session NegotiationProps SessionStreams RedScreen.

(** ** Why the loop ends *)

(** A failed send, and the ends of a command that is not a shutdown: never a
    normal return. *)
Definition ends_normally {W} (out : LoopState W * Flow) : Prop := exists u, snd out = Return (Ok u).

Section Ends.
Context {W : Type} `{Transport W} `{StreamCipher}.

Lemma fail_with_ends (s : LoopState W) r : (forall u, r <> Ok u) -> ~ ends_normally (fail_with s r).
Proof. intros Hr [u Hu]. destruct r; cbn in Hu; [|congruence..]. by destruct (Hr a). Qed.

Lemma after_command_ends addr (s : LoopState W) flush publish : ~ ends_normally (after_command addr s flush publish).
Proof.
  unfold after_command. destruct (if flush then _ else _) as [s1 [u|e|]]; [by intros [? [=]]|by apply fail_with_ends..].
Qed.

Lemma handle_ends addr (s : LoopState W) input :
  input <> Command None -> input <> Command (Some Shutdown) -> ~ ends_normally (handle addr s input).
Proof.
  intros Hn Hs. destruct input as [c| |r| | |]; cbn [handle].
  - destruct c as [[t frame| |delay|]|]; cbn [on_command]; [| | |done|done].
    + destruct (on_enqueue s t frame) as [s1 [[f p] []]]; [by intros [? [=]]|apply after_command_ends].
    + apply after_command_ends.
    + destruct (on_set_target_playout_delay s delay) as [s1 p]. apply after_command_ends.
  - unfold on_burst_tick. destruct (flush_queued_packets addr s) as [s1 [u|e|]]; [by intros [? [=]]|by apply fail_with_ends..].
  - unfold on_received. destruct r as [e|[d a]]; [case_decide; [by intros [? [=]]|by apply fail_with_ends]|].
    destruct (negb _); [by intros [? [=]]|]. destruct (classify_packet d) as [[]| |]; try by intros [? [=]].
    destruct (parse_compound d) as [c|e|]; [|by intros [? [=]]..]. destruct (contains_receiver_feedback c); [|by intros [? [=]]].
    unfold on_feedback. destruct (instant_now (world s)) as [w at_]. destruct (process_feedback _ _ _ _) as [[ss ev] p].
    destruct (flush_queued_packets addr _) as [s1 [u|e|]]; [by intros [? [=]]|by apply fail_with_ends..].
  - unfold on_rtcp_tick. destruct (report_stream addr Audio _ s) as [s1 [u|e|]]; [|by apply fail_with_ends..].
    destruct (report_stream addr Video _ s1) as [s2 [u'|e|]]; [by intros [? [=]]|by apply fail_with_ends..].
  - unfold on_statistics_timer. destruct (statistics_pending s); by intros [? [=]].
  - unfold on_timeout_tick. repeat (destruct (timed_out _ _ _) as [[? ?] ?]). destruct (_ || _); by intros [? [=]].
Qed.

(** The replies of the two commands the program makes. *)
Lemma handle_statistics addr (s : LoopState W) :
  handle addr s (Command (Some Statistics)) = (reply s (StatisticsReply (session_statistics (streams s))), Continue).
Proof. done. Qed.
End Ends.

(** ** The video stream of a session *)

Section Stream.
Context {W : Type} `{Transport W} `{StreamCipher}.

(** Ids below [n] are assigned and media time has not reached frame [bound]. *)
Definition video_at (s : LoopState W) (n bound : Z) : Prop :=
  exists st, get_stream Video (streams s) = Some st /\ next_frame_id st = n /\ 0 <= n <= bound /\
    forall last, last_media_timestamp st = Some last -> last < FRAME_INTERVAL * bound.

Lemma video_at_mono s n b b' : b <= b' -> video_at s n b -> video_at s n b'.
Proof.
  intros Hb (st & Hg & Hn & Hr & Hl). exists st. split_and!; auto; [lia..|].
  intros last Hla. specialize (Hl last Hla). unfold FRAME_INTERVAL, from_millis, millis in *. lia.
Qed.

Lemma video_at_quiet ss s n b st :
  quiet_streams ss (streams s) -> get_stream Video ss = Some st -> next_frame_id st = n -> 0 <= n <= b ->
  (forall last, last_media_timestamp st = Some last -> last < FRAME_INTERVAL * b) -> video_at s n b.
Proof.
  intros Hq Hg Hn Hb Hl. specialize (Hq Video). rewrite Hg in Hq. unfold video_at.
  destruct (get_stream Video (streams s)) as [st'|]; [|done]. apply quiet_kept in Hq as [_ Hk]. unfold kept in Hk.
  exists st'. assert (next_frame_id st' = next_frame_id st /\ last_media_timestamp st' = last_media_timestamp st) as [-> ->] by (split; congruence).
  by split_and!; try lia.
Qed.

Lemma video_at_handle addr (s : LoopState W) input n b :
  enqueues input = false -> video_at s n b -> video_at (fst (handle addr s input)) n b.
Proof.
  intros Hi (st & Hg & Hn & Hr & Hl). by eapply video_at_quiet; [apply quiet_handle, Hi|..].
Qed.

(** A frame with bytes, stamped with a frame index the stream has not reached,
    and a key frame if it is the first: it is accepted with the next id, or
    refused because the id window is full. *)
Lemma video_enqueue addr (s : LoopState W) frame n index :
  loop_inv s -> video_at s n index -> index <= u32_max -> data frame <> [] ->
  media_timestamp frame = FRAME_INTERVAL * index -> (n = 0 -> dependency frame = KeyFrame) ->
  let s' := fst (handle addr s (Command (Some (EnqueueFrame Video frame)))) in
  exists r, replies s' = replies s ++ [EnqueueReply r] /\
    (r = Ok n /\ video_at s' (n + 1) (index + 1) \/ r = Err ReachedIdSpanLimit /\ video_at s' n (index + 1)).
Proof.
  intros Hs (st & Hg & Hn & Hr & Hl) Hi Hd Hts Hk. pose proof (li_streams s Hs Video st Hg) as Hst.
  assert (Hstamp : forall last, last = FRAME_INTERVAL * index -> last < FRAME_INTERVAL * (index + 1))
    by (intros ? ->; unfold FRAME_INTERVAL, from_millis, millis; lia).
  destruct (acceptable_dec st frame) as [Ha|Ha].
  - pose proof (enqueue_frame_accepted st frame Hst Ha) as He.
    destruct (handle_enqueue addr s Video frame st Hg ltac:(by rewrite He)) as [Hq Hre]. rewrite He in Hq, Hre.
    cbn [fst snd] in Hq, Hre. eexists. split; [exact Hre|]. left. split; [by rewrite Hn|].
    eapply video_at_quiet; [exact Hq|by rewrite get_set_stream, decide_True| |lia|].
    + cbn. unfold FrameId.next. lia.
    + cbn. intros last [= <-]. by apply Hstamp.
  - destruct (enqueue_frame_rejected st frame Hst Ha) as (e & He & H1 & H2 & H3 & _ & H5).
    destruct (handle_enqueue addr s Video frame st Hg ltac:(by rewrite He)) as [Hq Hre]. rewrite He in Hq, Hre.
    cbn [fst snd StreamState.reject_frame] in Hq, Hre.
    assert (Hlimit : e = ReachedIdSpanLimit).
    { destruct e; [done|..|done].
      - destruct (H2 eq_refl) as [Hf Hne]. destruct Hne. apply Hk. by rewrite <- Hn.
      - destruct (H3 eq_refl) as (last & Hla & Hle). specialize (Hl last Hla). lia.
      - by destruct Hd; apply H1. }
    subst e. eexists. split; [exact Hre|]. right. split; [done|].
    eapply video_at_mono; [|eapply video_at_quiet; [exact Hq|by rewrite get_set_stream, decide_True|exact Hn|exact Hr|exact Hl]]. lia.
Qed.
End Stream.

(** ** The invariant of the program *)

(** The ids the session gave, in the order of the encoder's frames. *)
Definition accepted_id (o : Output) : option FrameId := match snd o with Ok id => Some id | _ => None end.
Definition accepted_ids (out : list Output) : list FrameId := omap accepted_id out.

(** A delta frame is decoded from the frame the encoder made before it, and the
    packets of an accepted one name the id before its own. *)
Definition decodable (out : list Output) : Prop :=
  forall before id after, out = before ++ (Delta, Ok id) :: after ->
    exists earlier d, before = earlier ++ [(d, Ok (id - 1))].

(** The last frame the encoder made was accepted. *)
Definition reference_received (out : list Output) : Prop := exists earlier d id, out = earlier ++ [(d, Ok id)].

Section Invariant.
Context {W E Yuv : Type} `{HT : Transport W} `{HC : StreamCipher} `{HE : H264Encoder E Yuv} `{HL : !H264EncoderLaws E Yuv}.

(** The session's task has failed. *)
Definition session_failed (a : App W E) : Prop := exists e, task a = Some (Err e).

Definition pc_ok (a : App W E) : Prop :=
  match pc a with
  | Waiting => True
  | Measured None => session_failed a
  | Measured (Some s) => is_Some (ss_video s)
  | Sent (Ok _) | Sent (Err ReachedIdSpanLimit) => True
  | Sent (Err EnqueueSessionClosed) => session_failed a
  | Sent _ => False
  | Finished _ => True
  end.

(** Where media time has got to. *)
Definition bound (a : App W E) : Z :=
  match pc a with Waiting | Measured _ => frame_index a | _ => frame_index a + 1 end.

(** The next frame is an intra frame, or nothing more is sent. *)
Definition restarts (a : App W E) : Prop :=
  needs_key_frame a = true \/ intra_pending (encoder a) = true \/
  match pc a with Sent (Err _) | Finished _ => True | _ => False end.

(** The program and its session, whatever has been sent. *)
Definition live (a : App W E) : Prop :=
  match task a with None => loop_inv (session a) | Some r => exists e, r = Err e end /\
  0 <= frame_index a <= u64_max /\ pc_ok a.

(** The frames sent, whatever the program does next. *)
Definition sent_ok (out : list Output) : Prop :=
  accepted_ids out = seqZ 0 (Z.of_nat (length (accepted_ids out))) /\ decodable out.

Record app_core (out : list Output) (a : App W E) : Prop := {
  ac_live : live a;
  ac_video : video_at (session a) (Z.of_nat (length (accepted_ids out))) (bound a);
  ac_sent : sent_ok out;
}.

Definition app_inv (out : list Output) (a : App W E) : Prop :=
  app_core out a /\ (reference_received out \/ restarts a).

(** What may happen to the program: the session's commands are the program's
    own, and datagrams are made of bytes. *)
Definition app_input_ok (input : AppInput W) : Prop :=
  match input with
  | Session (Command _) => False
  | Session (Received (inr (d, _))) => bytes_ok d
  | _ => True
  end.

Lemma accepted_ids_snoc out o : accepted_ids (out ++ [o]) = accepted_ids out ++ option_list (accepted_id o).
Proof. unfold accepted_ids. rewrite omap_app. cbn. by destruct (accepted_id o). Qed.

Lemma decodable_snoc out o :
  decodable out -> (forall id, o = (Delta, Ok id) -> exists earlier d, out = earlier ++ [(d, Ok (id - 1))]) ->
  decodable (out ++ [o]).
Proof.
  intros Ho Hn before id after He. destruct after as [|o' l _] using rev_ind.
  - apply app_inj_2 in He as [<- [= ->]]; [|done]. by apply Hn.
  - rewrite app_comm_cons, app_assoc in He. apply app_inj_2 in He as [-> _]; [|done]. by eapply Ho.
Qed.

(** After an accepted last frame, its id is the one before the next. *)
Lemma reference_id out :
  accepted_ids out = seqZ 0 (Z.of_nat (length (accepted_ids out))) -> reference_received out ->
  exists earlier d, out = earlier ++ [(d, Ok (Z.of_nat (length (accepted_ids out)) - 1))] /\
    0 < Z.of_nat (length (accepted_ids out)).
Proof.
  intros Hi (earlier & d & id & ->). exists earlier, d. revert Hi. rewrite accepted_ids_snoc, length_app. cbn [option_list accepted_id snd length].
  rewrite Nat2Z.inj_add, seqZ_app by lia. intros Hi. apply app_inj_2 in Hi as [_ Hi]; [|by rewrite length_seqZ].
  change (option_list (Some id)) with [id] in *. change (Z.of_nat (length [id])) with 1 in *. rewrite seqZ_cons in Hi by lia. injection Hi as ->. split; [|lia]. by rewrite Z.add_0_l, Z.add_simpl_r.
Qed.

Lemma pc_ok_mono a a' :
  pc a' = pc a -> (session_failed a -> session_failed a') -> pc_ok a -> pc_ok a'.
Proof.
  intros Hp Hf. unfold pc_ok. rewrite Hp. destruct (pc a) as [|[]|[|[]|]|]; intuition.
Qed.

(** One arm of the session's loop that assigns nothing. *)
Lemma session_step_core addr out a input :
  app_core out a -> enqueues input = false -> input_ok (session a) input ->
  input <> Command None -> input <> Command (Some Shutdown) -> app_core out (session_step addr input a).
Proof.
  intros [(H1 & H3 & H4) H2 H5] He Hi Hn Hs. unfold session_step. destruct (task a) as [r|] eqn:Ht.
  { constructor; auto. split; [by rewrite Ht|done]. }
  pose proof (handle_ok addr (session a) input H1 Hi) as Ho. pose proof (handle_ends addr (session a) input Hn Hs) as Hend.
  pose proof (video_at_handle addr (session a) input _ _ He H2) as Hv.
  destruct (handle addr (session a) input) as [s [|r]]; cbn [fst] in Hv.
  - constructor; auto. split; [cbn; by rewrite Ht|done].
  - assert (Hr : exists e, r = Err e) by (destruct r as [u|e|]; [destruct Hend; by exists u|by eexists|by destruct Ho]).
    constructor; auto. split; [done|]. split; [done|]. apply (pc_ok_mono a); [done| |exact H4]. destruct Hr as [e ->]. by exists e.
Qed.

(** The flag and the encoder are no part of the rest of the state. *)
Lemma core_flags out a k e : app_core out a -> app_core out (a <| needs_key_frame := k |> <| encoder := e |>).
Proof. intros [H1 H2 H3]. by constructor. Qed.

Lemma bound_le (a : App W E) : frame_index a <= bound a <= frame_index a + 1.
Proof. unfold bound. destruct (pc a); lia. Qed.

Lemma stop_inv out a r : app_core out a -> app_inv out (stop r a).
Proof.
  intros [(H1 & H3 & H4) H2 H5]. split; [|right; by do 2 right]. constructor; [split; [done|by split]| |done].
  eapply video_at_mono; [|exact H2]. apply bound_le.
Qed.

Lemma next_tick_inv out a :
  app_core out a ->
  (reference_received out \/ needs_key_frame a = true \/ intra_pending (encoder a) = true) -> app_inv out (next_tick a).
Proof.
  intros Hc Hr. unfold next_tick. destruct (Z.leb_spec u64_max (frame_index a)) as [Hm|Hm].
  { by apply stop_inv. }
  destruct Hc as [(H1 & H3 & H4) H2 H5]. split; [|unfold restarts; cbn; tauto].
  constructor; auto; [split; [done|]; split; [cbn; lia|done]|].
  eapply video_at_mono; [|exact H2]. apply bound_le.
Qed.

Lemma fresh_reply {A} (l : list A) x : drop (length l) (l ++ [x]) !! 0%nat = Some x.
Proof. by rewrite drop_app_length. Qed.

Lemma on_tick_inv addr out a : app_inv out a -> pc a = Waiting -> app_inv out (on_tick addr a).
Proof.
  intros [[(H1 & H3 & H4) H2 H5] Hr] Hp. assert (Hb : bound a = frame_index a) by (unfold bound; by rewrite Hp).
  unfold restarts in Hr. rewrite Hp in Hr. unfold on_tick, call, session_step. destruct (task a) as [r|] eqn:Ht.
  - rewrite drop_ge by done. split; [|exact Hr]. rewrite Hb in H2. constructor; auto. split; [cbn; by rewrite Ht|]. split; [done|].
    destruct H1 as [e ->]. by exists e.
  - rewrite handle_statistics. cbn [session replies reply update App_eta LoopState_eta]. rewrite fresh_reply.
    split; [|exact Hr]. rewrite Hb in H2. constructor; auto. split; [cbn; rewrite Ht; by apply (loop_inv_ext (session a))|]. split; [done|].
    destruct H2 as (st & Hg & _). cbn in Hg. cbn. rewrite Hg. by eexists.
Qed.

Lemma on_sent_inv out a r : app_inv out a -> pc a = Sent r -> app_inv out (on_sent r a).
Proof.
  intros [Hc Hr] Hp. destruct (ac_live _ _ Hc) as (_ & _ & Hok). unfold pc_ok in Hok. rewrite Hp in Hok. unfold restarts in Hr. rewrite Hp in Hr.
  destruct r as [id|[]|]; cbn [on_sent]; try done.
  - apply next_tick_inv; [done|tauto].
  - apply next_tick_inv; [by apply (core_flags out a true (encoder a))|]. right. by left.
  - by apply stop_inv.
Qed.

(** A frame that [send] has refused adds nothing but itself; one it has
    accepted has the next id. *)
Lemma core_refused out a dep e :
  live a -> sent_ok out -> video_at (session a) (Z.of_nat (length (accepted_ids out))) (bound a) ->
  pc a = Sent (Err e) -> app_inv (out ++ [(dep, Err e)]) a.
Proof.
  intros Hl [H5 H6] Hv Hp. assert (Hi : accepted_ids (out ++ [(dep, Err e)]) = accepted_ids out)
    by (rewrite accepted_ids_snoc; cbn; apply app_nil_r).
  split; [|right; unfold restarts; rewrite Hp; tauto]. constructor; unfold sent_ok; rewrite ?Hi; auto. split; [done|].
  apply decodable_snoc; [done|]. by intros ? [=].
Qed.

Lemma core_accepted out a dep n :
  n = Z.of_nat (length (accepted_ids out)) ->
  live a -> sent_ok out -> video_at (session a) (n + 1) (bound a) -> (dep = Delta -> reference_received out) ->
  app_inv (out ++ [(dep, Ok n)]) a.
Proof.
  intros Hn Hlive [H5 H6] Hv Hd.
  assert (Hi : accepted_ids (out ++ [(dep, Ok n)]) = accepted_ids out ++ [n]) by (by rewrite accepted_ids_snoc).
  assert (Hl : Z.of_nat (length (accepted_ids out ++ [n])) = n + 1) by (rewrite length_app; cbn [length]; lia).
  split; [|left; by eexists _, _, _]. constructor; unfold sent_ok; rewrite ?Hi, ?Hl; auto. split.
  - rewrite seqZ_app by lia. rewrite H5 at 1. by rewrite <- Hn.
  - apply decodable_snoc; [done|]. intros id [= -> <-]. destruct (reference_id out H5 (Hd eq_refl)) as (earlier & d & He & _).
    exists earlier, d. by rewrite Hn.
Qed.

(** The enqueue command, as the program sees it. *)
Lemma call_enqueue addr out a frame s :
  app_core out a -> pc a = Measured (Some s) -> frame_index a <= u32_max -> data frame <> [] ->
  media_timestamp frame = FRAME_INTERVAL * frame_index a -> (dependency frame = Delta -> reference_received out) ->
  let n := Z.of_nat (length (accepted_ids out)) in
  let '(a', reply) := call addr (EnqueueFrame Video frame) a in
  let r := match reply with Some (EnqueueReply r) => r | _ => Err EnqueueSessionClosed end in
  live (a' <| pc := Sent r |>) /\ frame_index a' = frame_index a /\
  (r = Ok n /\ video_at (session a') (n + 1) (frame_index a + 1) \/
   (exists e, r = Err e) /\ video_at (session a') n (frame_index a + 1)).
Proof.
  intros [(H1 & H3 & _) H2 [H5 H6]] Hp Hi Hb Hts Hd n. unfold bound in H2. rewrite Hp in H2. unfold call, session_step.
  destruct (task a) as [r|] eqn:Ht.
  { rewrite drop_ge by done. cbn [lookup list_lookup]. split; [|split; [done|right; split; [by eexists|eapply video_at_mono; [|exact H2]; lia]]].
    split; [cbn; by rewrite Ht|]. split; [done|]. destruct H1 as [e ->]. by exists e. }
  assert (Hn : n = 0 -> dependency frame = KeyFrame).
  { intros Hn. destruct (dependency frame); [done|]. destruct (reference_id out H5 (Hd eq_refl)) as (_ & _ & _ & Hpos). subst n. lia. }
  destruct (video_enqueue addr (session a) frame n (frame_index a) H1 H2 Hi Hb Hts Hn) as (r & Hre & Hr).
  assert (Hin : input_ok (session a) (Command (Some (EnqueueFrame Video frame)))).
  { destruct H2 as (st & Hg & Hid & Hle & _). intros st' Hg'. unfold u32_max in Hi. assert (st' = st) as -> by congruence. lia. }
  pose proof (handle_ok addr (session a) _ H1 Hin) as Ho.
  pose proof (handle_ends addr (session a) (Command (Some (EnqueueFrame Video frame))) ltac:(done) ltac:(done)) as Hend.
  destruct (handle addr (session a) _) as [s' flow]. cbn [fst] in Hre, Hr.
  assert (Hpc : match r with Ok _ | Err ReachedIdSpanLimit => True | _ => False end) by (by destruct Hr as [[-> _]|[-> _]]).
  set (a' := match flow with Continue => _ | Return r => _ end).
  assert (Hs' : session a' = s' /\ frame_index a' = frame_index a) by (by destruct flow).
  destruct Hs' as [-> ->]. rewrite Hre, fresh_reply.
  split; [|split; [done|destruct Hr as [?|[-> ?]]; [by left|right; eauto]]].
  split; [|split; [by destruct flow|by destruct r as [|[]|]]].
  destruct flow as [|res]; cbn; [by rewrite Ht|]. destruct res as [u|e|]; [destruct Hend; by exists u|by eexists|by destruct Ho].
Qed.

Lemma send_frame_inv addr origin out a dep bits s :
  app_core out a -> pc a = Measured (Some s) -> bits <> [] -> (dep = Delta -> reference_received out) ->
  let '(a', o) := send_frame addr origin dep bits a in app_inv (out ++ o) a'.
Proof.
  intros Hc Hp Hb Hd. unfold send_frame. destruct (Z.ltb_spec u32_max (frame_index a)) as [Hi|Hi].
  { rewrite app_nil_r. by apply stop_inv. }
  set (frame := EncodedFrame.with_duration _ _).
  pose proof (call_enqueue addr out a frame s Hc Hp Hi Hb eq_refl Hd) as Hcall. cbv zeta in Hcall.
  destruct (call addr (EnqueueFrame Video frame) a) as [a' reply]. cbn [StreamHandle.send snd].
  assert (Hr : match match reply with Some (EnqueueReply r) => Some r | _ => None end with Some r => r | None => Err EnqueueSessionClosed end
    = match reply with Some (EnqueueReply r) => r | _ => Err EnqueueSessionClosed end) by (by destruct reply as [[]|]).
  rewrite Hr. clear Hr. set (r := match reply with Some (EnqueueReply r) => r | _ => Err EnqueueSessionClosed end) in *.
  clearbody r. destruct Hcall as (Hl & Hidx & [[-> Hv]|[[e ->] Hv]]).
  - apply core_accepted; [done|done|apply Hc| |done]. unfold bound. cbn. by rewrite Hidx.
  - apply core_refused; [done|apply Hc| |done]. unfold bound. cbn. by rewrite Hidx.
Qed.

Lemma encode_frame_inv addr yuv origin out a s :
  app_core out a -> pc a = Measured (Some s) -> (reference_received out \/ intra_pending (encoder a) = true) ->
  let '(a', o) := encode_frame addr yuv origin a in app_inv (out ++ o) a'.
Proof.
  intros Hc Hp Hr. unfold encode_frame. pose proof (encode_law (encoder a) yuv) as Hl.
  destruct (encode (encoder a) yuv) as [e [m|[ty bits]]]; cbn [fst snd] in Hl.
  - rewrite app_nil_r. apply stop_inv. by apply (core_flags out a (needs_key_frame a) e).
  - assert (Hc' : app_core out (a <| encoder := e |>)) by (by apply (core_flags out a (needs_key_frame a) e)).
    destruct ty as [| | | |text].
    1, 2: by eapply send_frame_inv.
    + destruct Hl as [Hl Hb]. eapply send_frame_inv; [done|done|done|]. intros _. destruct Hr as [|Hr]; [done|congruence].
    + rewrite app_nil_r. apply next_tick_inv; [done|]. cbn. tauto.
    + rewrite app_nil_r. by apply stop_inv.
Qed.

Lemma on_statistics_inv addr yuv origin out a reply :
  app_inv out a -> pc a = Measured reply ->
  let '(a', o) := on_statistics addr yuv origin reply a in app_inv (out ++ o) a'.
Proof.
  intros [Hc Hr] Hp. destruct (ac_live _ _ Hc) as (_ & _ & Hok). unfold pc_ok in Hok. rewrite Hp in Hok.
  unfold restarts in Hr. rewrite Hp in Hr. unfold on_statistics. destruct reply as [s|]; cbn [SenderSession.statistics ok_or].
  2: { rewrite app_nil_r. by apply stop_inv. }
  destruct Hok as [v ->]. destruct (should_throttle _ _ _).
  { rewrite app_nil_r. apply next_tick_inv; [done|tauto]. }
  destruct (_ || _ || _) eqn:Hforce.
  - apply (encode_frame_inv addr yuv origin out _ s); [by apply core_flags|done|]. right. apply force_intra_pending.
  - apply (encode_frame_inv addr yuv origin out _ s); [by apply (core_flags out a false (encoder a))|done|].
    apply orb_false_iff in Hforce as [[_ Hk]%orb_false_iff _]. cbn. destruct Hr as [|[Hr|[|[]]]]; [tauto|congruence|tauto].
Qed.

Lemma take_event_inv out a : app_inv out a -> app_inv out (take_event a).
Proof.
  intros [[(H1 & H3 & H4) H2 H5] Hr]. unfold take_event. destruct (queued_events _) as [|event rest] eqn:Hq; [by split; [constructor|]|].
  set (s := (session a) <| events := _ |>).
  assert (Hc : app_core out (a <| session := s |>)).
  { constructor; [split; [|by split]|done|done]. cbn. destruct (task a); [done|]. apply loop_inv_events; [done|].
    pose proof (li_events _ H1) as He. unfold events_ok in *. rewrite Hq in He. cbn in *. lia. }
  destruct event; first [exact (conj Hc Hr)|exact (conj (core_flags out _ true (encoder a) Hc) (or_intror (or_introl eq_refl)))].
Qed.

Lemma session_step_restarts addr out a input :
  app_inv out a -> app_input_ok (Session input) -> app_inv out (session_step addr input a).
Proof.
  intros [Hc Hr] Hi. split.
  - apply session_step_core; [done|by destruct input as [[[]|]| |[|[]]| | |]..].
  - destruct Hr as [|Hr]; [by left|right]. unfold session_step. destruct (task a); [done|].
    destruct (handle addr (session a) input) as [s []]; exact Hr.
Qed.

Lemma step_inv addr yuv origin out a input :
  app_inv out a -> app_input_ok input -> let '(a', o) := step addr yuv origin input a in app_inv (out ++ o) a'.
Proof.
  intros Ha Hi. pose proof Ha as [Hc _].
  assert (Hsame : app_inv (out ++ []) a) by (by rewrite app_nil_r).
  destruct input as [|[e|[]]| | |input|w]; cbn [step].
  - destruct (pc a) eqn:Hp; try done. rewrite app_nil_r. by apply on_tick_inv.
  - destruct (pc a) eqn:Hp; try done. rewrite app_nil_r. by apply stop_inv.
  - destruct (pc a) eqn:Hp; try done. rewrite app_nil_r. by apply stop_inv.
  - destruct (pc a) as [|r|r|] eqn:Hp; try done; [by apply on_statistics_inv|]. rewrite app_nil_r. by apply on_sent_inv.
  - rewrite app_nil_r. by apply take_event_inv.
  - rewrite app_nil_r. by apply session_step_restarts.
  - rewrite app_nil_r. destruct Ha as [[(H1 & H3 & H4) H2 H5] Hr]. split; [|done]. constructor; [|done|done].
    split; [|by split]. cbn. destruct (task a); [done|]. by apply (loop_inv_ext (session a)).
Qed.

Lemma run_app_inv addr yuv origin inputs out a :
  app_inv out a -> Forall app_input_ok inputs ->
  let '(a', o) := run_app addr yuv origin inputs a in app_inv (out ++ o) a'.
Proof.
  intros Ha Hi. revert out a Ha. induction Hi as [|input inputs Hin _ IH]; intros out a Ha; cbn [run_app].
  - by rewrite app_nil_r.
  - pose proof (step_inv addr yuv origin out a input Ha Hin) as Hs. destruct (step addr yuv origin input a) as [a1 o1].
    specialize (IH _ _ Hs). destruct (run_app addr yuv origin inputs a1) as [a2 o2]. by rewrite app_assoc.
Qed.

(** ** Why the program ends *)

(** The cause of an end with [r]: the input at which the program [a], still
    running, stopped, and what was wrong then.  The encoder was asked for a
    picture, perhaps an intra one. *)
Definition caused (yuv : Yuv) (input : AppInput W) (a : App W E) (r : Result AppError unit) : Prop :=
  match r with
  | Ok _ => pc a = Waiting /\ input = CtrlC (inr tt)
  | Err (AppIo e) => pc a = Waiting /\ input = CtrlC (inl e)
  | Err (AppEncoder m) => exists e, (e = encoder a \/ e = force_intra_frame (encoder a)) /\ snd (encode e yuv) = inl m
  | Err (AppMessage m) => exists e text bits, (e = encoder a \/ e = force_intra_frame (encoder a)) /\
      snd (encode e yuv) = inr (FrameOther text, bits) /\ m = "unsupported OpenH264 frame type: " +:+ text
  | Err AppTryFromInt => u32_max < frame_index a
  | Err (AppSender e) => e = SenderSessionClosed /\ session_failed a
  | Err (AppEnqueue e) => e = EnqueueSessionClosed /\ session_failed a
  | Panic => frame_index a = u64_max
  | _ => False
  end.

(** The program still runs. *)
Definition running (a : App W E) : Prop := forall r, pc a <> Finished r.

Lemma session_step_pc addr input (a : App W E) : pc (session_step addr input a) = pc a.
Proof. unfold session_step. destruct (task a); [done|]. by destruct (handle _ _ _) as [s []]. Qed.

Lemma take_event_pc (a : App W E) : pc (take_event a) = pc a.
Proof. unfold take_event. destruct (queued_events _) as [|[]]; done. Qed.

Lemma next_tick_finished (a : App W E) r : frame_index a <= u64_max -> pc (next_tick a) = Finished r -> r = Panic /\ frame_index a = u64_max.
Proof. unfold next_tick. destruct (Z.leb_spec u64_max (frame_index a)); cbn; [|done]. intros ? [= <-]. split; [done|lia]. Qed.

Lemma send_frame_finished addr origin dep bits (a : App W E) r :
  pc (fst (send_frame addr origin dep bits a)) = Finished r -> r = Err AppTryFromInt /\ u32_max < frame_index a.
Proof.
  unfold send_frame. destruct (Z.ltb_spec u32_max (frame_index a)); [by intros [= <-]|]. by destruct (call (E := E) _ _ _).
Qed.

Lemma encode_frame_caused addr yuv origin input a a0 r :
  frame_index a = frame_index a0 -> frame_index a <= u64_max ->
  (encoder a = encoder a0 \/ encoder a = force_intra_frame (encoder a0)) ->
  pc (fst (encode_frame addr yuv origin a)) = Finished r -> caused yuv input a0 r.
Proof.
  intros Hi Hm He. unfold encode_frame. destruct (encode (encoder a) yuv) as [e b] eqn:Henc.
  assert (Hx : snd (encode (encoder a) yuv) = b) by (by rewrite Henc).
  destruct b as [m|[[| | | |text] bits]].
  - cbn. intros [= <-]. by exists (encoder a).
  - intros [-> Hf]%send_frame_finished. cbn in *. lia.
  - intros [-> Hf]%send_frame_finished. cbn in *. lia.
  - intros [-> Hf]%send_frame_finished. cbn in *. lia.
  - cbn [fst]. intros [-> Hf]%next_tick_finished; [|done]. cbn in *. lia.
  - cbn. intros [= <-]. by exists (encoder a), text, bits.
Qed.

Lemma on_statistics_caused addr yuv origin input a reply r :
  live a -> pc a = Measured reply -> pc (fst (on_statistics addr yuv origin reply a)) = Finished r -> caused yuv input a r.
Proof.
  intros (_ & [_ Hm] & Hok) Hp. unfold pc_ok in Hok. rewrite Hp in Hok. unfold on_statistics.
  destruct reply as [s|]; cbn [SenderSession.statistics ok_or]; [|by intros [= <-]].
  destruct Hok as [v ->]. destruct (should_throttle _ _ _).
  { cbn [fst]. by intros [-> Hf]%next_tick_finished. }
  destruct (_ || _ || _); intros Hf; (eapply encode_frame_caused; [| | |exact Hf]); cbn; auto.
Qed.

(** A running program that stops has a cause. *)
Lemma step_caused addr yuv origin out a input r :
  app_inv out a -> running a -> pc (fst (step addr yuv origin input a)) = Finished r -> caused yuv input a r.
Proof.
  intros [[Hlive _ _] _] Hrun. pose proof Hlive as (_ & [_ Hm] & Hok). unfold pc_ok in Hok.
  destruct input as [|[e|[]]| | |input|w]; cbn [step].
  - destruct (pc a) as [| | |r0] eqn:Hp; cbn [fst]; [|intros Hf; congruence..|by destruct (Hrun r0)].
    unfold on_tick. by destruct (call (E := E) _ _ _).
  - destruct (pc a) as [| | |r0] eqn:Hp; cbn [fst]; [by intros [= <-]|intros Hf; congruence..|by destruct (Hrun r0)].
  - destruct (pc a) as [| | |r0] eqn:Hp; cbn [fst]; [by intros [= <-]|intros Hf; congruence..|by destruct (Hrun r0)].
  - destruct (pc a) as [|reply|res|] eqn:Hp; cbn [fst]; [intros Hf; congruence|by apply on_statistics_caused| |by destruct (Hrun result)].
    destruct res as [id|[]|]; cbn [on_sent]; try done; first [by intros [-> Hf]%next_tick_finished|by intros [= <-]].
  - cbn [fst]. rewrite take_event_pc. by intros ?%Hrun.
  - cbn [fst]. rewrite session_step_pc. by intros ?%Hrun.
  - cbn. by intros ?%Hrun.
Qed.

Lemma step_finished addr yuv origin input a r : pc a = Finished r -> pc (fst (step addr yuv origin input a)) = Finished r.
Proof.
  intros Hp. destruct input as [|[]| | |input|w]; cbn [step]; rewrite ?Hp; cbn [fst]; try done.
  - by rewrite take_event_pc.
  - by rewrite session_step_pc.
Qed.

Lemma run_finished addr yuv origin inputs a r : pc a = Finished r -> pc (fst (run_app addr yuv origin inputs a)) = Finished r.
Proof.
  revert a. induction inputs as [|input inputs IH]; intros a Hp; [done|]. cbn [run_app].
  pose proof (step_finished addr yuv origin input a r Hp) as Hs. destruct (step addr yuv origin input a) as [a1 o].
  specialize (IH a1 Hs). by destruct (run_app addr yuv origin inputs a1).
Qed.

(** The step at which a run ended. *)
Lemma run_app_caused addr yuv origin inputs out a r :
  app_inv out a -> Forall app_input_ok inputs -> running a ->
  pc (fst (run_app addr yuv origin inputs a)) = Finished r ->
  exists before input after, inputs = before ++ input :: after /\
    let a1 := fst (run_app addr yuv origin before a) in running a1 /\ caused yuv input a1 r.
Proof.
  intros Ha Hi. revert out a Ha. induction Hi as [|input inputs Hin _ IH]; intros out a Ha Hrun Hf; [by destruct (Hrun r)|].
  cbn [run_app] in Hf. pose proof (step_inv addr yuv origin out a input Ha Hin) as Hs.
  pose proof (step_caused addr yuv origin out a input) as Hc.
  destruct (step addr yuv origin input a) as [a1 o1] eqn:Hstep. cbn [fst] in Hc.
  destruct (pc a1) as [| | |r1] eqn:Hp1.
  4:{ exists [], input, inputs. split; [done|]. cbn. split; [done|]. apply Hc; [done|done|].
      pose proof (run_finished addr yuv origin inputs a1 r1 Hp1) as Hf1.
      destruct (run_app addr yuv origin inputs a1) as [a2 o2]. cbn [fst] in *. congruence. }
  all: destruct (IH (out ++ o1) a1 Hs) as (before & input' & after & -> & Hb);
    [intros ?; congruence|by destruct (run_app addr yuv origin inputs a1)|].
  all: exists (input :: before), input', after; split; [done|]; cbn [run_app]; rewrite Hstep;
    by destruct (run_app addr yuv origin before a1).
Qed.

(** Ctrl-C is never missed: two more steps of the program's own bring it back to
    its [select!], or it has ended. *)
Lemma ctrl_c_noticed addr yuv origin a c :
  exists r, pc (fst (run_app addr yuv origin [Resume; Resume; CtrlC c] a)) = Finished r.
Proof.
  assert (Htick : forall a, pc (next_tick (W := W) (E := E) a) = Waiting \/ exists r, pc (next_tick a) = Finished r)
    by (intros a1; unfold next_tick; destruct (_ <=? _); cbn; eauto).
  assert (Hsent : forall res a1, pc (on_sent (W := W) (E := E) res a1) = Waiting \/ exists r, pc (on_sent res a1) = Finished r)
    by (intros [|[]|] a1; cbn [on_sent]; try apply Htick; right; by eexists).
  assert (H1 : forall a, let a1 := fst (step addr yuv origin Resume a) in
    match pc a with Measured _ => (forall s, pc a1 <> Measured s) | _ => pc a1 = Waiting \/ exists r, pc a1 = Finished r end).
  { intros a1. cbn [step]. destruct (pc a1) as [|reply|res|r] eqn:Hp; cbn [fst]; [by left| |apply Hsent|right; by eexists].
    intros s. unfold on_statistics. destruct reply as [st|]; cbn [SenderSession.statistics ok_or]; [|done].
    destruct (ss_video st); [|done]. destruct (should_throttle _ _ _); [cbn [fst]; by destruct (Htick a1) as [-> |[? ->]]|].
    unfold encode_frame. match goal with |- context [encode ?x yuv] => destruct (encode x yuv) as [e1 [m|[[| | | |text] bits]]] end; try done;
      try (unfold send_frame; destruct (_ <? _); [done|]; by destruct (call (E := E) _ _ _)).
    cbn [fst]. match goal with |- context [next_tick ?x] => by destruct (Htick x) as [-> |[? ->]] end. }
  assert (H3 : forall a, (pc a = Waiting \/ exists r, pc a = Finished r) -> exists r, pc (fst (step addr yuv origin (CtrlC c) a)) = Finished r).
  { intros a1 Hw. destruct c as [e|[]]; cbn [step]; destruct Hw as [-> |[r Hr]]; [by eexists| |by eexists|]; rewrite Hr; by exists r. }
  cbn [run_app]. pose proof (H1 a) as Ha. destruct (step addr yuv origin Resume a) as [a1 o1]. cbn [fst] in Ha.
  pose proof (H1 a1) as Ha1. destruct (step addr yuv origin Resume a1) as [a2 o2]. cbn [fst] in Ha1.
  destruct (H3 a2) as [r Hr].
  { destruct (pc a1) eqn:Hp1; try exact Ha1. destruct (pc a); [|by destruct (Ha reply)|..]; by destruct Ha as [|[]]. }
  exists r. by destruct (step addr yuv origin (CtrlC c) a2) as [a3 o3].
Qed.
End Invariant.

(** ** The program from its start *)

Lemma start_address_video {R} `{Rng R} (r : R) offer answer addr sess :
  snd (start_address r offer answer addr) = Ok sess -> has_video sess = true ->
  exists st, get_stream Video (started sess) = Some st.
Proof.
  unfold start_address. destruct (validate answer); [|done..].
  match goal with |- context [start_streams r offer answer ?z ?i ?l ?s] =>
    destruct (start_streams r offer answer z i l s) as [r1 [s'|e|]] end; [|done..].
  cbn [snd bind]. destruct (_ && _); [done|]. intros [= <-] Hv. cbn in *. destruct (video_stream s'); [by eexists|done].
Qed.

Section Whole.
Context {R W E Yuv : Type} `{HR : RngLaws R} `{HT : Transport W} `{HC : StreamCipher} `{HE : H264Encoder E Yuv} `{HL : !H264EncoderLaws E Yuv}.

Lemma start_app_inv (r r' : R) builder offer answer addr sess (w : W) (e : E) a :
  snd (OfferBuilder.build r builder) = Ok offer -> snd (start_address r' offer answer addr) = Ok sess ->
  start_app w e sess = Ok a -> app_inv [] a.
Proof.
  intros Hb Hs Ha. pose proof (build_ok r builder) as Ho. destruct (config_error builder); [by rewrite Ho in Hb|].
  destruct Ho as (o & Hb' & Ho & _). assert (o = offer) as -> by congruence.
  pose proof (start_address_ok r' offer answer addr Ho) as Hst. rewrite Hs in Hst. destruct Hst as (_ & _ & _ & Hst).
  unfold start_app, SenderSession.video in Ha. destruct (has_video sess) eqn:Hv; [|done]. injection Ha as <-.
  destruct (start_address_video r' offer answer addr sess Hs Hv) as [st Hg].
  destruct (start_address_new r' offer answer addr sess Video st Hs Hg) as (p & rnd & Hnew).
  split; [|right; by left]. constructor.
  - split; [|by split]. cbn. apply init_inv;
      [intros st' He; exact (neg_inv _ _ _ _ (Hst Audio st' He))|intros st' He; exact (neg_inv _ _ _ _ (Hst Video st' He))].
  - exists st. cbn [session]. unfold init. destruct (instant_now w). subst st. by split_and!.
  - split; [done|]. intros [] ? ? [=].
Qed.

(** C11: Every picture the receiver gets can be decoded.  Whatever happens to the
    program while it streams (feedback, lost receivers, timers, events, in any
    order), the frames its session accepts get the ids 0, 1, 2, ... in the order
    the encoder made them, and an accepted delta frame comes directly after a
    frame that was accepted too, with the id before its own: the frame the
    encoder predicted it from is the frame its packets refer to.  In particular
    the first accepted frame is a key frame, and after a refused frame nothing
    is accepted before the next key frame. *)
Theorem red_screen_decodable (r r' : R) builder offer answer addr sess (w : W) (e : E) a (yuv : Yuv) origin inputs :
  red_screen_builder = Ok builder ->
  snd (OfferBuilder.build r builder) = Ok offer -> snd (start_address r' offer answer addr) = Ok sess ->
  start_app w e sess = Ok a -> Forall app_input_ok inputs ->
  let '(a', out) := run_app (remote sess) yuv origin inputs a in
  accepted_ids out = seqZ 0 (Z.of_nat (length (accepted_ids out))) /\
  forall before id after, out = before ++ (Delta, Ok id) :: after ->
    exists earlier d, before = earlier ++ [(d, Ok (id - 1))].
Proof.
  intros _ Hb Hs Ha Hi. pose proof (run_app_inv (remote sess) yuv origin inputs [] a (start_app_inv _ _ _ _ _ _ _ _ _ _ Hb Hs Ha) Hi) as Hr.
  destruct (run_app _ _ _ _ _) as [a' out]. destruct Hr as [[_ _ Hsent] _]. exact Hsent.
Qed.

(** Shutting down always ends the session's task, and a failure it ended with
    before is what [main] returns. *)
Lemma finish_result addr out (a : App W E) join_error stream_result event_result stop_result close_result :
  app_inv out a ->
  let '(a', result) := finish addr a join_error stream_result event_result stop_result close_result in
  match task a with
  | Some res => exists error, res = Err error /\ result = Err (AppSender error)
  | None =>
    task a' = Some (Ok tt) /\
    result = (let? _ := stream_result in let? _ := map_err event_result AppMessage in
              let? _ := boxed AppControl stop_result in boxed AppControl close_result)
  end.
Proof.
  intros [[(Ht & _) _ _] _]. unfold finish, call, session_step. destruct (task a) as [res|] eqn:He; [|done].
  rewrite He. destruct Ht as [error ->]. by exists error.
Qed.

Lemma main_succeeds (result : Result AppError unit) (event_result : string + unit) (stop_result close_result : Result Error unit) :
  (let? _ := result in let? _ := map_err event_result AppMessage in
   let? _ := boxed AppControl stop_result in boxed AppControl close_result) = Ok tt <->
  result = Ok tt /\ @None (Result SenderError unit) = None /\ event_result = inr tt /\ stop_result = Ok tt /\ close_result = Ok tt.
Proof.
  destruct result as [[]| |], event_result as [|[]], stop_result as [[]| |], close_result as [[]| |]; cbn; naive_solver.
Qed.

(** C32: Why the program ends, and what it says.  It leaves its loop at one step
    of its run, and the result says which: normally only for a Ctrl-C that
    came while it waited, with an I/O error only for a failure to wait for
    one; with the encoder's error or a frame type it does not know only when the
    encoder returned that for the picture asked for; with a conversion error or
    a panic only when its frame counter is past what the media clock or a
    [u64] holds; with a closed session only when the session's task has failed.
    A refusal to take a frame for the id window does not end it, and no other
    refusal happens.  From any state it reaches, a Ctrl-C after two of its own
    steps finds it waiting or ended.  After the teardown [main] succeeds exactly
    when it stopped for Ctrl-C, the session's task had not failed, and the event
    task, the application's stop and the connection's close all succeeded; and it
    returns the failure of the session's task whenever there is one. *)
Theorem red_screen_ends (r r' : R) builder offer answer addr sess (w : W) (e : E) a (yuv : Yuv) origin inputs
    join_error event_result stop_result close_result :
  red_screen_builder = Ok builder ->
  snd (OfferBuilder.build r builder) = Ok offer -> snd (start_address r' offer answer addr) = Ok sess ->
  start_app w e sess = Ok a -> Forall app_input_ok inputs ->
  let a' := fst (run_app (remote sess) yuv origin inputs a) in
  (forall c, exists result, pc (fst (run_app (remote sess) yuv origin [Resume; Resume; CtrlC c] a')) = Finished result) /\
  forall result, pc a' = Finished result ->
    (exists before input after, inputs = before ++ input :: after /\
      let a1 := fst (run_app (remote sess) yuv origin before a) in running a1 /\ caused yuv input a1 result) /\
    let main_result := snd (finish (remote sess) a' join_error result event_result stop_result close_result) in
    (main_result = Ok tt <->
       result = Ok tt /\ task a' = None /\ event_result = inr tt /\ stop_result = Ok tt /\ close_result = Ok tt) /\
    (forall failure, task a' = Some failure -> exists error, failure = Err error /\ main_result = Err (AppSender error)).
Proof.
  intros _ Hb Hs Ha Hi a'. pose proof (start_app_inv _ _ _ _ _ _ _ _ _ _ Hb Hs Ha) as Hinv.
  pose proof (run_app_inv (remote sess) yuv origin inputs [] a Hinv Hi) as Hr.
  split; [intros c; apply ctrl_c_noticed|]. intros result Hp. split.
  - apply (run_app_caused (remote sess) yuv origin inputs [] a result Hinv Hi); [|done].
    unfold start_app in Ha. destruct (SenderSession.video sess); [|done]. injection Ha as <-. by intros ? [=].
  - intros main_result. assert (Hinv' : exists out, app_inv out a').
    { subst a'. destruct (run_app _ _ _ _ _) as [a2 out]. by eexists. }
    destruct Hinv' as [out Hinv'].
    pose proof (finish_result (remote sess) out a' join_error result event_result stop_result close_result Hinv') as Hf.
    subst main_result. destruct (finish _ _ _ _ _ _ _) as [a'' m]. cbn [snd].
    destruct (task a') as [failure|]; [|split; [|done]].
    + destruct Hf as (error & -> & ->). split; [split; [done|by intros (_ & [=] & _)]|]. intros ? [= <-]. by exists error.
    + destruct Hf as [_ ->]. apply main_succeeds.
Qed.
End Whole.

(** The OFFER the program makes is always built. *)
Lemma red_screen_offer {R} `{RngLaws R} (r : R) :
  exists builder offer, red_screen_builder = Ok builder /\ snd (OfferBuilder.build r builder) = Ok offer /\
    map so_stream_type (offer_streams offer) = [VideoSource].
Proof.
  eexists. pose proof (fun b => build_ok r b) as Hb. destruct red_screen_builder as [b|e|] eqn:He; [|discriminate He..].
  specialize (Hb b). injection He as <-. destruct (config_error _) eqn:Hc; [vm_compute in Hc; discriminate|].
  destruct Hb as (o & Ho & _ & _ & Ht). by exists o.
Qed.

(** Until the receiver has acknowledged a frame, any fifteen consecutive ticks
    have one that is not throttled and asks for a key frame. *)
Lemma startup_retries index pressure :
  exists k, 0 <= k < STARTUP_KEY_FRAME_INTERVAL /\
    startup_key_frame_due (index + k) 0 = true /\ should_throttle pressure (index + k) 0 = false.
Proof.
  exists ((- index) mod STARTUP_KEY_FRAME_INTERVAL). split; [apply Z.mod_pos_bound; done|].
  assert (Hd : startup_key_frame_due (index + (- index) mod STARTUP_KEY_FRAME_INTERVAL) 0 = true).
  { unfold startup_key_frame_due, STARTUP_KEY_FRAME_INTERVAL. apply andb_true_iff. split; [done|]. apply Z.eqb_eq. zlia. }
  split; [done|]. unfold should_throttle. rewrite Hd. by destruct pressure.
Qed.

(** ** A run *)

(** An encoder that makes the intra frame it was asked for and else a delta. *)
#[export] Instance demo_encoder : H264Encoder bool unit := {
  force_intra_frame _ := true;
  encode pending _ := (false, inr (if pending then (IDR, [1; 2; 3]) else (FrameP, [4; 5])));
}.
#[export] Instance demo_encoder_laws : H264EncoderLaws bool unit.
Proof. refine {| intra_pending := id |}; [done|]. by intros [] []. Defined.

Definition red_builder : OfferBuilder := match red_screen_builder with Ok b => b | _ => Offer.builder end.
Definition red_offer : Offer :=
  match snd (OfferBuilder.build 5 red_builder) with Ok o => o | _ => MkOffer Mirroring [] end.
Definition red_answer : Answer := MkAnswer 2344 [0] [701] None None None.
Definition red_session : SenderSession :=
  match snd (start_address 9 red_offer red_answer demo_addr) with
  | Ok sess => sess
  | _ => MkSession demo_addr (MkStreams None None) false false false
  end.
Definition red_app : App TestWorld bool :=
  match start_app (MkTestWorld 0 []) false red_session with
  | Ok a => a
  | _ => MkApp Waiting 0 true false (init (MkTestWorld 0 []) None None) None
  end.
(** Two ticks and Ctrl-C. *)
Definition red_inputs : list (AppInput TestWorld) :=
  [Tick; Resume; Resume; Session RtcpTick; Tick; Resume; Resume; CtrlC (inr tt)].

Lemma red_inputs_ok : Forall app_input_ok red_inputs.
Proof. by repeat constructor. Qed.

(** The session takes a key frame and the delta after it. *)
Lemma red_screen_decodable_witness :
  let '(a', out) := @run_app TestWorld bool unit _ xor_cipher _ (remote red_session) tt 0 red_inputs red_app in
  out = [(KeyFrame, Ok 0); (Delta, Ok 1)] /\ accepted_ids out = seqZ 0 (Z.of_nat (length (accepted_ids out))).
Proof.
  pose proof (@red_screen_decodable Z TestWorld bool unit _ _ _ xor_cipher _ _ 5 9 red_builder red_offer red_answer demo_addr red_session
    (MkTestWorld 0 []) false red_app tt 0 red_inputs ltac:(vm_compute; reflexivity) ltac:(vm_compute; reflexivity)
    ltac:(vm_compute; reflexivity) ltac:(vm_compute; reflexivity) red_inputs_ok) as Hw.
  assert (Ho : snd (@run_app TestWorld bool unit _ xor_cipher _ (remote red_session) tt 0 red_inputs red_app)
    = [(KeyFrame, Ok 0); (Delta, Ok 1)]) by (vm_compute; reflexivity).
  destruct (run_app _ _ _ _ _) as [a' out]. split; [exact Ho|exact (proj1 Hw)].
Defined.

Lemma red_screen_ends_witness :
  let a' := fst (@run_app TestWorld bool unit _ xor_cipher _ (remote red_session) tt 0 red_inputs red_app) in
  pc a' = Finished (Ok tt) /\
  snd (@finish TestWorld bool _ xor_cipher (remote red_session) a' "panicked" (Ok tt) (inr tt) (Ok tt) (Ok tt)) = Ok tt.
Proof.
  set (a' := fst _).
  assert (Hp : pc a' = Finished (Ok tt)) by (vm_compute; reflexivity).
  assert (Ht : task a' = None) by (vm_compute; reflexivity).
  split; [exact Hp|].
  pose proof (@red_screen_ends Z TestWorld bool unit _ _ _ xor_cipher _ _ 5 9 red_builder red_offer red_answer demo_addr red_session
    (MkTestWorld 0 []) false red_app tt 0 red_inputs "panicked" (inr tt) (Ok tt) (Ok tt)
    ltac:(vm_compute; reflexivity) ltac:(vm_compute; reflexivity)
    ltac:(vm_compute; reflexivity) ltac:(vm_compute; reflexivity) red_inputs_ok) as [_ Hw].
  destruct (Hw (Ok tt) Hp) as (_ & Hm & _). apply Hm. split; [reflexivity|]. split; [exact Ht|]. split; [reflexivity|].
  split; reflexivity.
Defined.
