(* ===== verification/CastProto.v ===== *)
(** * The CastMessage protobuf codec ([src/src/control/proto.rs])

    A Rust [String] is its UTF-8 bytes.  The decoder's position is threaded
    through every helper; loops carry fuel, and the theorems show it is never
    exhausted. *)

From stdpp Require Import strings.
From S2P Require Import Prelude Text.

Inductive Payload :=
| PString (s : bytes)
| PBinary (b : bytes).

Record CastMessage := MkCastMessage {
  source_id : bytes;
  destination_id : bytes;
  namespace : bytes;
  payload : Payload;
}.

Inductive DecodeError :=
| ProtoTruncated
| InvalidVarint
| InvalidUtf8
| UnknownWireType (wire_type : Z)
| MissingField (name : string).
#[export] Instance DecodeError_eq_dec : EqDecision DecodeError.
Proof. solve_decision. Defined.

(** ** UTF-8 validity, as [String::from_utf8] checks it *)

Definition in_range (lo hi b : Z) : bool := (lo <=? b) && (b <=? hi).
Definition continuation (b : Z) : bool := in_range 0x80 0xBF b.
(** The second byte of a three- or four-byte sequence: no overlong form, no
    surrogate, nothing above U+10FFFF. *)
Definition second_of_three (b0 b1 : Z) : bool :=
  if b0 =? 0xE0 then in_range 0xA0 0xBF b1
  else if b0 =? 0xED then in_range 0x80 0x9F b1 else continuation b1.
Definition second_of_four (b0 b1 : Z) : bool :=
  if b0 =? 0xF0 then in_range 0x90 0xBF b1
  else if b0 =? 0xF4 then in_range 0x80 0x8F b1 else continuation b1.

Fixpoint utf8_valid (l : bytes) : bool :=
  match l with
  | [] => true
  | b0 :: l1 =>
    if b0 <? 0x80 then utf8_valid l1 else
    match l1 with
    | [] => false
    | b1 :: l2 =>
      if in_range 0xC2 0xDF b0 then continuation b1 && utf8_valid l2 else
      match l2 with
      | [] => false
      | b2 :: l3 =>
        if in_range 0xE0 0xEF b0
        then second_of_three b0 b1 && continuation b2 && utf8_valid l3 else
        match l3 with
        | [] => false
        | b3 :: l4 =>
          in_range 0xF0 0xF4 b0 && second_of_four b0 b1 && continuation b2 && continuation b3
          && utf8_valid l4
        end
      end
    end
  end.

(** ** Encoding *)

(** The [loop] runs at most ten times on a [u64]. *)
Fixpoint encode_varint_go (fuel : nat) (value : Z) : bytes :=
  match fuel with
  | O => []
  | S fuel' =>
    if value <? 0x80 then [value]
    else Z.lor (Z.land (wrap_u8 value) 0x7F) 0x80 :: encode_varint_go fuel' (Z.shiftr value 7)
  end.
Definition encode_varint (value : Z) : bytes := encode_varint_go 10 value.

Definition encode_varint_field (field value : Z) : bytes :=
  encode_varint (Z.shiftl field 3) ++ encode_varint value.

Definition encode_bytes_field (field : Z) (d : bytes) : bytes :=
  encode_varint (Z.lor (Z.shiftl field 3) 2) ++ encode_varint (Z.of_nat (length d)) ++ d.

Definition encode_string_field (field : Z) (s : bytes) : bytes := encode_bytes_field field s.

(** ** Decoding *)

Definition Decode (A : Type) := Result DecodeError (A * nat).

Fixpoint decode_varint_go (fuel : nat) (d : bytes) (pos : nat) (value shift : Z) : Decode Z :=
  match fuel with
  | O => Panic
  | S fuel' =>
    if (length d <=? pos)%nat then Err ProtoTruncated else
    let? byte := index d pos in
    let pos := S pos in
    if (shift =? 63) && (1 <? byte) then Err InvalidVarint else
    let value := Z.lor value (Z.shiftl (Z.land byte 0x7F) shift) in
    if Z.land byte 0x80 =? 0 then Ok (value, pos) else
    let shift := shift + 7 in
    if 64 <=? shift then Err InvalidVarint else decode_varint_go fuel' d pos value shift
  end.
Definition decode_varint (d : bytes) (pos : nat) : Decode Z := decode_varint_go 10 d pos 0 0.

(** [pos.checked_add(len)] in [usize], then [data.get(pos..end)]. *)
Definition checked_end (pos : nat) (len : Z) : option nat :=
  if Z.of_nat pos + len <=? u64_max then Some (pos + Z.to_nat len)%nat else None.

Definition decode_bytes (d : bytes) (pos : nat) : Decode bytes :=
  let? (len, pos) := decode_varint d pos in
  let? end_ := ok_or (checked_end pos len) ProtoTruncated in
  if (pos <=? end_)%nat && (end_ <=? length d)%nat
  then Ok (take (end_ - pos) (drop pos d), end_) else Err ProtoTruncated.

Definition skip_bytes (d : bytes) (pos : nat) (len : Z) : Decode unit :=
  let? end_ := ok_or (checked_end pos len) ProtoTruncated in
  if (length d <? end_)%nat then Err ProtoTruncated else Ok (tt, end_).

Definition decode_string (d : bytes) (pos : nat) : Decode bytes :=
  let? (b, pos) := decode_bytes d pos in
  if utf8_valid b then Ok (b, pos) else Err InvalidUtf8.

(** The locals of [decode]. *)
Record Fields := MkFields {
  f_source_id : option bytes;
  f_destination_id : option bytes;
  f_namespace : option bytes;
  f_payload_type : Z;
  f_payload_utf8 : option bytes;
  f_payload_binary : option bytes;
}.
#[export] Instance Fields_eta : Eta Fields := fun s =>
  MkFields (f_source_id s) (f_destination_id s) (f_namespace s) (f_payload_type s)
    (f_payload_utf8 s) (f_payload_binary s).

(** [as i32]. *)
Definition as_i32 (v : Z) : Z := let w := wrap_u32 v in if w <? 2 ^ 31 then w else w - 2 ^ 32.

(** The [match (field_number, wire_type)]. *)
Definition decode_field (field_number wire_type : Z) (d : bytes) (pos : nat) (f : Fields)
  : Decode Fields :=
  if (field_number =? 1) && (wire_type =? 0) then
    let? (_, pos) := decode_varint d pos in Ok (f, pos)
  else if (field_number =? 2) && (wire_type =? 2) then
    let? (s, pos) := decode_string d pos in Ok (f <| f_source_id := Some s |>, pos)
  else if (field_number =? 3) && (wire_type =? 2) then
    let? (s, pos) := decode_string d pos in Ok (f <| f_destination_id := Some s |>, pos)
  else if (field_number =? 4) && (wire_type =? 2) then
    let? (s, pos) := decode_string d pos in Ok (f <| f_namespace := Some s |>, pos)
  else if (field_number =? 5) && (wire_type =? 0) then
    let? (v, pos) := decode_varint d pos in Ok (f <| f_payload_type := as_i32 v |>, pos)
  else if (field_number =? 6) && (wire_type =? 2) then
    let? (s, pos) := decode_string d pos in Ok (f <| f_payload_utf8 := Some s |>, pos)
  else if (field_number =? 7) && (wire_type =? 2) then
    let? (b, pos) := decode_bytes d pos in Ok (f <| f_payload_binary := Some b |>, pos)
  else if wire_type =? 0 then
    let? (_, pos) := decode_varint d pos in Ok (f, pos)
  else if wire_type =? 2 then
    let? (_, pos) := decode_bytes d pos in Ok (f, pos)
  else if wire_type =? 5 then
    let? (_, pos) := skip_bytes d pos 4 in Ok (f, pos)
  else if wire_type =? 1 then
    let? (_, pos) := skip_bytes d pos 8 in Ok (f, pos)
  else Err (UnknownWireType wire_type).

(** [while pos < data.len()]. *)
Fixpoint decode_fields (fuel : nat) (d : bytes) (pos : nat) (f : Fields) : Result DecodeError Fields :=
  if (length d <=? pos)%nat then Ok f else
  match fuel with
  | O => Panic
  | S fuel' =>
    let? (tag, pos) := decode_varint d pos in
    let field_number := wrap_u32 (Z.shiftr tag 3) in
    let wire_type := Z.land tag 0x07 in
    let? (f, pos) := decode_field field_number wire_type d pos f in
    decode_fields fuel' d pos f
  end.

Definition no_fields : Fields := MkFields None None None 0 None None.

(** The part of [decode] after the loop. *)
Definition finish (f : Fields) : Result DecodeError CastMessage :=
  let payload :=
    if f_payload_type f =? 1 then PBinary (default [] (f_payload_binary f))
    else PString (default [] (f_payload_utf8 f)) in
  let? source := ok_or (f_source_id f) (MissingField "source_id") in
  let? destination := ok_or (f_destination_id f) (MissingField "destination_id") in
  let? ns := ok_or (f_namespace f) (MissingField "namespace") in
  Ok (MkCastMessage source destination ns payload).

Module CastMessage.
Definition encode (self : CastMessage) : bytes :=
  encode_varint_field 1 0
  ++ encode_string_field 2 (source_id self)
  ++ encode_string_field 3 (destination_id self)
  ++ encode_string_field 4 (namespace self)
  ++ match payload self with
     | PString s => encode_varint_field 5 0 ++ encode_string_field 6 s
     | PBinary b => encode_varint_field 5 1 ++ encode_bytes_field 7 b
     end.

Definition decode (d : bytes) : Result DecodeError CastMessage :=
  let? f := decode_fields (length d) d 0 no_fields in finish f.
End CastMessage.

(** [DecodeError]'s [Display]. *)
Definition decode_error_to_string (e : DecodeError) : string :=
  match e with
  | ProtoTruncated => "truncated protobuf"
  | InvalidVarint => "invalid varint"
  | InvalidUtf8 => "invalid UTF-8 in string field"
  | UnknownWireType wt => "unknown wire type " +:+ display wt
  | MissingField name => "missing required field: " +:+ name
  end.

(** ** Reference: a message as a sequence of protobuf fields *)

Inductive Field :=
| FVarint (number value : Z)
| FBytes (number : Z) (d : bytes)
| FFixed32 (number : Z) (d : bytes)
| FFixed64 (number : Z) (d : bytes).

Definition encode_tagged (f : Field) : bytes :=
  match f with
  | FVarint n v => encode_varint (n * 8) ++ encode_varint v
  | FBytes n d => encode_varint (n * 8 + 2) ++ encode_varint (Z.of_nat (length d)) ++ d
  | FFixed32 n d => encode_varint (n * 8 + 5) ++ d
  | FFixed64 n d => encode_varint (n * 8 + 1) ++ d
  end.

Definition field_ok (f : Field) : Prop :=
  match f with
  | FVarint n v => 0 <= n < 2 ^ 29 /\ 0 <= v < 2 ^ 64
  | FBytes n d => 0 <= n < 2 ^ 29 /\ bytes_ok d /\ Z.of_nat (length d) < 2 ^ 63
  | FFixed32 n d => 0 <= n < 2 ^ 29 /\ bytes_ok d /\ length d = 4%nat
  | FFixed64 n d => 0 <= n < 2 ^ 29 /\ bytes_ok d /\ length d = 8%nat
  end.

(** What a field means to a Cast message; a later field replaces an earlier
    one and unknown fields mean nothing. *)
Definition apply_field (fs : Fields) (f : Field) : option Fields :=
  match f with
  | FVarint n v => Some (if n =? 5 then fs <| f_payload_type := as_i32 v |> else fs)
  | FBytes n d =>
    if n =? 2 then if utf8_valid d then Some (fs <| f_source_id := Some d |>) else None
    else if n =? 3 then if utf8_valid d then Some (fs <| f_destination_id := Some d |>) else None
    else if n =? 4 then if utf8_valid d then Some (fs <| f_namespace := Some d |>) else None
    else if n =? 6 then if utf8_valid d then Some (fs <| f_payload_utf8 := Some d |>) else None
    else if n =? 7 then Some (fs <| f_payload_binary := Some d |>)
    else Some fs
  | FFixed32 _ _ | FFixed64 _ _ => Some fs
  end.

Fixpoint apply_fields (fs : Fields) (l : list Field) : option Fields :=
  match l with
  | [] => Some fs
  | f :: l' => fs ← apply_field fs f; apply_fields fs l'
  end.

(** The fields [encode] writes. *)
Definition message_fields (m : CastMessage) : list Field :=
  [FVarint 1 0; FBytes 2 (source_id m); FBytes 3 (destination_id m); FBytes 4 (namespace m)]
  ++ match payload m with
     | PString s => [FVarint 5 0; FBytes 6 s]
     | PBinary b => [FVarint 5 1; FBytes 7 b]
     end.

Definition string_ok (s : bytes) : Prop :=
  utf8_valid s = true /\ bytes_ok s /\ Z.of_nat (length s) < 2 ^ 63.
Definition message_ok (m : CastMessage) : Prop :=
  string_ok (source_id m) /\ string_ok (destination_id m) /\ string_ok (namespace m) /\
  match payload m with
  | PString s => string_ok s
  | PBinary b => bytes_ok b /\ Z.of_nat (length b) < 2 ^ 63
  end.

(** Every string read so far is valid UTF-8. *)
Definition fields_ok (f : Fields) : Prop :=
  (forall s, f_source_id f = Some s -> utf8_valid s = true) /\
  (forall s, f_destination_id f = Some s -> utf8_valid s = true) /\
  (forall s, f_namespace f = Some s -> utf8_valid s = true) /\
  (forall s, f_payload_utf8 f = Some s -> utf8_valid s = true).

Definition payload_utf8 (p : Payload) : bool := match p with PString s => utf8_valid s | PBinary _ => true end.

(** What follows the tag of a field. *)
Definition field_tag (f : Field) : Z :=
  match f with
  | FVarint n _ => n * 8 | FBytes n _ => n * 8 + 2 | FFixed32 n _ => n * 8 + 5 | FFixed64 n _ => n * 8 + 1
  end.
Definition field_body (f : Field) : bytes :=
  match f with
  | FVarint _ v => encode_varint v
  | FBytes _ d => encode_varint (Z.of_nat (length d)) ++ d
  | FFixed32 _ d | FFixed64 _ d => d
  end.

(** ** The decoder is total *)

Lemma decode_varint_go_returns fuel d pos value shift :
  (0 < fuel)%nat -> shift + 7 * Z.of_nat fuel = 70 ->
  returns (decode_varint_go fuel d pos value shift) (fun '(_, pos') => (pos < pos' <= length d)%nat).
Proof.
  revert pos value shift. induction fuel as [|fuel IH]; intros pos value shift Hf Hs; [lia|].
  cbn [decode_varint_go]. destruct (Nat.leb_spec (length d) pos); [done|].
  eapply returns_bind; [apply index_returns; lia|]. intros byte _.
  destruct (_ && _); [done|]. destruct (_ =? 0); [cbn; lia|].
  destruct (Z.leb_spec 64 (shift + 7)); [done|].
  eapply returns_weaken; [apply IH; lia|]. intros [v pos'] Hp. lia.
Qed.

Lemma decode_varint_returns d pos :
  returns (decode_varint d pos) (fun '(_, pos') => (pos < pos' <= length d)%nat).
Proof. apply decode_varint_go_returns; lia. Qed.

Lemma decode_bytes_returns d pos :
  returns (decode_bytes d pos) (fun '(_, pos') => (pos < pos' <= length d)%nat).
Proof.
  eapply returns_bind; [apply decode_varint_returns|]. intros [len pos'] Hp.
  destruct (checked_end pos' len) as [end_|]; cbn [ok_or bind]; [|done].
  destruct (Nat.leb_spec pos' end_), (Nat.leb_spec end_ (length d)); cbn; lia.
Qed.

Lemma decode_string_returns d pos :
  returns (decode_string d pos)
    (fun '(s, pos') => utf8_valid s = true /\ (pos < pos' <= length d)%nat).
Proof.
  eapply returns_bind; [apply decode_bytes_returns|]. intros [s pos'] Hp.
  by destruct (utf8_valid s) eqn:Hs.
Qed.

Lemma skip_bytes_returns d pos n :
  0 < n -> returns (skip_bytes d pos n) (fun '(_, pos') => (pos < pos' <= length d)%nat).
Proof.
  intros Hn. unfold skip_bytes, checked_end. destruct (_ <=? _); cbn [ok_or bind]; [|done].
  destruct (Nat.ltb_spec (length d) (pos + Z.to_nat n)); cbn; lia.
Qed.

Lemma decode_field_returns n w d pos f :
  fields_ok f ->
  returns (decode_field n w d pos f) (fun '(f', pos') => fields_ok f' /\ (pos < pos' <= length d)%nat).
Proof.
  intros Hf. unfold decode_field.
  repeat match goal with |- returns (if ?c then _ else _) _ => destruct c end; [..|done].
  all: eapply returns_bind;
    [first [apply decode_varint_returns | apply decode_string_returns | apply decode_bytes_returns
           | apply skip_bytes_returns; lia]|].
  all: intros [x pos'] Hx; cbn in *; (split; [|tauto]); destruct Hf as (? & ? & ? & ?).
  all: unfold fields_ok; cbn; split_and!; auto; intros ? [= <-]; tauto.
Qed.

Lemma decode_fields_returns fuel d pos f :
  fields_ok f -> (length d <= pos + fuel)%nat -> returns (decode_fields fuel d pos f) fields_ok.
Proof.
  revert pos f. induction fuel as [|fuel IH]; intros pos f Hf Hl; cbn [decode_fields];
    destruct (Nat.leb_spec (length d) pos); try done; [lia|].
  eapply returns_bind; [apply decode_varint_returns|]. intros [tag pos'] Hp.
  eapply returns_bind; [by apply decode_field_returns|]. intros [f' pos''] [Hf' Hp'].
  apply IH; [done|lia].
Qed.

Definition decoded_ok (m : CastMessage) : Prop :=
  utf8_valid (source_id m) = true /\ utf8_valid (destination_id m) = true /\
  utf8_valid (namespace m) = true /\ payload_utf8 (payload m) = true.

Lemma decode_returns d : returns (CastMessage.decode d) decoded_ok.
Proof.
  eapply returns_bind; [apply decode_fields_returns; [done|lia]|]. intros f (Hs & Hd & Hn & Hp).
  unfold finish. destruct (f_source_id f); [|done]. destruct (f_destination_id f); [|done].
  destruct (f_namespace f); [|done]. cbn. split_and!; auto.
  destruct (_ =? 1); [done|]. cbn. destruct (f_payload_utf8 f); cbn; auto.
Qed.

(** C29: the CastMessage decoder is total: on every byte sequence it returns a
    message or an error, it never indexes out of range and its loops end, and
    every string of a decoded message is valid UTF-8. *)
Theorem decode_total d :
  no_panic (CastMessage.decode d) /\
  returns (CastMessage.decode d) (fun m =>
    utf8_valid (source_id m) = true /\ utf8_valid (destination_id m) = true /\
    utf8_valid (namespace m) = true /\ payload_utf8 (payload m) = true).
Proof. split; [eapply returns_no_panic|]; apply decode_returns. Qed.

(** ** Round trip *)

Lemma index_middle {E A} (pre : list A) x post : @index E A (pre ++ x :: post) (length pre) = Ok x.
Proof. apply index_Ok. apply list_lookup_middle. done. Qed.

Lemma varint_byte v :
  let b := Z.lor (Z.land (wrap_u8 v) 0x7F) 0x80 in
  b = 128 + v mod 128 /\ Z.land b 0x7F = v mod 128 /\ (Z.land b 0x80 =? 0) = false.
Proof.
  intros b. pose proof (Z.mod_pos_bound v 128 ltac:(lia)) as Hr.
  assert (Hb : b = Z.lor (Z.shiftl 1 7) (v mod 128)).
  { subst b. rewrite Z.lor_comm. f_equal. change 127 with (Z.ones 7). rewrite Z.land_ones by lia.
    unfold wrap_u8. change (2 ^ 8) with 256. change (2 ^ 7) with 128. zlia. }
  split_and!.
  - rewrite Hb, lor_add_disjoint by (change (2 ^ 7) with 128; lia). lia.
  - rewrite Hb, lor_add_disjoint by (change (2 ^ 7) with 128; lia).
    change 127 with (Z.ones 7). rewrite Z.land_ones by lia. change (2 ^ 7) with 128. zlia.
  - change 128 with (Z.shiftl 1 7). rewrite land_mask_testbit, Hb, Z.lor_spec by lia. done.
Qed.

Lemma small_varint_byte v :
  0 <= v < 128 -> Z.land v 0x7F = v /\ (Z.land v 0x80 =? 0) = true.
Proof.
  intros Hv. split.
  - change 127 with (Z.ones 7). rewrite Z.land_ones by lia. apply Z.mod_small. lia.
  - change 128 with (Z.shiftl 1 7). rewrite land_mask_testbit by lia.
    rewrite <- (Z.mod_small v (2 ^ 7)) by lia. by rewrite Z.mod_pow2_bits_high by lia.
Qed.

Lemma encode_varint_go_cons fuel v :
  128 <= v -> encode_varint_go (S fuel) v = (128 + v mod 128) :: encode_varint_go fuel (v / 128).
Proof.
  intros Hv. cbn [encode_varint_go]. destruct (Z.ltb_spec v 128); [lia|].
  destruct (varint_byte v) as [-> _]. by rewrite Z.shiftr_div_pow2 by lia.
Qed.

Lemma decode_varint_encode fuel pre post v acc shift :
  (0 < fuel)%nat -> shift + 7 * Z.of_nat fuel = 70 -> 0 <= shift -> 0 <= v < 2 ^ (64 - shift) ->
  0 <= acc < 2 ^ shift ->
  decode_varint_go fuel (pre ++ encode_varint_go fuel v ++ post) (length pre) acc shift =
  Ok (acc + v * 2 ^ shift, (length pre + length (encode_varint_go fuel v))%nat).
Proof.
  revert pre v acc shift. induction fuel as [|fuel IH]; intros pre v acc shift Hf Hs H0 Hv Ha; [lia|].
  destruct (Z.lt_ge_cases v 128) as [Hlt|Hge].
  - assert (He : encode_varint_go (S fuel) v = [v])
      by (cbn [encode_varint_go]; by destruct (Z.ltb_spec v 128); [|lia]).
    rewrite He. cbn [app decode_varint_go]. rewrite (proj2 (Nat.leb_gt _ _)) by (rewrite length_app; cbn; lia).
    rewrite index_middle. cbn [bind].
    assert (Hov : (shift =? 63) && (1 <? v) = false).
    { destruct (Z.eqb_spec shift 63) as [->|]; [|done]. cbn in Hv |- *. lia. }
    rewrite Hov. destruct (small_varint_byte v ltac:(lia)) as [-> ->].
    rewrite Z.lor_comm, lor_add_disjoint by lia. cbn [length]. f_equal. f_equal; lia.
  - assert (Hsh : shift + 7 < 64).
    { destruct (Z.lt_ge_cases (shift + 7) 64); [done|]. exfalso.
      assert (2 ^ (64 - shift) <= 2 ^ 7) by (apply Z.pow_le_mono_r; lia). lia. }
    rewrite encode_varint_go_cons by done. cbn [app decode_varint_go].
    rewrite (proj2 (Nat.leb_gt _ _)) by (rewrite length_app; cbn; lia).
    rewrite index_middle. cbn [bind].
    destruct (Z.eqb_spec shift 63); [lia|]. cbn [andb].
    destruct (varint_byte v) as (Hb & Hl & Hc). rewrite Hb in Hl, Hc. rewrite Hl, Hc.
    destruct (Z.leb_spec 64 (shift + 7)); [lia|].
    pose proof (Z.mod_pos_bound v 128 ltac:(lia)). rewrite Z.lor_comm, lor_add_disjoint by lia.
    assert (Hpre : pre ++ (128 + v mod 128) :: encode_varint_go fuel (v / 128) ++ post =
      (pre ++ [128 + v mod 128]) ++ encode_varint_go fuel (v / 128) ++ post) by (by rewrite <- app_assoc).
    rewrite Hpre. replace (S (length pre)) with (length (pre ++ [128 + v mod 128]))
      by (rewrite length_app; cbn; lia).
    assert (Hp7 : 2 ^ (shift + 7) = 2 ^ shift * 128) by (rewrite Z.pow_add_r by lia; done).
    rewrite IH.
    + rewrite Hp7, length_app. cbn [length]. f_equal. f_equal; [|lia].
      rewrite (Z_div_mod_eq_full v 128) at 3. ring.
    + destruct fuel; lia.
    + lia.
    + lia.
    + split; [apply Z.div_pos; lia|]. apply Z.div_lt_upper_bound; [lia|].
      replace (128 * 2 ^ (64 - (shift + 7))) with (2 ^ (64 - shift)); [lia|].
      change 128 with (2 ^ 7). rewrite <- Z.pow_add_r by lia. f_equal. lia.
    + rewrite Hp7. nia.
Qed.

Lemma decode_varint_roundtrip pre post v :
  0 <= v < 2 ^ 64 ->
  decode_varint (pre ++ encode_varint v ++ post) (length pre) =
  Ok (v, length (pre ++ encode_varint v)).
Proof.
  intros Hv. unfold decode_varint, encode_varint.
  rewrite decode_varint_encode by (cbn; lia). rewrite length_app. f_equal. f_equal. lia.
Qed.

Lemma encode_varint_length v : (0 < length (encode_varint v))%nat.
Proof. unfold encode_varint. cbn [encode_varint_go]. destruct (v <? 128); cbn; lia. Qed.

Lemma encode_varint_max v : (length (encode_varint v) <= 10)%nat.
Proof.
  unfold encode_varint. assert (Hg : forall fuel x, (length (encode_varint_go fuel x) <= fuel)%nat).
  { intros fuel. induction fuel as [|fuel IH]; intros x; cbn [encode_varint_go length]; [lia|].
    destruct (x <? 128); cbn [length]; [lia|]. pose proof (IH (Z.shiftr x 7)). lia. }
  apply Hg.
Qed.

Lemma decode_bytes_roundtrip pre post d :
  Z.of_nat (length d) < 2 ^ 63 -> Z.of_nat (length pre) < 2 ^ 62 ->
  decode_bytes (pre ++ (encode_varint (Z.of_nat (length d)) ++ d) ++ post) (length pre) =
  Ok (d, length (pre ++ encode_varint (Z.of_nat (length d)) ++ d)).
Proof.
  intros Hd Hpre. set (v := encode_varint (Z.of_nat (length d))). unfold decode_bytes.
  replace (pre ++ (v ++ d) ++ post) with (pre ++ v ++ (d ++ post)) by (by rewrite <- app_assoc).
  subst v. rewrite decode_varint_roundtrip by lia. cbn [bind].
  set (v := encode_varint (Z.of_nat (length d))).
  assert (Hv : (length v <= 10)%nat) by (subst v; apply encode_varint_max).
  unfold checked_end, u64_max. rewrite length_app.
  destruct (Z.leb_spec (Z.of_nat (length pre + length v) + Z.of_nat (length d)) (2 ^ 64 - 1)); [|lia].
  cbn [ok_or bind]. rewrite Nat2Z.id, !length_app.
  rewrite (proj2 (Nat.leb_le _ _)), (proj2 (Nat.leb_le _ _)) by lia. cbn [andb].
  replace (length pre + length v + length d - (length pre + length v))%nat with (length d) by lia.
  replace (pre ++ v ++ d ++ post) with ((pre ++ v) ++ d ++ post) by (by rewrite <- app_assoc).
  rewrite drop_app_length' by (by rewrite length_app). rewrite take_app_length. f_equal. f_equal. lia.
Qed.

Lemma decode_string_roundtrip pre post d :
  Z.of_nat (length d) < 2 ^ 63 -> Z.of_nat (length pre) < 2 ^ 62 ->
  decode_string (pre ++ (encode_varint (Z.of_nat (length d)) ++ d) ++ post) (length pre) =
  if utf8_valid d then Ok (d, length (pre ++ encode_varint (Z.of_nat (length d)) ++ d)) else Err InvalidUtf8.
Proof. intros. unfold decode_string. by rewrite decode_bytes_roundtrip. Qed.

Lemma tag_split n w :
  0 <= n < 2 ^ 29 -> 0 <= w < 8 -> wrap_u32 (Z.shiftr (n * 8 + w) 3) = n /\ Z.land (n * 8 + w) 7 = w.
Proof.
  intros Hn Hw. change 7 with (Z.ones 3). rewrite Z.land_ones, Z.shiftr_div_pow2 by lia.
  unfold wrap_u32. change (2 ^ 3) with 8. split; zlia.
Qed.

Lemma skip_bytes_roundtrip pre d post :
  Z.of_nat (length pre) < 2 ^ 62 -> (length d <= 8)%nat ->
  skip_bytes (pre ++ d ++ post) (length pre) (Z.of_nat (length d)) = Ok (tt, length (pre ++ d)).
Proof.
  intros Hp Hd. unfold skip_bytes, checked_end, u64_max. destruct (Z.leb_spec (Z.of_nat (length pre) + Z.of_nat (length d)) (2 ^ 64 - 1)); [|lia].
  cbn [ok_or bind]. rewrite Nat2Z.id, !length_app.
  by rewrite (proj2 (Nat.ltb_ge _ _)) by lia.
Qed.

Lemma encode_tagged_split f : encode_tagged f = encode_varint (field_tag f) ++ field_body f.
Proof. by destruct f. Qed.

(** One field is read back as what it means. *)
Lemma decode_field_encode pre post f fs :
  field_ok f -> Z.of_nat (length pre) < 2 ^ 62 ->
  decode_field (wrap_u32 (Z.shiftr (field_tag f) 3)) (Z.land (field_tag f) 7)
    (pre ++ field_body f ++ post) (length pre) fs =
  match apply_field fs f with
  | Some fs' => Ok (fs', length (pre ++ field_body f))
  | None => Err InvalidUtf8
  end.
Proof.
  intros Hf Hp. destruct f as [n v|n d|n d|n d]; cbn [field_ok field_tag field_body apply_field] in *; destruct Hf as [Hn Hf].
  - rewrite <- (Z.add_0_r (n * 8)). destruct (tag_split n 0 Hn ltac:(lia)) as [-> ->]. unfold decode_field.
    cbn [Z.eqb]. rewrite !andb_false_r, !andb_true_r.
    destruct (Z.eqb_spec n 1) as [->|]; [by rewrite decode_varint_roundtrip|].
    destruct (Z.eqb_spec n 5) as [->|]; by rewrite decode_varint_roundtrip.
  - destruct (tag_split n 2 Hn ltac:(lia)) as [-> ->]. unfold decode_field. destruct Hf as [_ Hl].
    change (2 =? 2) with true. change (2 =? 0) with false. rewrite !andb_false_r, !andb_true_r.
    destruct (n =? 2); [rewrite decode_string_roundtrip by done; by destruct (utf8_valid d)|].
    destruct (n =? 3); [rewrite decode_string_roundtrip by done; by destruct (utf8_valid d)|].
    destruct (n =? 4); [rewrite decode_string_roundtrip by done; by destruct (utf8_valid d)|].
    destruct (n =? 6); [rewrite decode_string_roundtrip by done; by destruct (utf8_valid d)|].
    destruct (n =? 7); by rewrite decode_bytes_roundtrip.
  - destruct (tag_split n 5 Hn ltac:(lia)) as [-> ->]. unfold decode_field. destruct Hf as [_ Hl].
    change (5 =? 2) with false. change (5 =? 0) with false. rewrite !andb_false_r.
    change 4 with (Z.of_nat 4) at 1. rewrite <- Hl. by rewrite skip_bytes_roundtrip by lia.
  - destruct (tag_split n 1 Hn ltac:(lia)) as [-> ->]. unfold decode_field. destruct Hf as [_ Hl].
    change (1 =? 2) with false. change (1 =? 0) with false. rewrite !andb_false_r.
    change 8 with (Z.of_nat 8) at 1. rewrite <- Hl. by rewrite skip_bytes_roundtrip by lia.
Qed.

Lemma field_tag_range f : field_ok f -> 0 <= field_tag f < 2 ^ 64.
Proof. destruct f; cbn; intros [? ?]; lia. Qed.

Lemma decode_fields_encode fuel pre l fs :
  Forall field_ok l -> (length l <= fuel)%nat ->
  Z.of_nat (length (pre ++ concat (map encode_tagged l))) < 2 ^ 62 ->
  decode_fields fuel (pre ++ concat (map encode_tagged l)) (length pre) fs =
  match apply_fields fs l with Some fs' => Ok fs' | None => Err InvalidUtf8 end.
Proof.
  intros Hl. revert fuel pre fs. induction Hl as [|f l Hf Hl IH]; intros fuel pre fs Hfuel Hlen.
  - cbn [map concat]. rewrite app_nil_r. destruct fuel; cbn; by rewrite Nat.leb_refl.
  - destruct fuel as [|fuel]; [cbn in Hfuel; lia|]. cbn [map concat apply_fields] in *.
    set (rest := concat (map encode_tagged l)) in *. rewrite encode_tagged_split in *.
    pose proof (encode_varint_length (field_tag f)). rewrite !length_app in Hlen.
    cbn [decode_fields]. rewrite (proj2 (Nat.leb_gt _ _)) by (rewrite !length_app; lia).
    replace (pre ++ (encode_varint (field_tag f) ++ field_body f) ++ rest)
      with (pre ++ encode_varint (field_tag f) ++ (field_body f ++ rest)) by (by rewrite <- app_assoc).
    rewrite decode_varint_roundtrip by (by apply field_tag_range). cbn [bind].
    rewrite app_assoc. rewrite decode_field_encode by (done || rewrite length_app; lia).
    destruct (apply_field fs f) as [fs'|]; cbn [bind mbind option_bind]; [|done].
    rewrite app_assoc. apply IH; [cbn in Hfuel; lia|]. rewrite !length_app. lia.
Qed.

Lemma encode_message_fields m :
  CastMessage.encode m = concat (map encode_tagged (message_fields m)).
Proof.
  unfold CastMessage.encode, message_fields, encode_varint_field, encode_string_field, encode_bytes_field.
  destruct (payload m); cbn [map concat app encode_tagged]; by rewrite ?app_nil_r, <- ?app_assoc.
Qed.

Lemma message_fields_ok m : message_ok m -> Forall field_ok (message_fields m).
Proof.
  intros ((? & ? & ?) & (? & ? & ?) & (? & ? & ?) & Hp). unfold message_fields.
  destruct (payload m); [destruct Hp as (? & ? & ?)|destruct Hp as (? & ?)];
    repeat constructor; cbn; auto; lia.
Qed.

Lemma tagged_count l : (length l <= length (concat (map encode_tagged l)))%nat.
Proof.
  induction l as [|f l IH]; cbn; [lia|]. rewrite encode_tagged_split, !length_app.
  pose proof (encode_varint_length (field_tag f)). lia.
Qed.

(** The wire format is the protobuf encoding of the message's fields:
    decoding any sequence of well-formed fields, in any order and with unknown
    fields of any wire type among them, gives the message those fields mean,
    and fails only when a text field is not UTF-8 or a required one is missing. *)
Theorem decode_fields_spec l :
  Forall field_ok l -> Z.of_nat (length (concat (map encode_tagged l))) < 2 ^ 62 ->
  CastMessage.decode (concat (map encode_tagged l)) =
  match apply_fields no_fields l with Some fs => finish fs | None => Err InvalidUtf8 end.
Proof.
  intros Hl Hlen. unfold CastMessage.decode.
  pose proof (decode_fields_encode (length (concat (map encode_tagged l))) [] l no_fields Hl) as Hd.
  cbn [app length] in Hd. rewrite Hd by (done || apply tagged_count). by destruct (apply_fields no_fields l).
Qed.

Lemma decode_fields_spec_witness :
  CastMessage.decode (concat (map encode_tagged
    [FBytes 4 [110]; FVarint 99 7; FBytes 3 [114]; FFixed32 12 [1; 2; 3; 4]; FBytes 2 [115]; FBytes 6 [123; 125]]))
  = Ok (MkCastMessage [115] [114] [110] (PString [123; 125])).
Proof.
  rewrite (decode_fields_spec [FBytes 4 [110]; FVarint 99 7; FBytes 3 [114]; FFixed32 12 [1; 2; 3; 4];
    FBytes 2 [115]; FBytes 6 [123; 125]]); [reflexivity| |vm_compute; reflexivity].
  repeat (constructor; [cbn; split_and!; try lia; try solve_bytes; done|]). constructor.
Defined.

Lemma decode_encode_message m :
  message_ok m -> Z.of_nat (length (CastMessage.encode m)) < 2 ^ 62 ->
  CastMessage.decode (CastMessage.encode m) = Ok m.
Proof.
  intros Hm Hlen. unfold CastMessage.decode. rewrite encode_message_fields in *.
  pose proof (decode_fields_encode (length (concat (map encode_tagged (message_fields m)))) [] (message_fields m)
    no_fields (message_fields_ok m Hm)) as Hd.
  cbn [app length] in Hd. rewrite Hd by (done || apply tagged_count). clear Hd Hlen.
  destruct Hm as ((Hs & _) & (Hdest & _) & (Hn & _) & Hp). destruct m as [src dst ns [s|b]]; cbn in *.
  - destruct Hp as (Hp & _). by rewrite Hs, Hdest, Hn, Hp.
  - by rewrite Hs, Hdest, Hn.
Qed.

(** Every CastMessage survives encoding and decoding. *)
Theorem message_roundtrip m :
  message_ok m -> Z.of_nat (length (CastMessage.encode m)) < 2 ^ 62 ->
  CastMessage.decode (CastMessage.encode m) = Ok m.
Proof. apply decode_encode_message. Qed.

Lemma message_roundtrip_witness :
  CastMessage.decode (CastMessage.encode (MkCastMessage [115; 195; 169] [114] [110] (PBinary [0; 255]))) =
  Ok (MkCastMessage [115; 195; 169] [114] [110] (PBinary [0; 255])).
Proof.
  apply message_roundtrip; [|vm_compute; reflexivity].
  unfold message_ok, string_ok. cbn. split_and!; try lia; try solve_bytes; reflexivity.
Defined.
