(* ===== verification/Protobuf.v ===== *)
(** * Protobuf wire primitives, in their second form

    [control/proto.rs] reads varints by position and writes them with a test
    before each byte ([CastProto]); [control/auth.rs] and the Android TV code
    consume a slice and push bytes in a loop.  Both forms are kept as they are
    written and shown to agree. *)

From S2P Require Import Prelude CastProto.

(** The [loop] that pushes a byte and stops at the last one; ten rounds on a
    [u64]. *)
Fixpoint push_varint_go (fuel : nat) (value : Z) : bytes :=
  match fuel with
  | O => []
  | S fuel' =>
    let byte := Z.land value 0x7F in
    let value := Z.shiftr value 7 in
    if value =? 0 then [byte] else Z.lor byte 0x80 :: push_varint_go fuel' value
  end.
Definition push_varint (value : Z) : bytes := push_varint_go 10 value.

(** The Android TV frame scanner's [take_varint]: the value and the rest. *)
Fixpoint scan_varint_go (fuel : nat) (value shift : Z) (d : bytes) : option (Z * bytes) :=
  match fuel with
  | O => None
  | S fuel' =>
    match d with
    | [] => None
    | byte :: d =>
      if (shift =? 63) && (1 <? byte) then None else
      let value := Z.lor value (Z.shiftl (Z.land byte 0x7F) shift) in
      if Z.land byte 0x80 =? 0 then Some (value, d) else scan_varint_go fuel' value (shift + 7) d
    end
  end.
Definition scan_varint (d : bytes) : option (Z * bytes) := scan_varint_go 10 0 0 d.

(** ** The two forms agree *)

Lemma push_varint_go_eq fuel v : 0 <= v -> push_varint_go fuel v = encode_varint_go fuel v.
Proof.
  revert v. induction fuel as [|fuel IH]; intros v Hv; [done|]. cbn [push_varint_go].
  destruct (Z.lt_ge_cases v 128) as [Hlt|Hge].
  - cbn [encode_varint_go]. destruct (Z.ltb_spec v 128); [|lia].
    rewrite Z.shiftr_div_pow2, Z.div_small by lia. cbn [Z.eqb].
    by destruct (small_varint_byte v ltac:(lia)) as [-> _].
  - assert (Hq : Z.shiftr v 7 = v / 128) by (by rewrite Z.shiftr_div_pow2 by lia).
    rewrite encode_varint_go_cons, Hq by done.
    destruct (Z.eqb_spec (v / 128) 0); [zlia|]. rewrite IH by (apply Z.div_pos; lia). f_equal.
    destruct (varint_byte v) as [<- _]. f_equal.
    change 127 with (Z.ones 7). rewrite !Z.land_ones by lia. unfold wrap_u8.
    change (2 ^ 8) with 256. change (2 ^ 7) with 128. zlia.
Qed.

Lemma push_varint_eq v : 0 <= v -> push_varint v = encode_varint v.
Proof. apply push_varint_go_eq. Qed.

Lemma scan_varint_go_decode fuel d pos value shift :
  shift + 7 * Z.of_nat fuel = 70 -> (pos <= length d)%nat ->
  scan_varint_go fuel value shift (drop pos d) =
  match decode_varint_go fuel d pos value shift with Ok (v, p) => Some (v, drop p d) | _ => None end.
Proof.
  revert pos value shift. induction fuel as [|fuel IH]; intros pos value shift Hs Hp; [done|].
  cbn [scan_varint_go decode_varint_go]. destruct (Nat.leb_spec (length d) pos) as [Hle|Hlt].
  { by rewrite drop_ge by lia. }
  destruct (lookup_lt_is_Some_2 d pos Hlt) as [byte Hb]. rewrite (drop_S _ _ _ Hb), (index_Ok _ _ _ Hb).
  cbn [bind]. destruct (_ && _); [done|]. destruct (_ =? 0); [done|].
  destruct (Z.leb_spec 64 (shift + 7)).
  - replace fuel with 0%nat by lia. done.
  - apply IH; lia.
Qed.

Lemma scan_varint_decode d :
  scan_varint d = match decode_varint d 0 with Ok (v, p) => Some (v, drop p d) | _ => None end.
Proof. unfold scan_varint, decode_varint. rewrite <- scan_varint_go_decode by (cbn; lia). by rewrite drop_0. Qed.

Lemma scan_varint_encode v post : 0 <= v < 2 ^ 64 -> scan_varint (encode_varint v ++ post) = Some (v, post).
Proof.
  intros Hv. rewrite scan_varint_decode.
  pose proof (decode_varint_roundtrip [] post v Hv) as Hd. cbn [app length] in Hd.
  rewrite Hd. by rewrite drop_app_length.
Qed.

Lemma scan_varint_length d v rest : scan_varint d = Some (v, rest) -> (length rest < length d)%nat.
Proof.
  rewrite scan_varint_decode. pose proof (decode_varint_returns d 0) as Hr.
  destruct (decode_varint d 0) as [[v' p]|e|]; [|done|done]. cbn in Hr.
  intros [= <- <-]. rewrite length_drop. lia.
Qed.

Lemma scan_varint_range d v rest : bytes_ok d -> scan_varint d = Some (v, rest) -> 0 <= v < 2 ^ 64 /\ bytes_ok rest.
Proof.
  unfold scan_varint. intros Hd.
  assert (Hgo : forall fuel value shift d, bytes_ok d -> 0 <= shift -> shift + 7 * Z.of_nat fuel = 70 ->
    0 <= value < 2 ^ shift -> scan_varint_go fuel value shift d = Some (v, rest) ->
    0 <= v < 2 ^ 64 /\ bytes_ok rest); [|intros; eapply Hgo; [exact Hd| | | |eassumption]; cbn; lia].
  clear. induction fuel as [|fuel IH]; intros value shift d Hd H0 Hs Hv Hg; [done|].
  cbn [scan_varint_go] in Hg. destruct d as [|byte d]; [done|].
  apply Forall_cons_iff in Hd as [Hb Hd]. unfold is_byte in Hb.
  destruct ((shift =? 63) && (1 <? byte)) eqn:Hov; [done|].
  assert (Hl : Z.land byte 0x7F = byte mod 128) by (change 127 with (Z.ones 7); by rewrite Z.land_ones).
  rewrite Hl, Z.lor_comm, lor_add_disjoint in Hg by lia.
  pose proof (Z.mod_pos_bound byte 128 ltac:(lia)) as Hm.
  destruct (Z.land byte 0x80 =? 0).
  - injection Hg as <- <-. split; [|done]. split; [nia|].
    destruct (Z.eq_dec shift 63) as [->|Hne].
    + cbn [Z.eqb andb] in Hov. assert (byte <= 1) by (destruct (Z.ltb_spec 1 byte); [done|lia]).
      rewrite Z.mod_small by lia. nia.
    + assert (2 ^ (shift + 7) <= 2 ^ 64) by (apply Z.pow_le_mono_r; lia).
      rewrite Z.pow_add_r in * by lia. change (2 ^ 7) with 128 in *. nia.
  - eapply IH; [exact Hd| | | |exact Hg]; [lia|lia|].
    rewrite Z.pow_add_r by lia. change (2 ^ 7) with 128. nia.
Qed.

(** What is written is bytes. *)
Lemma encode_varint_ok v : 0 <= v -> bytes_ok (encode_varint v).
Proof.
  unfold encode_varint. generalize 10%nat as fuel. intros fuel. revert v.
  induction fuel as [|fuel IH]; intros v Hv; [constructor|].
  destruct (Z.lt_ge_cases v 128) as [Hlt|Hge].
  - cbn [encode_varint_go]. destruct (Z.ltb_spec v 128); [|lia]. repeat constructor; lia.
  - rewrite encode_varint_go_cons by done. constructor; [|apply IH, Z.div_pos; lia].
    unfold is_byte. pose proof (Z.mod_pos_bound v 128 ltac:(lia)). lia.
Qed.

Lemma encode_tagged_ok f : field_ok f -> bytes_ok (encode_tagged f).
Proof.
  destruct f as [n v|n d|n d|n d]; cbn [field_ok encode_tagged]; intros Hf; unfold bytes_ok;
    rewrite ?Forall_app; repeat (split || apply encode_varint_ok); tauto || lia.
Qed.

Lemma encode_fields_ok l : Forall field_ok l -> bytes_ok (concat (map encode_tagged l)).
Proof.
  induction 1 as [|f l Hf Hl IH]; [constructor|]. cbn [map concat]. apply Forall_app.
  split; [by apply encode_tagged_ok|done].
Qed.
