(* ===== verification/CastFraming.v ===== *)
(** * Length-prefixed framing of the control channel ([src/src/control/framing.rs])

    [FramedReader] keeps its progress in its own state so that a future
    dropped at an [await] can be resumed.  The class [AsyncRead] stands for the
    TLS stream: a read fills at most the given number of bytes, fails, or is
    cancelled (the caller drops the future at that point). *)

From stdpp Require Import strings.
From S2P Require Import Prelude Text Errors CastProto.

Inductive ReadResult :=
| ReadOk (chunk : bytes)
| ReadErr (e : IoError)
| ReadCancelled.

Class AsyncRead (R : Type) := read : R -> nat -> R * ReadResult.

(** What tokio documents of [AsyncReadExt::read] on a byte stream whose
    contents not yet delivered are [unread]: at most [cap] bytes arrive, in
    order; an empty read on a nonempty buffer is the end of the stream; a
    cancelled read has taken nothing. *)
Class AsyncReadLaws (R : Type) `{AsyncRead R} := {
  unread : R -> bytes;
  read_ok r cap r' chunk : read r cap = (r', ReadOk chunk) ->
    (length chunk <= cap)%nat /\ unread r = chunk ++ unread r' /\
    ((0 < cap)%nat -> chunk = [] -> unread r = []);
  read_cancelled r cap r' : read r cap = (r', ReadCancelled) -> unread r' = unread r;
}.

Record FramedReader := MkFramedReader {
  len_buf : bytes;
  len_filled : nat;
  body_buf : bytes;
  body_filled : nat;
  body_expected : nat;
}.
#[export] Instance FramedReader_eta : Eta FramedReader := fun s =>
  MkFramedReader (len_buf s) (len_filled s) (body_buf s) (body_filled s) (body_expected s).

(** What a poll of the future comes to: a result, or a drop at an [await]. *)
Inductive Poll (A : Type) := Ready (r : Result IoError A) | Dropped.
Arguments Ready {A} r.
Arguments Dropped {A}.

(** The bytes a read stores at [off] of a buffer. *)
Definition splice (buf : bytes) (off : nat) (chunk : bytes) : bytes :=
  take off buf ++ chunk ++ drop (off + length chunk) buf.

(** [Vec::resize(n, 0)]. *)
Definition resize (n : nat) (buf : bytes) : bytes := take n buf ++ replicate (n - length buf) 0.

Definition MAX_MESSAGE_SIZE : Z := Z.shiftl 1 20.

Definition eof (message : string) : IoError := MkIoError UnexpectedEof message.
Definition invalid_data (message : string) : IoError := MkIoError InvalidData message.

Module FramedReader.
Definition new : FramedReader := MkFramedReader [0; 0; 0; 0] 0 [] 0 0.

Section Read.
Context {R : Type} `{AsyncRead R}.

(** [while self.len_filled < 4]. *)
Fixpoint read_length (fuel : nat) (r : R) (self : FramedReader) : R * FramedReader * Poll unit :=
  if (4 <=? len_filled self)%nat then (r, self, Ready (Ok tt)) else
  match fuel with
  | O => (r, self, Ready Panic)
  | S fuel' =>
    match read r (4 - len_filled self) with
    | (r, ReadErr e) => (r, self, Ready (Err e))
    | (r, ReadCancelled) => (r, self, Dropped)
    | (r, ReadOk []) =>
      (r, self, Ready (Err (eof "connection closed while reading message length")))
    | (r, ReadOk chunk) =>
      read_length fuel' r
        (self <| len_buf := splice (len_buf self) (len_filled self) chunk |>
              <| len_filled := (len_filled self + length chunk)%nat |>)
    end
  end.

(** [if self.body_expected == 0]. *)
Definition start_body (self : FramedReader) : FramedReader * Result IoError unit :=
  if (body_expected self =? 0)%nat then
    let self := self <| body_expected := Z.to_nat (from_be (len_buf self)) |> in
    if (body_expected self =? 0)%nat then (self, Err (invalid_data "zero-length message"))
    else if MAX_MESSAGE_SIZE <? Z.of_nat (body_expected self)
    then (self, Err (invalid_data "message too large"))
    else (self <| body_buf := resize (body_expected self) (body_buf self) |>
               <| body_filled := 0%nat |>, Ok tt)
  else (self, Ok tt).

(** [while self.body_filled < self.body_expected]; the slice given to [read]
    panics when the buffer is shorter than [body_expected]. *)
Fixpoint read_body (fuel : nat) (r : R) (self : FramedReader) : R * FramedReader * Poll unit :=
  if (body_expected self <=? body_filled self)%nat then (r, self, Ready (Ok tt)) else
  match fuel with
  | O => (r, self, Ready Panic)
  | S fuel' =>
    match @slice IoError Z (body_buf self) (body_filled self) (body_expected self) with
    | Ok _ =>
      match read r (body_expected self - body_filled self) with
      | (r, ReadErr e) => (r, self, Ready (Err e))
      | (r, ReadCancelled) => (r, self, Dropped)
      | (r, ReadOk []) =>
        (r, self, Ready (Err (eof "connection closed while reading message body")))
      | (r, ReadOk chunk) =>
        read_body fuel' r
          (self <| body_buf := splice (body_buf self) (body_filled self) chunk |>
                <| body_filled := (body_filled self + length chunk)%nat |>)
      end
    | _ => (r, self, Ready Panic)
    end
  end.

(** The tail of [read_message]: decode and reset. *)
Definition take_message (self : FramedReader) : FramedReader * Result IoError CastMessage :=
  match @slice IoError Z (body_buf self) 0 (body_expected self) with
  | Ok body =>
    match CastMessage.decode body with
    | Ok m => (self <| len_filled := 0%nat |> <| body_expected := 0%nat |> <| body_filled := 0%nat |>, Ok m)
    | Err e => (self, Err (invalid_data (decode_error_to_string e)))
    | Panic => (self, Panic)
    end
  | _ => (self, Panic)
  end.

Definition read_message (r : R) (self : FramedReader) : R * FramedReader * Poll CastMessage :=
  let '(r, self, p) := read_length 4 r self in
  match p with
  | Dropped => (r, self, Dropped)
  | Ready (Err e) => (r, self, Ready (Err e))
  | Ready Panic => (r, self, Ready Panic)
  | Ready (Ok _) =>
    match start_body self with
    | (self, Err e) => (r, self, Ready (Err e))
    | (self, Panic) => (r, self, Ready Panic)
    | (self, Ok _) =>
      let '(r, self, p) := read_body (body_expected self) r self in
      match p with
      | Dropped => (r, self, Dropped)
      | Ready (Err e) => (r, self, Ready (Err e))
      | Ready Panic => (r, self, Ready Panic)
      | Ready (Ok _) => let '(self, m) := take_message self in (r, self, Ready m)
      end
    end
  end.
End Read.
End FramedReader.

Module FramedWriter.
(** The bytes [write_message] writes before it flushes. *)
Definition write_message (msg : CastMessage) : bytes :=
  let encoded := CastMessage.encode msg in
  to_be 4 (wrap_u32 (Z.of_nat (length encoded))) ++ encoded.
End FramedWriter.

(** ** Reference state *)

(** The bytes of the current frame the reader has taken so far. *)
Definition taken (s : FramedReader) : bytes :=
  take (len_filled s) (len_buf s) ++ take (body_filled s) (body_buf s).

(** The states between two polls: either the length is incomplete, or the
    body has been started and its buffer has the announced length. *)
Record reader_ok (s : FramedReader) : Prop := {
  ro_len_buf : length (len_buf s) = 4%nat;
  ro_len : (len_filled s <= 4)%nat;
  ro_idle : body_expected s = 0%nat -> body_filled s = 0%nat;
  ro_body : body_expected s <> 0%nat ->
    len_filled s = 4%nat /\ from_be (len_buf s) = Z.of_nat (body_expected s) /\
    length (body_buf s) = body_expected s /\ (body_filled s <= body_expected s)%nat /\
    Z.of_nat (body_expected s) <= MAX_MESSAGE_SIZE;
}.

(** A byte stream delivered in the given chunk sizes, [0] meaning that the
    caller drops the future there; for the witnesses. *)
Record ChunkedStream := MkChunked { cs_data : bytes; cs_sizes : list nat }.
#[export] Instance chunked_read : AsyncRead ChunkedStream := fun s cap =>
  match cs_sizes s with
  | 0%nat :: sizes => (MkChunked (cs_data s) sizes, ReadCancelled)
  | n :: sizes =>
    let k := Nat.min n cap in
    (MkChunked (drop k (cs_data s)) sizes, ReadOk (take k (cs_data s)))
  | [] => (MkChunked (drop cap (cs_data s)) [], ReadOk (take cap (cs_data s)))
  end.
#[export] Instance chunked_read_laws : AsyncReadLaws ChunkedStream.
Proof.
  refine {| unread := cs_data |}.
  - intros [d sizes] cap r' chunk. unfold read, chunked_read. cbn [cs_sizes cs_data].
    assert (Hgen : forall k, (k <= cap)%nat -> ((0 < cap)%nat -> (0 < k)%nat) ->
      (length (take k d) <= cap)%nat /\ d = take k d ++ drop k d /\ ((0 < cap)%nat -> take k d = [] -> d = [])).
    { intros k Hk Hpos. rewrite take_drop, length_take. split_and!; [lia|done|].
      intros Hc Ht. specialize (Hpos Hc). destruct d; [done|]. destruct k; [lia|done]. }
    destruct sizes as [|[|n] sizes]; intros [= <- <-];
      [apply (Hgen cap)|apply (Hgen (Nat.min (S n) cap))]; lia.
  - intros [d sizes] cap r'. unfold read, chunked_read. cbn.
    destruct sizes as [|[|n] sizes]; intros [= <-]; done.
Defined.

(** ** Lemmas *)

Lemma splice_take buf off chunk :
  (off <= length buf)%nat -> take (off + length chunk) (splice buf off chunk) = take off buf ++ chunk.
Proof.
  intros Ho. unfold splice. rewrite app_assoc.
  rewrite take_app_le by (rewrite length_app, length_take; lia).
  apply take_ge. rewrite length_app, length_take. lia.
Qed.

Lemma splice_length buf off chunk :
  (off + length chunk <= length buf)%nat -> length (splice buf off chunk) = length buf.
Proof. intros Ho. unfold splice. rewrite !length_app, length_take, length_drop. lia. Qed.

Lemma resize_length n buf : length (resize n buf) = n.
Proof. unfold resize. rewrite length_app, length_take, length_replicate. lia. Qed.

Section Reading.
Context {R : Type} `{AsyncReadLaws R}.

(** An error that comes from the transport itself. *)
Definition transport_failure (e : IoError) : Prop :=
  exists (r r' : R) cap, read r cap = (r', ReadErr e).

Lemma read_length_spec fuel r s F :
  reader_ok s -> body_expected s = 0%nat -> (4 <= len_filled s + fuel)%nat -> (4 <= length F)%nat ->
  taken s ++ unread r = F ->
  let '(r', s', p) := FramedReader.read_length fuel r s in
  match p with
  | Ready (Ok _) => reader_ok s' /\ body_expected s' = 0%nat /\ len_filled s' = 4%nat /\
                    taken s' ++ unread r' = F
  | Dropped => reader_ok s' /\ taken s' ++ unread r' = F
  | Ready (Err e) => transport_failure e
  | Ready Panic => False
  end.
Proof.
  revert r s. induction fuel as [|fuel IH]; intros r s Hs Hb Hf HF Ht; cbn [FramedReader.read_length];
    pose proof (ro_len s Hs) as Hlen; destruct (Nat.leb_spec 4 (len_filled s)) as [H4|H4].
  1, 3: split_and!; auto; lia.
  { lia. }
  pose proof (ro_idle s Hs Hb) as Hbf. pose proof (ro_len_buf s Hs) as Hlb.
  destruct (read r (4 - len_filled s)) as [r' [chunk|e|]] eqn:He.
  - apply read_ok in He as (Hle & Hu & Heof). destruct chunk as [|x chunk].
    { exfalso. specialize (Heof ltac:(lia) eq_refl). rewrite Heof, app_nil_r in Ht.
      unfold taken in Ht. rewrite Hbf in Ht. apply (f_equal length) in Ht.
      rewrite length_app, !length_take in Ht. lia. }
    set (c := x :: chunk) in *. assert (Hc : (0 < length c)%nat) by (subst c; cbn; lia). clearbody c.
    apply IH; cbn [body_expected len_filled update FramedReader_eta].
    + constructor; cbn; [rewrite splice_length by lia; done|lia|done|intros; lia].
    + done.
    + lia.
    + done.
    + unfold taken in *. cbn. rewrite Hbf in *. rewrite splice_take by lia.
      rewrite <- Ht, Hu. cbn [take]. by rewrite !app_nil_r, <- app_assoc.
  - by exists r, r', (4 - len_filled s)%nat.
  - apply read_cancelled in He. by rewrite He.
Qed.

Lemma read_body_spec fuel r s F n :
  reader_ok s -> body_expected s = n -> n <> 0%nat -> (n <= body_filled s + fuel)%nat ->
  (4 + n <= length F)%nat -> taken s ++ unread r = F ->
  let '(r', s', p) := FramedReader.read_body fuel r s in
  match p with
  | Ready (Ok _) => reader_ok s' /\ body_expected s' = n /\
                    body_filled s' = body_expected s' /\ taken s' ++ unread r' = F
  | Dropped => reader_ok s' /\ taken s' ++ unread r' = F
  | Ready (Err e) => transport_failure e
  | Ready Panic => False
  end.
Proof.
  revert r s. induction fuel as [|fuel IH]; intros r s Hs Hn Hb Hf HF Ht; cbn [FramedReader.read_body];
    destruct (ro_body s Hs ltac:(lia)) as (Hl4 & Hbe & Hbl & Hbf & Hmax); pose proof (ro_len_buf s Hs) as Hlb;
    destruct (Nat.leb_spec (body_expected s) (body_filled s)) as [Hfull|Hmore].
  1, 3: split_and!; auto; lia.
  { lia. }
  rewrite slice_Ok by lia.
  destruct (read r (body_expected s - body_filled s)) as [r' [chunk|e|]] eqn:He.
  - apply read_ok in He as (Hle & Hu & Heof). destruct chunk as [|x chunk].
    { exfalso. specialize (Heof ltac:(lia) eq_refl). rewrite Heof, app_nil_r in Ht.
      unfold taken in Ht. apply (f_equal length) in Ht. rewrite length_app, !length_take in Ht. lia. }
    set (c := x :: chunk) in *. assert (Hc : (0 < length c)%nat) by (subst c; cbn; lia). clearbody c.
    apply IH; cbn [body_expected body_filled update FramedReader_eta].
    + constructor; cbn; [done|lia|intros; lia|]. intros _. rewrite splice_length by lia. split_and!; auto; lia.
    + done.
    + done.
    + lia.
    + done.
    + unfold taken in *. cbn. rewrite splice_take by lia. rewrite <- Ht, Hu. by rewrite <- !app_assoc.
  - by exists r, r', (body_expected s - body_filled s)%nat.
  - apply read_cancelled in He. by rewrite He.
Qed.

(** The frame of a message. *)
Lemma frame_bytes m :
  Z.of_nat (length (CastMessage.encode m)) <= MAX_MESSAGE_SIZE ->
  length (to_be 4 (wrap_u32 (Z.of_nat (length (CastMessage.encode m))))) = 4%nat /\
  from_be (to_be 4 (wrap_u32 (Z.of_nat (length (CastMessage.encode m))))) =
    Z.of_nat (length (CastMessage.encode m)).
Proof.
  intros Hm. change MAX_MESSAGE_SIZE with 1048576 in Hm. split; [apply length_to_be|].
  assert (Hw : wrap_u32 (Z.of_nat (length (CastMessage.encode m))) = Z.of_nat (length (CastMessage.encode m)))
    by (unfold wrap_u32; apply Z.mod_small; lia).
  rewrite Hw. apply from_be_to_be_small. change (2 ^ (8 * Z.of_nat 4)) with 4294967296. lia.
Qed.

Lemma encode_nonempty m : (0 < length (CastMessage.encode m))%nat.
Proof.
  unfold CastMessage.encode, encode_varint_field. rewrite !length_app.
  pose proof (encode_varint_length (Z.shiftl 1 3)). lia.
Qed.

(** With the length complete, the announced size is the message's. *)
Lemma taken_length s r m rest :
  reader_ok s -> len_filled s = 4%nat ->
  taken s ++ unread r = FramedWriter.write_message m ++ rest ->
  Z.of_nat (length (CastMessage.encode m)) <= MAX_MESSAGE_SIZE ->
  from_be (len_buf s) = Z.of_nat (length (CastMessage.encode m)) /\
  take (body_filled s) (body_buf s) ++ unread r = CastMessage.encode m ++ rest.
Proof.
  intros Hs H4 Ht Hm. destruct (frame_bytes m Hm) as [Hl Hv]. unfold taken, FramedWriter.write_message in Ht.
  rewrite H4, (take_ge (len_buf s)) in Ht by (rewrite (ro_len_buf s Hs); lia).
  rewrite <- !app_assoc in Ht. apply app_inj_1 in Ht as [Hlb Hrest]; [|by rewrite Hl, (ro_len_buf s Hs)].
  by rewrite Hlb.
Qed.

Lemma start_body_spec s r m rest :
  reader_ok s -> len_filled s = 4%nat ->
  taken s ++ unread r = FramedWriter.write_message m ++ rest ->
  Z.of_nat (length (CastMessage.encode m)) <= MAX_MESSAGE_SIZE ->
  exists s', FramedReader.start_body s = (s', Ok tt) /\ reader_ok s' /\
    body_expected s' = length (CastMessage.encode m) /\ taken s' = taken s.
Proof.
  intros Hs H4 Ht Hm. destruct (taken_length s r m rest Hs H4 Ht Hm) as [Hv _].
  pose proof (encode_nonempty m) as Hne. unfold FramedReader.start_body.
  destruct (Nat.eqb_spec (body_expected s) 0) as [Hb0|Hb0].
  - cbn [body_expected len_buf body_buf update FramedReader_eta]. rewrite Hv, Nat2Z.id.
    destruct (Nat.eqb_spec (length (CastMessage.encode m)) 0); [lia|].
    destruct (Z.ltb_spec MAX_MESSAGE_SIZE (Z.of_nat (length (CastMessage.encode m)))); [lia|].
    eexists. split; [done|]. split; [|split; [done|]].
    + constructor; cbn [len_buf len_filled body_buf body_filled body_expected update FramedReader_eta];
        [apply Hs|lia|done|]. intros _. rewrite resize_length. split_and!; auto; lia.
    + unfold taken. cbn. by rewrite (ro_idle s Hs Hb0).
  - exists s. split_and!; auto. destruct (ro_body s Hs Hb0) as (_ & Hbe & _). lia.
Qed.

Lemma read_message_frame r s m rest :
  reader_ok s -> message_ok m -> Z.of_nat (length (CastMessage.encode m)) <= MAX_MESSAGE_SIZE ->
  taken s ++ unread r = FramedWriter.write_message m ++ rest ->
  let '(r', s', p) := FramedReader.read_message r s in
  match p with
  | Ready (Ok m') => m' = m /\ unread r' = rest /\ reader_ok s' /\ taken s' = []
  | Dropped => reader_ok s' /\ taken s' ++ unread r' = FramedWriter.write_message m ++ rest
  | Ready (Err e) => transport_failure e
  | Ready Panic => False
  end.
Proof.
  intros Hs Hm Hmax Ht. unfold FramedReader.read_message.
  set (F := FramedWriter.write_message m ++ rest) in *.
  assert (HF : (4 + length (CastMessage.encode m) <= length F)%nat).
  { subst F. unfold FramedWriter.write_message. destruct (frame_bytes m Hmax) as [Hl _].
    rewrite !length_app, Hl. lia. }
  assert (Hlen : let '(r', s', p) := FramedReader.read_length 4 r s in
    match p with
    | Ready (Ok _) => reader_ok s' /\ len_filled s' = 4%nat /\ taken s' ++ unread r' = F
    | Dropped => reader_ok s' /\ taken s' ++ unread r' = F
    | Ready (Err e) => transport_failure e
    | Ready Panic => False
    end).
  { destruct (decide (body_expected s = 0)%nat) as [Hb0|Hb0].
    - pose proof (read_length_spec 4 r s F Hs Hb0 ltac:(lia) ltac:(lia) Ht) as Hl.
      destruct (FramedReader.read_length 4 r s) as [[r' s'] [[u|e|]|]]; tauto.
    - destruct (ro_body s Hs Hb0) as (H4 & _). cbn [FramedReader.read_length]. rewrite H4. cbn. done. }
  destruct (FramedReader.read_length 4 r s) as [[r1 s1] [[u|e|]|]]; try done.
  destruct Hlen as (Hs1 & H4 & Ht1).
  destruct (start_body_spec s1 r1 m rest Hs1 H4 Ht1 Hmax) as (s2 & -> & Hs2 & Hbe & Htk).
  pose proof (encode_nonempty m). rewrite <- Htk in Ht1.
  pose proof (read_body_spec (body_expected s2) r1 s2 F _ Hs2 eq_refl ltac:(lia) ltac:(lia) ltac:(lia) Ht1) as Hb.
  destruct (FramedReader.read_body _ r1 s2) as [[r3 s3] [[u3|e|]|]]; try done.
  destruct Hb as (Hs3 & Hbe3 & Hfull & Ht3).
  destruct (ro_body s3 Hs3 ltac:(lia)) as (H43 & _ & Hbl & _).
  destruct (taken_length s3 r3 m rest Hs3 H43 Ht3 Hmax) as [_ Hbody].
  rewrite Hfull, (take_ge (body_buf s3)) in Hbody by lia.
  apply app_inj_1 in Hbody as [Hbuf Hrest]; [|lia].
  unfold FramedReader.take_message. rewrite slice_Ok by lia. rewrite drop_0, take_ge by lia.
  rewrite Hbuf, decode_encode_message by (done || change MAX_MESSAGE_SIZE with 1048576 in Hmax; lia).
  split_and!; auto. constructor; cbn; [apply Hs3|lia|done|done].
Qed.

(** Any stream, well-formed or not. *)
Lemma read_length_any fuel r s :
  reader_ok s -> body_expected s = 0%nat -> (4 <= len_filled s + fuel)%nat ->
  let '(r', s', p) := FramedReader.read_length fuel r s in
  match p with
  | Ready (Ok _) => reader_ok s' /\ len_filled s' = 4%nat
  | Ready (Err _) => True
  | Dropped => reader_ok s'
  | Ready Panic => False
  end.
Proof.
  revert r s. induction fuel as [|fuel IH]; intros r s Hs Hb Hf; cbn [FramedReader.read_length];
    pose proof (ro_len s Hs) as Hlen; destruct (Nat.leb_spec 4 (len_filled s)) as [H4|H4].
  1, 3: split; auto; lia.
  { lia. }
  destruct (read r (4 - len_filled s)) as [r' [[|x chunk]|e|]] eqn:He; try done.
  apply read_ok in He as (Hle & _). set (c := x :: chunk) in *.
  assert (Hc : (0 < length c)%nat) by (subst c; cbn; lia). clearbody c.
  pose proof (ro_idle s Hs Hb) as Hbf. pose proof (ro_len_buf s Hs) as Hlb.
  apply IH; cbn [body_expected len_filled update FramedReader_eta]; [|done|lia].
  constructor; cbn; [rewrite splice_length by lia; done|lia|done|intros; lia].
Qed.

Lemma start_body_any s :
  reader_ok s -> len_filled s = 4%nat ->
  let '(s', p) := FramedReader.start_body s in
  match p with Ok _ => reader_ok s' /\ body_expected s' <> 0%nat | Err _ => True | Panic => False end.
Proof.
  intros Hs H4. unfold FramedReader.start_body. destruct (Nat.eqb_spec (body_expected s) 0) as [Hb0|Hb0]; [|done].
  cbn [body_expected len_buf body_buf update FramedReader_eta].
  destruct (Nat.eqb_spec (Z.to_nat (from_be (len_buf s))) 0); [done|].
  destruct (Z.ltb_spec MAX_MESSAGE_SIZE (Z.of_nat (Z.to_nat (from_be (len_buf s))))); [done|]. split; [|done].
  constructor; cbn [len_buf len_filled body_buf body_filled body_expected update FramedReader_eta];
    [apply Hs|lia|done|]. intros _. rewrite resize_length. split_and!; auto; lia.
Qed.

Lemma read_body_any fuel r s :
  reader_ok s -> body_expected s <> 0%nat -> (body_expected s <= body_filled s + fuel)%nat ->
  let '(r', s', p) := FramedReader.read_body fuel r s in
  match p with
  | Ready (Ok _) => reader_ok s' /\ body_expected s' <> 0%nat
  | Ready (Err _) => True
  | Dropped => reader_ok s'
  | Ready Panic => False
  end.
Proof.
  revert r s. induction fuel as [|fuel IH]; intros r s Hs Hn Hf; cbn [FramedReader.read_body];
    destruct (ro_body s Hs Hn) as (Hl4 & Hbe & Hbl & Hbf & Hmax);
    destruct (Nat.leb_spec (body_expected s) (body_filled s)) as [Hfull|Hmore].
  1, 3: by split.
  { lia. }
  rewrite slice_Ok by lia.
  destruct (read r (body_expected s - body_filled s)) as [r' [[|x chunk]|e|]] eqn:He; try done.
  apply read_ok in He as (Hle & _). set (c := x :: chunk) in *.
  assert (Hc : (0 < length c)%nat) by (subst c; cbn; lia). clearbody c.
  apply IH; cbn [body_expected body_filled update FramedReader_eta]; [|done|lia].
  constructor; cbn; [apply Hs|lia|intros; lia|]. intros _. rewrite splice_length by lia. split_and!; auto; lia.
Qed.

(** A poll never panics, and leaves a state to resume from unless it failed. *)
Lemma read_message_any r s :
  reader_ok s ->
  let '(r', s', p) := FramedReader.read_message r s in
  match p with
  | Ready (Ok m) => decoded_ok m /\ reader_ok s' /\ taken s' = []
  | Ready (Err _) => True
  | Dropped => reader_ok s'
  | Ready Panic => False
  end.
Proof.
  intros Hs. unfold FramedReader.read_message.
  assert (Hlen : let '(r', s', p) := FramedReader.read_length 4 r s in
    match p with
    | Ready (Ok _) => reader_ok s' /\ len_filled s' = 4%nat
    | Ready (Err _) => True
    | Dropped => reader_ok s'
    | Ready Panic => False
    end).
  { destruct (decide (body_expected s = 0)%nat) as [Hb0|Hb0]; [apply read_length_any; done || lia|].
    destruct (ro_body s Hs Hb0) as (H4 & _). cbn [FramedReader.read_length]. rewrite H4. done. }
  destruct (FramedReader.read_length 4 r s) as [[r1 s1] [[u|e|]|]]; try done. destruct Hlen as [Hs1 H4].
  pose proof (start_body_any s1 Hs1 H4) as Hstart.
  destruct (FramedReader.start_body s1) as [s2 [u2|e|]]; try done. destruct Hstart as [Hs2 Hb2].
  pose proof (read_body_any (body_expected s2) r1 s2 Hs2 Hb2 ltac:(lia)) as Hbody.
  destruct (FramedReader.read_body _ r1 s2) as [[r3 s3] [[u3|e|]|]]; try done. destruct Hbody as [Hs3 Hb3].
  destruct (ro_body s3 Hs3 Hb3) as (_ & _ & Hbl & _). unfold FramedReader.take_message.
  rewrite slice_Ok by lia. pose proof (decode_returns (take (body_expected s3 - 0) (drop 0 (body_buf s3)))) as Hd.
  destruct (CastMessage.decode _) as [m|e|]; try done. split_and!; [done| |done].
  constructor; cbn; [apply Hs3|lia|done|done].
Qed.
End Reading.

(** The reader is cancel-safe and exact: however the stream delivers its
    bytes and wherever the caller drops and restarts the read, a written
    message is never lost, split or duplicated - each poll either returns that
    message with exactly the rest of the stream unread, or leaves a state from
    which reading the same message can resume; it never panics, and an error
    can only be the transport's own. *)
Theorem read_message_cancel_safe {R} `{AsyncReadLaws R} (r : R) s m rest :
  reader_ok s -> message_ok m -> Z.of_nat (length (CastMessage.encode m)) <= MAX_MESSAGE_SIZE ->
  taken s ++ unread r = FramedWriter.write_message m ++ rest ->
  let '(r', s', p) := FramedReader.read_message r s in
  match p with
  | Ready (Ok m') => m' = m /\ unread r' = rest /\ reader_ok s' /\ taken s' = []
  | Dropped => reader_ok s' /\ taken s' ++ unread r' = FramedWriter.write_message m ++ rest
  | Ready (Err e) => exists (r1 r2 : R) cap, read r1 cap = (r2, ReadErr e)
  | Ready Panic => False
  end.
Proof. apply read_message_frame. Qed.

(** A message, and a stream that delivers it in small pieces with a drop. *)
Definition demo_message : CastMessage := MkCastMessage [115] [114] [110] (PString [123; 125]).
Definition demo_stream : ChunkedStream :=
  MkChunked (FramedWriter.write_message demo_message ++ [9]) [1; 2; 5; 0; 3]%nat.

Lemma reader_new_ok : reader_ok FramedReader.new.
Proof. constructor; cbn; [done|lia|done|done]. Qed.

Lemma read_message_cancel_safe_witness :
  let '(r', s', p) := FramedReader.read_message demo_stream FramedReader.new in
  p = Dropped /\ reader_ok s' /\ taken s' ++ cs_data r' = FramedWriter.write_message demo_message ++ [9].
Proof.
  pose proof (read_message_cancel_safe demo_stream FramedReader.new demo_message [9] reader_new_ok) as Hw.
  destruct (FramedReader.read_message demo_stream FramedReader.new) as [[r' s'] p] eqn:He.
  assert (Hp : p = Dropped) by (apply (f_equal snd) in He; vm_compute in He; by symmetry). subst p.
  split; [reflexivity|]. apply Hw.
  - unfold message_ok, string_ok. cbn. split_and!; try lia; try solve_bytes; reflexivity.
  - vm_compute. congruence.
  - reflexivity.
Defined.
