(* ===== verification/DeviceInfo.v ===== *)
(** * Device information over the control channel ([src/src/control/device_info.rs])

    Validation of the JSON replies to GET_DEVICE_INFO and [eureka_info]. *)

From stdpp Require Import strings.
From S2P Require Import Prelude Errors Text Json.

Definition MAX_DEVICE_ID_BYTES : nat := 256.
Definition MAX_DEVICE_NAME_BYTES : nat := 256.
Definition MAX_DEVICE_MODEL_BYTES : nat := 256.
Definition MAX_MANUFACTURER_BYTES : nat := 256.
Definition MAX_PRODUCT_NAME_BYTES : nat := 256.
Definition MAX_SSDP_UDN_BYTES : nat := 256.

Record AuthenticatedDeviceInfo := MkDeviceInfo {
  di_device_id : string;
  di_friendly_name : option string;
  di_device_model : option string;
  di_capabilities : option Z;
  di_control_notifications : option Z;
}.

Record AuthenticatedEurekaInfo := MkEurekaInfo {
  ei_manufacturer : option string;
  ei_product_name : option string;
  ei_ssdp_udn : option string;
}.

Inductive EurekaInfoOutcome := EurekaAvailable (info : AuthenticatedEurekaInfo) | EurekaUnsupported.

Definition protocol_error (message : string) : Error := ProtocolError message.

Definition message_type (value : Json) : option string :=
  match json_get "type" value with
  | Some t => Some t
  | None => json_get "responseType" value
  end ≫= as_str.

Definition require_device_info_message_type (value : Json) : Result Error unit :=
  match message_type value with
  | Some actual =>
    if bool_decide (actual = "DEVICE_INFO") || bool_decide (actual = "GET_DEVICE_INFO") then Ok tt
    else Err (protocol_error ("expected DEVICE_INFO response, received " +:+ actual))
  | None => Err (protocol_error "DEVICE_INFO response omitted its type")
  end.

Definition require_message_type (value : Json) (expected : string) : Result Error unit :=
  match message_type value with
  | Some actual =>
    if bool_decide (actual = expected) then Ok tt
    else Err (protocol_error ("expected " +:+ expected +:+ " response, received " +:+ actual))
  | None => Err (protocol_error (expected +:+ " response omitted its type"))
  end.

Definition optional_text_value (value : option Json) (field : string) (maximum : nat)
  : Result Error (option string) :=
  match value with
  | None | Some JNull => Ok None
  | Some value =>
    let? text := ok_or (as_str value) (protocol_error (field +:+ " is not a string")) in
    let value := trim text in
    if bool_decide (value = "") then Ok None
    else if (maximum <? length (utf8 value))%nat || existsb is_control (chars (utf8 value))
    then Err (protocol_error (field +:+ " is empty, too long, or contains a control character"))
    else Ok (Some value)
  end.

Definition optional_text (value : Json) (field : string) (maximum : nat) : Result Error (option string) :=
  optional_text_value (json_get field value) field maximum.

Definition required_text (value : Json) (field : string) (maximum : nat) : Result Error string :=
  let? text := optional_text value field maximum in
  ok_or text (protocol_error ("response omitted " +:+ field)).

Definition optional_u64 (value : Json) (field : string) : Result Error (option Z) :=
  match json_get field value with
  | None => Ok None
  | Some value =>
    ok_or (Some <$> as_u64 value) (protocol_error (field +:+ " is not an unsigned integer"))
  end.

Definition aliased_u64 (value : Json) (preferred compatibility : string) : Result Error (option Z) :=
  let? preferred_value := optional_u64 value preferred in
  let? compatibility_value := optional_u64 value compatibility in
  match preferred_value, compatibility_value with
  | Some l, Some r =>
    if negb (l =? r)
    then Err (protocol_error (preferred +:+ " and " +:+ compatibility +:+ " disagree"))
    else Ok (Some l)
  | Some value, None | None, Some value => Ok (Some value)
  | None, None => Ok None
  end.

Definition optional_object_value (value : option Json) (field : string) : Result Error (option Json) :=
  match value with
  | None | Some JNull => Ok None
  | Some (JObject fields) => Ok (Some (JObject fields))
  | Some _ => Err (protocol_error (field +:+ " is not an object"))
  end.

Definition optional_object (value : Json) (field : string) : Result Error (option Json) :=
  optional_object_value (json_get field value) field.

Definition parse_device_info (value : Json) : Result Error AuthenticatedDeviceInfo :=
  let? _ := require_device_info_message_type value in
  let? device_id := required_text value "deviceId" MAX_DEVICE_ID_BYTES in
  let? capabilities := aliased_u64 value "deviceCapabilities" "capabilities" in
  let? friendly_name := optional_text value "friendlyName" MAX_DEVICE_NAME_BYTES in
  let? device_model := optional_text value "deviceModel" MAX_DEVICE_MODEL_BYTES in
  let? control_notifications := optional_u64 value "controlNotifications" in
  Ok (MkDeviceInfo device_id friendly_name device_model capabilities control_notifications).

Definition parse_eureka_info (value : Json) : Result Error EurekaInfoOutcome :=
  if bool_decide (message_type value = Some "INVALID_REQUEST") then Ok EurekaUnsupported else
  let? _ := require_message_type value "eureka_info" in
  let? response_code := ok_or (json_get "response_code" value ≫= as_u64)
    (protocol_error "eureka_info omitted a numeric response_code") in
  if negb (response_code =? 200) then Ok EurekaUnsupported else
  let? data := optional_object value "data" in
  let? device_info := match data with
                      | Some data => optional_object_value (json_get "device_info" data) "data.device_info"
                      | None => Ok None
                      end in
  match device_info with
  | None => Ok (EurekaAvailable (MkEurekaInfo None None None))
  | Some device_info =>
    let? manufacturer :=
      optional_text_value (json_get "manufacturer" device_info) "manufacturer" MAX_MANUFACTURER_BYTES in
    let? product_name :=
      optional_text_value (json_get "product_name" device_info) "product_name" MAX_PRODUCT_NAME_BYTES in
    let? ssdp_udn :=
      optional_text_value (json_get "ssdp_udn" device_info) "ssdp_udn" MAX_SSDP_UDN_BYTES in
    Ok (EurekaAvailable (MkEurekaInfo manufacturer product_name ssdp_udn))
  end.

(** ** What a validated text is *)

(** No white space at either end. *)
Definition trimmed (s : string) : Prop :=
  forall c cs, (chars (utf8 s) = c :: cs \/ chars (utf8 s) = cs ++ [c]) -> is_whitespace c = false.

(** Nonempty, bounded, trimmed and without control characters. *)
Definition clean_text (maximum : nat) (s : string) : Prop :=
  s <> "" /\ (length (utf8 s) <= maximum)%nat /\ trimmed s /\
  Forall (fun c => is_control c = false) (chars (utf8 s)).

(** The text a field of an object yields: nothing when it is absent, null or
    blank, otherwise its trimmed, validated string. *)
Definition text_of (value : option Json) (maximum : nat) (text : option string) : Prop :=
  match text with
  | None => value = None \/ value = Some JNull \/ exists raw, value = Some (JString raw) /\ trim raw = ""
  | Some s => clean_text maximum s /\ exists raw, value = Some (JString raw) /\ s = trim raw
  end.

Definition u64_of (value : option Json) (n : option Z) : Prop :=
  match n with None => value = None | Some n => exists v, value = Some v /\ as_u64 v = Some n end.

Lemma trim_trimmed s : trimmed (trim s).
Proof.
  intros c cs. rewrite chars_trim.
  destruct (trim_chars_split (chars (utf8 s))) as (pre & post & _ & _ & _ & Hh & Hl).
  intros [Hc|Hc]; eauto.
Qed.

Lemma optional_text_value_spec value field maximum text :
  optional_text_value value field maximum = Ok text -> text_of value maximum text.
Proof.
  unfold optional_text_value. intros Ht.
  destruct value as [v|]; [|injection Ht as <-; cbn; tauto].
  destruct v as [| | | |raw| |]; cbn [as_str ok_or bind] in Ht; try done; [injection Ht as <-; cbn; tauto|].
  case_bool_decide as He; [injection Ht as <-; cbn; eauto|].
  destruct (Nat.ltb_spec maximum (length (utf8 (trim raw)))) as [Hlen|Hlen]; [done|]. cbn [orb] in Ht.
  destruct (existsb is_control _) eqn:Hctl; [done|]. injection Ht as <-. split; [|by eauto].
  split_and!; [done|lia|apply trim_trimmed|]. apply Forall_forall. intros c Hc.
  destruct (is_control c) eqn:Hcc; [|done]. rewrite <- Hctl. symmetry. apply existsb_exists. eauto.
Qed.

Lemma optional_u64_spec value field n : optional_u64 value field = Ok n -> u64_of (json_get field value) n.
Proof.
  unfold optional_u64. destruct (json_get field value) as [v|]; [|by intros [= <-]].
  destruct (as_u64 v) as [k|] eqn:Hk; cbn [fmap option_fmap option_map ok_or]; [|done].
  intros [= <-]. by exists v.
Qed.

(** The device information accepted over the authenticated channel is
    clean.  A reply is accepted only with a device-information type; the device
    id is there, and every text is the received string without surrounding
    white space, nonempty, at most 256 bytes long and free of control
    characters, blank and null fields counting as absent; numbers are unsigned,
    and the two spellings of the capability field agree when both are sent. *)
Theorem parse_device_info_spec value info :
  parse_device_info value = Ok info ->
  (message_type value = Some "DEVICE_INFO" \/ message_type value = Some "GET_DEVICE_INFO") /\
  text_of (json_get "deviceId" value) 256 (Some (di_device_id info)) /\
  text_of (json_get "friendlyName" value) 256 (di_friendly_name info) /\
  text_of (json_get "deviceModel" value) 256 (di_device_model info) /\
  u64_of (json_get "controlNotifications" value) (di_control_notifications info) /\
  (u64_of (json_get "deviceCapabilities" value) (di_capabilities info) \/
   json_get "deviceCapabilities" value = None) /\
  (u64_of (json_get "capabilities" value) (di_capabilities info) \/ json_get "capabilities" value = None).
Proof.
  unfold parse_device_info. intros Hp.
  apply bind_Ok in Hp as (u & Ht & Hp). apply bind_Ok in Hp as (device_id & Hid & Hp).
  apply bind_Ok in Hp as (caps & Hcaps & Hp). apply bind_Ok in Hp as (name & Hname & Hp).
  apply bind_Ok in Hp as (model & Hmodel & Hp). apply bind_Ok in Hp as (notes & Hnotes & [= <-]).
  apply bind_Ok in Hid as (text & Hid & Htext). destruct text as [text|]; [|done]. injection Htext as ->.
  apply bind_Ok in Hcaps as (c1 & Hc1 & Hcaps). apply bind_Ok in Hcaps as (c2 & Hc2 & Hcaps).
  apply optional_u64_spec in Hc1, Hc2, Hnotes. cbn.
  split; [unfold require_device_info_message_type in Ht; destruct (message_type value) as [t|]; [|done];
          repeat case_bool_decide; subst; auto; done|].
  split; [exact (optional_text_value_spec _ "deviceId" 256 _ Hid)|].
  split; [exact (optional_text_value_spec _ "friendlyName" 256 _ Hname)|].
  split; [exact (optional_text_value_spec _ "deviceModel" 256 _ Hmodel)|].
  split; [done|]. split.
  all: destruct c1 as [c1|], c2 as [c2|]; try (destruct (Z.eqb_spec c1 c2); [subst|done]);
    injection Hcaps as <-; cbn in *; auto.
Qed.

Definition demo_device_info : Json :=
  JObject [("type", JString "DEVICE_INFO"); ("deviceId", JString " abc "); ("capabilities", JNumber 5);
           ("friendlyName", JNull)].

Lemma parse_device_info_spec_witness :
  text_of (json_get "deviceId" demo_device_info) 256 (Some "abc").
Proof.
  exact (proj1 (proj2 (parse_device_info_spec demo_device_info
    (MkDeviceInfo "abc" None None (Some 5) None) eq_refl))).
Defined.
