(* ===== verification/Auth.v ===== *)
(** * Device authentication ([src/src/control/auth.rs])

    The challenge a sender writes, and the checks a reply must pass before a
    connection exists.  X.509 parsing, path building and RSA come from crates
    outside the repository: the classes [X509Library], [Webpki] and [Ring] stand
    for what the code calls of them, [TrustRoots] for the built-in PEM files,
    [Clock] for the system clock. *)

From stdpp Require Import strings gmap.
From S2P Require Import Prelude Time Errors Text SyncSource CastProto Protobuf.

Definition NONCE_SIZE : nat := 16.
Definition MAX_TLS_CERTIFICATE_LIFETIME : Duration := from_secs (4 * 24 * 60 * 60).
Definition AUDIO_ONLY_POLICY_OID : string := "1.3.6.1.4.1.11129.2.5.2".

(** ** The libraries *)

Class Clock (W : Type) := read_clock : W -> W * SystemTime.

(** [x509-parser]: a certificate as the code looks at it. *)
Class X509Library := {
  X509Certificate : Type;
  parse_x509_certificate : bytes -> string + (bytes * X509Certificate);
  parse_x509_pem : bytes -> string + (bytes * bytes);
  not_before_timestamp : X509Certificate -> Z;
  not_after_timestamp : X509Certificate -> Z;
  key_size : X509Certificate -> string + Z;
  (** The key-usage extension, if any: may the key sign? *)
  key_usage : X509Certificate -> string + option bool;
  (** Per extension, the policy ids when it is a CertificatePolicies one. *)
  extension_policies : X509Certificate -> list (option (list string));
  subject_public_key : X509Certificate -> bytes;
  public_key_raw : X509Certificate -> bytes;
  raw_serial : X509Certificate -> bytes;
}.

(** A signature algorithm offered to path building. *)
Record VerificationAlgorithm := MkAlgorithm {
  verify_signature : bytes -> bytes -> bytes -> bool;
  public_key_alg_id : bytes;
  signature_alg_id : bytes;
}.

(** [rustls-webpki]: a path from a leaf to one of the anchors; the last
    argument validates extended key usages. *)
Class Webpki := {
  TrustAnchor : Type;
  TrustAnchor_eq_dec :: EqDecision TrustAnchor;
  end_entity_cert : bytes -> string + unit;
  anchor_from_trusted_cert : bytes -> string + TrustAnchor;
  ALL_VERIFICATION_ALGS : list VerificationAlgorithm;
  RSA_ENCRYPTION : bytes;
  verify_for_usage : bytes -> list VerificationAlgorithm -> list TrustAnchor -> list bytes -> Z ->
    (list (string + bytes) -> string + unit) -> string + (list bytes * TrustAnchor);
}.

Inductive RsaAlgorithm :=
| RSA_PKCS1_1024_8192_SHA1_FOR_LEGACY_USE_ONLY
| RSA_PKCS1_2048_8192_SHA256
| RSA_PSS_2048_8192_SHA256.

(** [ring]: key, message and signature. *)
Class Ring := {
  rsa_verify : RsaAlgorithm -> bytes -> bytes -> bytes -> bool;
  sha256 : bytes -> bytes;
  sha256_length d : length (sha256 d) = 32%nat;
}.

Class TrustRoots := {
  CAST_ROOT_CA_PEM : bytes;
  EUREKA_ROOT_CA_PEM : bytes;
  CAST_CRL_ROOT_CA_PEM : bytes;
}.

(** ** Data *)

Record DeviceIdentity := MkDeviceIdentity {
  certificate_sha256 : bytes;
  audio_only : bool;
  revocation_checked : bool;
}.

Record AuthChallenge := MkChallenge { challenge_nonce : bytes; challenge_payload : bytes }.

Inductive SignatureAlgorithm := Pkcs1V15 | Pss.
#[export] Instance SignatureAlgorithm_eq_dec : EqDecision SignatureAlgorithm.
Proof. solve_decision. Defined.
Inductive HashAlgorithm := Sha1 | Sha256.
#[export] Instance HashAlgorithm_eq_dec : EqDecision HashAlgorithm.
Proof. solve_decision. Defined.

Record AuthResponse := MkAuthResponse {
  signature : bytes;
  client_auth_certificate : bytes;
  intermediate_certificates : list bytes;
  signature_algorithm : SignatureAlgorithm;
  sender_nonce : option bytes;
  hash_algorithm : HashAlgorithm;
  crl : option bytes;
}.

Record VerifiedCredential := MkVerified {
  leaf_public_key : bytes;
  certificates : list bytes;
  vc_audio_only : bool;
}.

Record Revocations := MkRevocations {
  rv_not_before : Z;
  rv_not_after : Z;
  revoked_public_keys : gset bytes;
  revoked_serial_ranges : gmap bytes (list (Z * Z));
}.

Inductive WireValue := Varint (v : Z) | WireBytes (d : bytes).
Definition WireFields : Type := list (Z * WireValue).

Definition auth_error (message : string) : Error := AuthenticationFailed message.

(** ** Protobuf *)

(** [take]: the head and the rest. *)
Definition take_bytes (d : bytes) (len : Z) : Result Error (bytes * bytes) :=
  if Z.of_nat (length d) <? len then Err (auth_error "truncated protobuf field")
  else Ok (take (Z.to_nat len) d, drop (Z.to_nat len) d).

Fixpoint take_varint_go (fuel : nat) (value shift : Z) (d : bytes) : Result Error (Z * bytes) :=
  match fuel with
  | O => Err (auth_error "protobuf varint overflow")
  | S fuel' =>
    let? (head, d) := take_bytes d 1 in
    let? byte := ok_or (head !! 0%nat) (auth_error "truncated protobuf varint") in
    if (shift =? 63) && (1 <? byte) then Err (auth_error "protobuf varint overflow") else
    let value := Z.lor value (Z.shiftl (Z.land byte 0x7F) shift) in
    if Z.land byte 0x80 =? 0 then Ok (value, d) else take_varint_go fuel' value (shift + 7) d
  end.
Definition take_varint (d : bytes) : Result Error (Z * bytes) := take_varint_go 10 0 0 d.

(** One round of the loop of [parse_fields]. *)
Definition parse_field (d : bytes) (fields : WireFields) : Result Error (WireFields * bytes) :=
  let? (tag, d) := take_varint d in
  let number := Z.shiftr tag 3 in
  let? _ := if u32_max <? number then Err (auth_error "protobuf field overflow") else Ok tt in
  if number =? 0 then Err (auth_error "protobuf field number is zero") else
  match Z.land tag 7 with
  | 0 => let? (v, d) := take_varint d in Ok (fields ++ [(number, Varint v)], d)
  | 1 => let? (_, d) := take_bytes d 8 in Ok (fields, d)
  | 2 => let? (len, d) := take_varint d in
         let? (b, d) := take_bytes d len in Ok (fields ++ [(number, WireBytes b)], d)
  | 5 => let? (_, d) := take_bytes d 4 in Ok (fields, d)
  | wire => Err (auth_error ("unsupported protobuf wire type " +:+ display wire))
  end.

(** Each round takes at least a byte: the length is enough fuel. *)
Fixpoint parse_fields_go (fuel : nat) (d : bytes) (fields : WireFields) : Result Error WireFields :=
  match d with
  | [] => Ok fields
  | _ =>
    match fuel with
    | O => Panic
    | S fuel' => let? (fields, d) := parse_field d fields in parse_fields_go fuel' d fields
    end
  end.
Definition parse_fields (d : bytes) : Result Error WireFields := parse_fields_go (length d) d [].

Module Fields.
Definition bytes_all (self : WireFields) (number : Z) : list bytes :=
  omap (fun '(field, value) =>
    match value with WireBytes b => if field =? number then Some b else None | Varint _ => None end) self.

(** [find_map]. *)
Definition bytes_ (self : WireFields) (number : Z) : option bytes := head (bytes_all self number).

Definition varint (self : WireFields) (number : Z) : option Z :=
  head (omap (fun '(field, value) =>
    match value with Varint v => if field =? number then Some v else None | WireBytes _ => None end) self).
End Fields.

Definition encode_varint_field (field value : Z) : bytes :=
  push_varint (Z.shiftl field 3) ++ push_varint value.
Definition encode_bytes_field (field : Z) (d : bytes) : bytes :=
  push_varint (Z.lor (Z.shiftl field 3) 2) ++ push_varint (Z.of_nat (length d)) ++ d.

(** ** The challenge *)

Definition create_challenge {R} `{Rng R} (r : R) : R * AuthChallenge :=
  let '(r, nonce) := fill_bytes r NONCE_SIZE in
  let challenge := encode_varint_field 1 1 ++ encode_bytes_field 2 nonce ++ encode_varint_field 3 1 in
  (r, MkChallenge nonce (encode_bytes_field 1 challenge)).

Definition signature_algorithm_from_wire (value : Z) : Result Error SignatureAlgorithm :=
  match value with
  | 1 => Ok Pkcs1V15
  | 2 => Ok Pss
  | _ => Err (auth_error ("unsupported device signature algorithm " +:+ display value))
  end.

Definition hash_algorithm_from_wire (value : Z) : Result Error HashAlgorithm :=
  match value with
  | 0 => Ok Sha1
  | 1 => Ok Sha256
  | _ => Err (auth_error ("unsupported device hash algorithm " +:+ display value))
  end.

Definition parse_device_auth_message (d : bytes) : Result Error AuthResponse :=
  let? fields := parse_fields d in
  match Fields.bytes_ fields 3 with
  | Some error =>
    let? error_fields := parse_fields error in
    let error_type := default 0 (Fields.varint error_fields 1) in
    Err (auth_error ("receiver rejected authentication challenge with error " +:+ display error_type))
  | None =>
    let? response := ok_or (Fields.bytes_ fields 2) (auth_error "device-auth reply contains no response") in
    let? fields := parse_fields response in
    let? signature := ok_or (Fields.bytes_ fields 1) (auth_error "device-auth response has no signature") in
    let? certificate := ok_or (Fields.bytes_ fields 2)
                          (auth_error "device-auth response has no device certificate") in
    let? algorithm := signature_algorithm_from_wire (default 1 (Fields.varint fields 4)) in
    let? hash := hash_algorithm_from_wire (default 0 (Fields.varint fields 6)) in
    Ok (MkAuthResponse signature certificate (Fields.bytes_all fields 3) algorithm
          (Fields.bytes_ fields 5) hash (Fields.bytes_ fields 7))
  end.

Definition verify_sender_nonce (received : option bytes) (expected : bytes) : Result Error unit :=
  if bool_decide (received <> Some expected)
  then Err (auth_error "receiver returned a different sender nonce") else Ok tt.

Definition auth_signature_input (nonce tls_peer_certificate : bytes) : bytes :=
  nonce ++ tls_peer_certificate.

(** ** Certificates *)

Section Certificates.
Context `{X509Library}.

Definition parse_certificate (der : bytes) (description : string) : Result Error X509Certificate :=
  let? (remaining, cert) := map_err (parse_x509_certificate der)
    (fun e => auth_error ("invalid " +:+ description +:+ ": " +:+ e)) in
  if bool_decide (remaining <> []) then Err (auth_error ("trailing data after " +:+ description)) else Ok cert.

(** [u8::is_ascii_whitespace]: space, tab, line feed, form feed and carriage
    return. *)
Definition is_ascii_whitespace (b : Z) : bool :=
  (b =? 32) || (b =? 9) || (b =? 10) || (b =? 12) || (b =? 13).

Definition pem_contents (d : bytes) : Result Error bytes :=
  let? (remaining, contents) := map_err (parse_x509_pem d)
    (fun e => auth_error ("invalid built-in trust anchor: " +:+ e)) in
  if negb (forallb is_ascii_whitespace remaining)
  then Err (auth_error "trailing data after built-in trust anchor") else Ok contents.

Definition verify_tls_certificate_lifetime_at (der : bytes) (now : Z) : Result Error unit :=
  let? cert := parse_certificate der "TLS peer certificate" in
  let not_before := not_before_timestamp cert in
  let not_after := not_after_timestamp cert in
  if now <? not_before then Err (auth_error "TLS peer certificate is not valid yet") else
  if not_after <? now then Err (auth_error "TLS peer certificate has expired") else
  let? remaining := if not_after - now <? 0 then Err (auth_error "invalid TLS peer certificate lifetime")
                    else Ok (from_secs (not_after - now)) in
  if MAX_TLS_CERTIFICATE_LIFETIME <? remaining
  then Err (auth_error "TLS peer certificate remains valid for longer than four days") else Ok tt.

Definition validate_signing_key (cert : X509Certificate) (description : string) : Result Error unit :=
  let? size := map_err (key_size cert)
    (fun e => auth_error ("invalid " +:+ description +:+ " public key: " +:+ e)) in
  if size <? 2048
  then Err (auth_error (description +:+ " RSA public key is smaller than 2048 bits")) else
  let? usage := map_err (key_usage cert)
    (fun e => auth_error ("invalid " +:+ description +:+ " key usage: " +:+ e)) in
  match usage with
  | Some false =>
    Err (auth_error (description +:+ " certificate cannot sign authentication data"))
  | _ => Ok tt
  end.

Definition has_audio_only_policy (cert : X509Certificate) : bool :=
  existsb (fun extension =>
    match extension with
    | Some policies => existsb (fun policy => bool_decide (policy = AUDIO_ONLY_POLICY_OID)) policies
    | None => false
    end) (extension_policies cert).

Definition serial_number_u64 (cert : X509Certificate) : option Z :=
  let serial := raw_serial cert in
  match serial with
  | [] => None
  | first :: _ =>
    if (8 <? length serial)%nat || negb (Z.land first 0x80 =? 0) then None
    else Some (fold_left (fun value byte => Z.lor (wrap_u64 (Z.shiftl value 8)) byte) serial 0)
  end.

(** [try_fold(false, |restricted, der| ..)]. *)
Fixpoint audio_only_chain (description : string) (restricted : bool) (chain : list bytes)
  : Result Error bool :=
  match chain with
  | [] => Ok restricted
  | der :: chain' =>
    let? cert := parse_certificate der description in
    audio_only_chain description (restricted || has_audio_only_policy cert) chain'
  end.
End Certificates.

(** ** Verification *)

Section Verification.
Context {W : Type} `{Clock W} `{X509Library} `{Webpki} `{Ring} `{TrustRoots}.

Definition unix_time_seconds : Eff W Error Z := fun w =>
  let '(w, now) := read_clock w in
  (w, if now <? 0 then Err (auth_error "system clock predates the Unix epoch")
      else if 2 ^ 63 <=? as_secs now then Err (auth_error "system clock is out of range")
      else Ok (as_secs now)).

(** [u64::try_from] of it. *)
Definition unix_time_u64 : Eff W Error Z :=
  let! now := unix_time_seconds in
  ret (if now <? 0 then Err (auth_error "system clock predates the Unix epoch") else Ok now).

Definition verify_tls_certificate_lifetime (der : bytes) : Eff W Error unit :=
  let! now := unix_time_seconds in ret (verify_tls_certificate_lifetime_at der now).

(** [AnyExtendedKeyUsage::validate]. *)
Fixpoint any_extended_key_usage (values : list (string + bytes)) : string + unit :=
  match values with
  | [] => inr tt
  | inl e :: _ => inl e
  | inr _ :: values' => any_extended_key_usage values'
  end.

(** [LegacyCastSha1Algorithm]. *)
Definition legacy_cast_sha1 : VerificationAlgorithm := MkAlgorithm
  (fun public_key message sig =>
     rsa_verify RSA_PKCS1_1024_8192_SHA1_FOR_LEGACY_USE_ONLY public_key message sig)
  RSA_ENCRYPTION
  [0x30; 0x0d; 0x06; 0x09; 0x2a; 0x86; 0x48; 0x86; 0xf7; 0x0d; 0x01; 0x01; 0x05; 0x05; 0x00].

Fixpoint collect_anchors (roots : list bytes) : string + list TrustAnchor :=
  match roots with
  | [] => inr []
  | der :: roots' =>
    match anchor_from_trusted_cert der with
    | inl e => inl e
    | inr a => match collect_anchors roots' with inl e => inl e | inr l => inr (a :: l) end
    end
  end.

Definition trusted_root_der (anchor : TrustAnchor) (roots : list TrustAnchor) (root_der : list bytes)
  : Result Error bytes :=
  ok_or ('(index, _) ← list_find (fun root => root = anchor) roots; root_der !! index)
    (auth_error "verified path used an unknown trust anchor").

Definition verify_chain (leaf : bytes) (intermediates root_der : list bytes) (description : string)
  : Eff W Error VerifiedCredential :=
  let! _ := ret (map_err (end_entity_cert leaf)
    (fun e => auth_error ("invalid " +:+ description +:+ " certificate: " +:+ e))) in
  let! roots := ret (map_err (collect_anchors root_der)
    (fun e => auth_error ("invalid built-in trust anchor: " +:+ e))) in
  let algorithms := ALL_VERIFICATION_ALGS ++ [legacy_cast_sha1] in
  let! now := unix_time_u64 in
  let! (path, anchor) := ret (map_err
    (verify_for_usage leaf algorithms roots intermediates now any_extended_key_usage)
    (fun e => auth_error ("untrusted " +:+ description +:+ " certificate chain: " +:+ e))) in
  let! leaf_x509 := ret (parse_certificate leaf description) in
  let! _ := ret (validate_signing_key leaf_x509 description) in
  let! trusted_root := ret (trusted_root_der anchor roots root_der) in
  let chain := leaf :: path ++ [trusted_root] in
  let! restricted := ret (audio_only_chain description false chain) in
  ret (Ok (MkVerified (subject_public_key leaf_x509) chain restricted)).

Definition verify_device_credential_chain (leaf : bytes) (intermediates : list bytes)
  : Eff W Error VerifiedCredential :=
  let! cast_root := ret (pem_contents CAST_ROOT_CA_PEM) in
  let! eureka_root := ret (pem_contents EUREKA_ROOT_CA_PEM) in
  verify_chain leaf intermediates [cast_root; eureka_root] "device credential".

Definition verify_auth_signature (response : AuthResponse) (public_key input : bytes)
  : Result Error unit :=
  let? algorithm :=
    match signature_algorithm response, hash_algorithm response with
    | Pkcs1V15, Sha1 => Ok RSA_PKCS1_1024_8192_SHA1_FOR_LEGACY_USE_ONLY
    | Pkcs1V15, Sha256 => Ok RSA_PKCS1_2048_8192_SHA256
    | Pss, Sha256 => Ok RSA_PSS_2048_8192_SHA256
    | Pss, Sha1 => Err (auth_error "RSA-PSS with SHA-1 is unsupported")
    end in
  if rsa_verify algorithm public_key input (signature response) then Ok tt
  else Err (auth_error "device credential did not sign the TLS certificate and nonce").

(** ** Revocation *)

Definition in_ranges (serial : Z) (ranges : list (Z * Z)) : bool :=
  existsb (fun '(first, last) => (first <=? serial) && (serial <=? last)) ranges.

(** The body of the loop of [check_chain_at]. *)
Definition check_certificate (self : Revocations) (chain : list bytes) (index : nat) : Result Error unit :=
  let? der := Prelude.index chain index in
  let? cert := parse_certificate der "credential chain" in
  let issuer_hash := sha256 (public_key_raw cert) in
  if bool_decide (issuer_hash ∈ revoked_public_keys self)
  then Err (auth_error "receiver credential chain contains a revoked key") else
  if (0 <? index)%nat then
    match revoked_serial_ranges self !! issuer_hash with
    | Some ranges =>
      let? der := Prelude.index chain (index - 1) in
      let? cert := parse_certificate der "credential chain" in
      match serial_number_u64 cert with
      | Some serial =>
        if in_ranges serial ranges
        then Err (auth_error "receiver credential certificate serial number is revoked") else Ok tt
      | None => Ok tt
      end
    | None => Ok tt
    end
  else Ok tt.

(** [for index in (0..n).rev()]. *)
Fixpoint check_certificates (self : Revocations) (chain : list bytes) (n : nat) : Result Error unit :=
  match n with
  | O => Ok tt
  | S n' => let? _ := check_certificate self chain n' in check_certificates self chain n'
  end.

Definition check_chain_at (self : Revocations) (chain : list bytes) (now : Z) : Result Error unit :=
  if (now <? rv_not_before self) || (rv_not_after self <? now)
  then Err (auth_error "receiver supplied an expired revocation list")
  else check_certificates self chain (length chain).

Definition check_chain (self : Revocations) (chain : list bytes) : Eff W Error unit :=
  let! now := unix_time_u64 in ret (check_chain_at self chain now).

(** The loop over the serial ranges. *)
Fixpoint collect_ranges (data : list bytes) (ranges : gmap bytes (list (Z * Z)))
  : Result Error (gmap bytes (list (Z * Z))) :=
  match data with
  | [] => Ok ranges
  | range_data :: data' =>
    let? range := parse_fields range_data in
    let? issuer := ok_or (Fields.bytes_ range 1) (auth_error "revoked serial range has no issuer hash") in
    let first := default 0 (Fields.varint range 2) in
    let last := default 0 (Fields.varint range 3) in
    if last <? first then Err (auth_error "revocation list contains an inverted serial range")
    else collect_ranges data' (<[issuer := default [] (ranges !! issuer) ++ [(first, last)]]> ranges)
  end.

Definition parse_revocations (tbs : bytes) (signer_not_after : Z) : Result Error Revocations :=
  let? tbs_fields := parse_fields tbs in
  if negb (default 0 (Fields.varint tbs_fields 1) =? 0)
  then Err (auth_error "unsupported revocation-list version") else
  let not_before := default 0 (Fields.varint tbs_fields 2) in
  let? limit := if signer_not_after <? 0
    then Err (auth_error "revocation-list signer has an invalid expiration time") else Ok signer_not_after in
  let not_after := Z.min (default 0 (Fields.varint tbs_fields 3)) limit in
  let? ranges := collect_ranges (Fields.bytes_all tbs_fields 5) ∅ in
  Ok (MkRevocations not_before not_after (list_to_set (Fields.bytes_all tbs_fields 4)) ranges).

Definition parse_and_verify_one_crl (d crl_root : bytes) : Eff W Error Revocations :=
  let! fields := ret (parse_fields d) in
  let! tbs := ret (ok_or (Fields.bytes_ fields 1) (auth_error "revocation list has no signed body")) in
  let! signer := ret (ok_or (Fields.bytes_ fields 2)
                        (auth_error "revocation list has no signer certificate")) in
  let! crl_signature := ret (ok_or (Fields.bytes_ fields 3)
                               (auth_error "revocation list has no signature")) in
  let! verified_signer := verify_chain signer [] [crl_root] "revocation-list signer" in
  let! _ := ret (if rsa_verify RSA_PKCS1_2048_8192_SHA256 (leaf_public_key verified_signer) tbs crl_signature
                 then Ok tt else Err (auth_error "invalid revocation-list signature")) in
  let! signer_x509 := ret (parse_certificate signer "revocation-list signer") in
  ret (parse_revocations tbs (not_after_timestamp signer_x509)).

(** The loop over the CRLs of a bundle: the first that verifies. *)
Fixpoint first_crl (crl_root : bytes) (last_error : Error) (crls : list bytes) : Eff W Error Revocations :=
  match crls with
  | [] => ret (Err last_error)
  | crl_data :: crls' => fun w =>
    match parse_and_verify_one_crl crl_data crl_root w with
    | (w, Ok crl) => (w, Ok crl)
    | (w, Err error) => first_crl crl_root error crls' w
    | (w, Panic) => (w, Panic)
    end
  end.

Definition parse_and_verify_crl (d : bytes) : Eff W Error Revocations :=
  let! bundle := ret (parse_fields d) in
  let! crl_root := ret (pem_contents CAST_CRL_ROOT_CA_PEM) in
  first_crl crl_root (auth_error "revocation bundle contained no supported CRL")
    (Fields.bytes_all bundle 1).

(** ** The reply *)

Definition check_revocation (crl : option bytes) (chain : list bytes) : Eff W Error bool :=
  match crl with
  | Some (b :: d) =>
    let! revocations := parse_and_verify_crl (b :: d) in
    let! _ := check_chain revocations chain in
    ret (Ok true)
  | _ => ret (Ok false)
  end.

Definition verify_challenge_reply (payload nonce tls_peer_certificate : bytes) : Eff W Error DeviceIdentity :=
  let! _ := verify_tls_certificate_lifetime tls_peer_certificate in
  let! response := ret (parse_device_auth_message payload) in
  let! _ := ret (verify_sender_nonce (sender_nonce response) nonce) in
  let! verified := verify_device_credential_chain (client_auth_certificate response)
                     (intermediate_certificates response) in
  let signature_input := auth_signature_input nonce tls_peer_certificate in
  let! _ := ret (verify_auth_signature response (leaf_public_key verified) signature_input) in
  let! checked := check_revocation (crl response) (certificates verified) in
  let fingerprint := sha256 (client_auth_certificate response) in
  ret (if bool_decide (length fingerprint = 32%nat)
       then Ok (MkDeviceIdentity fingerprint (vc_audio_only verified) checked) else Panic).
End Verification.
