(* ===== verification/AuthProps.v ===== *)
(** * Theorems about device authentication

    A reply that passes authenticates the device and its hold on the TLS
    connection; whatever is received, the checks end with a verdict. *)

From stdpp Require Import strings gmap.
From S2P Require Import Prelude Time Errors Text SyncSource CastProto Protobuf Auth.

(** ** Definitions *)

Definition is_auth_error (e : Error) : Prop := exists m, e = AuthenticationFailed m.

(** The wire values a sequence of protobuf fields carries; fixed-width fields
    are skipped. *)
Definition wire_field (f : Field) : option (Z * WireValue) :=
  match f with
  | FVarint n v => Some (n, Varint v)
  | FBytes n d => Some (n, WireBytes d)
  | FFixed32 _ _ | FFixed64 _ _ => None
  end.

Definition field_number (f : Field) : Z :=
  match f with FVarint n _ | FBytes n _ | FFixed32 n _ | FFixed64 n _ => n end.

(** ** Protobuf *)

Lemma auth_error_is m : is_auth_error (auth_error m).
Proof. by exists m. Qed.
#[export] Hint Resolve auth_error_is : cast.

Lemma take_bytes_yields d n :
  yields (take_bytes d n) (fun '(_, t) => (length t <= length d)%nat) is_auth_error.
Proof. unfold take_bytes. destruct (_ <? _); [apply auth_error_is|]. cbn. rewrite length_drop. lia. Qed.

Lemma take_varint_go_scan fuel value shift d :
  match take_varint_go fuel value shift d with
  | Ok r => scan_varint_go fuel value shift d = Some r
  | Err e => scan_varint_go fuel value shift d = None /\ is_auth_error e
  | Panic => False
  end.
Proof.
  revert value shift d. induction fuel as [|fuel IH]; intros value shift d; cbn [take_varint_go scan_varint_go].
  { split; [done|apply auth_error_is]. }
  destruct d as [|byte d]; [split; [done|apply auth_error_is]|].
  assert (Ht : take_bytes (byte :: d) 1 = Ok ([byte], d)).
  { unfold take_bytes. destruct (Z.ltb_spec (Z.of_nat (length (byte :: d))) 1); [cbn in *; lia|]. done. }
  rewrite Ht. cbn [bind ok_or lookup list_lookup].
  destruct (_ && _); [split; [done|apply auth_error_is]|]. destruct (_ =? 0); [done|apply IH].
Qed.

Lemma take_varint_scan d :
  match take_varint d with
  | Ok r => scan_varint d = Some r
  | Err e => scan_varint d = None /\ is_auth_error e
  | Panic => False
  end.
Proof. apply take_varint_go_scan. Qed.

Lemma take_varint_yields d :
  yields (take_varint d) (fun '(_, t) => (length t < length d)%nat) is_auth_error.
Proof.
  pose proof (take_varint_scan d) as Hs. destruct (take_varint d) as [[v t]|e|]; cbn; [|tauto|done].
  by apply scan_varint_length in Hs.
Qed.

Lemma parse_field_yields d fields :
  yields (parse_field d fields) (fun '(_, t) => (length t < length d)%nat) is_auth_error.
Proof.
  unfold parse_field. eapply yields_bind; [apply take_varint_yields|]. intros [tag t] Hlt.
  eapply yields_bind with (P := fun _ => True).
  { destruct (_ <? _); [apply auth_error_is|done]. }
  intros _ _. destruct (_ =? 0); [apply auth_error_is|].
  assert (Hskip : forall n, yields (let? (_, d0) := take_bytes t n in Ok (fields, d0))
    (fun '(_, t) => (length t < length d)%nat) is_auth_error).
  { intros n. eapply yields_bind; [apply take_bytes_yields|]. intros [h t'] Hle. cbn. lia. }
  repeat case_match; try apply auth_error_is; try apply Hskip.
  - eapply yields_bind; [apply take_varint_yields|]. intros [v t'] Hle. cbn. lia.
  - eapply yields_bind; [apply take_varint_yields|]. intros [len t'] Hle.
    eapply yields_bind; [apply take_bytes_yields|]. intros [b t''] Hle'. cbn. lia.
Qed.

Lemma parse_fields_yields d : yields (parse_fields d) (fun _ => True) is_auth_error.
Proof.
  unfold parse_fields. assert (Hgo : forall fuel d fields, (length d <= fuel)%nat ->
    yields (parse_fields_go fuel d fields) (fun _ => True) is_auth_error); [|intros; by apply Hgo].
  clear. induction fuel as [|fuel IH]; intros d fields Hf; (destruct d as [|b d]; [done|]); [cbn in Hf; lia|].
  cbn [parse_fields_go]. eapply yields_bind; [apply parse_field_yields|].
  intros [fields' t] Hlt. apply IH. cbn in *. lia.
Qed.

(** A field that is written is read back. *)
Lemma take_varint_encode v post : 0 <= v < 2 ^ 64 -> take_varint (encode_varint v ++ post) = Ok (v, post).
Proof.
  intros Hv. pose proof (take_varint_scan (encode_varint v ++ post)) as Hs.
  rewrite scan_varint_encode in Hs by done.
  by destruct (take_varint _) as [r|e|]; [injection Hs as ->|destruct Hs|].
Qed.

Lemma take_bytes_app d n post : Z.of_nat (length d) = n -> take_bytes (d ++ post) n = Ok (d, post).
Proof.
  intros <-. unfold take_bytes. rewrite length_app, Nat2Z.id, take_app_length, drop_app_length.
  by destruct (Z.ltb_spec (Z.of_nat (length d + length post)) (Z.of_nat (length d))); [lia|].
Qed.

Lemma tag_parts n w : 0 <= n -> 0 <= w < 8 -> Z.shiftr (n * 8 + w) 3 = n /\ Z.land (n * 8 + w) 7 = w.
Proof.
  intros Hn Hw. rewrite Z.shiftr_div_pow2 by lia. change 7 with (Z.ones 3). rewrite Z.land_ones by lia.
  change (2 ^ 3) with 8. split; zlia.
Qed.

Lemma parse_field_encode f post fields :
  field_ok f -> 1 <= field_number f ->
  parse_field (encode_tagged f ++ post) fields =
  Ok (fields ++ match wire_field f with Some x => [x] | None => [] end, post).
Proof.
  intros Hf Hn. unfold parse_field.
  assert (Htag : forall n w rest, 1 <= n < 2 ^ 29 -> 0 <= w < 8 ->
    take_varint (encode_varint (n * 8 + w) ++ rest) = Ok (n * 8 + w, rest))
    by (intros; apply take_varint_encode; lia).
  destruct f as [n v|n d|n d|n d]; cbn [field_ok field_number encode_tagged wire_field] in *;
    rewrite <- !app_assoc.
  - pose proof (Htag n 0) as H0. rewrite Z.add_0_r in H0. rewrite H0 by lia. cbn [bind].
    destruct (tag_parts n 0 ltac:(lia) ltac:(lia)) as [Hs Hl]. rewrite Z.add_0_r in Hs, Hl. rewrite Hs, Hl.
    destruct (Z.ltb_spec u32_max n); [unfold u32_max in *; lia|]. cbn [bind].
    destruct (Z.eqb_spec n 0); [lia|]. by rewrite take_varint_encode by lia.
  - rewrite Htag by lia. cbn [bind]. destruct (tag_parts n 2 ltac:(lia) ltac:(lia)) as [-> ->].
    destruct (Z.ltb_spec u32_max n); [unfold u32_max in *; lia|]. cbn [bind].
    destruct (Z.eqb_spec n 0); [lia|]. rewrite take_varint_encode by lia. cbn [bind].
    by rewrite take_bytes_app.
  - rewrite Htag by lia. cbn [bind]. destruct (tag_parts n 5 ltac:(lia) ltac:(lia)) as [-> ->].
    destruct (Z.ltb_spec u32_max n); [unfold u32_max in *; lia|]. cbn [bind].
    destruct (Z.eqb_spec n 0); [lia|]. rewrite take_bytes_app by lia. cbn [bind]. by rewrite app_nil_r.
  - rewrite Htag by lia. cbn [bind]. destruct (tag_parts n 1 ltac:(lia) ltac:(lia)) as [-> ->].
    destruct (Z.ltb_spec u32_max n); [unfold u32_max in *; lia|]. cbn [bind].
    destruct (Z.eqb_spec n 0); [lia|]. rewrite take_bytes_app by lia. cbn [bind]. by rewrite app_nil_r.
Qed.

Lemma parse_fields_encode l :
  Forall (fun f => field_ok f /\ 1 <= field_number f) l ->
  parse_fields (concat (map encode_tagged l)) = Ok (omap wire_field l).
Proof.
  unfold parse_fields. assert (Hgo : forall fuel l fields, Forall (fun f => field_ok f /\ 1 <= field_number f) l ->
    (length (concat (map encode_tagged l)) <= fuel)%nat ->
    parse_fields_go fuel (concat (map encode_tagged l)) fields = Ok (fields ++ omap wire_field l)).
  { clear. induction fuel as [|fuel IH]; intros l fields Hl Hf.
    - pose proof (tagged_count l). destruct l; [cbn; by rewrite app_nil_r|cbn in *; lia].
    - destruct l as [|f l]; [cbn; by rewrite app_nil_r|]. apply Forall_cons_iff in Hl as [[Hok Hn] Hl].
      cbn [map concat]. cbn [map concat] in Hf. rewrite length_app in Hf.
      assert (Hpos : (0 < length (encode_tagged f))%nat).
      { rewrite encode_tagged_split, length_app. pose proof (encode_varint_length (field_tag f)). lia. }
      pose proof (parse_field_encode f (concat (map encode_tagged l)) fields Hok Hn) as Hp.
      destruct (encode_tagged f ++ concat (map encode_tagged l)) as [|b d] eqn:Hd.
      { apply app_eq_nil in Hd as [Hd _]. rewrite Hd in Hpos. cbn in Hpos. lia. }
      cbn [parse_fields_go]. rewrite Hp. cbn [bind]. rewrite IH; [|done|lia].
      rewrite <- app_assoc. cbn [omap list_omap]. by destruct (wire_field f). }
  intros Hl. by rewrite Hgo.
Qed.

(** ** Verification *)

Section Verification.
Context {W : Type} `{Clock W} `{X509Library} `{Webpki} `{Ring} `{TrustRoots}.

(** A certificate that parses in full. *)
Definition parses (der : bytes) (cert : X509Certificate) : Prop := parse_x509_certificate der = inr ([], cert).

(** The readings of the clock between two of its states, in order. *)
Fixpoint took (w : W) (readings : list SystemTime) (w' : W) : Prop :=
  match readings with
  | [] => w' = w
  | t :: rest => snd (read_clock w) = t /\ took (fst (read_clock w)) rest w'
  end.

(** What a verification step does with the readings it takes: no panic, [P] of
    them and of its answer, [Q] of its error. *)
Definition timed {A} (m : Eff W Error A) (P : list SystemTime -> A -> Prop) (Q : Error -> Prop) : Prop :=
  forall w, exists readings, took w readings (fst (m w)) /\ yields (snd (m w)) (P readings) Q.

(** The TLS certificate is valid at the time [now], for at most four more days. *)
Definition fresh_tls_certificate (der : bytes) (now : Z) : Prop :=
  exists cert, parses der cert /\ not_before_timestamp cert <= now <= not_after_timestamp cert /\
    not_after_timestamp cert - now <= 4 * 24 * 60 * 60.

(** A credential: a path the library verified at [now] from the leaf through the given
    intermediates to one of the given roots, whose leaf may sign with a key of
    at least 2048 bits; it is audio-only when a certificate of the path says so. *)
Definition trusted_credential (leaf : bytes) (intermediates root_der : list bytes) (now : Z)
    (verified : VerifiedCredential) : Prop :=
  exists roots path anchor root cert,
    collect_anchors root_der = inr roots /\
    verify_for_usage leaf (ALL_VERIFICATION_ALGS ++ [legacy_cast_sha1]) roots intermediates now
      any_extended_key_usage = inr (path, anchor) /\
    root ∈ root_der /\ anchor_from_trusted_cert root = inr anchor /\
    parses leaf cert /\ (exists size, key_size cert = inr size /\ 2048 <= size) /\
    (exists usage, key_usage cert = inr usage /\ usage <> Some false) /\
    certificates verified = leaf :: path ++ [root] /\
    leaf_public_key verified = subject_public_key cert /\
    (vc_audio_only verified = true <->
     exists der c, der ∈ certificates verified /\ parses der c /\ has_audio_only_policy c = true).

(** No certificate of the chain is revoked: its key is not, and its serial
    number is in no range its issuer (the next certificate) revoked. *)
Definition certificate_not_revoked (r : Revocations) (chain : list bytes) (i : nat) : Prop :=
  exists der cert, chain !! i = Some der /\ parses der cert /\
    sha256 (public_key_raw cert) ∉ revoked_public_keys r /\
    ((0 < i)%nat -> forall ranges, revoked_serial_ranges r !! sha256 (public_key_raw cert) = Some ranges ->
      exists issued c, chain !! (i - 1)%nat = Some issued /\ parses issued c /\
        forall serial, serial_number_u64 c = Some serial -> in_ranges serial ranges = false).
Definition not_revoked (r : Revocations) (chain : list bytes) : Prop :=
  forall i, (i < length chain)%nat -> certificate_not_revoked r chain i.

(** A revocation list whose signed body was signed by a signer the root vouches
    for at [now]. *)
Definition crl_of (d root : bytes) (now : Z) (r : Revocations) : Prop :=
  exists fields tbs signer sig verified cert,
    parse_fields d = Ok fields /\ Fields.bytes_ fields 1 = Some tbs /\
    Fields.bytes_ fields 2 = Some signer /\ Fields.bytes_ fields 3 = Some sig /\
    trusted_credential signer [] [root] now verified /\
    rsa_verify RSA_PKCS1_2048_8192_SHA256 (leaf_public_key verified) tbs sig = true /\
    parses signer cert /\ parse_revocations tbs (not_after_timestamp cert) = Ok r.

(** One of a bundle, under the built-in CRL root. *)
Definition genuine_crl (bundle : bytes) (now : Z) (r : Revocations) : Prop :=
  exists fields d root, parse_fields bundle = Ok fields /\ d ∈ Fields.bytes_all fields 1 /\
    pem_contents CAST_CRL_ROOT_CA_PEM = Ok root /\ crl_of d root now r.

(** Either a list was checked, whose signer was trusted at the last reading but
    one and which is current at the last reading, or none was supplied. *)
Definition revocation_verdict (readings : list SystemTime) (crl : option bytes) (chain : list bytes)
    (checked : bool) : Prop :=
  if checked
  then exists bundle r earlier signer_now now, crl = Some bundle /\ readings = earlier ++ [signer_now; now] /\
    genuine_crl bundle (as_secs signer_now) r /\
    rv_not_before r <= as_secs now <= rv_not_after r /\ not_revoked r chain
  else crl = None \/ crl = Some [].

(** The algorithm a reply's two fields name; RSA-PSS goes with SHA-256 only. *)
Definition named_algorithm (response : AuthResponse) : option RsaAlgorithm :=
  match hash_algorithm response, signature_algorithm response with
  | Sha1, Pkcs1V15 => Some RSA_PKCS1_1024_8192_SHA1_FOR_LEGACY_USE_ONLY
  | Sha256, Pkcs1V15 => Some RSA_PKCS1_2048_8192_SHA256
  | Sha256, Pss => Some RSA_PSS_2048_8192_SHA256
  | Sha1, Pss => None
  end.

(** What an accepted reply establishes, by the readings the verification took:
    the first for the TLS certificate, the second for the device's chain, the
    rest for the revocation list. *)
Record authenticated (readings : list SystemTime) (payload nonce tls : bytes) (identity : DeviceIdentity) : Prop := {
  au_fresh : exists now, readings !! 0%nat = Some now /\ fresh_tls_certificate tls (as_secs now);
  au_response : exists now response verified cast_root eureka_root algorithm,
    readings !! 1%nat = Some now /\
    parse_device_auth_message payload = Ok response /\
    sender_nonce response = Some nonce /\
    pem_contents CAST_ROOT_CA_PEM = Ok cast_root /\ pem_contents EUREKA_ROOT_CA_PEM = Ok eureka_root /\
    trusted_credential (client_auth_certificate response) (intermediate_certificates response)
      [cast_root; eureka_root] (as_secs now) verified /\
    named_algorithm response = Some algorithm /\
    rsa_verify algorithm (leaf_public_key verified) (nonce ++ tls) (signature response) = true /\
    certificate_sha256 identity = sha256 (client_auth_certificate response) /\
    audio_only identity = vc_audio_only verified /\
    revocation_verdict (drop 2 readings) (crl response) (certificates verified) (revocation_checked identity);
}.

Lemma took_app w l w' l' w'' : took w l w' -> took w' l' w'' -> took w (l ++ l') w''.
Proof. revert w. induction l as [|t l IH]; intros w; cbn; [by intros ->|intros [? ?] ?; eauto]. Qed.

Lemma timed_bind {A B} (m : Eff W Error A) (k : A -> Eff W Error B) P R Q :
  timed m P Q -> (forall l a, P l a -> timed (k a) (fun l' => R (l ++ l')) Q) -> timed (bind_eff m k) R Q.
Proof.
  intros Hm Hk w. unfold bind_eff. destruct (Hm w) as (l & Hl & Hy). destruct (m w) as [w1 [a|e|]]; cbn in *; [|eauto..].
  destruct (Hk l a Hy w1) as (l' & Hl' & Hy'). exists (l ++ l'). split; [by eapply took_app|done].
Qed.

Lemma timed_ret {A} (r : Result Error A) (P : list SystemTime -> A -> Prop) Q : yields r (P []) Q -> timed (ret r) P Q.
Proof. intros Hr w. by exists []. Qed.

Lemma timed_ret_bind {A B} (r : Result Error A) (k : A -> Eff W Error B) P R Q :
  yields r P Q -> (forall a, P a -> timed (k a) R Q) -> timed (bind_eff (ret r) k) R Q.
Proof.
  intros Hr Hk. eapply timed_bind with (P := fun l a => l = [] /\ P a).
  - apply timed_ret. eapply yields_weaken; [exact Hr|done].
  - intros l a [-> Ha]. by apply Hk.
Qed.

Lemma timed_weaken {A} (m : Eff W Error A) (P P' : list SystemTime -> A -> Prop) Q :
  timed m P Q -> (forall l a, P l a -> P' l a) -> timed m P' Q.
Proof. intros Hm HP w. destruct (Hm w) as (l & Hl & Hy). exists l. split; [done|]. eapply yields_weaken; eauto. Qed.

Lemma parse_certificate_yields der description :
  yields (parse_certificate der description) (parses der) is_auth_error.
Proof.
  unfold parse_certificate. eapply yields_bind; [apply yields_map_err; intros; apply auth_error_is|].
  intros [remaining cert] Hp. case_bool_decide as Hr; [apply auth_error_is|].
  cbn. unfold parses. rewrite Hp. by destruct remaining; [|destruct Hr].
Qed.

Lemma verify_lifetime_yields der now :
  yields (verify_tls_certificate_lifetime_at der now) (fun _ => fresh_tls_certificate der now) is_auth_error.
Proof.
  unfold verify_tls_certificate_lifetime_at. eapply yields_bind; [apply parse_certificate_yields|].
  intros cert Hc. destruct (Z.ltb_spec now (not_before_timestamp cert)); [apply auth_error_is|].
  destruct (Z.ltb_spec (not_after_timestamp cert) now); [apply auth_error_is|].
  destruct (Z.ltb_spec (not_after_timestamp cert - now) 0); [apply auth_error_is|]. cbn [bind].
  destruct (Z.ltb_spec MAX_TLS_CERTIFICATE_LIFETIME (from_secs (not_after_timestamp cert - now))) as [|Hmax];
    [apply auth_error_is|].
  exists cert. split; [done|]. unfold MAX_TLS_CERTIFICATE_LIFETIME, from_secs, nanos_per_sec in Hmax. lia.
Qed.

(** One reading, in seconds. *)
Definition one_reading (l : list SystemTime) (now : Z) : Prop := exists t, l = [t] /\ now = as_secs t /\ 0 <= now.

Lemma unix_time_seconds_timed : timed unix_time_seconds one_reading is_auth_error.
Proof.
  intros w. exists [snd (read_clock w)]. unfold unix_time_seconds. destruct (read_clock w) as [w' now] eqn:Hw. cbn [fst snd].
  split; [cbn; by rewrite Hw|]. destruct (Z.ltb_spec now 0); [apply auth_error_is|].
  destruct (Z.leb_spec (2 ^ 63) (as_secs now)); [apply auth_error_is|].
  exists now. split_and!; try done. unfold as_secs, nanos_per_sec. apply Z.div_pos; lia.
Qed.

Lemma unix_time_u64_timed : timed unix_time_u64 one_reading is_auth_error.
Proof.
  eapply timed_bind; [apply unix_time_seconds_timed|]. intros l now Hnow. apply timed_ret.
  rewrite app_nil_r. destruct (Z.ltb_spec now 0); [by destruct Hnow as (? & _ & _ & ?); lia|done].
Qed.

Lemma trusted_root_der_yields anchor roots root_der :
  collect_anchors root_der = inr roots ->
  yields (trusted_root_der anchor roots root_der)
    (fun root => root ∈ root_der /\ anchor_from_trusted_cert root = inr anchor) is_auth_error.
Proof.
  intros Hc. unfold trusted_root_der. eapply yields_weaken; [apply yields_ok_or, auth_error_is|].
  intros root Hroot. apply bind_Some in Hroot as ([i a] & Hf & Hi).
  apply list_find_Some in Hf as (Hlook & -> & _). split; [by eapply list_elem_of_lookup_2|].
  clear -Hc Hlook Hi. revert roots i Hc Hlook Hi. induction root_der as [|der root_der IH]; intros roots i Hc Hlook Hi.
  { by destruct i. }
  cbn in Hc. destruct (anchor_from_trusted_cert der) as [e|a] eqn:Ha; [done|].
  destruct (collect_anchors root_der) as [e|l]; [done|]. injection Hc as <-.
  destruct i as [|i]; cbn in *; [congruence|]. by eapply IH.
Qed.

Lemma audio_only_chain_yields description chain restricted :
  yields (audio_only_chain description restricted chain)
    (fun b => b = true <-> restricted = true \/
       exists der c, der ∈ chain /\ parses der c /\ has_audio_only_policy c = true) is_auth_error.
Proof.
  revert restricted. induction chain as [|der chain IH]; intros restricted; cbn [audio_only_chain].
  { cbn. split; [by left|]. intros [|(? & ? & Hd & _)]; [done|by apply not_elem_of_nil in Hd]. }
  eapply yields_bind; [apply parse_certificate_yields|]. intros cert Hcert.
  eapply yields_weaken; [apply IH|]. intros b ->. rewrite orb_true_iff. split.
  - intros [[?|Hp]|(d & c & Hd & Hc & Hp)]; [by left| |].
    + right. exists der, cert. split; [by left|done].
    + right. exists d, c. split; [by right|done].
  - intros [?|(d & c & Hd & Hc & Hp)]; [by left; left|]. apply elem_of_cons in Hd as [->|Hd].
    + left. right. unfold parses in *. congruence.
    + right. by exists d, c.
Qed.

Lemma validate_signing_key_yields cert description :
  yields (validate_signing_key cert description)
    (fun _ => (exists size, key_size cert = inr size /\ 2048 <= size) /\
              (exists usage, key_usage cert = inr usage /\ usage <> Some false)) is_auth_error.
Proof.
  unfold validate_signing_key. eapply yields_bind; [apply yields_map_err; intros; apply auth_error_is|].
  intros size Hsize. destruct (Z.ltb_spec size 2048); [apply auth_error_is|].
  eapply yields_bind; [apply yields_map_err; intros; apply auth_error_is|]. intros usage Hu.
  destruct usage as [[]|]; cbn; try apply auth_error_is; (split; [by exists size|by eexists]).
Qed.

Lemma verify_chain_timed leaf intermediates root_der description :
  timed (verify_chain leaf intermediates root_der description)
    (fun l verified => exists now, l = [now] /\ trusted_credential leaf intermediates root_der (as_secs now) verified)
    is_auth_error.
Proof.
  unfold verify_chain.
  eapply timed_ret_bind; [apply yields_map_err; intros; apply auth_error_is|]. intros _ _.
  eapply timed_ret_bind; [apply yields_map_err; intros; apply auth_error_is|]. intros roots Hroots.
  eapply timed_bind; [apply unix_time_u64_timed|]. intros _ now (t & -> & -> & _).
  eapply timed_ret_bind; [apply yields_map_err; intros; apply auth_error_is|]. intros [path anchor] Hpath.
  eapply timed_ret_bind; [apply parse_certificate_yields|]. intros cert Hcert.
  eapply timed_ret_bind; [apply validate_signing_key_yields|]. intros _ [Hsize Husage].
  eapply timed_ret_bind; [by apply trusted_root_der_yields|]. intros root [Hroot Hanchor].
  eapply timed_ret_bind; [apply audio_only_chain_yields|]. intros restricted Hr.
  apply timed_ret. exists t. split; [done|]. exists roots, path, anchor, root, cert. split_and!; try done.
  cbn. rewrite Hr. split; [by intros [?|?]|by right].
Qed.

Lemma pem_contents_yields d : yields (pem_contents d) (fun c => pem_contents d = Ok c) is_auth_error.
Proof.
  eapply yields_weaken; [apply yields_eq with (P := fun _ => True)|by intros c []].
  unfold pem_contents. eapply yields_bind; [apply yields_map_err; intros; apply auth_error_is|].
  intros [r c] _. by destruct (negb _); [apply auth_error_is|].
Qed.

Lemma parse_certificate_Ok der description cert :
  parse_certificate der description = Ok cert <-> parses der cert.
Proof.
  unfold parse_certificate, parses. destruct (parse_x509_certificate der) as [e|[remaining c]]; cbn; [done|].
  case_bool_decide as Hr.
  - split; [done|]. intros [= Hnil _]. by destruct Hr.
  - assert (remaining = []) as -> by (by destruct remaining; [|destruct Hr]). split; congruence.
Qed.

Lemma check_certificate_Ok r chain i :
  check_certificate r chain i = Ok tt <-> certificate_not_revoked r chain i.
Proof.
  unfold check_certificate, certificate_not_revoked. rewrite bind_Ok. setoid_rewrite bind_Ok. split.
  - intros (der & Hi & cert & Hc & Hk). exists der, cert. apply parse_certificate_Ok in Hc.
    unfold Prelude.index in Hi. destruct (chain !! i) eqn:Hlook; [injection Hi as ->|done].
    case_bool_decide as Hkey; [done|]. split_and!; try done. intros Hpos ranges Hr.
    rewrite (proj2 (Nat.ltb_lt _ _) Hpos), Hr in Hk. apply bind_Ok in Hk as (issued & Hi' & Hk).
    apply bind_Ok in Hk as (c & Hc' & Hk). apply parse_certificate_Ok in Hc'. exists issued, c.
    unfold Prelude.index in Hi'. destruct (chain !! (i - 1)%nat); [injection Hi' as ->|done].
    split_and!; try done. intros serial Hs. rewrite Hs in Hk. by destruct (in_ranges serial ranges).
  - intros (der & cert & Hi & Hc & Hkey & Hser). exists der. split; [by apply index_Ok|].
    exists cert. split; [by apply parse_certificate_Ok|]. rewrite bool_decide_eq_false_2 by done.
    destruct (Nat.ltb_spec 0 i) as [Hpos|]; [|done].
    destruct (revoked_serial_ranges r !! _) as [ranges|] eqn:Hr; [|done].
    destruct (Hser Hpos ranges eq_refl) as (issued & c & Hi' & Hc' & Hs).
    rewrite (index_Ok _ _ _ Hi'). cbn [bind]. rewrite (proj2 (parse_certificate_Ok _ "credential chain" _) Hc'). cbn [bind].
    destruct (serial_number_u64 c) as [serial|] eqn:Hc2; [|done]. by rewrite (Hs serial eq_refl).
Qed.

Lemma check_certificates_Ok r chain n :
  check_certificates r chain n = Ok tt <-> forall i, (i < n)%nat -> certificate_not_revoked r chain i.
Proof.
  induction n as [|n IH]; cbn [check_certificates]; [split; [lia|done]|]. rewrite bind_Ok. split.
  - intros ([] & Hn & Hrest) i Hi. destruct (decide (i = n)) as [->|]; [by apply check_certificate_Ok|].
    apply IH; [done|lia].
  - intros Hall. exists tt. split; [apply check_certificate_Ok, Hall; lia|apply IH; intros; apply Hall; lia].
Qed.

Lemma check_certificate_yields r chain i :
  (i < length chain)%nat -> yields (check_certificate r chain i) (fun _ => True) is_auth_error.
Proof.
  intros Hi. unfold check_certificate.
  assert (Hidx : forall j, (j < length chain)%nat -> yields (Prelude.index chain j) (fun _ => True) is_auth_error).
  { intros j Hj. destruct (lookup_lt_is_Some_2 _ _ Hj) as [d Hd]. by rewrite (index_Ok _ _ _ Hd). }
  eapply yields_bind; [by apply Hidx|]. intros der _.
  eapply yields_bind; [apply parse_certificate_yields|]. intros cert _.
  case_bool_decide; [apply auth_error_is|]. destruct (_ <? _)%nat; [|done].
  destruct (_ !! _) as [ranges|]; [|done].
  eapply yields_bind; [apply Hidx; lia|]. intros der' _.
  eapply yields_bind; [apply parse_certificate_yields|]. intros cert' _.
  destruct (serial_number_u64 cert'); [|done]. by destruct (in_ranges _ _); [apply auth_error_is|].
Qed.

Lemma check_certificates_yields r chain n :
  (n <= length chain)%nat -> yields (check_certificates r chain n) (fun _ => True) is_auth_error.
Proof.
  induction n as [|n IH]; intros Hn; [done|]. cbn [check_certificates].
  eapply yields_bind; [by apply check_certificate_yields|]. intros _ _. apply IH. lia.
Qed.

Lemma check_chain_at_yields r chain now :
  yields (check_chain_at r chain now)
    (fun _ => rv_not_before r <= now <= rv_not_after r /\ not_revoked r chain) is_auth_error.
Proof.
  unfold check_chain_at. destruct (_ || _) eqn:Ht; [apply auth_error_is|]. apply orb_false_iff in Ht.
  eapply yields_weaken; [apply yields_eq, check_certificates_yields; lia|].
  intros [] [_ Heq]. split; [lia|]. exact (proj1 (check_certificates_Ok _ _ _) Heq).
Qed.

Lemma collect_ranges_yields data ranges : yields (collect_ranges data ranges) (fun _ => True) is_auth_error.
Proof.
  revert ranges. induction data as [|d data IH]; intros ranges; [done|]. cbn [collect_ranges].
  eapply yields_bind; [apply parse_fields_yields|]. intros range _.
  eapply yields_bind; [apply yields_ok_or, auth_error_is|]. intros issuer _.
  destruct (_ <? _); [apply auth_error_is|apply IH].
Qed.

Lemma parse_revocations_yields tbs t : yields (parse_revocations tbs t) (fun _ => True) is_auth_error.
Proof.
  unfold parse_revocations. eapply yields_bind; [apply parse_fields_yields|]. intros fields _.
  destruct (negb _); [apply auth_error_is|].
  eapply yields_bind with (P := fun _ => True); [by destruct (_ <? _); [apply auth_error_is|]|]. intros limit _.
  eapply yields_bind; [apply collect_ranges_yields|]. done.
Qed.


Lemma parse_and_verify_one_crl_timed d root :
  timed (parse_and_verify_one_crl d root) (fun l r => exists now, l = [now] /\ crl_of d root (as_secs now) r) is_auth_error.
Proof.
  unfold parse_and_verify_one_crl.
  eapply timed_ret_bind; [apply yields_eq, parse_fields_yields|]. intros fields [_ Hf].
  eapply timed_ret_bind; [apply yields_ok_or, auth_error_is|]. intros tbs Htbs.
  eapply timed_ret_bind; [apply yields_ok_or, auth_error_is|]. intros signer Hsigner.
  eapply timed_ret_bind; [apply yields_ok_or, auth_error_is|]. intros sig Hsig.
  eapply timed_bind; [apply verify_chain_timed|]. intros _ verified (now & -> & Hv).
  eapply timed_ret_bind with (P := fun _ =>
    rsa_verify RSA_PKCS1_2048_8192_SHA256 (leaf_public_key verified) tbs sig = true).
  { by destruct (rsa_verify _ _ _ _); [|apply auth_error_is]. }
  intros _ Hrsa. eapply timed_ret_bind; [apply parse_certificate_yields|]. intros cert Hcert.
  apply timed_ret. eapply yields_weaken; [apply yields_eq, parse_revocations_yields|]. intros r [_ Hr].
  exists now. split; [done|]. by exists fields, tbs, signer, sig, verified, cert.
Qed.

Lemma first_crl_timed root e crls :
  is_auth_error e ->
  timed (first_crl root e crls)
    (fun l r => exists d earlier now, d ∈ crls /\ l = earlier ++ [now] /\ crl_of d root (as_secs now) r) is_auth_error.
Proof.
  revert e. induction crls as [|d crls IH]; intros e He w; [by exists []|]. cbn [first_crl].
  destruct (parse_and_verify_one_crl_timed d root w) as (l & Hl & Hone).
  destruct (parse_and_verify_one_crl d root w) as [w' [r|e'|]]; cbn in *; [|..|done].
  - exists l. split; [done|]. destruct Hone as (now & -> & Hc). exists d, [], now. split; [by left|done].
  - destruct (IH e' Hone w') as (l' & Hl' & Hy). exists (l ++ l'). split; [by eapply took_app|].
    eapply yields_weaken; [exact Hy|]. intros r (d' & earlier & now & Hd & -> & Hc).
    exists d', (l ++ earlier), now. split_and!; [by right|by rewrite app_assoc|done].
Qed.

Lemma parse_and_verify_crl_timed d :
  timed (parse_and_verify_crl d) (fun l r => exists earlier now, l = earlier ++ [now] /\ genuine_crl d (as_secs now) r)
    is_auth_error.
Proof.
  unfold parse_and_verify_crl.
  eapply timed_ret_bind; [apply yields_eq, parse_fields_yields|]. intros bundle [_ Hb].
  eapply timed_ret_bind; [apply pem_contents_yields|]. intros root Hroot.
  eapply timed_weaken; [apply first_crl_timed, auth_error_is|]. intros l r (c & earlier & now & Hc & -> & Hr).
  exists earlier, now. split; [done|]. by exists bundle, c, root.
Qed.

Lemma check_revocation_timed crl chain :
  timed (check_revocation crl chain) (fun l checked => revocation_verdict l crl chain checked) is_auth_error.
Proof.
  unfold check_revocation. destruct crl as [[|b d]|]; [apply timed_ret; by right| |apply timed_ret; by left].
  eapply timed_bind; [apply parse_and_verify_crl_timed|]. intros _ r (earlier & signer_now & -> & Hr). unfold check_chain.
  eapply timed_bind with (P := fun l _ => exists now, l = [now] /\
    rv_not_before r <= as_secs now <= rv_not_after r /\ not_revoked r chain).
  - eapply timed_bind; [apply unix_time_u64_timed|]. intros _ now (t & -> & -> & _).
    apply timed_ret. eapply yields_weaken; [apply check_chain_at_yields|]. intros _ [Hnow Hn]. by exists t.
  - intros _ _ (now & -> & Hnow & Hn). apply timed_ret. exists (b :: d), r, earlier, signer_now, now.
    split; [done|]. split; [by rewrite app_nil_r, <- app_assoc|]. exact (conj Hr (conj Hnow Hn)).
Qed.

Lemma wire_enums_yield :
  (forall v, yields (signature_algorithm_from_wire v) (fun _ => True) is_auth_error) /\
  (forall v, yields (hash_algorithm_from_wire v) (fun _ => True) is_auth_error).
Proof.
  unfold signature_algorithm_from_wire, hash_algorithm_from_wire.
  split; intros v; repeat case_match; done || apply auth_error_is.
Qed.

Lemma parse_device_auth_message_yields d :
  yields (parse_device_auth_message d) (fun _ => True) is_auth_error.
Proof.
  unfold parse_device_auth_message. destruct wire_enums_yield as [Hsig Hhash].
  eapply yields_bind; [apply parse_fields_yields|]. intros fields _.
  destruct (Fields.bytes_ fields 3).
  { eapply yields_bind; [apply parse_fields_yields|]. intros e _. apply auth_error_is. }
  eapply yields_bind; [apply yields_ok_or, auth_error_is|]. intros response _.
  eapply yields_bind; [apply parse_fields_yields|]. intros fields' _.
  eapply yields_bind; [apply yields_ok_or, auth_error_is|]. intros sig _.
  eapply yields_bind; [apply yields_ok_or, auth_error_is|]. intros cert _.
  eapply yields_bind; [apply Hsig|]. intros a _.
  by eapply yields_bind; [apply Hhash|].
Qed.

Lemma verify_auth_signature_yields response key input :
  yields (verify_auth_signature response key input)
    (fun _ => exists algorithm, named_algorithm response = Some algorithm /\
       rsa_verify algorithm key input (signature response) = true) is_auth_error.
Proof.
  unfold verify_auth_signature. eapply yields_bind with (P := fun a => named_algorithm response = Some a).
  { unfold named_algorithm. by destruct (signature_algorithm response), (hash_algorithm response); try apply auth_error_is. }
  intros a Ha. destruct (rsa_verify a key input (signature response)) eqn:Hv; [|apply auth_error_is].
  by exists a.
Qed.

Lemma authenticate_timed (payload nonce tls : bytes) :
  timed (verify_challenge_reply payload nonce tls) (fun l => authenticated l payload nonce tls) is_auth_error.
Proof.
  unfold verify_challenge_reply, verify_device_credential_chain.
  eapply timed_bind with (P := fun l _ => exists now, l = [now] /\ fresh_tls_certificate tls (as_secs now)).
  { eapply timed_bind; [apply unix_time_seconds_timed|]. intros _ now (t & -> & -> & _).
    apply timed_ret. eapply yields_weaken; [apply verify_lifetime_yields|]. intros ? Hf. by exists t. }
  intros _ _ (tls_now & -> & Hfresh).
  eapply timed_ret_bind; [apply yields_eq, parse_device_auth_message_yields|]. intros response [_ Hresponse].
  eapply timed_ret_bind with (P := fun _ => sender_nonce response = Some nonce).
  { unfold verify_sender_nonce. by case_bool_decide as Hn; [apply auth_error_is|]. }
  intros _ Hnonce.
  eapply timed_bind with (P := fun l verified => exists now cast_root eureka_root, l = [now] /\
    pem_contents CAST_ROOT_CA_PEM = Ok cast_root /\ pem_contents EUREKA_ROOT_CA_PEM = Ok eureka_root /\
    trusted_credential (client_auth_certificate response) (intermediate_certificates response)
      [cast_root; eureka_root] (as_secs now) verified).
  { eapply timed_ret_bind; [apply pem_contents_yields|]. intros cast_root Hcast.
    eapply timed_ret_bind; [apply pem_contents_yields|]. intros eureka_root Heureka.
    eapply timed_weaken; [apply verify_chain_timed|]. intros l verified (now & -> & Hv). by exists now, cast_root, eureka_root. }
  intros _ verified (now & cast_root & eureka_root & -> & Hcast & Heureka & Hv).
  eapply timed_ret_bind; [apply verify_auth_signature_yields|]. intros _ (a & Ha & Hsigned).
  eapply timed_bind; [apply check_revocation_timed|]. intros l checked Hchecked.
  apply timed_ret. rewrite bool_decide_eq_true_2 by apply sha256_length. rewrite app_nil_r.
  split; [by exists tls_now|]. by exists now, response, verified, cast_root, eureka_root, a.
Qed.

(** C6: Whatever a receiver answers, the verification ends with a verdict and
    never panics.  An identity is returned only when, at the readings of the
    clock the verification took, the TLS certificate is valid (first reading)
    and stays so for at most four more days, the reply carries the nonce of this
    challenge, the device certificate chains to a Cast root (second reading)
    under a key of 2048 bits that may sign, that key signed the nonce and this
    connection's TLS certificate, and a revocation list, when supplied, is
    genuine, current (last reading) and lists no certificate of the chain; the
    identity holds the certificate's SHA-256.  Every refusal is an
    authentication error. *)
Theorem authentication_sound (payload nonce tls : bytes) (w : W) :
  let '(w', result) := verify_challenge_reply payload nonce tls w in
  exists readings, took w readings w' /\
    yields result (authenticated readings payload nonce tls) is_auth_error.
Proof. pose proof (authenticate_timed payload nonce tls w) as Ha. by destruct (verify_challenge_reply payload nonce tls w). Qed.

(** A chain passes a revocation list exactly when the list is current and no
    certificate of the chain is revoked: none by its key, and none by its serial
    number in a range of the certificate that issued it. *)
Theorem check_chain_at_spec (r : Revocations) (chain : list bytes) (now : Z) :
  check_chain_at r chain now = Ok tt <->
  rv_not_before r <= now <= rv_not_after r /\ not_revoked r chain.
Proof.
  unfold check_chain_at, not_revoked. rewrite <- check_certificates_Ok.
  destruct (Z.ltb_spec now (rv_not_before r)); [split; [done|lia]|].
  destruct (Z.ltb_spec (rv_not_after r) now); [split; [done|lia]|]. cbn [orb].
  split; [|by intros []]. intros Hc. split; [lia|done].
Qed.
End Verification.

(** ** The challenge *)

Lemma encode_varint_field_eq n v : 0 <= n -> 0 <= v -> encode_varint_field n v = encode_tagged (FVarint n v).
Proof.
  intros Hn Hv. unfold encode_varint_field. rewrite Z.shiftl_mul_pow2 by lia.
  by rewrite !push_varint_eq by lia.
Qed.

Lemma encode_bytes_field_eq n d : 0 <= n -> encode_bytes_field n d = encode_tagged (FBytes n d).
Proof.
  intros Hn. unfold encode_bytes_field. rewrite lor_add_disjoint by lia. by rewrite !push_varint_eq by lia.
Qed.

(** A challenge is a well-formed device-auth message: one field that holds
    the signature algorithm (PKCS #1), a 16-byte nonce from the generator and
    the hash algorithm (SHA-256); the nonce kept for the check is the one sent. *)
Theorem create_challenge_wellformed {R} `{RngLaws R} (r : R) :
  exists challenge,
    parse_fields (challenge_payload (snd (create_challenge r))) = Ok [(1, WireBytes challenge)] /\
    parse_fields challenge =
      Ok [(1, Varint 1); (2, WireBytes (challenge_nonce (snd (create_challenge r)))); (3, Varint 1)] /\
    challenge_nonce (snd (create_challenge r)) = snd (fill_bytes r NONCE_SIZE) /\
    length (challenge_nonce (snd (create_challenge r))) = 16%nat.
Proof.
  unfold create_challenge. pose proof (fill_bytes_length r NONCE_SIZE) as Hlen.
  pose proof (fill_bytes_ok r NONCE_SIZE) as Hbytes.
  destruct (fill_bytes r NONCE_SIZE) as [r' nonce]. cbn [snd challenge_payload challenge_nonce] in *.
  change NONCE_SIZE with 16%nat in Hlen. set (l := [FVarint 1 1; FBytes 2 nonce; FVarint 3 1]).
  assert (Hl : encode_varint_field 1 1 ++ encode_bytes_field 2 nonce ++ encode_varint_field 3 1
    = concat (map encode_tagged l)).
  { by rewrite !encode_varint_field_eq, encode_bytes_field_eq by lia. }
  assert (Hok : Forall (fun f => field_ok f /\ 1 <= field_number f) l).
  { repeat constructor; cbn; rewrite ?Hlen; done || lia. }
  assert (Hsize : (length (concat (map encode_tagged l)) < 100)%nat).
  { subst l. cbn [map concat encode_tagged]. rewrite Hlen, !length_app, Hlen. apply Nat.ltb_lt. by vm_compute. }
  rewrite Hl. exists (concat (map encode_tagged l)). rewrite encode_bytes_field_eq by lia.
  split; [|split; [exact (parse_fields_encode l Hok)|done]].
  pose proof (parse_fields_encode [FBytes 1 (concat (map encode_tagged l))]) as Hp.
  cbn [map concat omap list_omap wire_field] in Hp. rewrite app_nil_r in Hp. apply Hp.
  apply Forall_cons_iff. split; [|by constructor]. cbn [field_ok field_number].
  split_and!; try lia. apply encode_fields_ok. eapply Forall_impl; [|exact Hok]. by intros f [].
Qed.

(** C36: The varint routines the crate has agree: the writer of the
    authentication code is the codec's on every [u64], and the two slice readers
    accept what the positional decoder accepts, with the same value and rest. *)
Theorem varint_forms_agree :
  (forall v, 0 <= v < 2 ^ 64 -> push_varint v = encode_varint v) /\
  (forall d, scan_varint d = match decode_varint d 0 with Ok (v, p) => Some (v, drop p d) | _ => None end) /\
  (forall d r, take_varint d = Ok r <-> scan_varint d = Some r).
Proof.
  split_and!; [intros; apply push_varint_eq; lia|apply scan_varint_decode|]. intros d r.
  pose proof (take_varint_scan d) as Hs. destruct (take_varint d) as [r'|e|]; [..|done].
  - rewrite Hs. split; congruence.
  - destruct Hs as [-> _]. done.
Qed.

(** Reading a message's fields is total: any input gives the fields or an
    authentication error, never a panic; and a message of well-formed fields is
    read back in order, its fixed-width fields skipped. *)
Theorem parse_fields_spec :
  (forall d, yields (parse_fields d) (fun _ => True) is_auth_error) /\
  (forall l, Forall (fun f => field_ok f /\ 1 <= field_number f) l ->
     parse_fields (concat (map encode_tagged l)) = Ok (omap wire_field l)).
Proof. split; [apply parse_fields_yields|apply parse_fields_encode]. Qed.

(** ** Small instances *)

Module Toy.
(** The clock stands still. *)
Definition clock : Clock unit := fun w => (w, from_secs 1000).

(** A certificate is its own encoding: a serial number and an issuer. *)
Definition x509 : X509Library := {|
  X509Certificate := bytes;
  parse_x509_certificate d := inr ([], d);
  parse_x509_pem d := inr ([10], d);
  not_before_timestamp _ := 0;
  not_after_timestamp _ := 2000;
  key_size _ := inr 2048;
  key_usage _ := inr (Some true);
  extension_policies _ := [None];
  subject_public_key c := c;
  public_key_raw c := c;
  raw_serial c := take 1 c;
|}.

(** A path: every certificate ends with the serial number of the next. *)
Definition webpki : Webpki := {|
  TrustAnchor := bytes;
  end_entity_cert _ := inr tt;
  anchor_from_trusted_cert d := inr d;
  ALL_VERIFICATION_ALGS := [];
  RSA_ENCRYPTION := [];
  verify_for_usage leaf _ roots intermediates _ _ :=
    match list_find (fun root => head (reverse (List.last intermediates leaf)) = head root) roots with
    | Some (_, root) => inr (intermediates, root)
    | None => inl "UnknownIssuer"
    end;
|}.

Lemma toy_sha256_length (d : bytes) : length (take 32 (d ++ replicate 32 0)) = 32%nat.
Proof. rewrite length_take, length_app, length_replicate. lia. Qed.
Definition ring : Ring := {|
  rsa_verify _ key message sig := bool_decide (sig = key ++ message);
  sha256 d := take 32 (d ++ replicate 32 0);
  sha256_length := toy_sha256_length;
|}.

Definition roots : TrustRoots :=
  {| CAST_ROOT_CA_PEM := [1; 1]; EUREKA_ROOT_CA_PEM := [2; 2]; CAST_CRL_ROOT_CA_PEM := [3; 3] |}.
#[local] Existing Instances clock x509 webpki ring roots.

Definition nonce : bytes := replicate 16 9.
Definition tls : bytes := [42].
Definition leaf : bytes := [8; 2].

(** A reply signed by [leaf], with a revocation list for serial numbers of the
    first root. *)
Definition crl_body : bytes :=
  concat (map encode_tagged [FVarint 2 0; FVarint 3 1500; FBytes 4 [7]; FBytes 5
    (concat (map encode_tagged [FBytes 1 (sha256 [1; 1]); FVarint 2 8; FVarint 3 8]))]).
Definition crl_signer : bytes := [5; 3].
Definition bundle : bytes := encode_tagged (FBytes 1 (concat (map encode_tagged
  [FBytes 1 crl_body; FBytes 2 crl_signer; FBytes 3 (crl_signer ++ crl_body)]))).
Definition reply (leaf crl : bytes) : bytes := encode_tagged (FBytes 2 (concat (map encode_tagged
  [FBytes 1 (leaf ++ nonce ++ tls); FBytes 2 leaf; FBytes 5 nonce; FVarint 6 1; FBytes 7 crl]))).

(** Accepted with and without a revocation list; the certificate the first
    root issued under the same serial number is revoked. *)
Lemma toy_verdicts :
  verify_challenge_reply (reply leaf bundle) nonce tls tt = (tt, Ok (MkDeviceIdentity (sha256 leaf) false true)) /\
  verify_challenge_reply (reply leaf []) nonce tls tt = (tt, Ok (MkDeviceIdentity (sha256 leaf) false false)) /\
  verify_challenge_reply (reply [8; 1] bundle) nonce tls tt =
    (tt, Err (AuthenticationFailed "receiver credential certificate serial number is revoked")).
Proof. split_and!; vm_compute; reflexivity. Qed.

Lemma authentication_sound_witness :
  exists identity readings, took tt readings tt /\ authenticated readings (reply leaf bundle) nonce tls identity /\
    revocation_checked identity = true.
Proof.
  exists (MkDeviceIdentity (sha256 leaf) false true).
  generalize (authentication_sound (reply leaf bundle) nonce tls tt).
  rewrite (proj1 toy_verdicts). intros (readings & Ht & Ha). exists readings. split; [exact Ht|]. split; [exact Ha|reflexivity].
Defined.

Lemma create_challenge_wellformed_witness :
  exists challenge, parse_fields (challenge_payload (snd (create_challenge 3))) = Ok [(1, WireBytes challenge)].
Proof. destruct (create_challenge_wellformed 3) as (c & Hc & _). exists c. exact Hc. Defined.
End Toy.
