(* ===== verification/Order.v ===== *)
(** * Comparators and stable sorting

    Rust's [Ordering], comparators built with [then_with], [slice::sort_by]
    (a stable sort) and [Vec::dedup]. *)

From stdpp Require Import strings sorting.
From S2P Require Import Prelude.

Definition Comparator (A : Type) : Type := A -> A -> comparison.

(** [Ordering::then_with]. *)
Definition then_with (c d : comparison) : comparison := match c with Eq => d | _ => c end.

(** What [Ord] asks: a total preorder. *)
Class ComparatorLaws {A} (cmp : Comparator A) : Prop := {
  cmp_opp x y : cmp y x = CompOpp (cmp x y);
  cmp_eq x y z : cmp x y = Eq -> cmp x z = cmp y z;
  cmp_lt x y z : cmp x y = Lt -> cmp y z = Lt -> cmp x z = Lt;
}.

(** [Ord for Option]: [None] first. *)
Definition option_cmp {A} (cmp : Comparator A) : Comparator (option A) := fun x y =>
  match x, y with
  | None, None => Eq
  | None, Some _ => Lt
  | Some _, None => Gt
  | Some x, Some y => cmp x y
  end.

Section Sort.
Context {A : Type} (cmp : Comparator A).

Definition leb (x y : A) : bool := match cmp x y with Gt => false | _ => true end.
Definition le (x y : A) : Prop := leb x y = true.

(** Before the first element that is not smaller: equal elements keep their
    order. *)
Fixpoint insert_sorted (x : A) (l : list A) : list A :=
  match l with
  | [] => [x]
  | y :: l' => if leb x y then x :: l else y :: insert_sorted x l'
  end.
Definition sort_by (l : list A) : list A := foldr insert_sorted [] l.

(** [Vec::dedup]: each run of equal elements becomes one. *)
Fixpoint dedup `{EqDecision A} (l : list A) : list A :=
  match l with
  | [] => []
  | x :: l' =>
    match dedup l' with
    | (y :: _) as r => if decide (x = y) then r else x :: r
    | [] => [x]
    end
  end.

Lemma insert_sorted_perm x l : insert_sorted x l ≡ₚ x :: l.
Proof.
  induction l as [|y l IH]; [done|]. cbn. destruct (leb x y); [done|]. rewrite IH. apply Permutation_swap.
Qed.

Lemma sort_by_perm l : sort_by l ≡ₚ l.
Proof. induction l as [|x l IH]; [done|]. cbn. rewrite insert_sorted_perm. by f_equiv. Qed.

Lemma dedup_elem `{EqDecision A} x l : x ∈ dedup l <-> x ∈ l.
Proof.
  induction l as [|y l IH]; [done|]. cbn [dedup]. rewrite elem_of_cons, <- IH.
  destruct (dedup l) as [|z r]; [apply elem_of_cons|].
  destruct (decide (y = z)) as [->|]; [|apply elem_of_cons].
  split; [by right|]. intros [->|?]; [by left|done].
Qed.

Lemma dedup_sublist `{EqDecision A} l : dedup l `sublist_of` l.
Proof.
  induction l as [|y l IH]; [done|]. cbn [dedup]. destruct (dedup l) as [|z r]; [by apply sublist_skip|].
  destruct (decide (y = z)); [by apply sublist_cons|by apply sublist_skip].
Qed.

Lemma dedup_nil `{EqDecision A} l : dedup l = [] -> l = [].
Proof. destruct l as [|y l]; [done|]. cbn [dedup]. destruct (dedup l); [done|]. by destruct (decide _). Qed.

Context `{!ComparatorLaws cmp}.

Lemma le_total x y : le x y \/ le y x.
Proof. unfold le, leb. rewrite (cmp_opp x y). destruct (cmp x y); auto. Qed.

#[export] Instance le_transitive : Transitive le.
Proof.
  intros x y z. unfold le, leb. destruct (cmp x y) eqn:Hxy; [|destruct (cmp y z) eqn:Hyz|]; try done.
  - by rewrite (cmp_eq x y z Hxy).
  - intros _ _. rewrite (cmp_opp z x). assert (Hzy : cmp z y = Eq) by (by rewrite cmp_opp, Hyz).
    rewrite (cmp_eq z y x Hzy), (cmp_opp x y), Hxy. done.
  - by rewrite (cmp_lt x y z Hxy Hyz).
Qed.

Lemma insert_sorted_sorted x l : StronglySorted le l -> StronglySorted le (insert_sorted x l).
Proof.
  induction 1 as [|y l Hl IH Hy]; [by repeat constructor|]. cbn. destruct (leb x y) eqn:Hxy.
  - constructor; [by constructor|]. constructor; [done|].
    eapply Forall_impl; [|exact Hy]. intros z. by transitivity y.
  - constructor; [done|]. rewrite insert_sorted_perm. constructor; [|done].
    destruct (le_total x y) as [Hle|Hle]; [|done]. unfold le in Hle. congruence.
Qed.

Lemma sort_by_sorted l : StronglySorted le (sort_by l).
Proof. induction l as [|x l IH]; [constructor|]. by apply insert_sorted_sorted. Qed.
End Sort.

(** Sorting forgets the order of its input when no two elements compare equal. *)
Lemma sort_by_unique {A} (cmp : Comparator A) `{!ComparatorLaws cmp} (l l' : list A) :
  (forall x y, x ∈ l -> y ∈ l -> cmp x y = Eq -> x = y) -> l ≡ₚ l' -> sort_by cmp l = sort_by cmp l'.
Proof.
  intros Hinj Hp.
  assert (Hu : forall s t, StronglySorted (le cmp) s -> StronglySorted (le cmp) t -> s ≡ₚ t ->
    (forall x, x ∈ s -> x ∈ l) -> s = t).
  { induction s as [|x s IH]; intros t Hs Ht Hst Hin.
    - symmetry. by apply Permutation_nil_l in Hst.
    - destruct t as [|y t]; [by apply Permutation_nil_r in Hst|].
      inversion Hs as [|? ? Hs' Hx]; subst. inversion Ht as [|? ? Ht' Hy]; subst.
      assert (Hxy : x = y).
      { assert (Hxt : x ∈ y :: t) by (rewrite <- Hst; by left).
        assert (Hys : y ∈ x :: s) by (rewrite Hst; by left).
        apply elem_of_cons in Hxt as [->|Hxt]; [done|]. apply elem_of_cons in Hys as [->|Hys]; [done|].
        assert (le cmp x y) as Hle1 by (by eapply stdpp.list_relations.list.Forall_forall in Hx).
        assert (le cmp y x) as Hle2 by (by eapply stdpp.list_relations.list.Forall_forall in Hy).
        apply Hinj; [apply Hin; by left|apply Hin; by right|]. unfold le, leb in *.
        rewrite (cmp_opp x y) in Hle2. by destruct (cmp x y). }
      subst y. f_equal. apply IH; [done|done|by apply Permutation_cons_inv in Hst|].
      intros z Hz. apply Hin. by right. }
  apply Hu; [apply sort_by_sorted; apply _|apply sort_by_sorted; apply _|by rewrite !sort_by_perm|].
  intros x. by rewrite sort_by_perm.
Qed.

(** ** Instances *)

#[export] Instance Z_compare_laws : ComparatorLaws Z.compare.
Proof.
  split.
  - intros x y. apply Z.compare_antisym.
  - intros x y z Heq. by apply Z.compare_eq in Heq as ->.
  - intros x y z. rewrite !Z.compare_lt_iff. lia.
Qed.

#[export] Instance option_cmp_laws {A} (cmp : Comparator A) : ComparatorLaws cmp -> ComparatorLaws (option_cmp cmp).
Proof.
  intros [Hopp Heq Hlt]. split; repeat intros [?|]; cbn; eauto; done.
Qed.

#[export] Instance map_laws {A B} (f : A -> B) (cmp : Comparator B) :
  ComparatorLaws cmp -> ComparatorLaws (fun x y => cmp (f x) (f y)).
Proof. intros [Hopp Heq Hlt]. split; eauto. Qed.

#[export] Instance then_with_laws {A} (c d : Comparator A) :
  ComparatorLaws c -> ComparatorLaws d -> ComparatorLaws (fun x y => then_with (c x y) (d x y)).
Proof.
  intros [Hco Hce Hcl] [Hdo Hde Hdl]. split; intros x y.
  - rewrite Hco, Hdo. by destruct (c x y), (d x y).
  - intros z. destruct (c x y) eqn:Hc; cbn; [|done|done]. intros Hd. by rewrite (Hce x y z Hc), (Hde x y z Hd).
  - intros z. destruct (c x y) eqn:Hc; cbn; [|..|done].
    + rewrite (Hce x y z Hc). destruct (c y z); cbn; [|done|done]. apply Hdl.
    + destruct (c y z) eqn:Hyz; cbn; [| |done].
      * intros _ _. assert (Hzx : c z x = Gt).
        { rewrite (Hce z y x); [by rewrite Hco, Hc|by rewrite Hco, Hyz]. }
        by rewrite Hco, Hzx.
      * intros _ _. by rewrite (Hcl x y z Hc Hyz).
Qed.

(** [Ord for str]: by bytes. *)
#[export] Instance string_compare_laws : ComparatorLaws String.compare.
Proof.
  split.
  - intros x y. apply String.compare_antisym.
  - intros x y z Heq. by apply String.compare_eq_iff in Heq as ->.
  - induction x as [|a x IH]; intros [|b y] [|c z]; cbn; try done.
    pose proof (cmp_lt (cmp := Z.compare)) as _.
    destruct (Ascii.compare a b) eqn:Hab; [| |done].
    + apply Ascii.compare_eq_iff in Hab as ->. destruct (Ascii.compare b c); [|done|done]. apply IH.
    + destruct (Ascii.compare b c) eqn:Hbc; [| |done].
      * apply Ascii.compare_eq_iff in Hbc as <-. by rewrite Hab.
      * intros _ _. assert (Ascii.compare a c = Lt) as ->; [|done].
        unfold Ascii.compare in *. rewrite N.compare_lt_iff in *. lia.
Qed.
