(* ===== verification/Net.v ===== *)
(** * Network addresses as text

    The parts of Rust's standard library the connection, setup and discovery
    code formats and parses with: hexadecimal numbers, [Display] of addresses,
    and ASCII case. *)

From Stdlib Require Import Ascii.
From stdpp Require Import strings.
From S2P Require Import Prelude Text EventLoop Session.

(** ** Hexadecimal *)

(** [{:x}] writes lower case. *)
Definition hex_char (d : Z) : ascii := ascii_of_nat (Z.to_nat (if d <? 10 then 48 + d else 87 + d)).

(** [char::to_digit(16)]. *)
Definition hex_digit (c : ascii) : option Z :=
  let n := Z.of_nat (nat_of_ascii c) in
  if (48 <=? n) && (n <=? 57) then Some (n - 48)
  else if (97 <=? n) && (n <=? 102) then Some (n - 87)
  else if (65 <=? n) && (n <=? 70) then Some (n - 55) else None.

Fixpoint display_hex_go (fuel : nat) (n : Z) (acc : string) : string :=
  match fuel with
  | O => acc
  | S fuel' =>
    let acc := String (hex_char (n mod 16)) acc in
    if n <? 16 then acc else display_hex_go fuel' (n / 16) acc
  end.
(** [{:x}]: a number below [2^(k+1)] has at most [k+1] digits. *)
Definition display_hex (n : Z) : string := display_hex_go (S (Z.to_nat (Z.log2 n))) n "".

Fixpoint parse_hex_digits (max acc : Z) (s : string) : option Z :=
  match s with
  | EmptyString => Some acc
  | String c s' =>
    d ← hex_digit c;
    let acc := acc * 16 + d in
    if acc <=? max then parse_hex_digits max acc s' else None
  end.

(** [uN::from_str_radix(_, 16)]: an optional [+], then at least one digit. *)
Definition from_str_radix_16 (max : Z) (s : string) : option Z :=
  match s with
  | EmptyString => None
  | String "+" EmptyString => None
  | String "+" s' => parse_hex_digits max 0 s'
  | s => parse_hex_digits max 0 s
  end.

(** [format!("{:02x}", byte)]. *)
Definition hex_byte (b : Z) : string := String (hex_char (b / 16)) (String (hex_char (b mod 16)) "").

(** ** ASCII case *)

Definition to_ascii_lowercase (c : ascii) : ascii :=
  let n := nat_of_ascii c in if ((65 <=? n) && (n <=? 90))%nat then ascii_of_nat (n + 32) else c.
Fixpoint eq_ignore_ascii_case (s t : string) : bool :=
  match s, t with
  | EmptyString, EmptyString => true
  | String a s, String b t =>
    bool_decide (to_ascii_lowercase a = to_ascii_lowercase b) && eq_ignore_ascii_case s t
  | _, _ => false
  end.

(** [s.split(c)]. *)
Fixpoint split (c : ascii) (s : string) : list string :=
  match s with
  | EmptyString => [EmptyString]
  | String x s' =>
    if decide (x = c) then EmptyString :: split c s'
    else match split c s' with
         | first :: rest => String x first :: rest
         | [] => [String x EmptyString]
         end
  end.

(** ** [Display] of addresses *)

Definition display_ipv4 (ip : Z) : string :=
  display (Z.land (Z.shiftr ip 24) 255) +:+ "." +:+ display (Z.land (Z.shiftr ip 16) 255) +:+ "." +:+
  display (Z.land (Z.shiftr ip 8) 255) +:+ "." +:+ display (Z.land ip 255).

(** The eight 16-bit groups, most significant first. *)
Definition segments (ip : Z) : list Z :=
  map (fun i => Z.land (Z.shiftr ip (16 * (7 - Z.of_nat i))) 0xFFFF) (seq 0 8).

(** The longest run of zero groups, the first of the longest: its start and its
    length.  [current] is the run under way. *)
Fixpoint longest_zeroes (i : nat) (current longest : nat * nat) (groups : list Z) : nat * nat :=
  match groups with
  | [] => longest
  | g :: groups' =>
    if g =? 0 then
      let current := ((if (current.2 =? 0)%nat then i else current.1), S current.2) in
      longest_zeroes (S i) current (if (longest.2 <? current.2)%nat then current else longest) groups'
    else longest_zeroes (S i) (0%nat, 0%nat) longest groups'
  end.

Fixpoint colon_separated (groups : list Z) : string :=
  match groups with
  | [] => ""
  | [g] => display_hex g
  | g :: groups' => display_hex g +:+ ":" +:+ colon_separated groups'
  end.

Definition display_ipv6 (ip : Z) : string :=
  let groups := segments ip in
  if Z.shiftr ip 32 =? 0xFFFF then "::ffff:" +:+ display_ipv4 (Z.land ip 0xFFFFFFFF)
  else
    let '(start, len) := longest_zeroes 0 (0%nat, 0%nat) (0%nat, 0%nat) groups in
    if (1 <? len)%nat
    then colon_separated (take start groups) +:+ "::" +:+ colon_separated (drop (start + len) groups)
    else colon_separated groups.

Definition display_socket_addr (a : SocketAddr) : string :=
  match a with
  | V4 ip port => display_ipv4 ip +:+ ":" +:+ display port
  | V6 ip port _ scope_id =>
    if scope_id =? 0 then "[" +:+ display_ipv6 ip +:+ "]:" +:+ display port
    else "[" +:+ display_ipv6 ip +:+ "%" +:+ display scope_id +:+ "]:" +:+ display port
  end.

Definition ip_of (a : SocketAddr) : IpAddr := match a with V4 ip _ => IpV4 ip | V6 ip _ _ _ => IpV6 ip end.
Definition port_of (a : SocketAddr) : Z := match a with V4 _ port | V6 _ port _ _ => port end.

Example display_examples :
  display_socket_addr (V4 0xC0000208 8443) = "192.0.2.8:8443" /\
  display_socket_addr (V6 (0xfe80 * 2 ^ 112 + 0x1234) 8443 0 7) = "[fe80::1234%7]:8443" /\
  display_ipv6 0 = "::" /\ display_ipv6 1 = "::1" /\ display_ipv6 0xFFFF01020304 = "::ffff:1.2.3.4" /\
  display_ipv6 (0x2001 * 2 ^ 112 + 1 * 2 ^ 64 + 2) = "2001:0:0:1::2".
Proof. split_and!; vm_compute; reflexivity. Qed.

(** ** Lemmas *)

Lemma hex_digit_char d : 0 <= d < 16 -> hex_digit (hex_char d) = Some d.
Proof.
  intros Hd. unfold hex_char, hex_digit. rewrite nat_ascii_embedding by (destruct (_ <? _); lia).
  rewrite Z2Nat.id by (destruct (_ <? _); lia). destruct (Z.ltb_spec d 10).
  - rewrite (proj2 (Z.leb_le 48 _)), (proj2 (Z.leb_le _ 57)) by lia. cbn. f_equal. lia.
  - rewrite (proj2 (Z.leb_gt _ 57)), (proj2 (Z.leb_le 97 _)), (proj2 (Z.leb_le _ 102)) by lia.
    rewrite andb_false_r. cbn. f_equal. lia.
Qed.

Lemma parse_display_hex_go max fuel n tail :
  0 <= n <= max -> n < 16 ^ Z.of_nat fuel ->
  parse_hex_digits max 0 (display_hex_go fuel n tail) = parse_hex_digits max n tail.
Proof.
  revert n tail. induction fuel as [|fuel IH]; intros n tail Hn Hf; [cbn in Hf; by assert (n = 0) as -> by lia|].
  cbn [display_hex_go]. pose proof (Z.mod_pos_bound n 16 ltac:(lia)) as Hm.
  assert (Hstep : forall q, 0 <= q -> q * 16 + n mod 16 = n ->
    parse_hex_digits max q (String (hex_char (n mod 16)) tail) = parse_hex_digits max n tail).
  { intros q Hq Hqn. cbn [parse_hex_digits]. rewrite hex_digit_char by lia. cbn [mbind option_bind].
    rewrite Hqn. by destruct (Z.leb_spec n max); [|lia]. }
  destruct (Z.ltb_spec n 16).
  - apply Hstep; [lia|]. rewrite Z.mod_small; lia.
  - rewrite IH; [|zlia|rewrite Nat2Z.inj_succ, Z.pow_succ_r in Hf by lia; zlia].
    apply Hstep; zlia.
Qed.

Lemma display_hex_go_head fuel n tail : exists d s, 0 <= d < 16 /\ display_hex_go (S fuel) n tail = String (hex_char d) s.
Proof.
  revert n tail. induction fuel as [|fuel IH]; intros n tail.
  - exists (n mod 16), tail. split; [apply Z.mod_pos_bound; lia|]. cbn. by destruct (n <? 16).
  - cbn [display_hex_go]. destruct (n <? 16); [|apply IH].
    exists (n mod 16), tail. split; [apply Z.mod_pos_bound; lia|done].
Qed.

(** What [{:x}] writes, [from_str_radix] reads. *)
Lemma from_str_radix_display max n : 0 <= n <= max -> from_str_radix_16 max (display_hex n) = Some n.
Proof.
  intros Hn. unfold display_hex.
  destruct (display_hex_go_head (Z.to_nat (Z.log2 n)) n "") as (d & s & Hd & Hs).
  assert (Hp : parse_hex_digits max 0 (String (hex_char d) s) = Some n).
  { rewrite <- Hs, parse_display_hex_go; [done|done|]. rewrite Nat2Z.inj_succ, Z2Nat.id by apply Z.log2_nonneg.
    destruct (Z.eq_dec n 0) as [->|]; [done|]. pose proof (Z.log2_spec n ltac:(lia)) as [_ Hl].
    eapply Z.lt_le_trans; [exact Hl|]. apply Z.pow_le_mono_l. lia. }
  rewrite Hs. pose proof (hex_digit_char d Hd) as Hh. unfold from_str_radix_16.
  destruct (hex_char d) as [[] [] [] [] [] [] [] []] eqn:Hc; try exact Hp. done.
Qed.
