(* ===== verification/Control.v ===== *)
(** * The control connection's task ([src/src/control/mod.rs])

    [control_loop] is one [select!] loop that owns the framed writer, three
    tables of pending requests and the applications the receiver reported.
    [ControlState] holds its local variables, each arm of the [select!] is a
    handler, and [control_iteration] is one round of the loop.

    What the loop does to the outside is recorded, in order, in [effects]: the
    answers it sends on one-shot channels, the senders it drops, the events it
    broadcasts and the messages it has written.  A one-shot sender is named by
    a number.  The environment supplies, per round, the clock, the one-shot
    receivers that have gone away and the branch that became ready; the class
    [ControlWriter] is the TLS stream's write half. *)

From Stdlib Require Import Floats.SpecFloat.
From stdpp Require Import strings gmap.
From S2P Require Import Prelude Time Errors Text Json CastProto CastFraming.

Definition CAST_PORT : Z := 8009.
Definition APP_MIRRORING : string := "0F5096E8".
Definition NS_CONNECTION : string := "urn:x-cast:com.google.cast.tp.connection".
Definition NS_DEVICE_AUTH : string := "urn:x-cast:com.google.cast.tp.deviceauth".
Definition NS_HEARTBEAT : string := "urn:x-cast:com.google.cast.tp.heartbeat".
Definition NS_RECEIVER : string := "urn:x-cast:com.google.cast.receiver".
Definition NS_RECEIVER_DISCOVERY : string := "urn:x-cast:com.google.cast.receiver.discovery".
Definition NS_SETUP : string := "urn:x-cast:com.google.cast.setup".
Definition NS_WEBRTC : string := "urn:x-cast:com.google.cast.webrtc".
Definition SENDER_ID : string := "sender-0".
Definition RECEIVER_ID : string := "receiver-0".
Definition HEARTBEAT_INTERVAL : Duration := from_secs 5.
Definition HEARTBEAT_TIMEOUT : Duration := from_secs 15.
Definition REQUEST_TIMEOUT : Duration := from_secs 10.

Record CastApp := MkCastApp {
  app_id : string;
  transport_id : string;
  session_id : string;
  display_name : option string;
}.
#[export] Instance CastApp_eq_dec : EqDecision CastApp.
Proof. solve_decision. Defined.

Record ReceiverStatus := MkReceiverStatus {
  applications : list CastApp;
  volume_level : option spec_float;
  muted : option bool;
}.

Inductive AppAvailability := Available | Unavailable.

Inductive ControlCloseReason :=
| Requested
| PeerClosed
| HeartbeatTimeout
| CloseError (detail : string).
#[export] Instance ControlCloseReason_eq_dec : EqDecision ControlCloseReason.
Proof. solve_decision. Defined.

Inductive ControlEvent :=
| StatusEvent (status : ReceiverStatus)
| ApplicationStopped (app : CastApp)
| Closed (reason : ControlCloseReason).

Inductive ReceiverOperation :=
| Availability (app_id : string)
| Launch (app_id : string)
| SetVolume
| Status
| Stop.
#[export] Instance ReceiverOperation_eq_dec : EqDecision ReceiverOperation.
Proof. solve_decision. Defined.

Inductive ProductInfoOperation := DeviceInfo | EurekaInfo.
#[export] Instance ProductInfoOperation_eq_dec : EqDecision ProductInfoOperation.
Proof. solve_decision. Defined.

(** The identity of a one-shot sender. *)
Abbreviation ResponseSender := nat.

Inductive ControlCommand :=
| ReceiverRequest (operation : ReceiverOperation) (payload : option Json) (sender : ResponseSender)
| ProductInfoRequest (operation : ProductInfoOperation) (sender : ResponseSender)
| SendOffer (destination : string) (offer : Json) (sender : ResponseSender)
| SendFire (namespace destination : string) (payload : Json) (sender : ResponseSender)
| Close (sender : ResponseSender).

Record PendingReceiverRequest := MkPendingReceiver {
  rr_operation : ReceiverOperation;
  rr_sender : ResponseSender;
}.
Record PendingOffer := MkPendingOffer { po_destination : string; po_sender : ResponseSender }.
Record PendingProductInfoRequest := MkPendingProductInfo {
  pi_operation : ProductInfoOperation;
  pi_sender : ResponseSender;
}.

Inductive Effect :=
| Respond (sender : ResponseSender) (response : Result Error Json)
| RespondFire (sender : ResponseSender) (response : Result Error unit)
| RespondClose (sender : ResponseSender)
| DropSender (sender : ResponseSender)
| Publish (event : ControlEvent)
| Write (message : CastMessage).

(** The locals of [control_loop]. *)
Record ControlState := MkControl {
  next_request_id : Z;
  next_product_info_request_id : Z;
  next_sequence_number : Z;
  pending_receiver : gmap Z PendingReceiverRequest;
  pending_product_info : gmap Z PendingProductInfoRequest;
  pending_offers : gmap Z PendingOffer;
  known_apps : gmap string CastApp;
  last_heartbeat : Instant;
  effects : list Effect;
}.
#[export] Instance ControlState_eta : Eta ControlState := fun s =>
  MkControl (next_request_id s) (next_product_info_request_id s) (next_sequence_number s)
    (pending_receiver s) (pending_product_info s) (pending_offers s) (known_apps s)
    (last_heartbeat s) (effects s).

(** The order in which a [HashMap] is iterated: any order. *)
Class HashOrder := {
  hash_iter : forall {K A : Type} `{Countable K}, gmap K A -> list (K * A);
  hash_iter_perm {K A} `{Countable K} (m : gmap K A) : hash_iter m ≡ₚ map_to_list m;
}.

(** The TLS stream's write half: a whole frame is written and flushed, the
    write fails, or it outlasts [REQUEST_TIMEOUT]. *)
Inductive WriteOutcome := WriteDone | WriteFailed (e : IoError) | WriteTimedOut.
Class ControlWriter (W : Type) := write_frame : W -> bytes -> W * WriteOutcome.

Definition emit (es : list Effect) (s : ControlState) : ControlState :=
  s <| effects := effects s ++ es |>.

Definition connection_error (detail : string) : Error := ConnectionFailed detail.
Definition control_closed_error : Error := connection_error "control channel closed".

(** ** Operations *)

(** [ReceiverOperation::payload]; [unreachable!] for operations that carry
    their own payload. *)
Definition operation_payload (self : ReceiverOperation) (request_id : Z) : Result Error Json :=
  match self with
  | Availability app_id => Ok (JObject [
      ("type", JString "GET_APP_AVAILABILITY"); ("appId", JArray [JString app_id]);
      ("requestId", JNumber request_id)])
  | Launch app_id => Ok (JObject [
      ("type", JString "LAUNCH"); ("appId", JString app_id); ("requestId", JNumber request_id)])
  | Status => Ok (JObject [("type", JString "GET_STATUS"); ("requestId", JNumber request_id)])
  | SetVolume | Stop => Panic
  end.

Module ProductInfoOperation.
Definition namespace (self : ProductInfoOperation) : string :=
  match self with DeviceInfo => NS_RECEIVER_DISCOVERY | EurekaInfo => NS_SETUP end.

Definition message_type (self : ProductInfoOperation) : string :=
  match self with DeviceInfo => "GET_DEVICE_INFO" | EurekaInfo => "eureka_info" end.

Definition request_id_field (self : ProductInfoOperation) : string :=
  match self with DeviceInfo => "requestId" | EurekaInfo => "request_id" end.

Definition accepts_response_type (self : ProductInfoOperation) (t : string) : bool :=
  match self with
  | DeviceInfo => bool_decide (t = "DEVICE_INFO") || bool_decide (t = "GET_DEVICE_INFO")
  | EurekaInfo => bool_decide (t = "eureka_info")
  end.

Definition from_namespace (namespace : string) : option ProductInfoOperation :=
  if decide (namespace = NS_RECEIVER_DISCOVERY) then Some DeviceInfo
  else if decide (namespace = NS_SETUP) then Some EurekaInfo else None.
End ProductInfoOperation.

(** ** Reading messages *)

Definition json_message_type (value : Json) : option string :=
  match json_get "type" value with
  | Some t => Some t
  | None => json_get "responseType" value
  end ≫= as_str.

Definition json_u32 (value : Json) (field : string) : option Z :=
  n ← json_get field value ≫= as_u64; if n <=? u32_max then Some n else None.

Definition parse_cast_app (value : Json) : option CastApp :=
  app_id ← json_get "appId" value ≫= as_str;
  transport_id ← json_get "transportId" value ≫= as_str;
  Some (MkCastApp app_id transport_id
    (default "" (json_get "sessionId" value ≫= as_str))
    (json_get "displayName" value ≫= as_str)).

Definition parse_receiver_status (value : Json) : Result Error ReceiverStatus :=
  let? status := ok_or (json_get "status" value ≫= as_object)
                   (ProtocolError "RECEIVER_STATUS omitted status") in
  let apps := default []
    (omap (M:=list) parse_cast_app <$> (json_get "applications" status ≫= as_array)) in
  let volume := json_get "volume" status ≫= as_object in
  Ok (MkReceiverStatus apps
        ((volume ≫= json_get "level") ≫= as_f64)
        ((volume ≫= json_get "muted") ≫= as_bool)).

Definition receiver_status_contains_app (status : Json) (app_id : string) : bool :=
  match (json_get "status" status ≫= json_get "applications") ≫= as_array with
  | Some apps =>
    existsb (fun app => bool_decide ((json_get "appId" app ≫= as_str) = Some app_id)) apps
  | None => false
  end.

Definition receiver_error_description (value : Json) (fallback : string) : string :=
  let error := match json_get "reason" value with
               | Some e => Some e
               | None => json_get "error" value
               end in
  default fallback
    (e ← error;
     match json_get "description" e ≫= as_str with Some d => Some d | None => as_str e end).

(** The strings of a message. *)
Definition source_str (m : CastMessage) : string := of_utf8 (source_id m).
Definition destination_str (m : CastMessage) : string := of_utf8 (destination_id m).
Definition namespace_str (m : CastMessage) : string := of_utf8 (namespace m).

(** ** Request identifiers *)

Fixpoint allocate_loop {T} (fuel : nat) (next : Z) (pending : gmap Z T) : Result Error (Z * Z) :=
  match fuel with
  | O => Panic
  | S fuel' =>
    let candidate := next in
    let next := Z.max (wrap_u32 (next + 1)) 1 in
    if negb (candidate =? 0) && bool_decide (pending !! candidate = None)
    then Ok (candidate, next) else allocate_loop fuel' next pending
  end.

(** The id and the new counter.  Each round tries another id, so two more
    rounds than pending requests are enough. *)
Definition allocate_id {T} (next : Z) (pending : gmap Z T) : Result Error (Z * Z) :=
  allocate_loop (S (S (size pending))) next pending.

(** ** Completing and failing requests

    Each function returns the new table and the effects in order. *)

(** [for id in ids { if let Some(request) = pending.remove(&id) { .. } }]. *)
Fixpoint remove_each {T} (respond : T -> Effect) (ids : list Z) (pending : gmap Z T)
  : gmap Z T * list Effect :=
  match ids with
  | [] => (pending, [])
  | id :: ids' =>
    match pending !! id with
    | Some request =>
      let '(pending, es) := remove_each respond ids' (delete id pending) in
      (pending, respond request :: es)
    | None => remove_each respond ids' pending
    end
  end.

(** [let first = matching.next()?; matching.next().is_none().then_some(first)]. *)
Definition only_match (l : list Z) : option Z := match l with [x] => Some x | _ => None end.

Section Loop.
Context `{HashOrder} `{JsonText} {W : Type} `{ControlWriter W}.

Definition cast_message_type (message : CastMessage) : option string :=
  match payload message with
  | PBinary _ => None
  | PString p =>
    match from_str (of_utf8 p) with Ok value => json_message_type value | _ => None end
  end.

Definition message_is_type (message : CastMessage) (expected : string) : bool :=
  bool_decide (cast_message_type message = Some expected).

(** Does a RECEIVER_STATUS with the request's id complete the operation? *)
Definition status_completes (value : Json) (operation : ReceiverOperation) : bool :=
  match operation with
  | Launch app_id => receiver_status_contains_app value app_id
  | SetVolume | Status | Stop => true
  | Availability _ => false
  end.

Definition launches_in_status (value : Json) (request : PendingReceiverRequest) : bool :=
  match rr_operation request with
  | Launch app_id => receiver_status_contains_app value app_id
  | _ => false
  end.

Definition complete_receiver_status (value : Json) (pending : gmap Z PendingReceiverRequest)
  : gmap Z PendingReceiverRequest * list Effect :=
  let complete :=
    request_id ← json_u32 value "requestId";
    request ← pending !! request_id;
    if status_completes value (rr_operation request) then Some (request_id, request) else None in
  match complete with
  | Some (request_id, request) => (delete request_id pending, [Respond (rr_sender request) (Ok value)])
  | None =>
    let matching := map fst (List.filter (fun kv => launches_in_status value (snd kv)) (hash_iter pending)) in
    remove_each (fun request => Respond (rr_sender request) (Ok value)) matching pending
  end.

Definition complete_receiver_request (value : Json) (pending : gmap Z PendingReceiverRequest)
    (expected : ReceiverOperation -> bool) : gmap Z PendingReceiverRequest * list Effect :=
  match json_u32 value "requestId" with
  | None => (pending, [])
  | Some request_id =>
    match pending !! request_id with
    | Some request =>
      if expected (rr_operation request)
      then (delete request_id pending, [Respond (rr_sender request) (Ok value)]) else (pending, [])
    | None => (pending, [])
    end
  end.

Definition complete_offer (value : Json) (source : string) (pending : gmap Z PendingOffer)
  : gmap Z PendingOffer * list Effect :=
  match json_u32 value "seqNum" with
  | None => (pending, [])
  | Some sequence_number =>
    match pending !! sequence_number with
    | Some request =>
      if bool_decide (po_destination request = source)
      then (delete sequence_number pending, [Respond (po_sender request) (Ok value)]) else (pending, [])
    | None => (pending, [])
    end
  end.

(** The requests an uncorrelated error may be about. *)
Definition error_concerns (reported_app_id : option string) (request : PendingReceiverRequest) : bool :=
  match rr_operation request, reported_app_id with
  | Launch app_id, Some reported => bool_decide (app_id = reported)
  | _, None => true
  | _, _ => false
  end.

Definition receiver_failure (detail : string) (operation : ReceiverOperation) : Error :=
  match operation with Launch _ => AppLaunchFailed detail | _ => ProtocolError detail end.

Definition fail_receiver_request (value : Json) (pending : gmap Z PendingReceiverRequest)
    (detail : string) : gmap Z PendingReceiverRequest * list Effect :=
  let request_id :=
    match json_u32 value "requestId" with
    | Some id => Some id
    | None =>
      let reported_app_id := json_get "appId" value ≫= as_str in
      only_match (map fst (List.filter (fun kv => error_concerns reported_app_id (snd kv)) (hash_iter pending)))
    end in
  match request_id with
  | None => (pending, [])
  | Some request_id =>
    match pending !! request_id with
    | Some request =>
      (delete request_id pending,
       [Respond (rr_sender request) (Err (receiver_failure detail (rr_operation request)))])
    | None => (pending, [])
    end
  end.

Definition fail_offer (value : Json) (source : string) (offers : gmap Z PendingOffer) (detail : string)
  : gmap Z PendingOffer * list Effect :=
  let sequence_number :=
    match json_u32 value "seqNum" with
    | Some n => Some n
    | None => only_match (map fst
        (List.filter (fun kv => bool_decide (po_destination (snd kv) = source)) (hash_iter offers)))
    end in
  match sequence_number with
  | None => (offers, [])
  | Some sequence_number =>
    match offers !! sequence_number with
    | Some request =>
      if bool_decide (po_destination request = source)
      then (delete sequence_number offers, [Respond (po_sender request) (Err (NegotiationFailed detail))])
      else (offers, [])
    | None => (offers, [])
    end
  end.

Definition fail_offers_for_destination (pending : gmap Z PendingOffer) (destination detail : string)
  : gmap Z PendingOffer * list Effect :=
  let failed := map fst
    (List.filter (fun kv => bool_decide (po_destination (snd kv) = destination)) (hash_iter pending)) in
  remove_each (fun request => Respond (po_sender request) (Err (NegotiationFailed detail))) failed pending.

Definition apps_by_transport (apps : list CastApp) : gmap string CastApp :=
  fold_left (fun m app => <[transport_id app := app]> m) apps ∅.

Definition publish_receiver_status (status : ReceiverStatus) (known : gmap string CastApp)
  : gmap string CastApp * list Effect :=
  let new_apps := apps_by_transport (applications status) in
  let stopped := List.filter (fun kv => bool_decide (new_apps !! fst kv = None)) (hash_iter known) in
  (new_apps,
   map (fun kv => Publish (ApplicationStopped (snd kv))) stopped ++ [Publish (StatusEvent status)]).

Definition take_app_by_transport (apps : gmap string CastApp) (transport : string)
  : gmap string CastApp * option CastApp := (delete transport apps, apps !! transport).

(** The three tables are drained in turn. *)
Definition fail_all_pending (detail : string) (s : ControlState) : ControlState :=
  let failed sender := Respond sender (Err (connection_error detail)) in
  let es :=
    map (fun kv => failed (rr_sender (snd kv))) (hash_iter (pending_receiver s)) ++
    map (fun kv => failed (pi_sender (snd kv))) (hash_iter (pending_product_info s)) ++
    map (fun kv => failed (po_sender (snd kv))) (hash_iter (pending_offers s)) in
  emit es (s <| pending_receiver := ∅ |> <| pending_product_info := ∅ |> <| pending_offers := ∅ |>).

(** ** Dispatch *)

Definition dispatch_product_info_message (message : CastMessage)
    (pending : gmap Z PendingProductInfoRequest)
  : Result Error (gmap Z PendingProductInfoRequest * list Effect) :=
  match ProductInfoOperation.from_namespace (namespace_str message) with
  | None => Panic
  | Some operation =>
    if negb (bool_decide (source_str message = RECEIVER_ID)) ||
       negb (bool_decide (destination_str message = SENDER_ID)) then Ok (pending, []) else
    match payload message with
    | PBinary _ => Err (ProtocolError ("non-JSON response on " +:+ namespace_str message))
    | PString p =>
      match from_str (of_utf8 p) with
      | Panic => Panic
      | Err error => Err (ProtocolError
          ("invalid JSON on namespace " +:+ namespace_str message +:+ ": " +:+ error))
      | Ok value =>
        match json_u32 value (ProductInfoOperation.request_id_field operation) with
        | None => Ok (pending, [])
        | Some request_id =>
          match pending !! request_id with
          | None => Ok (pending, [])
          | Some request =>
            if negb (bool_decide (pi_operation request = operation)) then Ok (pending, []) else
            let message_type := default "" (json_message_type value) in
            let response :=
              if ProductInfoOperation.accepts_response_type operation message_type ||
                 bool_decide (message_type = "INVALID_REQUEST")
              then Ok value
              else Err (ProtocolError ("correlated " +:+ ProductInfoOperation.message_type operation
                          +:+ " response has unexpected type " +:+ debug_str message_type)) in
            Ok (delete request_id pending, [Respond (pi_sender request) response])
          end
        end
      end
    end
  end.

(** The NS_RECEIVER branch, for a message from the platform receiver. *)
Definition dispatch_receiver (value : Json) (message_type : string) (s : ControlState)
  : Result Error ControlState :=
  if decide (message_type = "RECEIVER_STATUS") then
    let? status := parse_receiver_status value in
    let '(apps, es) := publish_receiver_status status (known_apps s) in
    let '(pending, es') := complete_receiver_status value (pending_receiver s) in
    Ok (emit (es ++ es') (s <| known_apps := apps |> <| pending_receiver := pending |>))
  else if decide (message_type = "GET_APP_AVAILABILITY") then
    let '(pending, es) := complete_receiver_request value (pending_receiver s)
      (fun operation => match operation with Availability _ => true | _ => false end) in
    Ok (emit es (s <| pending_receiver := pending |>))
  else if decide (message_type = "LAUNCH_ERROR" \/ message_type = "INVALID_REQUEST") then
    let detail := receiver_error_description value message_type in
    let '(pending, es) := fail_receiver_request value (pending_receiver s) detail in
    Ok (emit es (s <| pending_receiver := pending |>))
  else Ok s.

(** The NS_WEBRTC branch. *)
Definition dispatch_webrtc (value : Json) (message_type source : string) (s : ControlState)
  : ControlState :=
  if decide (message_type = "ANSWER") then
    let '(offers, es) := complete_offer value source (pending_offers s) in
    emit es (s <| pending_offers := offers |>)
  else if decide (message_type = "INVALID_REQUEST") then
    let detail := receiver_error_description value message_type in
    let '(offers, es) := fail_offer value source (pending_offers s) detail in
    emit es (s <| pending_offers := offers |>)
  else s.

Definition dispatch_json_message (message : CastMessage) (s : ControlState)
  : Result Error ControlState :=
  if negb (bool_decide (namespace_str message = NS_RECEIVER)) &&
     negb (bool_decide (namespace_str message = NS_WEBRTC)) then Ok s else
  match payload message with
  | PBinary _ => Ok s
  | PString p =>
    match from_str (of_utf8 p) with
    | Panic => Panic
    | Err error => Err (ProtocolError
        ("invalid JSON on namespace " +:+ namespace_str message +:+ ": " +:+ error))
    | Ok value =>
      let message_type := default "" (json_message_type value) in
      if decide (namespace_str message = NS_RECEIVER) then
        if negb (bool_decide (source_str message = RECEIVER_ID)) then Ok s
        else dispatch_receiver value message_type s
      else Ok (dispatch_webrtc value message_type (source_str message) s)
    end
  end.

(** ** Writing *)

(** The frame is written in full, or the error is the stream's or the
    time-out's. *)
Definition write_json_message_timed (w : W) (source destination ns : string) (value : Json)
  : W * list Effect * Result IoError unit :=
  let message := MkCastMessage (utf8 source) (utf8 destination) (utf8 ns)
                   (PString (utf8 (json_to_string value))) in
  match write_frame w (FramedWriter.write_message message) with
  | (w, WriteDone) => (w, [Write message], Ok tt)
  | (w, WriteFailed e) => (w, [], Err e)
  | (w, WriteTimedOut) => (w, [], Err (MkIoError TimedOut "Cast control write timed out"))
  end.

Definition close_json : Json := JObject [("type", JString "CLOSE")].
Definition stop_json (session : string) : Json :=
  JObject [("type", JString "STOP"); ("sessionId", JString session); ("requestId", JNumber 0)].

(** The loop of [send_teardown] over the applications. *)
Fixpoint teardown_apps (w : W) (apps : list CastApp) : W * list Effect * Result IoError unit :=
  match apps with
  | [] => (w, [], Ok tt)
  | app :: apps' =>
    let '(w, es, r) := write_json_message_timed w SENDER_ID (transport_id app) NS_CONNECTION close_json in
    match r with
    | Ok _ =>
      let '(w, es', r) :=
        if bool_decide (session_id app = "") then (w, [], Ok tt)
        else write_json_message_timed w SENDER_ID RECEIVER_ID NS_RECEIVER (stop_json (session_id app)) in
      match r with
      | Ok _ => let '(w, es'', r) := teardown_apps w apps' in (w, es ++ es' ++ es'', r)
      | _ => (w, es ++ es', r)
      end
    | _ => (w, es, r)
    end
  end.

Definition send_teardown (w : W) (apps : list CastApp) : W * list Effect * Result IoError unit :=
  let '(w, es, r) := teardown_apps w apps in
  match r with
  | Ok _ =>
    let '(w, es', r) := write_json_message_timed w SENDER_ID RECEIVER_ID NS_CONNECTION close_json in
    (w, es ++ es', r)
  | _ => (w, es, r)
  end.

(** ** The loop *)

(** How an arm ends: another round, [break] with the task's result and the
    close reason, or a panic. *)
Inductive Flow :=
| Continue
| Break (result : Result Error unit) (close_reason : ControlCloseReason)
| Panicked.

Inductive Input :=
| Incoming (message : Result IoError CastMessage)
| Received (command : option ControlCommand)
| HeartbeatTick.

(** What one round of the loop sees of the outside. *)
Record Round := MkRound {
  round_closed : ResponseSender -> bool;
  round_now : Instant;
  round_input : Input;
}.

Definition break_with (detail : string) : Flow :=
  Break (Err (connection_error detail)) (CloseError detail).

(** A write whose failure ends the loop. *)
Definition write_or_break (what : string) (w : W) (s : ControlState) (destination ns : string)
    (value : Json) : W * ControlState * Flow :=
  let '(w, es, r) := write_json_message_timed w SENDER_ID destination ns value in
  (w, emit es s,
   match r with
   | Ok _ => Continue
   | Err error => break_with (what +:+ ": " +:+ io_message error)
   | Panic => Panicked
   end).

Definition on_heartbeat (now : Instant) (message : CastMessage) (w : W) (s : ControlState)
  : W * ControlState * Flow :=
  let is_ping := message_is_type message "PING" in
  let is_pong := message_is_type message "PONG" in
  let s := if is_ping || is_pong then s <| last_heartbeat := now |> else s in
  if is_ping
  then write_or_break "send heartbeat PONG" w s (source_str message) NS_HEARTBEAT
         (JObject [("type", JString "PONG")])
  else (w, s, Continue).

(** A CLOSE on the connection namespace. *)
Definition on_close_message (message : CastMessage) (w : W) (s : ControlState)
  : W * ControlState * Flow :=
  if decide (source_str message = RECEIVER_ID)
  then (w, s, Break (Err (connection_error "receiver closed the platform connection")) PeerClosed)
  else
    let '(apps, app) := take_app_by_transport (known_apps s) (source_str message) in
    let es := match app with Some app => [Publish (ApplicationStopped app)] | None => [] end in
    let '(offers, es') := fail_offers_for_destination (pending_offers s) (source_str message)
                            "application transport closed" in
    (w, emit (es ++ es') (s <| known_apps := apps |> <| pending_offers := offers |>), Continue).

Definition dispatch_message (message : CastMessage) (s : ControlState) : Result Error ControlState :=
  match ProductInfoOperation.from_namespace (namespace_str message) with
  | Some _ =>
    let? (pending, es) := dispatch_product_info_message message (pending_product_info s) in
    Ok (emit es (s <| pending_product_info := pending |>))
  | None => dispatch_json_message message s
  end.

Definition on_incoming (now : Instant) (incoming : Result IoError CastMessage) (w : W)
    (s : ControlState) : W * ControlState * Flow :=
  match incoming with
  | Panic => (w, s, Panicked)
  | Err error =>
    if decide (io_kind error = UnexpectedEof)
    then (w, s, Break (Err (connection_error "receiver closed the TLS stream")) PeerClosed)
    else (w, s, break_with ("read Cast message: " +:+ io_message error))
  | Ok message =>
    if decide (namespace_str message = NS_HEARTBEAT) then on_heartbeat now message w s
    else if bool_decide (namespace_str message = NS_CONNECTION) && message_is_type message "CLOSE"
    then on_close_message message w s
    else match dispatch_message message s with
         | Ok s => (w, s, Continue)
         | Err error => (w, s, Break (Err error) (CloseError (error_to_string error)))
         | Panic => (w, s, Panicked)
         end
  end.

Definition on_receiver_request (operation : ReceiverOperation) (value : option Json)
    (sender : ResponseSender) (w : W) (s : ControlState) : W * ControlState * Flow :=
  match allocate_id (next_request_id s) (pending_receiver s) with
  | Ok (request_id, next) =>
    let s := s <| next_request_id := next |> in
    match
      (let? value := match value with
                     | Some v => Ok v
                     | None => operation_payload operation request_id
                     end in
       json_set "requestId" (JNumber request_id) value)
    with
    | Ok value =>
      let s := s <| pending_receiver :=
        <[request_id := MkPendingReceiver operation sender]> (pending_receiver s) |> in
      write_or_break "send receiver request" w s RECEIVER_ID NS_RECEIVER value
    | _ => (w, s, Panicked)
    end
  | _ => (w, s, Panicked)
  end.

Definition on_product_info_request (operation : ProductInfoOperation) (sender : ResponseSender)
    (w : W) (s : ControlState) : W * ControlState * Flow :=
  match allocate_id (next_product_info_request_id s) (pending_product_info s) with
  | Ok (request_id, next) =>
    let s := s <| next_product_info_request_id := next |> in
    match @json_set Error (ProductInfoOperation.request_id_field operation) (JNumber request_id)
            (JObject [("type", JString (ProductInfoOperation.message_type operation))]) with
    | Ok value =>
      let s := s <| pending_product_info :=
        <[request_id := MkPendingProductInfo operation sender]> (pending_product_info s) |> in
      write_or_break "send product-info request" w s RECEIVER_ID
        (ProductInfoOperation.namespace operation) value
    | _ => (w, s, Panicked)
    end
  | _ => (w, s, Panicked)
  end.

Definition on_send_offer (destination : string) (offer : Json) (sender : ResponseSender)
    (w : W) (s : ControlState) : W * ControlState * Flow :=
  match allocate_id (next_sequence_number s) (pending_offers s) with
  | Ok (sequence_number, next) =>
    let s := s <| next_sequence_number := next |> in
    let value := JObject [("type", JString "OFFER"); ("seqNum", JNumber sequence_number);
                          ("offer", offer)] in
    let s := s <| pending_offers :=
      <[sequence_number := MkPendingOffer destination sender]> (pending_offers s) |> in
    write_or_break "send streaming OFFER" w s destination NS_WEBRTC value
  | _ => (w, s, Panicked)
  end.

Definition on_send_fire (ns destination : string) (value : Json) (sender : ResponseSender)
    (w : W) (s : ControlState) : W * ControlState * Flow :=
  let '(w, es, r) := write_json_message_timed w SENDER_ID destination ns value in
  match r with
  | Ok _ => (w, emit (es ++ [RespondFire sender (Ok tt)]) s, Continue)
  | Err error =>
    let detail := "send Cast message: " +:+ io_message error in
    (w, emit (es ++ [RespondFire sender (Err (connection_error detail))]) s, break_with detail)
  | Panic => (w, s, Panicked)
  end.

(** The [Close] command, or all command senders dropped. *)
Definition on_close (sender : option ResponseSender) (w : W) (s : ControlState)
  : W * ControlState * Flow :=
  let '(w, es, r) := send_teardown w (map snd (hash_iter (known_apps s))) in
  let answer := match sender with Some sender => [RespondClose sender] | None => [] end in
  (w, emit (es ++ answer) s,
   match r with
   | Ok _ => Break (Ok tt) Requested
   | Err error => break_with ("send Cast teardown: " +:+ io_message error)
   | Panic => Panicked
   end).

Definition on_command (command : option ControlCommand) (w : W) (s : ControlState)
  : W * ControlState * Flow :=
  match command with
  | Some (ReceiverRequest operation value sender) => on_receiver_request operation value sender w s
  | Some (ProductInfoRequest operation sender) => on_product_info_request operation sender w s
  | Some (SendOffer destination offer sender) => on_send_offer destination offer sender w s
  | Some (SendFire ns destination value sender) => on_send_fire ns destination value sender w s
  | Some (Close sender) => on_close (Some sender) w s
  | None => on_close None w s
  end.

Definition on_heartbeat_tick (now : Instant) (w : W) (s : ControlState) : W * ControlState * Flow :=
  if HEARTBEAT_TIMEOUT <=? duration_since now (last_heartbeat s)
  then (w, s, Break (Err (connection_error "receiver heartbeat timed out")) HeartbeatTimeout)
  else write_or_break "send heartbeat PING" w s RECEIVER_ID NS_HEARTBEAT
         (JObject [("type", JString "PING")]).

(** [pending.retain(|_, p| !p.response_sender.is_closed())]: dropping an entry
    drops its sender. *)
Definition retain_open {T} (closed : ResponseSender -> bool) (sender : T -> ResponseSender)
    (pending : gmap Z T) : gmap Z T * list Effect :=
  (filter (fun kv => closed (sender (snd kv)) = false) pending,
   map (fun kv => DropSender (sender (snd kv)))
     (List.filter (fun kv => closed (sender (snd kv))) (hash_iter pending))).

Definition retain_pending (closed : ResponseSender -> bool) (s : ControlState) : ControlState :=
  let '(receiver, es1) := retain_open closed rr_sender (pending_receiver s) in
  let '(product_info, es2) := retain_open closed pi_sender (pending_product_info s) in
  let '(offers, es3) := retain_open closed po_sender (pending_offers s) in
  emit (es1 ++ es2 ++ es3) (s <| pending_receiver := receiver |>
    <| pending_product_info := product_info |> <| pending_offers := offers |>).

(** One round of the loop. *)
Definition control_iteration (round : Round) (w : W) (s : ControlState) : W * ControlState * Flow :=
  let s := retain_pending (round_closed round) s in
  match round_input round with
  | Incoming message => on_incoming (round_now round) message w s
  | Received command => on_command command w s
  | HeartbeatTick => on_heartbeat_tick (round_now round) w s
  end.

(** The code after the loop. *)
Definition finish_loop (result : Result Error unit) (close_reason : ControlCloseReason)
    (s : ControlState) : ControlState :=
  let failure_detail := match result with Err error => error_to_string error | _ => "control channel closed" end in
  emit [Publish (Closed close_reason)] (fail_all_pending failure_detail s).

Definition control_init (now : Instant) : ControlState := MkControl 1 1 1 ∅ ∅ ∅ ∅ now [].

(** The task over the rounds the environment offers: the state, the rounds
    left over and the result, [None] while the loop still runs. *)
Fixpoint control_run (rounds : list Round) (w : W) (s : ControlState)
  : W * ControlState * list Round * option (Result Error unit) :=
  match rounds with
  | [] => (w, s, [], None)
  | round :: rest =>
    match control_iteration round w s with
    | (w, s, Continue) => control_run rest w s
    | (w, s, Break result close_reason) => (w, finish_loop result close_reason s, rest, Some result)
    | (w, s, Panicked) => (w, s, rest, Some Panic)
    end
  end.

Definition control_loop (now : Instant) (rounds : list Round) (w : W)
  : W * ControlState * list Round * option (Result Error unit) :=
  control_run rounds w (control_init now).
End Loop.
