(* ===== verification/ControlFacts.v ===== *)
(** * Facts about the control task

    Request identifiers, and the ownership of one-shot senders: every handler
    moves each sender it owns to exactly one place. *)

From stdpp Require Import strings gmap.
From S2P Require Import Prelude Time Errors Text Json CastProto CastFraming Control.

(** ** Ownership of one-shot senders *)

(** The sender an effect consumes. *)
Definition effect_sender (e : Effect) : option ResponseSender :=
  match e with
  | Respond x _ | RespondFire x _ | RespondClose x | DropSender x => Some x
  | Publish _ | Write _ => None
  end.
Definition consumed (es : list Effect) : list ResponseSender := omap effect_sender es.
#[global] Arguments consumed : simpl never.

Definition table_senders {T} (f : T -> ResponseSender) (m : gmap Z T) : list ResponseSender :=
  map (fun kv => f (snd kv)) (map_to_list m).

(** The senders in the three tables. *)
Definition owned (s : ControlState) : list ResponseSender :=
  table_senders rr_sender (pending_receiver s) ++
  table_senders pi_sender (pending_product_info s) ++
  table_senders po_sender (pending_offers s).

(** Every sender the task was ever given, wherever it is now. *)
Definition accounted (s : ControlState) : list ResponseSender := consumed (effects s) ++ owned s.

Definition command_sender (c : ControlCommand) : ResponseSender :=
  match c with
  | ReceiverRequest _ _ x | ProductInfoRequest _ x | SendOffer _ _ x | SendFire _ _ _ x | Close x => x
  end.
Definition input_senders (i : Input) : list ResponseSender :=
  match i with Received (Some c) => [command_sender c] | _ => [] end.

(** The effects take exactly the senders that left the table. *)
Definition moves {T} (f : T -> ResponseSender) (m : gmap Z T) (r : gmap Z T * list Effect) : Prop :=
  consumed (snd r) ++ table_senders f (fst r) ≡ₚ table_senders f m.

(** ** Well-formed inputs and states *)

Definition json_indexable (v : Json) : Prop :=
  match v with JNull | JObject _ => True | _ => False end.

(** The commands [CastConnection]'s methods send. *)
Definition command_ok (c : ControlCommand) : Prop :=
  match c with
  | ReceiverRequest operation value _ =>
    match value with
    | Some v => json_indexable v
    | None => match operation with SetVolume | Stop => False | _ => True end
    end
  | _ => True
  end.

Definition input_ok (i : Input) : Prop :=
  match i with
  | Incoming r => no_panic r
  | Received (Some c) => command_ok c
  | _ => True
  end.

Record control_ok (s : ControlState) : Prop := {
  co_request : 0 <= next_request_id s <= u32_max;
  co_product_info : 0 <= next_product_info_request_id s <= u32_max;
  co_sequence : 0 <= next_sequence_number s <= u32_max;
}.

(** ** Request identifiers *)

Lemma next_id_succ n :
  1 <= n <= u32_max -> Z.max (wrap_u32 (n + 1)) 1 = n mod u32_max + 1.
Proof.
  unfold wrap_u32, u32_max. intros Hn. destruct (Z.eq_dec n (2 ^ 32 - 1)) as [->|Hne].
  - reflexivity.
  - rewrite !Z.mod_small by lia. lia.
Qed.

Lemma candidate_succ n i :
  1 <= n <= u32_max ->
  (n mod u32_max + 1 - 1 + i) mod u32_max + 1 = (n - 1 + (i + 1)) mod u32_max + 1.
Proof.
  intros Hn. f_equal. rewrite Z.add_simpl_r, Zplus_mod_idemp_l. f_equal. lia.
Qed.

(** A round that fails has met an id in use, and the next round tries the next
    one, cyclically from 1 to [u32::MAX]. *)
Lemma allocate_loop_spec {T} fuel next (pending : gmap Z T) :
  1 <= next <= u32_max ->
  match allocate_loop fuel next pending with
  | Ok (id, next') => 1 <= id <= u32_max /\ pending !! id = None /\ 1 <= next' <= u32_max
  | Err _ => False
  | Panic => forall i, (i < fuel)%nat ->
      is_Some (pending !! ((next - 1 + Z.of_nat i) mod u32_max + 1))
  end.
Proof.
  revert next. induction fuel as [|fuel IH]; intros next Hn; [intros i Hi; lia|].
  cbn [allocate_loop]. rewrite next_id_succ by done.
  assert (Hn' : 1 <= next mod u32_max + 1 <= u32_max).
  { unfold u32_max in *. pose proof (Z.mod_pos_bound next (2 ^ 32 - 1)). lia. }
  destruct (Z.eqb_spec next 0); [lia|]. cbn [negb andb].
  case_bool_decide as Hfree; [done|].
  specialize (IH _ Hn'). destruct (allocate_loop fuel _ pending) as [[id next']|e|]; [done..|].
  intros [|i] Hi.
  - rewrite Z.add_0_r, Z.mod_small by lia. replace (next - 1 + 1) with next by lia.
    by destruct (pending !! next); [eexists|].
  - specialize (IH i ltac:(lia)). rewrite candidate_succ in IH by done.
    by replace (Z.of_nat (S i)) with (Z.of_nat i + 1) by lia.
Qed.

(** More distinct ids than table entries cannot all be in use. *)
Lemma candidates_exhaust {T} next (pending : gmap Z T) :
  Z.of_nat (size pending) < u32_max ->
  ~ (forall i, (i < S (size pending))%nat ->
      is_Some (pending !! ((next - 1 + Z.of_nat i) mod u32_max + 1))).
Proof.
  intros Hsize Hall.
  set (cands := (fun i => (next - 1 + Z.of_nat i) mod u32_max + 1) <$> seq 0 (S (size pending))).
  assert (Hnd : base.NoDup cands).
  { apply NoDup_fmap_2_strong; [|apply NoDup_seq].
    intros i j Hi Hj Heq. apply elem_of_seq in Hi, Hj. unfold u32_max in *. zlia. }
  assert (Hsub : (list_to_set cands : gset Z) ⊆ dom pending).
  { intros x Hx. apply elem_of_list_to_set in Hx.
    apply list_elem_of_fmap in Hx as (i & -> & Hi). apply elem_of_seq in Hi.
    apply elem_of_dom, Hall. lia. }
  apply subseteq_size in Hsub. rewrite size_list_to_set, size_dom in Hsub by done.
  unfold cands in Hsub. rewrite length_fmap, length_seq in Hsub. lia.
Qed.

Lemma allocate_id_fresh {T} next (pending : gmap Z T) :
  0 <= next <= u32_max -> Z.of_nat (size pending) < u32_max ->
  exists id next', allocate_id next pending = Ok (id, next') /\
    1 <= id <= u32_max /\ pending !! id = None /\ 1 <= next' <= u32_max.
Proof.
  intros Hn Hsize. unfold allocate_id. destruct (Z.eq_dec next 0) as [->|Hne].
  - cbn [allocate_loop Z.eqb negb andb]. change (Z.max (wrap_u32 (0 + 1)) 1) with 1.
    pose proof (allocate_loop_spec (S (size pending)) 1 pending) as Hl. cbn [allocate_loop] in Hl.
    specialize (Hl ltac:(unfold u32_max; lia)).
    match goal with |- exists _ _, ?a = _ /\ _ => destruct a as [[id next']|e|] end;
      [by eauto|done|].
    by apply (candidates_exhaust 1) in Hl.
  - pose proof (allocate_loop_spec (S (S (size pending))) next pending ltac:(lia)) as Hl.
    destruct (allocate_loop _ next pending) as [[id next']|e|]; [by eauto|done|].
    exfalso. eapply (candidates_exhaust next); [done|]. intros i Hi. apply Hl. lia.
Qed.

(** ** Tables of senders *)

Lemma count_occ_cons_app (a : nat) l x :
  count_occ Nat.eq_dec (a :: l) x = (count_occ Nat.eq_dec [a] x + count_occ Nat.eq_dec l x)%nat.
Proof. exact (count_occ_app Nat.eq_dec [a] l x). Qed.

(** Permutations of appended lists of senders, from the ones in the context. *)
Ltac solve_perm :=
  apply (Permutation_count_occ Nat.eq_dec);
  let x := fresh "x" in
  intros x;
  repeat match goal with
  | Hp : (_ ≡ₚ _) |- _ =>
    let Hc := fresh "Hc" in
    pose proof (proj1 (Permutation_count_occ Nat.eq_dec _ _) Hp x) as Hc; clear Hp
  end;
  repeat match goal with
  | Hc : context [count_occ _ (_ ++ _)] |- _ => rewrite count_occ_app in Hc
  | |- context [count_occ _ (_ ++ _)] => rewrite count_occ_app
  | Hc : context [count_occ _ (?a :: ?b)] |- _ =>
    lazymatch b with [] => fail | _ => rewrite (count_occ_cons_app a b) in Hc end
  | |- context [count_occ _ (?a :: ?b)] =>
    lazymatch b with [] => fail | _ => rewrite (count_occ_cons_app a b) end
  end;
  rewrite ?count_occ_nil in *; lia.

Lemma consumed_app es es' : consumed (es ++ es') = consumed es ++ consumed es'.
Proof. apply omap_app. Qed.

(** Which effects there are decides what is consumed, not their order. *)
#[export] Instance consumed_perm : Proper ((≡ₚ) ==> (≡ₚ)) consumed.
Proof.
  induction 1 as [|e l l' _ IH|e e' l|l l' l'' _ IH _ IH'].
  - done.
  - unfold consumed in *. cbn. destruct (effect_sender e); cbn; [by constructor|done].
  - unfold consumed. cbn. destruct (effect_sender e), (effect_sender e'); cbn; try done. constructor.
  - by etrans.
Qed.

#[export] Instance list_filter_perm {A} (f : A -> bool) : Proper ((≡ₚ) ==> (≡ₚ)) (List.filter f).
Proof.
  induction 1 as [|x l l' _ IH|x y l|l l' l'' _ IH _ IH']; cbn.
  - done.
  - destruct (f x); [by constructor|done].
  - destruct (f x), (f y); try done. constructor.
  - by etrans.
Qed.

Lemma table_senders_delete {T} (f : T -> ResponseSender) (m : gmap Z T) k x :
  m !! k = Some x -> f x :: table_senders f (delete k m) ≡ₚ table_senders f m.
Proof.
  intros Hk. unfold table_senders. symmetry.
  exact (Permutation_map (fun kv => f (snd kv)) (symmetry (map_to_list_delete m k x Hk))).
Qed.

Lemma table_senders_insert {T} (f : T -> ResponseSender) (m : gmap Z T) k x :
  m !! k = None -> table_senders f (<[k := x]> m) ≡ₚ f x :: table_senders f m.
Proof. intros Hk. unfold table_senders. by rewrite (map_to_list_insert m k x Hk). Qed.

Lemma table_senders_length {T} (f : T -> ResponseSender) (m : gmap Z T) :
  length (table_senders f m) = size m.
Proof. unfold table_senders. by rewrite length_map, length_map_to_list. Qed.

Lemma moves_none {T} (f : T -> ResponseSender) (m : gmap Z T) : moves f m (m, []).
Proof. unfold moves. reflexivity. Qed.

Lemma moves_one {T} (f : T -> ResponseSender) (m : gmap Z T) k x e :
  m !! k = Some x -> effect_sender e = Some (f x) -> moves f m (delete k m, [e]).
Proof.
  intros Hk He. unfold moves. cbn [fst snd]. unfold consumed. cbn. rewrite He. cbn.
  by apply table_senders_delete.
Qed.

Lemma moves_remove_each {T} (f : T -> ResponseSender) respond ids (m : gmap Z T) :
  (forall x, effect_sender (respond x) = Some (f x)) -> moves f m (remove_each respond ids m).
Proof.
  intros Hr. revert m. induction ids as [|id ids IH]; intros m; [apply moves_none|]. cbn [remove_each].
  destruct (m !! id) as [x|] eqn:Hid; [|apply IH].
  specialize (IH (delete id m)). destruct (remove_each _ ids (delete id m)) as [m' es].
  unfold moves in *. cbn [fst snd] in *. unfold consumed in *. cbn. rewrite Hr. cbn.
  rewrite IH. by apply table_senders_delete.
Qed.
#[export] Hint Resolve moves_none moves_one moves_remove_each : cast.

Section Facts.
Context `{HashOrder} `{JsonText} {W : Type} `{ControlWriter W}.

Lemma consumed_hash_iter {T} (f : T -> ResponseSender) (respond : T -> Effect) (m : gmap Z T) :
  (forall x, effect_sender (respond x) = Some (f x)) ->
  consumed (map (fun kv => respond (snd kv)) (hash_iter m)) ≡ₚ table_senders f m.
Proof.
  intros Hr. rewrite hash_iter_perm. unfold consumed, table_senders.
  induction (map_to_list m) as [|[k x] l IH]; [done|]. cbn. rewrite Hr. cbn. by rewrite IH.
Qed.

Lemma moves_complete_receiver_status value pending :
  moves rr_sender pending (complete_receiver_status value pending).
Proof.
  unfold complete_receiver_status.
  destruct (json_u32 value "requestId") as [id|]; cbn [mbind option_bind]; [|auto with cast].
  destruct (pending !! id) as [request|] eqn:Hid; cbn [mbind option_bind]; [|auto with cast].
  destruct (status_completes _ _); eauto with cast.
Qed.

Lemma moves_complete_receiver_request value pending expected :
  moves rr_sender pending (complete_receiver_request value pending expected).
Proof.
  unfold complete_receiver_request. destruct (json_u32 value "requestId") as [id|]; [|auto with cast].
  destruct (pending !! id) eqn:Hid; [|auto with cast]. destruct (expected _); eauto with cast.
Qed.

Lemma moves_fail_receiver_request value pending detail :
  moves rr_sender pending (fail_receiver_request value pending detail).
Proof.
  unfold fail_receiver_request. set (found := match json_u32 value "requestId" with Some _ => _ | None => _ end).
  destruct found as [id|]; [|auto with cast]. destruct (pending !! id) eqn:Hid; eauto with cast.
Qed.

Lemma moves_complete_offer value source pending :
  moves po_sender pending (complete_offer value source pending).
Proof.
  unfold complete_offer. destruct (json_u32 value "seqNum") as [id|]; [|auto with cast].
  destruct (pending !! id) eqn:Hid; [|auto with cast]. case_bool_decide; eauto with cast.
Qed.

Lemma moves_fail_offer value source pending detail :
  moves po_sender pending (fail_offer value source pending detail).
Proof.
  unfold fail_offer. set (found := match json_u32 value "seqNum" with Some _ => _ | None => _ end).
  destruct found as [id|]; [|auto with cast].
  destruct (pending !! id) eqn:Hid; [|auto with cast]. case_bool_decide; eauto with cast.
Qed.

Lemma moves_fail_offers_for_destination pending destination detail :
  moves po_sender pending (fail_offers_for_destination pending destination detail).
Proof. unfold fail_offers_for_destination. auto with cast. Qed.

Lemma dispatch_product_info_moves message pending r :
  dispatch_product_info_message message pending = Ok r -> moves pi_sender pending r.
Proof.
  unfold dispatch_product_info_message. intros Hr.
  repeat case_match; simplify_eq; eauto with cast.
Qed.

Lemma moves_retain_open {T} closed (f : T -> ResponseSender) (pending : gmap Z T) :
  moves f pending (retain_open closed f pending).
Proof.
  unfold moves, retain_open, table_senders. cbn [fst snd].
  rewrite hash_iter_perm. unfold consumed. induction pending as [|k x m Hk IH] using map_ind.
  - by rewrite map_filter_empty, map_to_list_empty.
  - rewrite (map_to_list_insert m k x Hk). cbn [List.filter snd fst map].
    destruct (closed (f x)) eqn:Hc.
    + rewrite map_filter_insert_not' by (try (cbn; congruence); intros ? ?; congruence).
      cbn. by rewrite IH.
    + rewrite map_filter_insert_True by done.
      rewrite map_to_list_insert by (by apply map_lookup_filter_None_2; left).
      cbn. rewrite <- IH. by rewrite <- Permutation_middle.
Qed.

Lemma accounted_emit es s : accounted (emit es s) ≡ₚ consumed es ++ accounted s.
Proof. unfold accounted, emit, owned. cbn. rewrite consumed_app. solve_perm. Qed.

Lemma accounted_receiver s apps pre r :
  moves rr_sender (pending_receiver s) r -> consumed pre = [] ->
  accounted (emit (pre ++ snd r) (s <| known_apps := apps |> <| pending_receiver := fst r |>))
    ≡ₚ accounted s.
Proof.
  intros Hm Hpre. rewrite accounted_emit, consumed_app, Hpre. unfold moves, accounted, owned in *.
  cbn in *. solve_perm.
Qed.

Lemma accounted_product_info s r :
  moves pi_sender (pending_product_info s) r ->
  accounted (emit (snd r) (s <| pending_product_info := fst r |>)) ≡ₚ accounted s.
Proof. intros Hm. rewrite accounted_emit. unfold moves, accounted, owned in *. cbn in *. solve_perm. Qed.

Lemma accounted_offers s apps pre r :
  moves po_sender (pending_offers s) r -> consumed pre = [] ->
  accounted (emit (pre ++ snd r) (s <| known_apps := apps |> <| pending_offers := fst r |>))
    ≡ₚ accounted s.
Proof.
  intros Hm Hpre. rewrite accounted_emit, consumed_app, Hpre. unfold moves, accounted, owned in *.
  cbn in *. solve_perm.
Qed.

Lemma accounted_retain closed s : accounted (retain_pending closed s) ≡ₚ accounted s.
Proof.
  pose proof (moves_retain_open closed rr_sender (pending_receiver s)) as H1'.
  pose proof (moves_retain_open closed pi_sender (pending_product_info s)) as H2.
  pose proof (moves_retain_open closed po_sender (pending_offers s)) as H3.
  unfold retain_pending. destruct (retain_open _ _ (pending_receiver s)) as [m1 es1],
    (retain_open _ _ (pending_product_info s)) as [m2 es2], (retain_open _ _ (pending_offers s)) as [m3 es3].
  rewrite accounted_emit, !consumed_app. unfold moves, accounted, owned in *. cbn in *. solve_perm.
Qed.

Lemma consumed_published {A} (f : A -> ControlEvent) l : consumed (map (fun x => Publish (f x)) l) = [].
Proof. by induction l. Qed.

Lemma publish_receiver_status_consumed status known :
  consumed (snd (publish_receiver_status status known)) = [].
Proof. cbn. by rewrite consumed_app, (consumed_published (fun kv => ApplicationStopped (snd kv))). Qed.

Lemma write_json_message_timed_effects w source destination ns value w' es r :
  write_json_message_timed w source destination ns value = (w', es, r) -> consumed es = [] /\ r <> Panic.
Proof.
  unfold write_json_message_timed. destruct (write_frame _ _) as [w1 []]; intros [= <- <- <-]; done.
Qed.

Lemma send_teardown_effects w apps w' es r :
  send_teardown w apps = (w', es, r) -> consumed es = [] /\ r <> Panic.
Proof.
  unfold send_teardown. intros Hs.
  assert (Happs : forall w w' es r, teardown_apps w apps = (w', es, r) -> consumed es = [] /\ r <> Panic).
  { clear. induction apps as [|app apps IH]; intros w w' es r; cbn [teardown_apps];
      [by intros [= <- <- <-]|].
    destruct (write_json_message_timed w _ _ _ _) as [[w1 es1] r1] eqn:H1'.
    apply write_json_message_timed_effects in H1' as [He1 Hr1].
    destruct r1 as [[]|e|]; [|by intros [= <- <- <-]|done].
    destruct (if bool_decide _ then _ else _) as [[w2 es2] r2] eqn:H2.
    assert (consumed es2 = [] /\ r2 <> Panic) as [He2 Hr2].
    { destruct (bool_decide _); [by injection H2 as <- <- <-|].
      by apply write_json_message_timed_effects in H2. }
    destruct r2 as [[]|e|]; [|by intros [= <- <- <-]; rewrite consumed_app, He1, He2|done].
    destruct (teardown_apps w2 apps) as [[w3 es3] r3] eqn:H3. apply IH in H3 as [He3 Hr3].
    intros [= <- <- <-]. by rewrite !consumed_app, He1, He2, He3. }
  destruct (teardown_apps w apps) as [[w1 es1] r1] eqn:H1'. apply Happs in H1' as [He1 Hr1].
  destruct r1 as [[]|e|]; [|by simplify_eq|done].
  destruct (write_json_message_timed w1 _ _ _ _) as [[w2 es2] r2] eqn:H2.
  apply write_json_message_timed_effects in H2 as [He2 Hr2]. simplify_eq.
  by rewrite consumed_app, He1, He2.
Qed.

(** ** What a handler does with senders *)

(** No panic. *)
Definition flow_ok (flow : Flow) : Prop :=
  match flow with Panicked | Break Panic _ => False | _ => True end.

(** It does not panic, keeps the counters in range and accounts for every
    sender it was given. *)
Definition handles (xs : list ResponseSender) (s : ControlState) (r : W * ControlState * Flow) : Prop :=
  let '(_, s', flow) := r in
  flow_ok flow /\ control_ok s' /\ accounted s' ≡ₚ xs ++ accounted s.

Lemma control_ok_same s s' :
  control_ok s -> next_request_id s' = next_request_id s ->
  next_product_info_request_id s' = next_product_info_request_id s ->
  next_sequence_number s' = next_sequence_number s -> control_ok s'.
Proof. intros [] E1 E2 E3. constructor; by rewrite ?E1, ?E2, ?E3. Qed.

Lemma handles_write xs what s s0 w destination ns value :
  control_ok s -> accounted s ≡ₚ xs ++ accounted s0 ->
  handles xs s0 (write_or_break what w s destination ns value).
Proof.
  intros Hok Hacc. unfold write_or_break.
  destruct (write_json_message_timed w _ _ _ _) as [[w' es] r] eqn:Hw.
  apply write_json_message_timed_effects in Hw as [He Hr].
  split_and!; [by destruct r|by eapply control_ok_same|].
  by rewrite accounted_emit, He.
Qed.

Lemma handles_unchanged w s flow : control_ok s -> flow_ok flow -> handles [] s (w, s, flow).
Proof. intros Hok Hf. by split_and!. Qed.

Lemma dispatch_receiver_accounts value t s s' :
  dispatch_receiver value t s = Ok s' -> control_ok s -> control_ok s' /\ accounted s' ≡ₚ accounted s.
Proof.
  unfold dispatch_receiver. intros Hd Hok.
  destruct (decide (t = "RECEIVER_STATUS")).
  { apply bind_Ok in Hd as (status & _ & Hd).
    pose proof (publish_receiver_status_consumed status (known_apps s)) as Hp.
    destruct (publish_receiver_status _ _) as [apps es].
    pose proof (moves_complete_receiver_status value (pending_receiver s)) as Hm.
    destruct (complete_receiver_status _ _) as [pending es']. simplify_eq.
    split; [by eapply control_ok_same|]. by apply (accounted_receiver s apps es (pending, es')). }
  destruct (decide (t = "GET_APP_AVAILABILITY")).
  { pose proof (moves_complete_receiver_request value (pending_receiver s)
      (fun op => match op with Availability _ => true | _ => false end)) as Hm.
    destruct (complete_receiver_request _ _ _) as [pending es']. simplify_eq.
    split; [by eapply control_ok_same|].
    by apply (accounted_receiver s (known_apps s) [] (pending, es')). }
  destruct (decide _); [|by simplify_eq].
  pose proof (moves_fail_receiver_request value (pending_receiver s)
    (receiver_error_description value t)) as Hm.
  destruct (fail_receiver_request _ _ _) as [pending es']. simplify_eq.
  split; [by eapply control_ok_same|]. by apply (accounted_receiver s (known_apps s) [] (pending, es')).
Qed.

Lemma dispatch_webrtc_accounts value t source s :
  control_ok s ->
  control_ok (dispatch_webrtc value t source s) /\ accounted (dispatch_webrtc value t source s) ≡ₚ accounted s.
Proof.
  intros Hok. unfold dispatch_webrtc. destruct (decide _).
  { pose proof (moves_complete_offer value source (pending_offers s)) as Hm.
    destruct (complete_offer _ _ _) as [offers es']. split; [by eapply control_ok_same|].
    by apply (accounted_offers s (known_apps s) [] (offers, es')). }
  destruct (decide _); [|done].
  pose proof (moves_fail_offer value source (pending_offers s) (receiver_error_description value t)) as Hm.
  destruct (fail_offer _ _ _ _) as [offers es']. split; [by eapply control_ok_same|].
  by apply (accounted_offers s (known_apps s) [] (offers, es')).
Qed.

Lemma dispatch_receiver_no_panic value t s : no_panic (dispatch_receiver value t s).
Proof.
  unfold no_panic, dispatch_receiver, parse_receiver_status.
  destruct (decide _); [|repeat (destruct (decide _)); repeat case_match; done].
  destruct (json_get "status" value ≫= as_object) as [status|]; cbn [ok_or bind]; [|done].
  by destruct (publish_receiver_status _ _), (complete_receiver_status _ _).
Qed.

Lemma dispatch_message_accounts message s :
  control_ok s ->
  returns (dispatch_message message s) (fun s' => control_ok s' /\ accounted s' ≡ₚ accounted s).
Proof.
  intros Hok. unfold dispatch_message.
  destruct (ProductInfoOperation.from_namespace _) as [op|] eqn:Hns.
  - destruct (dispatch_product_info_message message _) as [[pending es]|e|] eqn:Hd; [|done|].
    + apply dispatch_product_info_moves in Hd. split; [by eapply control_ok_same|].
      by apply (accounted_product_info s (pending, es)).
    + unfold dispatch_product_info_message in Hd. rewrite Hns in Hd.
      repeat case_match; simplify_eq. by eapply from_str_total.
  - unfold dispatch_json_message. destruct (_ && _); [done|]. destruct (payload message) as [p|]; [|done].
    destruct (from_str (of_utf8 p)) as [value|e|] eqn:Hp; [|done|by apply from_str_total in Hp].
    destruct (decide _); [|by apply dispatch_webrtc_accounts]. destruct (negb _); [done|].
    pose proof (dispatch_receiver_no_panic value (default "" (json_message_type value)) s) as Hnp.
    destruct (dispatch_receiver _ _ s) eqn:Hd; [|done|done]. by eapply dispatch_receiver_accounts.
Qed.

Lemma on_close_message_handles message w s : control_ok s -> handles [] s (on_close_message message w s).
Proof.
  intros Hok. unfold on_close_message. destruct (decide _); [by apply handles_unchanged|].
  cbn [take_app_by_transport].
  pose proof (moves_fail_offers_for_destination (pending_offers s) (source_str message)
    "application transport closed") as Hm.
  destruct (fail_offers_for_destination _ _ _) as [offers es']. split_and!; [done|by eapply control_ok_same|].
  apply (accounted_offers s _ _ (offers, es')); [done|]. by destruct (known_apps s !! _).
Qed.

Lemma on_incoming_handles now incoming w s :
  control_ok s -> no_panic incoming -> handles [] s (on_incoming now incoming w s).
Proof.
  intros Hok Hnp. unfold on_incoming. destruct incoming as [message|error|]; [| |done].
  2: { destruct (decide _); by apply handles_unchanged. }
  destruct (decide _).
  { unfold on_heartbeat. destruct (message_is_type message "PING"); cbn [orb].
    - apply handles_write; [by eapply control_ok_same|done].
    - destruct (message_is_type message "PONG"); [|by apply handles_unchanged].
      split_and!; [done|by eapply control_ok_same|done]. }
  destruct (_ && _); [by apply on_close_message_handles|].
  pose proof (dispatch_message_accounts message s Hok) as Hd.
  destruct (dispatch_message message s) as [s'|e|]; [|by apply handles_unchanged|done].
  by split.
Qed.

Lemma sizes_bounded s :
  (size (pending_receiver s) <= length (accounted s))%nat /\
  (size (pending_product_info s) <= length (accounted s))%nat /\
  (size (pending_offers s) <= length (accounted s))%nat.
Proof. unfold accounted, owned. rewrite !length_app, !table_senders_length. lia. Qed.

Lemma on_receiver_request_handles operation value sender w s :
  control_ok s -> command_ok (ReceiverRequest operation value sender) ->
  Z.of_nat (length (accounted s)) < u32_max ->
  handles [sender] s (on_receiver_request operation value sender w s).
Proof.
  intros Hok Hc Hlen. pose proof (sizes_bounded s) as [Hs _]. unfold on_receiver_request.
  destruct (allocate_id_fresh (next_request_id s) (pending_receiver s))
    as (id & next & -> & Hid & Hfree & Hnext); [apply Hok|lia|]. cbv beta iota zeta.
  set (made := match value with Some v => Ok v | None => operation_payload operation id end).
  assert (exists v, (let? v := made in json_set "requestId" (JNumber id) v) = Ok v) as [v ->].
  { subst made. destruct value as [v|]; cbn in Hc |- *; [destruct v; try done; by eexists|].
    destruct operation; try done; by eexists. }
  apply handles_write; [destruct Hok; constructor; cbn; [lia|done|done]|].
  pose proof (table_senders_insert rr_sender (pending_receiver s) id
    (MkPendingReceiver operation sender) Hfree) as Hp.
  unfold accounted, owned. cbn in *. solve_perm.
Qed.

Lemma on_product_info_request_handles operation sender w s :
  control_ok s -> Z.of_nat (length (accounted s)) < u32_max ->
  handles [sender] s (on_product_info_request operation sender w s).
Proof.
  intros Hok Hlen. pose proof (sizes_bounded s) as (_ & Hs & _). unfold on_product_info_request.
  destruct (allocate_id_fresh (next_product_info_request_id s) (pending_product_info s))
    as (id & next & -> & Hid & Hfree & Hnext); [apply Hok|lia|]. cbv beta iota zeta.
  cbn [json_set]. apply handles_write; [destruct Hok; constructor; cbn; [done|lia|done]|].
  pose proof (table_senders_insert pi_sender (pending_product_info s) id
    (MkPendingProductInfo operation sender) Hfree) as Hp.
  unfold accounted, owned. cbn in *. solve_perm.
Qed.

Lemma on_send_offer_handles destination offer sender w s :
  control_ok s -> Z.of_nat (length (accounted s)) < u32_max ->
  handles [sender] s (on_send_offer destination offer sender w s).
Proof.
  intros Hok Hlen. pose proof (sizes_bounded s) as (_ & _ & Hs). unfold on_send_offer.
  destruct (allocate_id_fresh (next_sequence_number s) (pending_offers s))
    as (id & next & -> & Hid & Hfree & Hnext); [apply Hok|lia|]. cbv beta iota zeta.
  apply handles_write; [destruct Hok; constructor; cbn; [done|done|lia]|].
  pose proof (table_senders_insert po_sender (pending_offers s) id
    (MkPendingOffer destination sender) Hfree) as Hp.
  unfold accounted, owned. cbn in *. solve_perm.
Qed.

Lemma on_command_handles command w s :
  control_ok s -> input_ok (Received command) -> Z.of_nat (length (accounted s)) < u32_max ->
  handles (input_senders (Received command)) s (on_command command w s).
Proof.
  intros Hok Hc Hlen. destruct command as [[operation value x|operation x|destination offer x|ns destination value x|x]|].
  - by apply on_receiver_request_handles.
  - by apply on_product_info_request_handles.
  - by apply on_send_offer_handles.
  - cbn [on_command on_send_fire input_senders command_sender]. unfold on_send_fire.
    destruct (write_json_message_timed w _ _ _ _) as [[w' es] r] eqn:Hw.
    apply write_json_message_timed_effects in Hw as [He Hr].
    destruct r as [[]|e|]; [| |done]; (split_and!; [done|by eapply control_ok_same|]);
      by rewrite accounted_emit, consumed_app, He.
  - cbn [on_command input_senders command_sender]. unfold on_close.
    destruct (send_teardown w _) as [[w' es] r] eqn:Hw. apply send_teardown_effects in Hw as [He Hr].
    split_and!; [by destruct r|by eapply control_ok_same|]. by rewrite accounted_emit, consumed_app, He.
  - cbn [on_command input_senders]. unfold on_close.
    destruct (send_teardown w _) as [[w' es] r] eqn:Hw. apply send_teardown_effects in Hw as [He Hr].
    split_and!; [by destruct r|by eapply control_ok_same|]. by rewrite accounted_emit, consumed_app, He.
Qed.

Lemma control_iteration_handles round w s :
  control_ok s -> input_ok (round_input round) -> Z.of_nat (length (accounted s)) < u32_max ->
  handles (input_senders (round_input round)) s (control_iteration round w s).
Proof.
  intros Hok Hi Hlen. unfold control_iteration.
  pose proof (accounted_retain (round_closed round) s) as Hr.
  assert (Hok' : control_ok (retain_pending (round_closed round) s)) by by eapply control_ok_same.
  set (s1 := retain_pending (round_closed round) s) in *.
  assert (Hgo : forall r, handles (input_senders (round_input round)) s1 r ->
    handles (input_senders (round_input round)) s r).
  { intros [[w' s'] flow] (H1' & H2 & H3). split_and!; [done|done|]. by rewrite H3, Hr. }
  apply Hgo. destruct (round_input round) as [m|c|].
  - by apply on_incoming_handles.
  - apply on_command_handles; [done|done|]. by rewrite Hr.
  - unfold on_heartbeat_tick. destruct (_ <=? _); [by apply handles_unchanged|by apply handles_write].
Qed.
End Facts.
