(* ===== verification/ControlProps.v ===== *)
(** * Theorems about the control task

    Every request is answered exactly once, only by the message it was sent
    for, and the task ends by announcing why. *)

From stdpp Require Import strings gmap.
From S2P Require Import Prelude Time Errors Text Json CastProto CastFraming Control ControlFacts.

(** ** Definitions *)

Section Definitions.
Context `{JsonText}.

(** The JSON value a message carries. *)
Definition message_json (message : CastMessage) : option Json :=
  match payload message with
  | PString p => match from_str (of_utf8 p) with Ok v => Some v | _ => None end
  | PBinary _ => None
  end.

(** A message from the platform receiver answers a pending receiver request. *)
Definition answers_receiver (s : ControlState) (m : CastMessage) (v : Json) (x : ResponseSender) : Prop :=
  namespace_str m = NS_RECEIVER /\ source_str m = RECEIVER_ID /\
  exists id request, pending_receiver s !! id = Some request /\ rr_sender request = x /\
    ((json_message_type v = Some "RECEIVER_STATUS" /\
      ((json_u32 v "requestId" = Some id /\ status_completes v (rr_operation request) = true) \/
       launches_in_status v request = true)) \/
     (json_message_type v = Some "GET_APP_AVAILABILITY" /\ json_u32 v "requestId" = Some id /\
      exists app, rr_operation request = Availability app)).

(** The types of message that answer a product-information request; a refusal
    is handed to the caller, too. *)
Definition product_info_types (operation : ProductInfoOperation) : list string :=
  match operation with
  | DeviceInfo => ["DEVICE_INFO"; "GET_DEVICE_INFO"; "INVALID_REQUEST"]
  | EurekaInfo => ["eureka_info"; "INVALID_REQUEST"]
  end.

(** ... a product-information request, on the namespace it was made on. *)
Definition answers_product_info (s : ControlState) (m : CastMessage) (v : Json) (x : ResponseSender) : Prop :=
  source_str m = RECEIVER_ID /\ destination_str m = SENDER_ID /\
  exists id request, pending_product_info s !! id = Some request /\ pi_sender request = x /\
    namespace_str m = ProductInfoOperation.namespace (pi_operation request) /\
    (exists type, json_message_type v = Some type /\ type ∈ product_info_types (pi_operation request)) /\
    json_u32 v (ProductInfoOperation.request_id_field (pi_operation request)) = Some id.

(** ... an OFFER, from the application it was sent to. *)
Definition answers_offer (s : ControlState) (m : CastMessage) (v : Json) (x : ResponseSender) : Prop :=
  namespace_str m = NS_WEBRTC /\ json_message_type v = Some "ANSWER" /\
  exists id request, pending_offers s !! id = Some request /\ po_sender request = x /\
    json_u32 v "seqNum" = Some id /\ po_destination request = source_str m.

(** The effects an arm of the [select!] may have in state [s]. *)
Definition justified (s : ControlState) (input : Input) (e : Effect) : Prop :=
  match e with
  | Respond x (Ok v) => exists m, input = Incoming (Ok m) /\ message_json m = Some v /\
      (answers_receiver s m v x \/ answers_product_info s m v x \/ answers_offer s m v x)
  | Respond x (Err _) => x ∈ owned s
  | RespondFire x _ => exists ns destination value, input = Received (Some (SendFire ns destination value x))
  | RespondClose x => input = Received (Some (Close x))
  | Respond _ Panic | DropSender _ | Publish (Closed _) => False
  | _ => True
  end.

(** A message that was fired is reported as sent only if it was written. *)
Definition fired (input : Input) (es : list Effect) : Prop :=
  forall x, RespondFire x (Ok tt) ∈ es -> exists ns destination value,
    input = Received (Some (SendFire ns destination value x)) /\
    Write (MkCastMessage (utf8 SENDER_ID) (utf8 destination) (utf8 ns) (PString (utf8 (json_to_string value)))) ∈ es.

Definition grows (Q : Effect -> Prop) (s s' : ControlState) : Prop :=
  exists es, effects s' = effects s ++ es /\ Forall Q es.
End Definitions.

(** The senders of the commands the rounds deliver. *)
Definition submitted (rounds : list Round) : list ResponseSender :=
  concat (map (fun r => input_senders (round_input r)) rounds).

(** ** The effects of one round *)

Lemma grows_refl Q s : grows Q s s.
Proof. exists []. by rewrite app_nil_r. Qed.

Lemma grows_emit Q s s1 es : effects s1 = effects s -> Forall Q es -> grows Q s (emit es s1).
Proof. intros Hs HQ. exists es. cbn. by rewrite Hs. Qed.

Lemma elem_of_table {T} (f : T -> ResponseSender) (m : gmap Z T) id x :
  m !! id = Some x -> f x ∈ table_senders f m.
Proof.
  intros Hid. unfold table_senders. apply (list_elem_of_fmap_2 (fun kv => f (snd kv)) _ (id, x)).
  by apply elem_of_map_to_list.
Qed.

Lemma owned_receiver s id request : pending_receiver s !! id = Some request -> rr_sender request ∈ owned s.
Proof. intros Hid. apply elem_of_app. left. by eapply elem_of_table. Qed.
Lemma owned_product_info s id request :
  pending_product_info s !! id = Some request -> pi_sender request ∈ owned s.
Proof. intros Hid. apply elem_of_app. right. apply elem_of_app. left. by eapply elem_of_table. Qed.
Lemma owned_offers s id request : pending_offers s !! id = Some request -> po_sender request ∈ owned s.
Proof. intros Hid. apply elem_of_app. right. apply elem_of_app. right. by eapply elem_of_table. Qed.
#[export] Hint Resolve owned_receiver owned_product_info owned_offers : cast.

Lemma remove_each_effects {T} respond ids (m : gmap Z T) (Q : Effect -> Prop) :
  (forall id x, id ∈ ids -> m !! id = Some x -> Q (respond x)) -> Forall Q (snd (remove_each respond ids m)).
Proof.
  revert m. induction ids as [|id ids IH]; intros m HQ; [by constructor|]. cbn [remove_each].
  destruct (m !! id) as [x|] eqn:Hid.
  - specialize (IH (delete id m)). destruct (remove_each _ ids (delete id m)) as [m' es]. cbn.
    constructor; [eapply HQ; [by left|done]|]. apply IH. intros i y Hi Hy.
    apply lookup_delete_Some in Hy as [_ Hy]. eapply HQ; [by right|done].
  - apply IH. intros i y Hi Hy. eapply HQ; [by right|done].
Qed.

Section Rounds.
Context `{HashOrder} `{JsonText} {W : Type} `{ControlWriter W}.

(** An id selected from the table by a test on its entry. *)
Lemma selected_lookup {T} (f : T -> bool) (m : gmap Z T) id x :
  id ∈ map fst (List.filter (fun kv => f (snd kv)) (hash_iter m)) -> m !! id = Some x -> f x = true.
Proof.
  intros Hid Hx. apply list_elem_of_In, in_map_iff in Hid as ([k y] & <- & Hf).
  apply filter_In in Hf as [Hin Hf]. apply list_elem_of_In in Hin. cbn in *.
  rewrite hash_iter_perm in Hin. apply elem_of_map_to_list in Hin. congruence.
Qed.

Lemma complete_receiver_status_justified s m v :
  namespace_str m = NS_RECEIVER -> source_str m = RECEIVER_ID -> message_json m = Some v ->
  json_message_type v = Some "RECEIVER_STATUS" ->
  Forall (justified s (Incoming (Ok m))) (snd (complete_receiver_status v (pending_receiver s))).
Proof.
  intros Hn Hs Hv Ht.
  assert (Hlaunch : Forall (justified s (Incoming (Ok m)))
    (snd (remove_each (fun request => Respond (rr_sender request) (Ok v))
       (map fst (List.filter (fun kv => launches_in_status v (snd kv)) (hash_iter (pending_receiver s))))
       (pending_receiver s)))).
  { apply remove_each_effects. intros id x Hid Hx. exists m. split_and!; [done|done|]. left.
    split_and!; [done|done|]. exists id, x. split_and!; [done|done|]. left. split; [done|]. right.
    by eapply selected_lookup. }
  unfold complete_receiver_status.
  destruct (json_u32 v "requestId") as [id|] eqn:Hid; cbn [mbind option_bind]; [|done].
  destruct (pending_receiver s !! id) as [request|] eqn:Hr; cbn [mbind option_bind]; [|done].
  destruct (status_completes v (rr_operation request)) eqn:Hc; [|done].
  constructor; [|constructor]. exists m. split_and!; [done|done|]. left. split_and!; [done|done|].
  exists id, request. split_and!; [done|done|]. left. split; [done|]. by left.
Qed.

Lemma publish_receiver_status_justified s i status known :
  Forall (justified s i) (snd (publish_receiver_status status known)).
Proof.
  cbn. apply Forall_app. split; [|by repeat constructor].
  apply stdpp.list_relations.list.Forall_forall. intros e He.
  apply list_elem_of_In, in_map_iff in He as (kv & <- & _). exact I.
Qed.

Lemma dispatch_receiver_justified s m v s' :
  namespace_str m = NS_RECEIVER -> source_str m = RECEIVER_ID -> message_json m = Some v ->
  dispatch_receiver v (default "" (json_message_type v)) s = Ok s' ->
  grows (justified s (Incoming (Ok m))) s s'.
Proof.
  intros Hn Hs Hv Hd. unfold dispatch_receiver in Hd.
  assert (Htype : forall t, t <> "" -> default "" (json_message_type v) = t -> json_message_type v = Some t)
    by (intros t Hne; destruct (json_message_type v); cbn; congruence).
  destruct (decide _) as [Ht|_].
  { apply Htype in Ht; [|done]. apply bind_Ok in Hd as (status & _ & Hd).
    pose proof (publish_receiver_status_justified s (Incoming (Ok m)) status (known_apps s)) as Hp.
    pose proof (complete_receiver_status_justified s m v Hn Hs Hv Ht) as Hc.
    destruct (publish_receiver_status _ _) as [apps es], (complete_receiver_status _ _) as [pending es'].
    simplify_eq. apply grows_emit; [done|]. by apply Forall_app. }
  destruct (decide _) as [Ht|_].
  { apply Htype in Ht; [|done]. unfold complete_receiver_request in Hd.
    destruct (json_u32 v "requestId") as [id|] eqn:Hid; [|simplify_eq; by apply grows_emit].
    destruct (pending_receiver s !! id) as [request|] eqn:Hr; [|simplify_eq; by apply grows_emit].
    destruct (rr_operation request) as [app| | | |] eqn:Hop; simplify_eq; apply grows_emit; try done.
    constructor; [|constructor]. exists m. split_and!; [done|done|]. left. split_and!; [done|done|].
    exists id, request. split_and!; [done|done|]. right. by eauto. }
  destruct (decide _); [|simplify_eq; apply grows_refl]. unfold fail_receiver_request in Hd.
  repeat case_match; simplify_eq; apply grows_emit; try done;
    constructor; try constructor; cbn; eauto with cast.
Qed.

Lemma dispatch_webrtc_justified s m v :
  namespace_str m = NS_WEBRTC -> message_json m = Some v ->
  grows (justified s (Incoming (Ok m))) s
    (dispatch_webrtc v (default "" (json_message_type v)) (source_str m) s).
Proof.
  intros Hn Hv. unfold dispatch_webrtc. destruct (decide _) as [Ht|_].
  - assert (Ht' : json_message_type v = Some "ANSWER") by (destruct (json_message_type v); cbn in *; congruence).
    unfold complete_offer. destruct (json_u32 v "seqNum") as [id|] eqn:Hid; [|by apply grows_emit].
    destruct (pending_offers s !! id) as [request|] eqn:Hr; [|by apply grows_emit].
    case_bool_decide; apply grows_emit; try done. constructor; [|constructor].
    exists m. split_and!; [done|done|]. right. right. split_and!; [done|done|]. by exists id, request.
  - destruct (decide _); [|apply grows_refl]. unfold fail_offer.
    repeat case_match; simplify_eq; apply grows_emit; try done;
      constructor; try constructor; cbn; eauto with cast.
Qed.

Lemma from_namespace_inv ns op :
  ProductInfoOperation.from_namespace ns = Some op -> ns = ProductInfoOperation.namespace op.
Proof. unfold ProductInfoOperation.from_namespace. repeat destruct (decide _); intros [= <-]; done. Qed.

Lemma dispatch_product_info_justified s m pending es :
  dispatch_product_info_message m (pending_product_info s) = Ok (pending, es) ->
  Forall (justified s (Incoming (Ok m))) es.
Proof.
  unfold dispatch_product_info_message. intros Hd.
  destruct (ProductInfoOperation.from_namespace _) as [op|] eqn:Hns; [|done].
  apply from_namespace_inv in Hns.
  destruct (negb (bool_decide (source_str m = RECEIVER_ID)) ||
            negb (bool_decide (destination_str m = SENDER_ID))) eqn:Hroute; [simplify_eq; constructor|].
  apply orb_false_iff in Hroute as [Hs Hdst].
  apply negb_false_iff, bool_decide_eq_true in Hs, Hdst.
  destruct (payload m) as [p|] eqn:Hp; [|done]. destruct (from_str (of_utf8 p)) as [v|e|] eqn:Hv; [|done..].
  destruct (json_u32 v _) as [id|] eqn:Hid; [|simplify_eq; constructor].
  destruct (pending_product_info s !! id) as [request|] eqn:Hr; [|simplify_eq; constructor].
  case_bool_decide as Hop; cbn [negb] in Hd; [|simplify_eq; constructor]. subst op.
  destruct (_ || _) eqn:Hty; simplify_eq; (constructor; [|constructor]); [|cbn; eauto with cast].
  exists m. split_and!; [done|unfold message_json; by rewrite Hp, Hv|]. right. left.
  split_and!; [done|done|]. exists id, request. split_and!; [done|done|done| |done].
  destruct (json_message_type v) as [ty|]; cbn [default from_option Datatypes.id] in Hty; [exists ty; split; [done|]|by destruct (pi_operation request)].
  apply orb_true_iff in Hty as [Hty|Hty]; [|apply bool_decide_eq_true in Hty as ->; destruct (pi_operation request); set_solver].
  destruct (pi_operation request); cbn in Hty |- *; [apply orb_true_iff in Hty as [Hty|Hty]|];
    apply bool_decide_eq_true in Hty as ->; set_solver.
Qed.

Lemma dispatch_message_justified s m s' :
  dispatch_message m s = Ok s' -> grows (justified s (Incoming (Ok m))) s s'.
Proof.
  unfold dispatch_message. intros Hd. destruct (ProductInfoOperation.from_namespace _).
  - apply bind_Ok in Hd as ([pending es] & Hd & [= <-]).
    apply grows_emit; [done|]. by eapply dispatch_product_info_justified.
  - unfold dispatch_json_message in Hd.
    destruct (negb (bool_decide (namespace_str m = NS_RECEIVER)) &&
              negb (bool_decide (namespace_str m = NS_WEBRTC))) eqn:Hns; [simplify_eq; apply grows_refl|].
    destruct (payload m) as [p|] eqn:Hp; [|simplify_eq; apply grows_refl].
    destruct (from_str (of_utf8 p)) as [v|e|] eqn:Hv; [|done..].
    assert (Hjson : message_json m = Some v) by (unfold message_json; by rewrite Hp, Hv).
    destruct (decide (namespace_str m = NS_RECEIVER)) as [Hn|Hn].
    + case_bool_decide as Hs; cbn [negb] in Hd; [|simplify_eq; apply grows_refl].
      by eapply dispatch_receiver_justified.
    + simplify_eq. apply dispatch_webrtc_justified; [|done].
      rewrite bool_decide_eq_false_2 in Hns by done. cbn in Hns. by case_bool_decide.
Qed.

Lemma write_justified s i w source destination ns value w' es r :
  write_json_message_timed w source destination ns value = (w', es, r) -> Forall (justified s i) es.
Proof.
  unfold write_json_message_timed. destruct (write_frame _ _) as [w1 []]; intros [= <- <- <-];
    repeat constructor.
Qed.

Lemma teardown_apps_justified s i apps w w' es r :
  teardown_apps w apps = (w', es, r) -> Forall (justified s i) es.
Proof.
  revert w w' es r. induction apps as [|app apps IH]; intros w w' es r; cbn [teardown_apps];
    [intros [= <- <- <-]; constructor|].
  destruct (write_json_message_timed w _ _ _ _) as [[w1 es1] r1] eqn:H1'.
  apply (write_justified s i) in H1'. destruct r1 as [[]|e|]; [|by intros [= <- <- <-]..].
  destruct (if bool_decide _ then _ else _) as [[w2 es2] r2] eqn:H2.
  assert (Forall (justified s i) es2).
  { destruct (bool_decide _); [by injection H2 as <- <- <-|by apply (write_justified s i) in H2]. }
  destruct r2 as [[]|e|]; [|by intros [= <- <- <-]; apply Forall_app..].
  destruct (teardown_apps w2 apps) as [[w3 es3] r3] eqn:Hrest. apply IH in Hrest.
  intros [= <- <- <-]. rewrite !Forall_app. done.
Qed.

Lemma send_teardown_justified s i apps w w' es r :
  send_teardown w apps = (w', es, r) -> Forall (justified s i) es.
Proof.
  unfold send_teardown. destruct (teardown_apps w apps) as [[w1 es1] r1] eqn:H1'.
  apply (teardown_apps_justified s i) in H1'. destruct r1 as [[]|e|]; [|by intros [= <- <- <-]..].
  destruct (write_json_message_timed w1 _ _ _ _) as [[w2 es2] r2] eqn:H2.
  apply (write_justified s i) in H2. intros [= <- <- <-]. by apply Forall_app.
Qed.

Lemma write_or_break_justified s i what w s1 destination ns value w' s' flow :
  effects s1 = effects s ->
  write_or_break what w s1 destination ns value = (w', s', flow) -> grows (justified s i) s s'.
Proof.
  unfold write_or_break. intros He.
  destruct (write_json_message_timed w _ _ _ _) as [[w1 es] r] eqn:Hw. intros [= <- <- <-].
  apply grows_emit; [done|]. by eapply write_justified.
Qed.

Lemma on_incoming_justified now incoming w s w' s' flow :
  on_incoming now incoming w s = (w', s', flow) -> grows (justified s (Incoming incoming)) s s'.
Proof.
  unfold on_incoming. destruct incoming as [m|e|]; [|destruct (decide _)|]; try by intros [= <- <- <-]; apply grows_refl.
  destruct (decide _).
  { unfold on_heartbeat. set (s1 := if _ || _ then _ else s).
    assert (He : effects s1 = effects s) by (unfold s1; by destruct (_ || _)).
    destruct (message_is_type m "PING"); [by apply write_or_break_justified|].
    intros [= <- <- <-]. exists []. by rewrite He, app_nil_r. }
  destruct (_ && _).
  { unfold on_close_message. destruct (decide _); [intros [= <- <- <-]; apply grows_refl|].
    cbn [take_app_by_transport]. unfold fail_offers_for_destination.
    pose proof (remove_each_effects (fun r => Respond (po_sender r) (Err (NegotiationFailed "application transport closed")))
      (map fst (List.filter (fun kv => bool_decide (po_destination (snd kv) = source_str m)) (hash_iter (pending_offers s))))
      (pending_offers s) (justified s (Incoming (Ok m)))) as Hr.
    destruct (remove_each _ _ _) as [offers es']. intros [= <- <- <-]. apply grows_emit; [done|].
    apply Forall_app. split; [destruct (known_apps s !! _); by repeat constructor|].
    apply Hr. intros id x _ Hx. cbn. eauto with cast. }
  destruct (dispatch_message m s) as [s1|e|] eqn:Hd; intros [= <- <- <-]; try apply grows_refl.
  by apply dispatch_message_justified.
Qed.

Lemma on_command_justified command w s w' s' flow :
  on_command command w s = (w', s', flow) -> grows (justified s (Received command)) s s'.
Proof.
  assert (Hclose : forall x, (forall y, x = Some y -> command = Some (Close y)) ->
    on_close x w s = (w', s', flow) -> grows (justified s (Received command)) s s').
  { intros x Hx. unfold on_close. destruct (send_teardown w _) as [[w1 es] r] eqn:Ht. intros [= <- <- <-].
    apply grows_emit; [done|]. apply Forall_app. split; [by eapply send_teardown_justified|].
    destruct x as [y|]; [|constructor]. constructor; [|constructor]. cbn. by rewrite (Hx y). }
  intros Hc.
  destruct command as [[operation value x|operation x|destination offer x|ns destination value x|x]|];
    cbn [on_command] in Hc; [| | | |by eapply Hclose; [|exact Hc]; intros ? [= ->]|by eapply Hclose; [|exact Hc]].
  - unfold on_receiver_request in Hc. repeat case_match; simplify_eq;
      first [by eapply write_or_break_justified; [|done] | by exists []; rewrite app_nil_r].
  - unfold on_product_info_request in Hc. repeat case_match; simplify_eq;
      first [by eapply write_or_break_justified; [|done] | by exists []; rewrite app_nil_r].
  - unfold on_send_offer in Hc. repeat case_match; simplify_eq;
      first [by eapply write_or_break_justified; [|done] | by exists []; rewrite app_nil_r].
  - unfold on_send_fire in Hc. destruct (write_json_message_timed w _ _ _ _) as [[w1 es] r] eqn:Hw.
    apply (write_justified s (Received (Some (SendFire ns destination value x)))) in Hw.
    destruct r as [[]|e|]; simplify_eq; [| |apply grows_refl];
      (apply grows_emit; [done|]; apply Forall_app; split; [done|]; constructor; [by eexists _, _, _|constructor]).
Qed.

(** An arm of the [select!] has only justified effects, in the state the
    clean-up at the top of the round leaves. *)
Lemma control_iteration_justified round w s w' s' flow :
  control_iteration round w s = (w', s', flow) ->
  let s1 := retain_pending (round_closed round) s in
  grows (justified s1 (round_input round)) s1 s'.
Proof.
  unfold control_iteration. cbv zeta. intros Hi. destruct (round_input round) as [m|c|].
  - by eapply on_incoming_justified.
  - by eapply on_command_justified.
  - unfold on_heartbeat_tick in Hi. destruct (_ <=? _); [simplify_eq; apply grows_refl|].
    by eapply write_or_break_justified.
Qed.

Lemma control_iteration_fired round w s w' s' flow es :
  control_iteration round w s = (w', s', flow) ->
  let s1 := retain_pending (round_closed round) s in
  effects s' = effects s1 ++ es -> Forall (justified s1 (round_input round)) es -> fired (round_input round) es.
Proof.
  cbv zeta. intros Hi He Hj x Hx. pose proof (proj1 (stdpp.list_relations.list.Forall_forall _ _) Hj _ Hx) as (ns & destination & value & Hin).
  exists ns, destination, value. split; [done|]. unfold control_iteration in Hi. rewrite Hin in Hi. cbn [on_command] in Hi.
  unfold on_send_fire, write_json_message_timed in Hi. destruct (write_frame _ _) as [w1 [|e|]]; simplify_eq;
    cbn in He; apply app_inv_head in He as <-; [set_solver|by apply list_elem_of_singleton in Hx..].
Qed.
End Rounds.

Section Runs.
Context `{HashOrder} `{JsonText} {W : Type} `{ControlWriter W}.

Definition dropped_for (round : Round) (s : ControlState) (e : Effect) : Prop :=
  exists x, e = DropSender x /\ round_closed round x = true /\ x ∈ owned s.

Lemma retain_open_dropped {T} closed (f : T -> ResponseSender) (m : gmap Z T) e :
  e ∈ snd (retain_open closed f m) ->
  exists x, e = DropSender x /\ closed x = true /\ x ∈ table_senders f m.
Proof.
  cbn. intros He. apply list_elem_of_In, in_map_iff in He as ([k y] & <- & Hf).
  apply filter_In in Hf as [Hin Hf]. apply list_elem_of_In in Hin. rewrite hash_iter_perm in Hin.
  apply elem_of_map_to_list in Hin. exists (f y). split_and!; [done|done|by eapply elem_of_table].
Qed.

Lemma retain_pending_dropped round s :
  grows (dropped_for round s) s (retain_pending (round_closed round) s).
Proof.
  unfold retain_pending.
  pose proof (retain_open_dropped (round_closed round) rr_sender (pending_receiver s)) as H1'.
  pose proof (retain_open_dropped (round_closed round) pi_sender (pending_product_info s)) as H2.
  pose proof (retain_open_dropped (round_closed round) po_sender (pending_offers s)) as H3.
  destruct (retain_open _ _ (pending_receiver s)) as [m1 es1],
    (retain_open _ _ (pending_product_info s)) as [m2 es2], (retain_open _ _ (pending_offers s)) as [m3 es3].
  cbn [snd] in *. apply grows_emit; [done|]. apply stdpp.list_relations.list.Forall_forall.
  intros e He. rewrite !elem_of_app in He.
  destruct He as [He|[He|He]]; [apply H1' in He|apply H2 in He|apply H3 in He];
    destruct He as (x & -> & Hc & Hx); exists x; (split_and!; [done|done|]);
    unfold owned; rewrite !elem_of_app; tauto.
Qed.

(** The effects that neither drop a sender nor announce the end. *)
Definition routine (e : Effect) : Prop :=
  match e with DropSender _ | Publish (Closed _) => False | _ => True end.

Lemma justified_routine s i e : justified s i e -> routine e.
Proof. destruct e as [x [| |]|x r|x|x|[]|m]; cbn; tauto. Qed.

(** What holds between two rounds, after the rounds [before]. *)
Record between (before : list Round) (s : ControlState) : Prop := {
  bt_ok : control_ok s;
  bt_accounted : submitted before ≡ₚ accounted s;
  bt_dropped : forall x, DropSender x ∈ effects s -> exists r, r ∈ before /\ round_closed r x = true;
  bt_open : forall reason, Publish (Closed reason) ∉ effects s;
}.

Lemma submitted_snoc before round :
  submitted (before ++ [round]) = submitted before ++ input_senders (round_input round).
Proof. unfold submitted. rewrite map_app, concat_app. cbn. by rewrite app_nil_r. Qed.

Lemma submitted_length before : (length (submitted before) <= length before)%nat.
Proof.
  induction before as [|r l IH]; [done|]. unfold submitted in *. cbn. rewrite length_app.
  assert (length (input_senders (round_input r)) <= 1)%nat; [|lia].
  by destruct (round_input r) as [|[]|]; cbn; lia.
Qed.

Lemma between_init now : between [] (control_init now).
Proof. constructor; [constructor; cbn; unfold u32_max; lia|done|set_solver|set_solver]. Qed.

Lemma between_step before round w s w' s' flow :
  between before s -> input_ok (round_input round) -> Z.of_nat (length before) < u32_max ->
  control_iteration round w s = (w', s', flow) ->
  flow_ok flow /\ between (before ++ [round]) s'.
Proof.
  intros [Hok Hacc Hdrop Hopen] Hi Hlen Hstep.
  assert (Hlen' : Z.of_nat (length (accounted s)) < u32_max).
  { rewrite <- Hacc. pose proof (submitted_length before). lia. }
  pose proof (control_iteration_handles round w s Hok Hi Hlen') as Hh. rewrite Hstep in Hh.
  destruct Hh as (Hflow & Hok' & Hacc').
  destruct (retain_pending_dropped round s) as (es1 & He1 & Hd).
  destruct (control_iteration_justified round w s w' s' flow Hstep) as (es2 & He2 & Hj).
  rewrite stdpp.list_relations.list.Forall_forall in Hd, Hj.
  split; [done|]. constructor; [done|rewrite submitted_snoc, Hacc', Hacc; solve_perm| |];
    rewrite He2, He1.
  - intros x Hx. rewrite !elem_of_app in Hx. destruct Hx as [[Hx|Hx]|Hx].
    + apply Hdrop in Hx as (r & Hr & Hc). exists r. by rewrite elem_of_app; auto.
    + apply Hd in Hx as (y & [= <-] & Hc & _). exists round. rewrite elem_of_app. split; [right; set_solver|done].
    + by apply Hj, justified_routine in Hx.
  - intros reason Hx. rewrite !elem_of_app in Hx. destruct Hx as [[Hx|Hx]|Hx].
    + by apply Hopen in Hx.
    + by apply Hd in Hx as (y & ? & _).
    + by apply Hj, justified_routine in Hx.
Qed.

Lemma fail_all_pending_spec detail s :
  exists es, effects (fail_all_pending detail s) = effects s ++ es /\ Forall routine es /\
    consumed es ≡ₚ owned s /\ owned (fail_all_pending detail s) = [].
Proof.
  unfold fail_all_pending. eexists. split_and!; [done| | |].
  - rewrite !Forall_app. split_and!; apply stdpp.list_relations.list.Forall_forall; intros e He;
      by apply list_elem_of_In, in_map_iff in He as (kv & <- & _).
  - rewrite !consumed_app. unfold owned.
    by rewrite (consumed_hash_iter rr_sender (fun r => Respond (rr_sender r) _)),
      (consumed_hash_iter pi_sender (fun r => Respond (pi_sender r) _)),
      (consumed_hash_iter po_sender (fun r => Respond (po_sender r) _)).
  - unfold owned, table_senders. cbn. by rewrite !map_to_list_empty.
Qed.

(** The state the task ends in, after the rounds [handled]. *)
Record finished (handled : list Round) (reason : ControlCloseReason) (s : ControlState) : Prop := {
  fi_owned : owned s = [];
  fi_consumed : submitted handled ≡ₚ consumed (effects s);
  fi_dropped : forall x, DropSender x ∈ effects s -> exists r, r ∈ handled /\ round_closed r x = true;
  fi_closed : exists es, effects s = es ++ [Publish (Closed reason)] /\
                forall other, Publish (Closed other) ∉ es;
}.

Lemma finish_finished handled result reason s :
  between handled s -> finished handled reason (finish_loop result reason s).
Proof.
  intros [Hok Hacc Hdrop Hopen]. unfold finish_loop. set (detail := match result with Err _ => _ | _ => _ end).
  destruct (fail_all_pending_spec detail s) as (es & He & Hes & Hc & Ho).
  rewrite stdpp.list_relations.list.Forall_forall in Hes.
  set (s1 := fail_all_pending detail s) in *.
  assert (Heff : effects (emit [Publish (Closed reason)] s1) = effects s ++ es ++ [Publish (Closed reason)]).
  { change (effects s1 ++ [Publish (Closed reason)] = effects s ++ es ++ [Publish (Closed reason)]).
    by rewrite He, app_assoc. }
  constructor.
  - exact Ho.
  - rewrite Heff, Hacc, !consumed_app. unfold accounted. rewrite Hc. by rewrite app_nil_r.
  - intros x Hx. rewrite Heff, !elem_of_app in Hx. destruct Hx as [Hx|[Hx|Hx]]; [by apply Hdrop| |].
    + by apply Hes in Hx.
    + set_solver.
  - exists (effects s ++ es). split; [by rewrite Heff, app_assoc|].
    intros other Hx. rewrite elem_of_app in Hx. destruct Hx as [Hx|Hx]; [by apply Hopen in Hx|].
    by apply Hes in Hx.
Qed.

Lemma control_run_spec before rounds w s w' s' rest outcome :
  between before s -> Forall (fun r => input_ok (round_input r)) rounds ->
  Z.of_nat (length before + length rounds) < u32_max ->
  control_run rounds w s = (w', s', rest, outcome) ->
  exists handled, rounds = handled ++ rest /\
    match outcome with
    | None => rest = [] /\ between (before ++ handled) s'
    | Some result => result <> Panic /\ exists reason, finished (before ++ handled) reason s'
    end.
Proof.
  revert before w s. induction rounds as [|r rounds IH]; intros before w s Hb Hi Hlen Hrun; cbn in Hrun.
  { simplify_eq. exists []. split_and!; [done|done|]. by rewrite app_nil_r. }
  apply Forall_cons_iff in Hi as [Hr Hi]. cbn in Hlen.
  destruct (control_iteration r w s) as [[w1 s1] flow] eqn:Hstep.
  destruct (between_step before r w s w1 s1 flow Hb Hr ltac:(lia) Hstep) as [Hf Hb1].
  destruct flow as [|result reason|]; [| |done].
  - destruct (IH (before ++ [r]) w1 s1 Hb1 Hi) as (handled & -> & Hout);
      [rewrite length_app; cbn; lia|done|].
    exists (r :: handled). split; [done|]. by rewrite <- app_assoc in Hout.
  - simplify_eq. exists [r]. split_and!; [done|by intros ->|].
    exists reason. by apply finish_finished.
Qed.

(** ** The end of the connection *)

(** The messages of an orderly teardown. *)
Definition json_message (destination ns : string) (value : Json) : CastMessage :=
  MkCastMessage (utf8 SENDER_ID) (utf8 destination) (utf8 ns) (PString (utf8 (json_to_string value))).
Definition app_teardown (app : CastApp) : list CastMessage :=
  json_message (transport_id app) NS_CONNECTION close_json ::
  (if bool_decide (session_id app = "") then []
   else [json_message RECEIVER_ID NS_RECEIVER (stop_json (session_id app))]).
Definition teardown_messages (apps : list CastApp) : list CastMessage :=
  concat (map app_teardown apps) ++ [json_message RECEIVER_ID NS_CONNECTION close_json].

Lemma write_json_spec w destination ns value w' es r :
  write_json_message_timed w SENDER_ID destination ns value = (w', es, r) ->
  (r = Ok tt /\ es = [Write (json_message destination ns value)]) \/ ((exists e, r = Err e) /\ es = []).
Proof.
  unfold write_json_message_timed. destruct (write_frame _ _) as [w1 []]; intros [= <- <- <-]; eauto.
Qed.

(** Messages written one after the other, up to the first failure. *)
Definition sends (messages : list CastMessage) (r : W * list Effect * Result IoError unit) : Prop :=
  let '(_, es, result) := r in
  (result = Ok tt /\ es = map Write messages) \/
  (exists e k, result = Err e /\ (k < length messages)%nat /\ es = map Write (take k messages)).

Lemma sends_app ms ms' w1 es1 es2 r2 w2 :
  sends ms (w1, es1, Ok tt) -> sends ms' (w2, es2, r2) -> sends (ms ++ ms') (w2, es1 ++ es2, r2).
Proof.
  intros [[_ ->]|(e & k & ? & _)]; [|done]. intros [[-> ->]|(e & k & -> & Hk & ->)].
  - left. by rewrite map_app.
  - right. exists e, (length ms + k)%nat. rewrite length_app. split_and!; [done|lia|].
    by rewrite take_app_add, map_app.
Qed.

Lemma sends_fail ms ms' w es e : sends ms (w, es, Err e) -> sends (ms ++ ms') (w, es, Err e).
Proof.
  intros [[? _]|(e' & k & [= <-] & Hk & ->)]; [done|]. right. exists e, k.
  rewrite length_app. split_and!; [done|lia|]. by rewrite take_app_le by lia.
Qed.

Lemma sends_write w destination ns value :
  sends [json_message destination ns value] (write_json_message_timed w SENDER_ID destination ns value).
Proof.
  destruct (write_json_message_timed _ _ _ _ _) as [[w' es] r] eqn:Hw.
  apply write_json_spec in Hw as [[-> ->]|[[e ->] ->]]; [by left|]. right. exists e, 0%nat. by cbn; auto.
Qed.

Lemma sends_not_panic ms w es : ~ sends ms (w, es, Panic).
Proof. by intros [[? _]|(e & k & ? & _)]. Qed.

Lemma sends_nil w : sends [] (w, [], Ok tt).
Proof. by left. Qed.

Lemma app_teardown_sends w app :
  sends (app_teardown app)
    (let '(w, es, r) := write_json_message_timed w SENDER_ID (transport_id app) NS_CONNECTION close_json in
     match r with
     | Ok _ =>
       let '(w, es', r) :=
         if bool_decide (session_id app = "") then (w, [], Ok tt)
         else write_json_message_timed w SENDER_ID RECEIVER_ID NS_RECEIVER (stop_json (session_id app)) in
       (w, es ++ es', r)
     | _ => (w, es, r)
     end).
Proof.
  pose proof (sends_write w (transport_id app) NS_CONNECTION close_json) as H1'.
  destruct (write_json_message_timed w _ _ _ _) as [[w1 es1] r1]. unfold app_teardown.
  destruct r1 as [[]|e|]; [|exact (sends_fail [_] _ w1 es1 e H1')|by apply sends_not_panic in H1'].
  case_bool_decide.
  - exact (sends_app [_] [] w1 es1 [] (Ok tt) w1 H1' (sends_nil w1)).
  - pose proof (sends_write w1 RECEIVER_ID NS_RECEIVER (stop_json (session_id app))) as Hn.
    destruct (write_json_message_timed w1 _ _ _ _) as [[w2 es2] r2]. exact (sends_app [_] [_] w1 es1 es2 r2 w2 H1' Hn).
Qed.

Lemma teardown_apps_sends w apps : sends (concat (map app_teardown apps)) (teardown_apps w apps).
Proof.
  revert w. induction apps as [|app apps IH]; intros w; [apply sends_nil|]. cbn [teardown_apps map concat].
  pose proof (app_teardown_sends w app) as Ha.
  destruct (write_json_message_timed w _ _ _ _) as [[w1 es1] r1].
  destruct r1 as [[]|e|]; [|by apply sends_fail|by apply sends_not_panic in Ha].
  destruct (if bool_decide _ then _ else _) as [[w2 es2] r2].
  destruct r2 as [[]|e|]; [|by apply sends_fail|by apply sends_not_panic in Ha].
  specialize (IH w2). destruct (teardown_apps w2 apps) as [[w3 es3] r3]. rewrite app_assoc.
  by eapply sends_app.
Qed.

Lemma send_teardown_sends w apps : sends (teardown_messages apps) (send_teardown w apps).
Proof.
  unfold send_teardown, teardown_messages. pose proof (teardown_apps_sends w apps) as Ha.
  destruct (teardown_apps w apps) as [[w1 es1] r1].
  destruct r1 as [[]|e|]; [|by apply sends_fail|by apply sends_not_panic in Ha].
  pose proof (sends_write w1 RECEIVER_ID NS_CONNECTION close_json) as Hn.
  destruct (write_json_message_timed w1 _ _ _ _) as [[w2 es2] r2]. by eapply sends_app.
Qed.

(** ** The heartbeat *)

(** Does the round deliver a PING or a PONG? *)
Definition heard (r : Round) : bool :=
  match round_input r with
  | Incoming (Ok m) =>
    bool_decide (namespace_str m = NS_HEARTBEAT) && (message_is_type m "PING" || message_is_type m "PONG")
  | _ => false
  end.
Fixpoint last_heard (t : Instant) (rounds : list Round) : Instant :=
  match rounds with
  | [] => t
  | r :: rounds' => last_heard (if heard r then round_now r else t) rounds'
  end.

Lemma dispatch_last_heartbeat m s s' : dispatch_message m s = Ok s' -> last_heartbeat s' = last_heartbeat s.
Proof.
  unfold dispatch_message. destruct (ProductInfoOperation.from_namespace _).
  - intros Hd. by apply bind_Ok in Hd as ([pending es] & _ & [= <-]).
  - unfold dispatch_json_message, dispatch_receiver, dispatch_webrtc, parse_receiver_status.
    intros Hd. repeat (case_match || (apply bind_Ok in Hd as (? & ? & Hd))); by simplify_eq.
Qed.

Lemma write_or_break_last_heartbeat what w s destination ns value w' s' flow :
  write_or_break what w s destination ns value = (w', s', flow) -> last_heartbeat s' = last_heartbeat s.
Proof. unfold write_or_break. destruct (write_json_message_timed _ _ _ _ _) as [[w1 es] r]. by intros [= <- <- <-]. Qed.

Lemma on_command_last_heartbeat command w s w' s' flow :
  on_command command w s = (w', s', flow) -> last_heartbeat s' = last_heartbeat s.
Proof.
  intros Hc. destruct command as [[]|]; cbn [on_command] in Hc;
    unfold on_receiver_request, on_product_info_request, on_send_offer, on_send_fire, on_close in Hc;
    repeat case_match; simplify_eq; try done; by apply write_or_break_last_heartbeat in Hc.
Qed.

Lemma iteration_last_heartbeat round w s w' s' flow :
  control_iteration round w s = (w', s', flow) ->
  last_heartbeat s' = if heard round then round_now round else last_heartbeat s.
Proof.
  unfold control_iteration, heard. set (s1 := retain_pending _ s).
  change (last_heartbeat s) with (last_heartbeat s1). intros Hi.
  destruct (round_input round) as [[m|e|]|c|].
  - cbn [on_incoming] in Hi. destruct (decide (namespace_str m = NS_HEARTBEAT)) as [Hn|Hn].
    + rewrite bool_decide_eq_true_2 by done. cbn [andb]. unfold on_heartbeat in Hi.
      destruct (message_is_type m "PING"); cbn [orb] in *.
      { by apply write_or_break_last_heartbeat in Hi. }
      destruct (message_is_type m "PONG"); by simplify_eq.
    + rewrite bool_decide_eq_false_2 by done. cbn [andb] in *. destruct (_ && _).
      { unfold on_close_message in Hi. cbn [take_app_by_transport] in Hi.
        repeat case_match; by simplify_eq. }
      destruct (dispatch_message m s1) as [s2|e|] eqn:Hd; simplify_eq; try done.
      by apply dispatch_last_heartbeat in Hd.
  - cbn [on_incoming] in Hi. case_match; by simplify_eq.
  - cbn [on_incoming] in Hi. by simplify_eq.
  - by apply on_command_last_heartbeat in Hi.
  - unfold on_heartbeat_tick in Hi. case_match; [by simplify_eq|].
    by apply write_or_break_last_heartbeat in Hi.
Qed.

Definition heartbeat_error : Error := connection_error "receiver heartbeat timed out".

Lemma iteration_timeout round w s w' s' flow :
  control_iteration round w s = (w', s', flow) -> round_input round = HeartbeatTick ->
  (HEARTBEAT_TIMEOUT <= duration_since (round_now round) (last_heartbeat s) <->
   exists reason, flow = Break (Err heartbeat_error) reason).
Proof.
  unfold control_iteration. intros Hi Ht. rewrite Ht in Hi. unfold on_heartbeat_tick in Hi.
  change (last_heartbeat (retain_pending (round_closed round) s)) with (last_heartbeat s) in Hi.
  destruct (Z.leb_spec HEARTBEAT_TIMEOUT (duration_since (round_now round) (last_heartbeat s))) as [Hl|Hl].
  - simplify_eq. split; [by eauto|done].
  - split; [lia|]. intros [reason ->]. unfold write_or_break in Hi.
    destruct (write_json_message_timed _ _ _ _ _) as [[w1 es] r]. by destruct r; simplify_eq.
Qed.

Lemma control_run_heartbeat rounds w s w' s' rest outcome :
  control_run rounds w s = (w', s', rest, outcome) ->
  exists handled, rounds = handled ++ rest /\ last_heartbeat s' = last_heard (last_heartbeat s) handled /\
    (handled = [] -> outcome = None) /\
    forall pre r post, handled = pre ++ r :: post -> round_input r = HeartbeatTick ->
      (HEARTBEAT_TIMEOUT <= duration_since (round_now r) (last_heard (last_heartbeat s) pre) <->
       post = [] /\ outcome = Some (Err heartbeat_error)).
Proof.
  revert w s. induction rounds as [|round rounds IH]; intros w s Hrun; cbn in Hrun.
  { simplify_eq. exists []. split_and!; [done..|]. intros pre r post Hnil. by destruct pre. }
  destruct (control_iteration round w s) as [[w1 s1] flow] eqn:Hi.
  pose proof (iteration_last_heartbeat _ _ _ _ _ _ Hi) as Hlast.
  pose proof (iteration_timeout _ _ _ _ _ _ Hi) as Htime.
  destruct flow as [|result reason|].
  - destruct (IH w1 s1 Hrun) as (handled & -> & Hh & Hend & Hall). exists (round :: handled).
    rewrite Hlast in *. split_and!; [done..|]. intros [|r0 pre] r post [= <- Hpost] Ht.
    + cbn. specialize (Htime Ht). split; [by intros Hl; apply Htime in Hl as [reason ?]|].
      intros [-> ->]. by specialize (Hend Hpost).
    + by apply Hall.
  - simplify_eq. exists [round]. split_and!; [done|by cbn; rewrite <- Hlast|done|].
    intros [|r0 [|r1 pre]] r post [= <- Hpost] Ht; [|done..]. rewrite (Htime Ht). cbn.
    split; [intros [reason' [= -> ->]]; done|]. intros [_ [= ->]]. by eexists.
  - simplify_eq. exists [round]. split_and!; [done|by cbn; rewrite <- Hlast|done|].
    intros [|r0 [|r1 pre]] r post [= <- Hpost] Ht; [|done..]. rewrite (Htime Ht).
    split; [by intros [reason ?]|by intros [_ ?]].
Qed.
End Runs.

(** ** Instances for the witnesses *)

#[export] Instance list_order : HashOrder.
Proof. refine {| hash_iter := fun K A _ _ m => map_to_list m |}. done. Defined.

(** A RECEIVER_STATUS that answers request 1, and a parser that knows the texts
    used below. *)
Definition demo_status : Json :=
  JObject [("type", JString "RECEIVER_STATUS"); ("requestId", JNumber 1);
           ("status", JObject [("applications", JArray [
              JObject [("appId", JString APP_MIRRORING); ("transportId", JString "web-1");
                       ("sessionId", JString "s-1")]])])].
Definition demo_parse (text : string) : Result string Json :=
  if decide (text = "status") then Ok demo_status
  else if decide (text = "ping") then Ok (JObject [("type", JString "PING")])
  else Err "expected value".
#[export] Instance demo_json : JsonText.
Proof.
  refine {| from_str := demo_parse; json_to_string := fun _ => "{}" |}.
  intros text. unfold demo_parse. by repeat destruct (decide _).
Defined.
#[export] Instance demo_writer : ControlWriter (list bytes) := fun w frame => (w ++ [frame], WriteDone).

Definition demo_round (now : Instant) (input : Input) : Round := MkRound (fun _ => false) now input.
Definition from_receiver (ns text : string) : Input :=
  Incoming (Ok (MkCastMessage (utf8 RECEIVER_ID) (utf8 SENDER_ID) (utf8 ns) (PString (utf8 text)))).
(** A launch, its status, an OFFER the application never answers, and a close. *)
Definition demo_rounds : list Round :=
  [demo_round 0 (Received (Some (ReceiverRequest (Launch APP_MIRRORING) None 7%nat)));
   demo_round 1 (from_receiver NS_RECEIVER "status");
   demo_round 2 (Received (Some (SendOffer "web-1" JNull 8%nat)));
   demo_round 3 (Received (Some (Close 9%nat)))].

Example demo_run_answers :
  let '(w, s, rest, outcome) := control_loop 0 demo_rounds [] in
  consumed (effects s) = [7; 9; 8]%nat /\ rest = [] /\ outcome = Some (Ok tt) /\ length w = 5%nat.
Proof. vm_compute. split_and!; reflexivity. Qed.

(** ** Theorems *)

(** C4: every request handed to the control task is answered exactly once.
    However messages, commands and heartbeats interleave and whatever the
    stream does, the task never panics; each one-shot sender it received is
    either still pending, or was used exactly once - a sender is dropped
    unanswered only after its receiver has gone away.  When the task ends no
    request is left pending, and the last thing it does is to announce, once,
    why it closed. *)
Theorem control_answers_once `{HashOrder} `{JsonText} {W} `{ControlWriter W} now rounds (w : W) :
  Forall (fun r => input_ok (round_input r)) rounds -> Z.of_nat (length rounds) < u32_max ->
  let '(_, s, rest, outcome) := control_loop now rounds w in
  exists handled, rounds = handled ++ rest /\
    submitted handled ≡ₚ consumed (effects s) ++ owned s /\
    (forall x, DropSender x ∈ effects s -> exists r, r ∈ handled /\ round_closed r x = true) /\
    match outcome with
    | None => rest = [] /\ forall reason, Publish (Closed reason) ∉ effects s
    | Some result => result <> Panic /\ owned s = [] /\
        exists es reason, effects s = es ++ [Publish (Closed reason)] /\
          forall other, Publish (Closed other) ∉ es
    end.
Proof.
  intros Hi Hlen. destruct (control_loop now rounds w) as [[[w' s] rest] outcome] eqn:Hrun.
  destruct (control_run_spec [] rounds w (control_init now) w' s rest outcome (between_init now) Hi)
    as (handled & -> & Hout); [cbn; lia|done|].
  exists handled. split; [done|]. destruct outcome as [result|].
  - destruct Hout as (Hp & reason & [Ho Hc Hd Hcl]). rewrite Ho, app_nil_r.
    split_and!; [done|done|done|done|]. destruct Hcl as (es & He & Hes). by exists es, reason.
  - destruct Hout as (-> & [Hok Hacc Hd Hopen]). split_and!; [done|done|done|done].
Qed.

Lemma demo_rounds_ok : Forall (fun r => input_ok (round_input r)) demo_rounds.
Proof. repeat constructor; done. Qed.

Lemma control_answers_once_witness :
  let '(_, s, rest, outcome) := control_loop 0 demo_rounds [] in
  exists handled, demo_rounds = handled ++ rest /\
    submitted handled ≡ₚ consumed (effects s) ++ owned s /\
    (forall x, DropSender x ∈ effects s -> exists r, r ∈ handled /\ round_closed r x = true) /\
    match outcome with
    | None => rest = [] /\ forall reason, Publish (Closed reason) ∉ effects s
    | Some result => result <> Panic /\ owned s = [] /\
        exists es reason, effects s = es ++ [Publish (Closed reason)] /\
          forall other, Publish (Closed other) ∉ es
    end.
Proof. apply (control_answers_once 0 demo_rounds []); [exact demo_rounds_ok|reflexivity]. Defined.

(** C12: a caller only ever receives the answer to its own request.  In every
    round the loop first drops senders whose receivers have gone away; after
    that, a successful response goes to a pending sender only when the message
    just received came from the right peer, on the right namespace, with the
    right type, and names that request - by its id, or, for a launch, by the
    application the status shows; OFFERs are answered only by the application
    they were sent to.  Errors, too, go only to pending senders.  A message to
    be fired is answered only in the round that takes it, with success only if
    it was written, and a close only in the round that takes it. *)
Theorem response_correlated `{HashOrder} `{JsonText} {W} `{ControlWriter W} round (w : W) s :
  let '(_, s', _) := control_iteration round w s in
  exists dropped es, effects s' = effects s ++ dropped ++ es /\
    Forall (dropped_for round s) dropped /\
    Forall (justified (retain_pending (round_closed round) s) (round_input round)) es /\
    fired (round_input round) es.
Proof.
  destruct (control_iteration round w s) as [[w' s'] flow] eqn:Hi.
  destruct (retain_pending_dropped round s) as (es1 & He1 & Hd).
  destruct (control_iteration_justified round w s w' s' flow Hi) as (es2 & He2 & Hj).
  exists es1, es2. split; [by rewrite He2, He1, app_assoc|]. split; [done|]. split; [done|].
  by eapply control_iteration_fired.
Qed.

(** Closing the connection, by request or because every handle was
    dropped, tears down every application the receiver reported: each gets a
    CLOSE and, when it has a session, a STOP, then the platform connection is
    closed.  The messages go out in that order; the task ends with success
    exactly when all of them were written, and otherwise stops at the first
    write that fails.  A requested close is acknowledged either way. *)
Theorem close_tears_down `{HashOrder} `{JsonText} {W} `{ControlWriter W} sender (w : W) s :
  let '(_, s', flow) := on_close sender w s in
  let answer := match sender with Some x => [RespondClose x] | None => [] end in
  exists apps, apps ≡ₚ map snd (map_to_list (known_apps s)) /\
    ((flow = Break (Ok tt) Requested /\
      effects s' = effects s ++ map Write (teardown_messages apps) ++ answer) \/
     (exists k error, flow = break_with ("send Cast teardown: " +:+ io_message error) /\
      (k < length (teardown_messages apps))%nat /\
      effects s' = effects s ++ map Write (take k (teardown_messages apps)) ++ answer)).
Proof.
  unfold on_close. set (apps := map snd (hash_iter (known_apps s))).
  pose proof (send_teardown_sends w apps) as Hs. destruct (send_teardown w apps) as [[w' es] r].
  exists apps. split; [unfold apps; by rewrite hash_iter_perm|].
  destruct Hs as [[-> ->]|(e & k & -> & Hk & ->)]; [by left|]. right. by exists k, e.
Qed.

(** C31: the heartbeat watchdog is exact.  The loop remembers the time of the
    last PING or PONG it received; a heartbeat tick that comes 15 seconds or
    more after it ends the connection with the time-out error, and a tick that
    comes earlier never does. *)
Theorem heartbeat_watchdog `{HashOrder} `{JsonText} {W} `{ControlWriter W} start rounds (w : W) :
  let '(_, s, rest, outcome) := control_loop start rounds w in
  exists handled, rounds = handled ++ rest /\ last_heartbeat s = last_heard start handled /\
    forall pre r post, handled = pre ++ r :: post -> round_input r = HeartbeatTick ->
      (HEARTBEAT_TIMEOUT <= duration_since (round_now r) (last_heard start pre) <->
       post = [] /\ outcome = Some (Err heartbeat_error)).
Proof.
  destruct (control_loop start rounds w) as [[[w' s] rest] outcome] eqn:Hrun.
  apply control_run_heartbeat in Hrun as (handled & Hr & Hl & _ & Hall). by exists handled.
Qed.

(** A new request never collides with a pending one: as long as not all
    2^32 - 1 identifiers are in use, the search terminates with an identifier
    from 1 to [u32::MAX] that no pending request has, wherever the counter
    stands, also when it wraps around. *)
Theorem allocate_id_spec {T} next (pending : gmap Z T) :
  0 <= next <= u32_max -> Z.of_nat (size pending) < u32_max ->
  exists id next', allocate_id next pending = Ok (id, next') /\
    1 <= id <= u32_max /\ pending !! id = None /\ 1 <= next' <= u32_max.
Proof. apply allocate_id_fresh. Qed.

Lemma allocate_id_spec_witness :
  allocate_id u32_max (<[u32_max := tt]> (<[1 := tt]> ∅)) = Ok (2, 3) /\
  exists id next', allocate_id u32_max (<[u32_max := tt]> (<[1 := tt]> (∅ : gmap Z unit))) = Ok (id, next') /\
    1 <= id <= u32_max /\ <[u32_max := tt]> (<[1 := tt]> (∅ : gmap Z unit)) !! id = None /\
    1 <= next' <= u32_max.
Proof.
  split; [vm_compute; reflexivity|]. apply (allocate_id_spec u32_max); [unfold u32_max; lia|].
  vm_compute. reflexivity.
Defined.
