(* ===== verification/ControlApi.v ===== *)
(** * The methods of a control connection ([src/src/control/mod.rs], [CastConnection])

    A method sends commands to the control task and awaits each answer.  It is
    modelled as a program, [Api]: a result, or a command together with what to
    do with its outcome.  The task ([Control]) is the other side. *)

From Stdlib Require Import Floats.SpecFloat.
From stdpp Require Import strings gmap.
From S2P Require Import Prelude Constants Time Errors Text Json Codec Frame SyncSource Crypto Rtp Rtcp Stream EventLoop Offer Session CastProto CastFraming DeviceInfo Auth Control ControlFacts.

(** What becomes of a command: the task no longer receives, the task dropped
    the one-shot sender, [REQUEST_TIMEOUT] passed, or an answer came. *)
Inductive Outcome (A : Type) :=
| Undelivered
| Abandoned
| Expired
| Answered (r : Result Error A).
Arguments Undelivered {A}.
Arguments Abandoned {A}.
Arguments Expired {A}.
Arguments Answered {A} r.

Inductive Api (A : Type) :=
| Return (r : Result Error A)
| CallJson (command : ResponseSender -> ControlCommand) (k : Outcome Json -> Api A)
| CallFire (command : ResponseSender -> ControlCommand) (k : Outcome unit -> Api A).
Arguments Return {A} r.
Arguments CallJson {A} command k.
Arguments CallFire {A} command k.

(** [serde_json::from_value::<Answer>]: serde's derived code. *)
Class AnswerJson := {
  answer_from_value : Json -> Result string Answer;
  answer_from_value_total v : answer_from_value v <> Panic;
}.

Record CastConnection := MkConnection {
  remote_address : SocketAddr;
  device_identity : option DeviceIdentity;
}.

(** ** Waiting for the task *)

Definition await_json_response (outcome : Outcome Json) (operation : string) : Result Error Json :=
  match outcome with
  | Undelivered | Abandoned => Err control_closed_error
  | Expired => Err (ProtocolError (operation +:+ " timed out"))
  | Answered r => r
  end.

Definition receiver_request {A} (operation : ReceiverOperation) (value : option Json)
    (description : string) (k : Json -> Api A) : Api A :=
  CallJson (ReceiverRequest operation value) (fun outcome =>
    match await_json_response outcome description with
    | Ok v => k v
    | Err e => Return (Err e)
    | Panic => Return Panic
    end).

Definition send_fire {A} (ns destination : string) (value : Json) (k : Api A) : Api A :=
  CallFire (SendFire ns destination value) (fun outcome =>
    match outcome with
    | Undelivered | Abandoned => Return (Err control_closed_error)
    | Expired => Return (Err (ProtocolError "control write timed out"))
    | Answered (Ok _) => k
    | Answered (Err e) => Return (Err e)
    | Answered Panic => Return Panic
    end).

Definition product_info_request {A} (operation : ProductInfoOperation) (timeout_is_unsupported : bool)
    (k : option Json -> Api A) : Api A :=
  CallJson (ProductInfoRequest operation) (fun outcome =>
    match outcome with
    | Undelivered | Abandoned => Return (Err control_closed_error)
    | Expired =>
      if timeout_is_unsupported then k None
      else Return (Err (ProtocolError (ProductInfoOperation.message_type operation +:+ " timed out")))
    | Answered (Ok v) => k (Some v)
    | Answered (Err e) => Return (Err e)
    | Answered Panic => Return Panic
    end).

(** ** The methods *)

Definition require_authenticated_product_info (self : CastConnection) : Result Error unit :=
  match device_identity self with
  | None => Err (AuthenticationFailed "product information requires an authenticated receiver")
  | Some _ => Ok tt
  end.

Definition get_device_info (self : CastConnection) : Api AuthenticatedDeviceInfo :=
  match require_authenticated_product_info self with
  | Ok _ =>
    product_info_request DeviceInfo false (fun value =>
      Return (let? value := ok_or value (ProtocolError "GET_DEVICE_INFO returned no response") in
              parse_device_info value))
  | Err e => Return (Err e)
  | Panic => Return Panic
  end.

Definition get_eureka_info (self : CastConnection) : Api EurekaInfoOutcome :=
  match require_authenticated_product_info self with
  | Ok _ =>
    product_info_request EurekaInfo true (fun value =>
      match value with
      | None => Return (Ok EurekaUnsupported)
      | Some value => Return (parse_eureka_info value)
      end)
  | Err e => Return (Err e)
  | Panic => Return Panic
  end.

Definition availability_of (app : string) (value : Json) : Result Error AppAvailability :=
  let? availability := ok_or ((json_get "availability" value ≫= json_get app) ≫= as_str)
    (ProtocolError ("availability response omitted application " +:+ app)) in
  if decide (availability = "APP_AVAILABLE") then Ok Available
  else if decide (availability = "APP_UNAVAILABLE") then Ok Unavailable
  else Err (ProtocolError ("unknown application availability " +:+ availability)).

Definition get_app_availability (app : string) : Api AppAvailability :=
  receiver_request (Availability app) None "application availability"
    (fun value => Return (availability_of app value)).

Definition status : Api ReceiverStatus :=
  receiver_request Status None "receiver status" (fun value => Return (parse_receiver_status value)).

Definition set_volume (volume : Json) : Api ReceiverStatus :=
  receiver_request SetVolume
    (Some (JObject [("type", JString "SET_VOLUME"); ("volume", volume)])) "receiver volume update"
    (fun value => Return (parse_receiver_status value)).

(** [f64::is_finite] and [(0.0..=1.0).contains]. *)
Definition is_finite (f : spec_float) : bool :=
  match f with S754_zero _ | S754_finite _ _ _ => true | _ => false end.
Definition in_unit_interval (f : spec_float) : bool :=
  SFleb (S754_zero false) f && SFleb f (f64_of_int 1).

Definition set_volume_level (level : spec_float) : Api ReceiverStatus :=
  if negb (is_finite level) || negb (in_unit_interval level)
  then Return (Err (ProtocolError "receiver volume level must be finite and in 0.0..=1.0"))
  else set_volume (JObject [("level", JFloat level)]).

Definition set_muted (muted : bool) : Api ReceiverStatus := set_volume (JObject [("muted", JBool muted)]).

Definition connect_json : Json := JObject [("type", JString "CONNECT")].

Definition launch (app : string) : Api CastApp :=
  receiver_request (Launch app) None "application launch" (fun value =>
    match parse_receiver_status value with
    | Ok status =>
      match List.find (fun a => bool_decide (app_id a = app)) (applications status) with
      | None => Return (Err (AppLaunchFailed
          ("application " +:+ app +:+ " was absent from RECEIVER_STATUS")))
      | Some found => send_fire NS_CONNECTION (transport_id found) connect_json (Return (Ok found))
      end
    | Err e => Return (Err e)
    | Panic => Return Panic
    end).

Definition stop (app : CastApp) : Api unit :=
  send_fire NS_CONNECTION (transport_id app) close_json
    (receiver_request Stop
       (Some (JObject [("type", JString "STOP"); ("sessionId", JString (session_id app))]))
       "application stop" (fun _ => Return (Ok tt))).

Definition answer_of `{AnswerJson} (response : Json) : Result Error Answer :=
  if bool_decide ((json_get "result" response ≫= as_str) = Some "error") then
    let description := default "unknown receiver error"
      ((json_get "error" response ≫= json_get "description") ≫= as_str) in
    Err (NegotiationFailed ("receiver rejected OFFER: " +:+ description))
  else
    let? answer := ok_or (json_get "answer" response) (ProtocolError "ANSWER omitted the answer field") in
    match answer_from_value answer with
    | Ok a => Ok a
    | Err error => Err (ProtocolError ("parse ANSWER: " +:+ error))
    | Panic => Panic
    end.

Definition exchange_offer `{AnswerJson} (self : CastConnection) (offer : Offer) (app : CastApp) : Api Answer :=
  if match device_identity self with Some i => audio_only i | None => false end && Offer.has_video offer
  then Return (Err (NegotiationFailed
         "authenticated receiver credential is restricted to audio-only use"))
  else
    CallJson (SendOffer (transport_id app) (serialize_offer offer)) (fun outcome =>
      Return (let? response := await_json_response outcome "streaming OFFER" in answer_of response)).

(** [close]: the task's own result, however the wait for its acknowledgement
    ends; [inl] is a task that failed to join. *)
Definition close_command : ResponseSender -> ControlCommand := Close.
Definition close_result (task : string + Result Error unit) : Result Error unit :=
  match task with
  | inl error => Err (connection_error ("control task failed: " +:+ error))
  | inr result => result
  end.

(** ** Running a method *)

(** The method against the outcomes of its commands, in order: the commands it
    sent, and its result unless it still waits. *)
Fixpoint run_api {A} (p : Api A) (outcomes : list (Outcome Json + Outcome unit))
  : list (ResponseSender -> ControlCommand) * option (Result Error A) :=
  match p, outcomes with
  | Return r, _ => ([], Some r)
  | CallJson command k, inl o :: rest => let '(cs, r) := run_api (k o) rest in (command :: cs, r)
  | CallFire command k, inr o :: rest => let '(cs, r) := run_api (k o) rest in (command :: cs, r)
  | CallJson command _, _ | CallFire command _, _ => ([command], None)
  end.

(** Every command is one the task accepts and carries the sender it was made
    with; whatever the answers, the method does not panic. *)
Fixpoint api_ok {A} (p : Api A) : Prop :=
  match p with
  | Return r => r <> Panic
  | CallJson command k =>
    (forall x, command_ok (command x) /\ command_sender (command x) = x) /\
    forall o, o <> Answered Panic -> api_ok (k o)
  | CallFire command k =>
    (forall x, command_ok (command x) /\ command_sender (command x) = x) /\
    forall o, o <> Answered Panic -> api_ok (k o)
  end.

(** ** Lemmas *)

Lemma parse_receiver_status_no_panic value : parse_receiver_status value <> Panic.
Proof. unfold parse_receiver_status. by destruct (json_get "status" value ≫= as_object). Qed.

Lemma receiver_request_ok {A} operation value description (k : Json -> Api A) :
  (forall x, command_ok (ReceiverRequest operation value x)) -> (forall v, api_ok (k v)) ->
  api_ok (receiver_request operation value description k).
Proof.
  intros Hc Hk. split; [done|]. intros [| | |[v|e|]] Ho; cbn; by try apply Hk.
Qed.

Lemma send_fire_ok {A} ns destination value (k : Api A) : api_ok k -> api_ok (send_fire ns destination value k).
Proof. intros Hk. split; [done|]. by intros [| | |[v|e|]] Ho. Qed.

Lemma product_info_request_ok {A} operation unsupported (k : option Json -> Api A) :
  (forall v, api_ok (k v)) -> api_ok (product_info_request operation unsupported k).
Proof.
  intros Hk. split; [done|]. intros [| | |[v|e|]] Ho; cbn; try done. by destruct unsupported.
Qed.

Lemma bind_no_panic {E A B} (r : Result E A) (k : A -> Result E B) :
  no_panic r -> (forall a, no_panic (k a)) -> no_panic (bind r k).
Proof. unfold no_panic. destruct r; cbn; auto. Qed.

Lemma ok_or_no_panic {E A} (o : option A) (e : E) : no_panic (ok_or o e).
Proof. by destruct o. Qed.

Lemma optional_text_no_panic value field maximum : no_panic (optional_text_value value field maximum).
Proof.
  unfold optional_text_value. destruct value as [[]|]; cbn; try done. by repeat case_match.
Qed.
Lemma optional_field_no_panic value field maximum : no_panic (optional_text value field maximum).
Proof. apply optional_text_no_panic. Qed.
Lemma optional_u64_no_panic value field : no_panic (optional_u64 value field).
Proof. unfold optional_u64. case_match; [apply ok_or_no_panic|done]. Qed.
Lemma optional_object_no_panic value field : no_panic (optional_object_value value field).
Proof. by destruct value as [[]|]. Qed.
#[local] Hint Resolve ok_or_no_panic optional_text_no_panic optional_field_no_panic optional_u64_no_panic
  optional_object_no_panic : cast.

Lemma parse_device_info_no_panic value : no_panic (parse_device_info value).
Proof.
  apply bind_no_panic; [unfold require_device_info_message_type; by repeat case_match|]. intros _.
  apply bind_no_panic; [apply bind_no_panic; [auto with cast|intros t; auto with cast]|]. intros id.
  apply bind_no_panic.
  { apply bind_no_panic; [auto with cast|]. intros l. apply bind_no_panic; [auto with cast|].
    intros r. by repeat case_match. }
  intros caps. repeat (apply bind_no_panic; [auto with cast|]; intros ?). done.
Qed.

Lemma parse_eureka_info_no_panic value : no_panic (parse_eureka_info value).
Proof.
  unfold parse_eureka_info. case_bool_decide; [done|].
  apply bind_no_panic; [unfold require_message_type; by repeat case_match|]. intros _.
  apply bind_no_panic; [auto with cast|]. intros code. destruct (negb _); [done|].
  apply bind_no_panic; [apply optional_object_no_panic|]. intros data.
  apply bind_no_panic; [destruct data; [apply optional_object_no_panic|done]|]. intros [info|]; [|done].
  repeat (apply bind_no_panic; [auto with cast|]; intros ?). done.
Qed.

Lemma availability_of_no_panic app value : no_panic (availability_of app value).
Proof. apply bind_no_panic; [auto with cast|]. intros a. by repeat destruct (decide _). Qed.

Lemma await_json_no_panic outcome operation : outcome <> Answered Panic -> no_panic (await_json_response outcome operation).
Proof. by destruct outcome as [| | |[]]. Qed.

Lemma answer_of_no_panic `{AnswerJson} response : no_panic (answer_of response).
Proof.
  unfold answer_of. case_bool_decide; [done|]. apply bind_no_panic; [auto with cast|]. intros a.
  pose proof (answer_from_value_total a). by destruct (answer_from_value a).
Qed.

Lemma set_volume_ok volume : api_ok (set_volume volume).
Proof. apply receiver_request_ok; [done|]. intros v. apply parse_receiver_status_no_panic. Qed.

Lemma launch_ok app : api_ok (launch app).
Proof.
  apply receiver_request_ok; [done|]. intros v. pose proof (parse_receiver_status_no_panic v).
  destruct (parse_receiver_status v) as [status|e|]; [|done..].
  destruct (List.find _ _); [|done]. by apply send_fire_ok.
Qed.

(** ** Theorems *)

(** No use of the public methods can break the control task or the caller:
    every command any method sends is well formed (its payload can carry a
    request id, and operations that need their own payload have one), carries
    its own one-shot sender, and whatever comes of it - an answer, an error, a
    time-out, a closed task - the method returns without a panic. *)
Theorem client_commands_ok `{AnswerJson} self :
  api_ok (get_device_info self) /\ api_ok (get_eureka_info self) /\
  (forall app, api_ok (get_app_availability app)) /\ api_ok status /\
  (forall level, api_ok (set_volume_level level)) /\ (forall m, api_ok (set_muted m)) /\
  (forall app, api_ok (launch app)) /\ (forall app, api_ok (stop app)) /\
  (forall offer app, api_ok (exchange_offer self offer app)).
Proof.
  split_and!.
  - unfold get_device_info, require_authenticated_product_info. destruct (device_identity self); [|done].
    apply product_info_request_ok. intros v. apply bind_no_panic; [auto with cast|].
    apply parse_device_info_no_panic.
  - unfold get_eureka_info, require_authenticated_product_info. destruct (device_identity self); [|done].
    apply product_info_request_ok. intros [v|]; [apply parse_eureka_info_no_panic|done].
  - intros app. apply receiver_request_ok; [done|]. apply availability_of_no_panic.
  - apply receiver_request_ok; [done|]. apply parse_receiver_status_no_panic.
  - intros level. unfold set_volume_level. destruct (_ || _); [done|apply set_volume_ok].
  - intros m. apply set_volume_ok.
  - apply launch_ok.
  - intros app. apply send_fire_ok, receiver_request_ok; [done|]. by intros v.
  - intros offer app. unfold exchange_offer. destruct (_ && _); [done|]. split; [done|]. intros o Ho.
    apply bind_no_panic; [by apply await_json_no_panic|]. apply answer_of_no_panic.
Qed.

(** [launch] returns an application only when the receiver really reported
    it: the answer to the LAUNCH request was a receiver status in which the
    returned application is the first with the requested id, and a CONNECT to
    that application's transport was sent and acknowledged as written; nothing
    else was sent. *)
Theorem launch_spec app outcomes commands found :
  run_api (launch app) outcomes = (commands, Some (Ok found)) ->
  exists value status rest,
    outcomes = inl (Answered (Ok value)) :: inr (Answered (Ok tt)) :: rest /\
    parse_receiver_status value = Ok status /\ app_id found = app /\
    (exists before after, applications status = before ++ found :: after /\
       Forall (fun a => app_id a <> app) before) /\
    commands = [ReceiverRequest (Launch app) None; SendFire NS_CONNECTION (transport_id found) connect_json].
Proof.
  intros Hrun. unfold launch, receiver_request in Hrun.
  destruct outcomes as [|[o|o] rest]; cbn [run_api] in Hrun; [done| |done].
  destruct o as [| | |[value|e|]]; cbn [await_json_response run_api] in Hrun; try done.
  destruct (parse_receiver_status value) as [status|e|] eqn:Hs; [|done..].
  destruct (List.find _ _) as [found'|] eqn:Hf; [|done].
  destruct rest as [|[o|o] rest]; cbn [run_api send_fire] in Hrun; [done|done|].
  destruct o as [| | |[[]|e|]]; cbn [run_api] in Hrun; try done. injection Hrun as <- <-.
  exists value, status, rest. split; [done|]. split; [done|].
  assert (Hsplit : forall l, List.find (fun a => bool_decide (app_id a = app)) l = Some found' ->
    app_id found' = app /\ exists before after, l = before ++ found' :: after /\
      Forall (fun a => app_id a <> app) before).
  { induction l as [|a l IH]; [done|]. cbn. case_bool_decide as Ha.
    - intros [= ->]. split; [done|]. by exists [], l.
    - intros Hl. destruct (IH Hl) as (Happ & before & after & -> & Hb). split; [done|].
      exists (a :: before), after. split; [done|]. by constructor. }
  destruct (Hsplit _ Hf) as [Happ Hex]. split_and!; done.
Qed.

Definition demo_launch_status : Json :=
  JObject [("type", JString "RECEIVER_STATUS"); ("status", JObject [("applications", JArray [
    JObject [("appId", JString "other"); ("transportId", JString "t0")];
    JObject [("appId", JString APP_MIRRORING); ("transportId", JString "t1")]])])].

Lemma launch_spec_witness :
  exists value status rest,
    [inl (Answered (Ok demo_launch_status)); inr (Answered (Ok tt))] =
      inl (Answered (Ok value)) :: inr (Answered (Ok tt)) :: rest /\
    parse_receiver_status value = Ok status /\ app_id (MkCastApp APP_MIRRORING "t1" "" None) = APP_MIRRORING /\
    (exists before after, applications status = before ++ MkCastApp APP_MIRRORING "t1" "" None :: after /\
       Forall (fun a => app_id a <> APP_MIRRORING) before) /\
    [ReceiverRequest (Launch APP_MIRRORING) None; SendFire NS_CONNECTION "t1" connect_json] =
      [ReceiverRequest (Launch APP_MIRRORING) None; SendFire NS_CONNECTION "t1" connect_json].
Proof. apply (launch_spec APP_MIRRORING _ _ (MkCastApp APP_MIRRORING "t1" "" None)). reflexivity. Defined.
