(* ===== verification/OfferExchange.v ===== *)
(** * The exchange of an OFFER and its ANSWER ([src/src/control/mod.rs])

    [exchange_offer] and the control task together: from the caller's command,
    through the task's table of pending offers and whatever else the task does
    meanwhile, to the caller's result. *)

From stdpp Require Import strings gmap.
From S2P Require Import Prelude Constants Time Errors Text Json Codec Frame SyncSource Crypto Rtp Rtcp Stream EventLoop Offer Session CastProto CastFraming DeviceInfo Auth Control ControlFacts ControlProps ControlApi.

Section Exchange.
Context `{HashOrder} `{JsonText} {W : Type} `{ControlWriter W}.

(** The message the task writes for an OFFER. *)
Definition offer_message (destination : string) (sequence_number : Z) (offer : Json) : CastMessage :=
  json_message destination NS_WEBRTC
    (JObject [("type", JString "OFFER"); ("seqNum", JNumber sequence_number); ("offer", offer)]).

(** The application's ANSWER to the OFFER with number [q]. *)
Definition answers_number (q : Z) (source : string) (m : CastMessage) (value : Json) : Prop :=
  source_str m = source /\ namespace_str m = NS_WEBRTC /\ message_json m = Some value /\
  json_message_type value = Some "ANSWER" /\ json_u32 value "seqNum" = Some q.

(** A message that can settle that OFFER: from the application itself, an ANSWER
    with its number, an INVALID_REQUEST with its number or none, or a CLOSE. *)
Definition settles (q : Z) (source : string) (m : CastMessage) : Prop :=
  source_str m = source /\
  (namespace_str m = NS_CONNECTION \/
   (namespace_str m = NS_WEBRTC /\ exists v, message_json m = Some v /\
      (json_u32 v "seqNum" = Some q \/ json_u32 v "seqNum" = None))).

(** A round in which the caller still waits and nothing settles the OFFER. *)
Definition waits (q : Z) (source : string) (sender : ResponseSender) (round : Round) : Prop :=
  round_closed round sender = false /\ forall m, round_input round = Incoming (Ok m) -> ~ settles q source m.

Lemma retain_offer closed s q p :
  pending_offers s !! q = Some p -> closed (po_sender p) = false ->
  pending_offers (retain_pending closed s) !! q = Some p.
Proof. intros Hq Hc. unfold retain_pending. cbn. by apply map_lookup_filter_Some. Qed.

Lemma remove_each_keeps {T} (respond : T -> Effect) ids (m : gmap Z T) q :
  q ∉ ids -> fst (remove_each respond ids m) !! q = m !! q.
Proof.
  revert m. induction ids as [|id ids IH]; intros m Hq; [done|]. cbn [remove_each].
  rewrite not_elem_of_cons in Hq. destruct Hq as [Hne Hq]. destruct (m !! id).
  - specialize (IH (delete id m) Hq). destruct (remove_each _ ids (delete id m)). cbn in *.
    by rewrite IH, lookup_delete_ne.
  - by apply IH.
Qed.

Lemma complete_offer_keeps value source pending q p :
  pending !! q = Some p -> po_destination p <> source \/ json_u32 value "seqNum" <> Some q ->
  fst (complete_offer value source pending) !! q = Some p.
Proof.
  intros Hq Hn. unfold complete_offer. destruct (json_u32 value "seqNum") as [n|]; [|done].
  destruct (pending !! n) as [r|] eqn:Hr; [|done]. case_bool_decide as Hd; [|done]. cbn.
  rewrite lookup_delete_ne; [done|]. intros ->. destruct Hn as [Hn|Hn]; congruence.
Qed.

Lemma fail_offer_keeps value source pending detail q p :
  pending !! q = Some p ->
  po_destination p <> source \/ (json_u32 value "seqNum" <> Some q /\ json_u32 value "seqNum" <> None) ->
  fst (fail_offer value source pending detail) !! q = Some p.
Proof.
  intros Hq Hn. unfold fail_offer.
  set (number := match json_u32 value "seqNum" with Some n => Some n | None => _ end).
  assert (Hnum : po_destination p <> source \/ number <> Some q).
  { destruct Hn as [Hn|[Hn Hs]]; [by left|right]. subst number. by destruct (json_u32 value "seqNum"). }
  destruct number as [n|]; [|done]. destruct (pending !! n) as [r|] eqn:Hr; [|done].
  case_bool_decide as Hd; [|done]. cbn. rewrite lookup_delete_ne; [done|]. intros ->.
  destruct Hnum as [Hn'|Hn']; congruence.
Qed.

Lemma fail_offers_keeps pending destination detail q p :
  pending !! q = Some p -> po_destination p <> destination ->
  fst (fail_offers_for_destination pending destination detail) !! q = Some p.
Proof.
  intros Hq Hd. unfold fail_offers_for_destination. rewrite remove_each_keeps; [done|]. intros Hin.
  pose proof (selected_lookup (fun p => bool_decide (po_destination p = destination)) _ _ _ Hin Hq) as Hf.
  by apply bool_decide_eq_true in Hf.
Qed.

Lemma allocate_id_free {T} next (pending : gmap Z T) id next' :
  allocate_id next pending = Ok (id, next') -> pending !! id = None.
Proof.
  unfold allocate_id. generalize (S (S (size pending))). intros fuel. revert next.
  induction fuel as [|fuel IH]; intros next; cbn [allocate_loop]; [done|].
  destruct (negb (next =? 0)); cbn [andb]; [|apply IH]. case_bool_decide; [|apply IH]. by intros [= <- _].
Qed.

(** [write_or_break] leaves the tables alone. *)
Lemma write_or_break_offers what w s destination ns value w' s' flow :
  write_or_break what w s destination ns value = (w', s', flow) -> pending_offers s' = pending_offers s.
Proof.
  unfold write_or_break. destruct (write_json_message_timed _ _ _ _ _) as [[w1 es] r]. by intros [= _ <- _].
Qed.

Lemma dispatch_receiver_offers value t s s' :
  dispatch_receiver value t s = Ok s' -> pending_offers s' = pending_offers s.
Proof.
  unfold dispatch_receiver. destruct (decide _).
  { intros (status & _ & Hd)%bind_Ok. destruct (publish_receiver_status _ _), (complete_receiver_status _ _).
    by simplify_eq. }
  destruct (decide _); [destruct (complete_receiver_request _ _ _); by intros [= <-]|].
  destruct (decide _); [|by intros [= <-]]. destruct (fail_receiver_request _ _ _). by intros [= <-].
Qed.

Lemma dispatch_keeps m s s' q p :
  pending_offers s !! q = Some p -> ~ settles q (po_destination p) m -> dispatch_message m s = Ok s' ->
  pending_offers s' !! q = Some p.
Proof.
  intros Hq Hn. unfold dispatch_message. destruct (ProductInfoOperation.from_namespace _).
  { intros ([pending es] & _ & Hs)%bind_Ok. by injection Hs as <-. }
  unfold dispatch_json_message. destruct (_ && _) eqn:Hns; [by intros [= <-]|].
  destruct (payload m) as [t|] eqn:Hp; [|by intros [= <-]].
  destruct (from_str (of_utf8 t)) as [v|e|] eqn:Hv; [|done..].
  destruct (decide (namespace_str m = NS_RECEIVER)) as [|Hr].
  { destruct (negb (bool_decide (source_str m = RECEIVER_ID))); [by intros [= <-]|]. by intros ->%dispatch_receiver_offers. }
  assert (Hw : namespace_str m = NS_WEBRTC).
  { rewrite bool_decide_eq_false_2 in Hns by done. cbn in Hns. by case_bool_decide. }
  assert (Hv' : po_destination p <> source_str m \/
    (json_u32 v "seqNum" <> Some q /\ json_u32 v "seqNum" <> None)).
  { destruct (decide (po_destination p = source_str m)) as [Hd|]; [right|by left].
    split; intros Hs; apply Hn; (split; [done|right; split; [done|]]); exists v;
      (split; [unfold message_json; by rewrite Hp, Hv|auto]). }
  intros [= <-]. unfold dispatch_webrtc. destruct (decide _).
  - pose proof (complete_offer_keeps v (source_str m) (pending_offers s) q p Hq ltac:(tauto)) as Hk.
    by destruct (complete_offer _ _ _).
  - destruct (decide _); [|done].
    pose proof (fail_offer_keeps v (source_str m) (pending_offers s)
      (receiver_error_description v (default "" (json_message_type v))) q p Hq Hv') as Hk.
    by destruct (fail_offer _ _ _ _).
Qed.

Lemma on_incoming_keeps now incoming w s w' s' q p :
  pending_offers s !! q = Some p ->
  (forall m, incoming = Ok m -> ~ settles q (po_destination p) m) ->
  on_incoming now incoming w s = (w', s', Continue) -> pending_offers s' !! q = Some p.
Proof.
  intros Hq Hn. unfold on_incoming. destruct incoming as [m|e|]; [|by destruct (decide _)|done].
  specialize (Hn m eq_refl). destruct (decide _).
  { unfold on_heartbeat. destruct (message_is_type m "PING"); cbn [orb].
    - by intros ->%write_or_break_offers.
    - destruct (message_is_type m "PONG"); by intros [= _ <-]. }
  destruct (bool_decide (namespace_str m = NS_CONNECTION) && _) eqn:Hc.
  { apply andb_prop in Hc as [Hc%bool_decide_eq_true _]. unfold on_close_message. destruct (decide _); [done|].
    pose proof (fail_offers_keeps (pending_offers s) (source_str m) "application transport closed" q p Hq) as Hk.
    destruct (fail_offers_for_destination _ _ _). intros [= _ <-]. apply Hk. intros Hd.
    apply Hn. split; [done|by left]. }
  destruct (dispatch_message m s) as [s1|e|] eqn:Hd; [|done..]. intros [= _ <-]. by eapply dispatch_keeps.
Qed.

Lemma on_command_keeps command w s w' s' q p :
  pending_offers s !! q = Some p -> on_command command w s = (w', s', Continue) ->
  pending_offers s' !! q = Some p.
Proof.
  intros Hq. destruct command as [[op value x|op x|dest offer x|ns dest value x|x]|]; cbn [on_command].
  - unfold on_receiver_request. destruct (allocate_id _ _) as [[id next]|e|]; [|done..].
    destruct (bind _ _); [|done..]. by intros ->%write_or_break_offers.
  - unfold on_product_info_request. destruct (allocate_id _ _) as [[id next]|e|]; [|done..].
    destruct (json_set _ _ _); [|done..]. by intros ->%write_or_break_offers.
  - unfold on_send_offer. destruct (allocate_id _ _) as [[id next]|e|] eqn:Ha; [|done..].
    apply allocate_id_free in Ha. intros ->%write_or_break_offers. cbn.
    rewrite lookup_insert_ne; [done|]. congruence.
  - unfold on_send_fire. destruct (write_json_message_timed _ _ _ _ _) as [[w1 es] [u|e|]]; [|done..].
    by intros [= _ <-].
  - unfold on_close. destruct (send_teardown _ _) as [[w1 es] [u|e|]]; done.
  - unfold on_close. destruct (send_teardown _ _) as [[w1 es] [u|e|]]; done.
Qed.

(** An OFFER stays pending through every round that does not settle it. *)
Lemma iteration_keeps round w s w' s' q p :
  pending_offers s !! q = Some p -> waits q (po_destination p) (po_sender p) round ->
  control_iteration round w s = (w', s', Continue) -> pending_offers s' !! q = Some p.
Proof.
  intros Hq [Hc Hn]. unfold control_iteration. pose proof (retain_offer (round_closed round) s q p Hq Hc) as Hr.
  destruct (round_input round) as [m|c|].
  - intros Hi. eapply on_incoming_keeps; [done| |exact Hi]. intros m' ->. by apply Hn.
  - by apply on_command_keeps.
  - unfold on_heartbeat_tick. destruct (_ <=? _); [done|]. by intros ->%write_or_break_offers.
Qed.

Lemma run_keeps rounds w s w' s' q p :
  pending_offers s !! q = Some p -> Forall (waits q (po_destination p) (po_sender p)) rounds ->
  control_run rounds w s = (w', s', [], None) -> pending_offers s' !! q = Some p.
Proof.
  revert w s. induction rounds as [|r rounds IH]; intros w s Hq Hr; cbn [control_run]; [by intros [= _ <-]|].
  apply Forall_cons_iff in Hr as [Hr Hrest]. destruct (control_iteration r w s) as [[w1 s1] [| |]] eqn:Hi; [|done..].
  apply IH; [by eapply iteration_keeps|done].
Qed.

(** The ANSWER completes it. *)
Lemma answer_completes closed t m value w s q p :
  pending_offers s !! q = Some p -> closed (po_sender p) = false ->
  answers_number q (po_destination p) m value ->
  exists s', control_iteration (MkRound closed t (Incoming (Ok m))) w s = (w, s', Continue) /\
    pending_offers s' !! q = None /\
    effects s' = effects (retain_pending closed s) ++ [Respond (po_sender p) (Ok value)].
Proof.
  intros Hq Hc (Hsrc & Hns & Hjson & Htype & Hseq).
  pose proof (retain_offer closed s q p Hq Hc) as Hr. set (s1 := retain_pending closed s) in *.
  exists (emit [Respond (po_sender p) (Ok value)] (s1 <| pending_offers := delete q (pending_offers s1) |>)).
  split; [|split; [apply lookup_delete_eq|done]].
  unfold control_iteration. cbn [round_input round_closed round_now]. fold s1.
  assert (Hd : dispatch_message m s1 =
    Ok (emit [Respond (po_sender p) (Ok value)] (s1 <| pending_offers := delete q (pending_offers s1) |>))).
  { unfold dispatch_message, dispatch_json_message. rewrite Hns. cbn [bool_decide]. unfold message_json in Hjson.
    change (ProductInfoOperation.from_namespace NS_WEBRTC) with (@None ProductInfoOperation). cbv beta iota.
    destruct (_ && _) eqn:E; [vm_compute in E; done|].
    destruct (payload m) as [text|]; [|done]. destruct (from_str (of_utf8 text)) as [v|e|]; [|done..].
    injection Hjson as ->. destruct (decide (NS_WEBRTC = NS_RECEIVER)) as [Habs|_]; [done|].
    unfold dispatch_webrtc, complete_offer. rewrite Htype. cbn [default from_option id].
    rewrite decide_True, Hseq, Hr by done. by rewrite bool_decide_eq_true_2 by congruence. }
  unfold on_incoming. rewrite Hd, Hns. destruct (decide (NS_WEBRTC = NS_HEARTBEAT)) as [Habs|_]; [done|].
  by rewrite (bool_decide_eq_false_2 (NS_WEBRTC = NS_CONNECTION)).
Qed.

(** The command puts the OFFER on the wire under a fresh number. *)
Lemma offer_sent closed t destination offer sender w s :
  control_ok s -> Z.of_nat (size (pending_offers s)) < u32_max ->
  exists q next, allocate_id (next_sequence_number s) (pending_offers (retain_pending closed s)) = Ok (q, next) /\
    1 <= q <= u32_max /\ pending_offers (retain_pending closed s) !! q = None /\
    (forall w1, write_frame w (FramedWriter.write_message (offer_message destination q offer)) = (w1, WriteDone) ->
     exists s1, control_iteration (MkRound closed t (Received (Some (SendOffer destination offer sender)))) w s =
         (w1, s1, Continue) /\
       pending_offers s1 !! q = Some (MkPendingOffer destination sender) /\
       effects s1 = effects (retain_pending closed s) ++ [Write (offer_message destination q offer)]).
Proof.
  intros Hok Hsize. unfold control_iteration. cbn [round_input round_closed on_command].
  assert (Hsize' : (size (pending_offers (retain_pending closed s)) <= size (pending_offers s))%nat).
  { unfold retain_pending. cbn. apply map_subseteq_size, map_filter_subseteq. }
  unfold on_send_offer.
  destruct (allocate_id_fresh (next_sequence_number (retain_pending closed s)) (pending_offers (retain_pending closed s)))
    as (q & next & Ha & Hq & Hfree & _); [apply (co_sequence s Hok)|lia|].
  exists q, next. split_and!; [done|lia|lia|done|]. intros w1 Hw. rewrite Ha. cbv beta iota zeta.
  unfold write_or_break, write_json_message_timed. fold (json_message destination NS_WEBRTC
    (JObject [("type", JString "OFFER"); ("seqNum", JNumber q); ("offer", offer)])).
  fold (offer_message destination q offer). rewrite Hw. eexists. split; [reflexivity|]. cbn. split; [apply lookup_insert_eq|done].
Qed.

End Exchange.

(** C8: The exchange of an OFFER and an ANSWER, end to end.  Whatever the control
    task did before, the command [exchange_offer] sends makes it write one OFFER
    to the application's transport under a sequence number no pending offer
    has.  Through any rounds after that - other commands, heartbeats, messages
    of other peers, answers to other offers - the OFFER stays pending as long as
    the caller waits and the application sends nothing that settles it; the
    application's ANSWER with its number is then delivered to this caller, once,
    and the method returns what that ANSWER says. *)
Theorem offer_exchange `{HashOrder} `{JsonText} `{AnswerJson} {W} `{ControlWriter W}
    self offer app now before (w w0 : W) s0 closed t sender :
  match device_identity self with Some i => audio_only i | None => false end && Offer.has_video offer = false ->
  Forall (fun r => input_ok (round_input r)) before -> Z.of_nat (length before) < u32_max ->
  control_run before w (control_init now) = (w0, s0, [], None) ->
  let command := SendOffer (transport_id app) (serialize_offer offer) in
  run_api (exchange_offer self offer app) [] = ([command], None) /\
  exists q next, allocate_id (next_sequence_number s0) (pending_offers (retain_pending closed s0)) = Ok (q, next) /\
    1 <= q <= u32_max /\ pending_offers (retain_pending closed s0) !! q = None /\
    let message := offer_message (transport_id app) q (serialize_offer offer) in
    (forall w1, write_frame w0 (FramedWriter.write_message message) = (w1, WriteDone) ->
     exists s1, control_iteration (MkRound closed t (Received (Some (command sender)))) w0 s0 = (w1, s1, Continue) /\
       effects s1 = effects (retain_pending closed s0) ++ [Write message] /\
       forall middle w2 s2, control_run middle w1 s1 = (w2, s2, [], None) ->
         Forall (waits q (transport_id app) sender) middle ->
       forall closed' t' m value, closed' sender = false -> answers_number q (transport_id app) m value ->
       exists s3, control_iteration (MkRound closed' t' (Incoming (Ok m))) w2 s2 = (w2, s3, Continue) /\
         effects s3 = effects (retain_pending closed' s2) ++ [Respond sender (Ok value)] /\
         pending_offers s3 !! q = None /\
         run_api (exchange_offer self offer app) [inl (Answered (Ok value))] = ([command], Some (answer_of value))).
Proof.
  intros Hvideo Hi Hlen Hrun command. unfold exchange_offer. rewrite Hvideo. split; [done|].
  destruct (control_run_spec [] before w (control_init now) w0 s0 [] None (between_init now) Hi)
    as (handled & Hh & _ & [Hok Hacc _ _]); [cbn; lia|done|]. rewrite app_nil_r in Hh. subst handled.
  assert (Hsize : Z.of_nat (size (pending_offers s0)) < u32_max).
  { pose proof (sizes_bounded s0) as (_ & _ & Hs). pose proof (submitted_length before) as Hb.
    change (submitted before ≡ₚ accounted s0) in Hacc. apply Permutation_length in Hacc. lia. }
  destruct (offer_sent closed t (transport_id app) (serialize_offer offer) sender w0 s0 Hok Hsize)
    as (q & next & Ha & Hq & Hfree & Hsent).
  exists q, next. split_and!; [done|lia|lia|done|]. cbv zeta. intros w1 Hw. destruct (Hsent w1 Hw) as (s1 & Hstep & Hp & He).
  exists s1. split_and!; [done|done|]. intros middle w2 s2 Hmid Hwaits closed' t' m value Hc Hans.
  pose proof (run_keeps middle w1 s1 w2 s2 q _ Hp Hwaits Hmid) as Hp2.
  destruct (answer_completes closed' t' m value w2 s2 q _ Hp2 Hc Hans) as (s3 & Hs3 & Hgone & He3).
  by exists s3.
Qed.

(** A receiver whose application answers the first OFFER, after a heartbeat and
    an answer of somebody else. *)
Module ToyExchange.
Definition toy_answer (n : Z) : Json :=
  JObject [("type", JString "ANSWER"); ("seqNum", JNumber n); ("result", JString "error")].
Definition toy_parse (text : string) : Result string Json :=
  if decide (text = "answer") then Ok (toy_answer 1) else Err "expected value".
#[local] Instance toy_json : JsonText.
Proof.
  refine {| from_str := toy_parse; json_to_string := fun _ => "{}" |}.
  intros text. unfold toy_parse. by destruct (decide _).
Defined.
#[local] Instance toy_answers : AnswerJson.
Proof. refine {| answer_from_value := fun _ => Err "no answer" |}. done. Defined.

Definition toy_app : CastApp := MkCastApp APP_MIRRORING "web-1" "s-1" None.
Definition toy_connection : CastConnection := MkConnection (V4 0 8009) None.
Definition toy_offer : Offer := MkOffer Mirroring [].
Definition answer_from (source : string) : CastMessage :=
  MkCastMessage (utf8 source) (utf8 SENDER_ID) (utf8 NS_WEBRTC) (PString (utf8 "answer")).
Definition toy_middle : list Round :=
  [demo_round 1 HeartbeatTick; demo_round 2 (Incoming (Ok (answer_from "web-2")))].

Lemma offer_exchange_witness :
  exists s3, Respond 8%nat (Ok (toy_answer 1)) ∈ effects s3 /\
    snd (run_api (exchange_offer toy_connection toy_offer toy_app) [inl (Answered (Ok (toy_answer 1)))]) =
      Some (Err (NegotiationFailed "receiver rejected OFFER: unknown receiver error")).
Proof.
  destruct (offer_exchange toy_connection toy_offer toy_app 0 [] (@nil bytes) [] (control_init 0) (fun _ => false) 0 8%nat
    eq_refl) as (_ & q & next & Ha & _ & _ & Hq); [by constructor|reflexivity|reflexivity|].
  assert (q = 1) as -> by (vm_compute in Ha; congruence).
  destruct (Hq [FramedWriter.write_message (offer_message "web-1" 1 (serialize_offer toy_offer))] eq_refl)
    as (s1 & Hstep & _ & Hrest).
  assert (Hmid : exists w2 s2, control_run toy_middle
    [FramedWriter.write_message (offer_message "web-1" 1 (serialize_offer toy_offer))] s1 = (w2, s2, [], None)).
  { vm_compute in Hstep. injection Hstep as <-. vm_compute. by eexists _, _. }
  destruct Hmid as (w2 & s2 & Hmid).
  destruct (Hrest _ _ _ Hmid) with (closed' := fun _ : ResponseSender => false) (t' := 3)
    (m := answer_from "web-1") (value := toy_answer 1) as (s3 & _ & He & _ & Hapi).
  - constructor; [|constructor; [|constructor]]; split; try done. intros m [= <-]. by intros [? _].
  - done.
  - by split_and!.
  - exists s3. rewrite He, Hapi. split; [set_solver|reflexivity].
Defined.
End ToyExchange.
