(* ===== verification/RedScreenSetup.v ===== *)
(** * How the red-screen program gets its session ([src/examples/red_screen.rs])

    The requests [main] makes on the control connection before it streams: is
    the mirroring application there, launch it, exchange the OFFER.  They are
    the methods of [ControlApi], one after the other. *)

From stdpp Require Import strings.
From S2P Require Import Prelude Constants Time Errors Text Json Codec Frame SyncSource Crypto Rtp Rtcp Stream EventLoop Offer Session CastProto CastFraming DeviceInfo Auth Control ControlFacts ControlApi.

(** A method after a method: an error ends both. *)
Fixpoint api_bind {A B} (p : Api A) (k : A -> Api B) : Api B :=
  match p with
  | Return (Ok a) => k a
  | Return (Err e) => Return (Err e)
  | Return Panic => Return Panic
  | CallJson command f => CallJson command (fun o => api_bind (f o) k)
  | CallFire command f => CallFire command (fun o => api_bind (f o) k)
  end.

(** [None]: the receiver does not offer the mirroring application. *)
Definition negotiate `{AnswerJson} (connection : CastConnection) (offer : Offer) : Api (option (CastApp * Answer)) :=
  api_bind (get_app_availability APP_MIRRORING) (fun availability =>
    match availability with
    | Unavailable => Return (Ok None)
    | Available =>
      api_bind (launch APP_MIRRORING) (fun app =>
        api_bind (exchange_offer connection offer app) (fun answer => Return (Ok (Some (app, answer)))))
    end).

(** ** Lemmas *)

Lemma api_bind_ok {A B} (p : Api A) (k : A -> Api B) : api_ok p -> (forall a, api_ok (k a)) -> api_ok (api_bind p k).
Proof.
  intros Hp Hk. induction p as [[a|e|]|command f IH|command f IH]; cbn in *; [apply Hk|done|done|..];
    destruct Hp as [Hc Hf]; split; auto.
Qed.

(** The whole negotiation sends only commands the task accepts, and does not
    panic whatever the receiver answers. *)
Lemma negotiate_ok `{AnswerJson} connection offer : api_ok (negotiate connection offer).
Proof.
  destruct (client_commands_ok connection) as (_ & _ & Ha & _ & _ & _ & Hl & _ & He).
  apply api_bind_ok; [apply Ha|intros [|]; [|done]]. apply api_bind_ok; [apply Hl|intros app].
  apply api_bind_ok; [apply He|done].
Qed.

(** The requests of a negotiation, in the order they are made. *)
Definition requests (offer : Offer) (app : CastApp) : list (ResponseSender -> ControlCommand) :=
  [ReceiverRequest (Availability APP_MIRRORING) None; ReceiverRequest (Launch APP_MIRRORING) None;
   SendFire NS_CONNECTION (transport_id app) connect_json; SendOffer (transport_id app) (serialize_offer offer)].

(** What is left of a negotiation after its first [n] requests. *)
Section Order.
Context `{AnswerJson} (connection : CastConnection) (offer : Offer).

Definition ordered (n : nat) (app : CastApp)
    (run : list (ResponseSender -> ControlCommand) * option (Result Error (option (CastApp * Answer)))) : Prop :=
  fst run `prefix_of` drop n (requests offer app) /\
  (forall app' answer, snd run = Some (Ok (Some (app', answer))) ->
     app' = app /\ app_id app = APP_MIRRORING /\ fst run = drop n (requests offer app)) /\
  (match device_identity connection with Some i => audio_only i | None => false end = true ->
   Offer.has_video offer = true -> (n + length (fst run) < 4)%nat).

Lemma ordered_stop n app r :
  (n < 4)%nat -> (forall p, r <> Some (Ok (Some p))) -> ordered n app ([], r).
Proof. intros Hn Hr. split_and!; cbn; [apply prefix_nil|by intros ? ? ?%Hr|lia]. Qed.

Lemma ordered_cons n app c cs r :
  requests offer app !! n = Some c -> ordered (S n) app (cs, r) -> ordered n app (c :: cs, r).
Proof.
  intros Hc (H1 & H2 & H3). cbn in *. assert (Hd : drop n (requests offer app) = c :: drop (S n) (requests offer app)) by (by apply drop_S).
  split_and!; cbn.
  - rewrite Hd. by apply prefix_cons.
  - intros app' answer Hr. destruct (H2 _ _ Hr) as (-> & Ha & ->). by rewrite Hd.
  - intros Ha Hv. specialize (H3 Ha Hv). lia.
Qed.

Lemma exchange_ordered app outcomes :
  app_id app = APP_MIRRORING ->
  ordered 3 app (run_api (api_bind (exchange_offer connection offer app) (fun answer => Return (Ok (Some (app, answer))))) outcomes).
Proof.
  intros Happ. unfold exchange_offer. destruct (_ && _) eqn:Hao; [by apply ordered_stop; [lia|]|].
  assert (Hlast : forall r, (forall app' answer, r = Some (Ok (Some (app', answer))) -> app' = app) ->
    ordered 3 app ([SendOffer (transport_id app) (serialize_offer offer)], r)).
  { intros r Hr. split_and!; cbn; [done| |intros Ha Hv; by rewrite Ha, Hv in Hao]. intros app' answer Hs. by rewrite (Hr _ _ Hs). }
  destruct outcomes as [|[o|o] rest]; cbn; [by apply Hlast| |by apply Hlast].
  destruct (bind _ _) as [answer|e|]; cbn; apply Hlast; [|done..]. intros app' answer' [= -> _]. done.
Qed.

Lemma launch_ordered k outcomes :
  (forall app outs, app_id app = APP_MIRRORING -> ordered 3 app (run_api (k app) outs)) ->
  exists app, ordered 1 app (run_api (api_bind (launch APP_MIRRORING) k) outcomes).
Proof.
  intros Hk. set (none := MkCastApp "" "" "" None).
  assert (Hone : forall r, (forall p, r <> Some (Ok (Some p))) -> exists app, ordered 1 app ([ReceiverRequest (Launch APP_MIRRORING) None], r)).
  { intros r Hr. exists none. apply ordered_cons; [done|]. by apply ordered_stop; [lia|]. }
  unfold launch, receiver_request. destruct outcomes as [|[o|o] rest]; cbn [api_bind run_api]; [by apply Hone| |by apply Hone].
  destruct (await_json_response o _) as [v|e|]; [|by apply Hone..].
  destruct (parse_receiver_status v) as [st|e|]; [|by apply Hone..].
  destruct (List.find _ _) as [app|] eqn:Hf; [|by apply Hone]. apply find_some in Hf as [_ Happ%bool_decide_eq_true].
  exists app. unfold send_fire. cbn [api_bind].
  assert (Htwo : forall r, (forall p, r <> Some (Ok (Some p))) ->
    ordered 1 app ([ReceiverRequest (Launch APP_MIRRORING) None; SendFire NS_CONNECTION (transport_id app) connect_json], r)).
  { intros r Hr. apply ordered_cons; [done|]. apply ordered_cons; [done|]. by apply ordered_stop; [lia|]. }
  destruct rest as [|[o'|o'] rest]; cbn [run_api]; [by apply Htwo..|].
  destruct o' as [| | |[u|e|]]; cbn [api_bind run_api]; try by apply Htwo.
  specialize (Hk app rest Happ). destruct (run_api (k app) rest) as [cs r].
  apply ordered_cons; [done|]. by apply ordered_cons.
Qed.
End Order.

(** Whatever the receiver answers, the requests made are a first part of these,
    for one application; a session is negotiated only after all of them, with an
    application that is the mirroring application, and a receiver whose
    credential is for audio only is never sent the OFFER. *)
Theorem negotiate_order `{AnswerJson} connection offer outcomes :
  let '(commands, result) := run_api (negotiate connection offer) outcomes in
  exists app, commands `prefix_of` requests offer app /\
    (forall app' answer, result = Some (Ok (Some (app', answer))) ->
       app' = app /\ app_id app = APP_MIRRORING /\ commands = requests offer app) /\
    (match device_identity connection with Some i => audio_only i | None => false end = true ->
     Offer.has_video offer = true -> (length commands < 4)%nat).
Proof.
  set (none := MkCastApp "" "" "" None).
  assert (Hone : forall r, (forall p, r <> Some (Ok (Some p))) ->
    exists app, ordered connection offer 0 app ([ReceiverRequest (Availability APP_MIRRORING) None], r)).
  { intros r Hr. exists none. apply ordered_cons; [done|]. by apply ordered_stop; [lia|]. }
  assert (Hgo : exists app, ordered connection offer 0 app (run_api (negotiate connection offer) outcomes)).
  { unfold negotiate, get_app_availability, receiver_request. destruct outcomes as [|[o|o] rest]; cbn [api_bind run_api]; [by apply Hone| |by apply Hone].
    destruct (await_json_response o _) as [v|e|]; [|by apply Hone..]. cbn [api_bind].
    destruct (availability_of _ _) as [[|]|e|]; [|by apply Hone..].
    match goal with |- context [api_bind (launch APP_MIRRORING) ?k] =>
      destruct (launch_ordered connection offer k rest) as [app Ha]; [intros app outs; apply exchange_ordered|] end.
    exists app. destruct (run_api _ rest) as [cs r]. by apply ordered_cons. }
  destruct Hgo as [app Ha]. destruct (run_api _ _) as [cs r]. exists app. exact Ha.
Qed.
