(* ===== verification/Tls.v ===== *)
(** * TLS configuration ([src/src/tls.rs]) and the dialler

    Receivers present self-signed certificates: the verifier accepts any of
    them and checks the handshake signatures.  [RustlsProvider] stands for the
    signature checks of rustls, [Dialer] for TCP and the TLS handshake. *)

From stdpp Require Import strings.
From S2P Require Import Prelude Errors EventLoop Session.

Class RustlsProvider := {
  DigitallySignedStruct : Type;
  verify_tls12 : bytes -> bytes -> DigitallySignedStruct -> string + unit;
  verify_tls13 : bytes -> bytes -> DigitallySignedStruct -> string + unit;
  supported_schemes : list Z;
}.

(** The trait a TLS client asks about the server's certificate: the leaf, the
    intermediates, the server's name, the OCSP response and the time. *)
Record ServerCertVerifier `{RustlsProvider} := MkVerifier {
  verify_server_cert : bytes -> list bytes -> IpAddr -> bytes -> Z -> string + unit;
  verify_tls12_signature : bytes -> bytes -> DigitallySignedStruct -> string + unit;
  verify_tls13_signature : bytes -> bytes -> DigitallySignedStruct -> string + unit;
  supported_verify_schemes : list Z;
}.

Definition SelfSignedCertificateVerifier `{RustlsProvider} : ServerCertVerifier := MkVerifier _
  (fun _ _ _ _ _ => inr tt)
  (fun message certificate signature => verify_tls12 message certificate signature)
  (fun message certificate signature => verify_tls13 message certificate signature)
  supported_schemes.

(** What becomes of an awaited operation: it fails, it completes, or it is
    still pending when the time allowed is over. *)
Inductive Attempt (A : Type) := Pending | Failed (error : string) | Completed (a : A).
Arguments Pending {A}.
Arguments Failed {A} error.
Arguments Completed {A} a.

(** An established TLS stream: the certificates the peer presented and the two
    directions. *)
Record TlsStream (Rd Wr : Type) := MkTlsStream {
  peer_certificates : option (list bytes);
  read_half : Rd;
  write_half : Wr;
}.
Arguments MkTlsStream {Rd Wr} peer_certificates read_half write_half.
Arguments peer_certificates {Rd Wr} t.
Arguments read_half {Rd Wr} t.
Arguments write_half {Rd Wr} t.

Class Dialer `{RustlsProvider} (N Rd Wr : Type) := {
  TcpStream : Type;
  tcp_connect : N -> SocketAddr -> N * Attempt TcpStream;
  tls_connect : N -> ServerCertVerifier -> IpAddr -> TcpStream -> N * Attempt (TlsStream Rd Wr);
}.
