(* ===== verification/AndroidFraming.v ===== *)
(** * Framing of the Android TV connections ([src/src/android_tv/framing.rs])

    Protobuf messages behind a varint length.  As on the Cast control channel
    the reader keeps its progress, byte by byte of the length and chunk by
    chunk of the body, so that a read dropped at an [await] can be resumed. *)

From stdpp Require Import strings.
From S2P Require Import Prelude Text Errors CastProto Protobuf CastFraming.

Definition MAX_FRAME_SIZE : Z := 64 * 1024.

Record VarintReader := MkVarintReader {
  vr_length : Z;
  vr_length_shift : Z;
  vr_body : bytes;
  vr_body_filled : nat;
  vr_body_expected : nat;
}.
#[export] Instance VarintReader_eta : Eta VarintReader := fun s =>
  MkVarintReader (vr_length s) (vr_length_shift s) (vr_body s) (vr_body_filled s) (vr_body_expected s).

Module VarintReader.
Definition new : VarintReader := MkVarintReader 0 0 [] 0 0.

Section Read.
Context {R : Type} `{AsyncRead R}.

(** The [loop] of the length, one byte at a time; ten rounds reach the shift
    that ends it. *)
Fixpoint read_length (fuel : nat) (r : R) (self : VarintReader) : R * VarintReader * Poll unit :=
  match fuel with
  | O => (r, self, Ready Panic)
  | S fuel' =>
    match read r 1 with
    | (r, ReadErr e) => (r, self, Ready (Err e))
    | (r, ReadCancelled) => (r, self, Dropped)
    | (r, ReadOk []) =>
      (r, self, Ready (Err (eof "connection closed while reading protobuf frame length")))
    | (r, ReadOk (value :: _)) =>
      if (vr_length_shift self =? 63) && (1 <? value)
      then (r, self, Ready (Err (invalid_data "protobuf frame length varint overflow"))) else
      let self := self <| vr_length :=
        Z.lor (vr_length self) (Z.shiftl (Z.land value 0x7F) (vr_length_shift self)) |> in
      if Z.land value 0x80 =? 0 then (r, self, Ready (Ok tt)) else
      let self := self <| vr_length_shift := vr_length_shift self + 7 |> in
      if 64 <=? vr_length_shift self
      then (r, self, Ready (Err (invalid_data "protobuf frame length varint overflow")))
      else read_length fuel' r self
    end
  end.

(** The length is complete: check it and make room. *)
Definition start_body (self : VarintReader) : VarintReader * Result IoError unit :=
  let self := self <| vr_body_expected := Z.to_nat (vr_length self) |> in
  if (vr_body_expected self =? 0)%nat then (self, Err (invalid_data "zero-length protobuf frame"))
  else if MAX_FRAME_SIZE <? Z.of_nat (vr_body_expected self)
  then (self, Err (invalid_data "protobuf frame exceeds 64 KiB"))
  else (self <| vr_body := resize (vr_body_expected self) (vr_body self) |>, Ok tt).

Fixpoint read_body (fuel : nat) (r : R) (self : VarintReader) : R * VarintReader * Poll unit :=
  if (vr_body_expected self <=? vr_body_filled self)%nat then (r, self, Ready (Ok tt)) else
  match fuel with
  | O => (r, self, Ready Panic)
  | S fuel' =>
    match @slice IoError Z (vr_body self) (vr_body_filled self) (vr_body_expected self) with
    | Ok _ =>
      match read r (vr_body_expected self - vr_body_filled self) with
      | (r, ReadErr e) => (r, self, Ready (Err e))
      | (r, ReadCancelled) => (r, self, Dropped)
      | (r, ReadOk []) =>
        (r, self, Ready (Err (eof "connection closed while reading protobuf frame body")))
      | (r, ReadOk chunk) =>
        read_body fuel' r
          (self <| vr_body := splice (vr_body self) (vr_body_filled self) chunk |>
                <| vr_body_filled := (vr_body_filled self + length chunk)%nat |>)
      end
    | _ => (r, self, Ready Panic)
    end
  end.

(** Reset, and the frame. *)
Definition take_frame (self : VarintReader) : VarintReader * Result IoError bytes :=
  let expected := vr_body_expected self in
  let self := self <| vr_length := 0 |> <| vr_length_shift := 0 |>
                   <| vr_body_expected := 0%nat |> <| vr_body_filled := 0%nat |> in
  (self, slice (vr_body self) 0 expected).

Definition finish_frame (r : R) (self : VarintReader) : R * VarintReader * Poll bytes :=
  let '(r, self, p) := read_body (vr_body_expected self) r self in
  match p with
  | Dropped => (r, self, Dropped)
  | Ready (Err e) => (r, self, Ready (Err e))
  | Ready Panic => (r, self, Ready Panic)
  | Ready (Ok _) => let '(self, frame) := take_frame self in (r, self, Ready frame)
  end.

Definition read_frame (r : R) (self : VarintReader) : R * VarintReader * Poll bytes :=
  if (vr_body_expected self =? 0)%nat then
    let '(r, self, p) := read_length 10 r self in
    match p with
    | Dropped => (r, self, Dropped)
    | Ready (Err e) => (r, self, Ready (Err e))
    | Ready Panic => (r, self, Ready Panic)
    | Ready (Ok _) =>
      match start_body self with
      | (self, Ok _) => finish_frame r self
      | (self, Err e) => (r, self, Ready (Err e))
      | (self, Panic) => (r, self, Ready Panic)
      end
    end
  else finish_frame r self.
End Read.
End VarintReader.

Module VarintWriter.
(** [encode_varint]: ten rounds on a [u64]. *)
Fixpoint encode_varint_go (fuel : nat) (value : Z) (output : bytes) : bytes :=
  match fuel with
  | O => output
  | S fuel' =>
    let byte := Z.land value 0x7F in
    let value := Z.shiftr value 7 in
    let byte := if negb (value =? 0) then Z.lor byte 0x80 else byte in
    let output := output ++ [byte] in
    if value =? 0 then output else encode_varint_go fuel' value output
  end.
Definition encode_varint (value : Z) (output : bytes) : bytes := encode_varint_go 10 value output.

(** [write_message]'s buffer, from the encoded message. *)
Definition frame (message : bytes) : Result IoError bytes :=
  let len := Z.of_nat (length message) in
  if len =? 0 then Err (invalid_data "refusing to write an empty protobuf frame") else
  if MAX_FRAME_SIZE <? len then Err (invalid_data "protobuf frame exceeds 64 KiB") else
  let buffer := encode_varint len [] in
  Ok (buffer ++ message).

(** It is [auth.rs]'s encoder. *)
Lemma encode_varint_go_eq fuel v output : encode_varint_go fuel v output = output ++ push_varint_go fuel v.
Proof.
  revert v output. induction fuel as [|fuel IH]; intros v output; cbn [encode_varint_go push_varint_go]; [by rewrite app_nil_r|].
  destruct (Z.shiftr v 7 =? 0); cbn [negb]; [done|]. by rewrite IH, <- app_assoc.
Qed.
Lemma encode_varint_push v : encode_varint v [] = push_varint v.
Proof. apply (encode_varint_go_eq 10 v []). Qed.
End VarintWriter.

(** ** Reader states *)

(** The varint bytes that lead to a partial length: all continuation bytes. *)
Definition pending_length (s : VarintReader) (prefix : bytes) : Prop :=
  forall rest, scan_varint (prefix ++ rest) =
    scan_varint_go (10 - length prefix) (vr_length s) (vr_length_shift s) rest.

(** Between two polls: either part of the length is known, or the body has
    been started. *)
Inductive reader_at (F : bytes) (r : bytes) (s : VarintReader) : Prop :=
| at_length prefix :
    vr_body_expected s = 0%nat -> vr_body_filled s = 0%nat ->
    F = prefix ++ r -> (length prefix < 10)%nat ->
    vr_length_shift s = 7 * Z.of_nat (length prefix) -> pending_length s prefix ->
    reader_at F r s
| at_body body :
    scan_varint F = Some (Z.of_nat (vr_body_expected s), body) ->
    vr_body_expected s <> 0%nat -> Z.of_nat (vr_body_expected s) <= MAX_FRAME_SIZE ->
    length (vr_body s) = vr_body_expected s -> (vr_body_filled s <= vr_body_expected s)%nat ->
    body = take (vr_body_filled s) (vr_body s) ++ r -> reader_at F r s.

Lemma reader_new r : reader_at r r VarintReader.new.
Proof.
  apply (at_length _ _ _ []); cbn [VarintReader.new vr_body_expected vr_body_filled vr_length_shift length]; try done; lia.
Qed.

Lemma push_varint_frame (m post : bytes) :
  Z.of_nat (length m) <= MAX_FRAME_SIZE ->
  scan_varint (push_varint (Z.of_nat (length m)) ++ post) = Some (Z.of_nat (length m), post).
Proof.
  intros Hm. unfold MAX_FRAME_SIZE in Hm. rewrite push_varint_eq by lia. apply scan_varint_encode. lia.
Qed.

Section Reading.
Context {R : Type} `{AsyncReadLaws R}.

Definition stream_error (e : IoError) : Prop := exists (r r' : R) cap, read r cap = (r', ReadErr e).

(** The length, on a stream that starts with a complete length. *)
Lemma read_length_scan fuel r s F prefix n body :
  scan_varint F = Some (n, body) -> (10 <= fuel + length prefix)%nat -> (length prefix < 10)%nat ->
  vr_body_expected s = 0%nat -> vr_body_filled s = 0%nat -> F = prefix ++ unread r ->
  vr_length_shift s = 7 * Z.of_nat (length prefix) -> pending_length s prefix ->
  let '(r', s', p) := VarintReader.read_length fuel r s in
  vr_body_filled s' = 0%nat /\ vr_body s' = vr_body s /\
  match p with
  | Ready (Ok _) => vr_length s' = n /\ unread r' = body
  | Dropped => reader_at F (unread r') s'
  | Ready (Err e) => stream_error e
  | Ready Panic => False
  end.
Proof.
  intros HF. revert r s prefix. induction fuel as [|fuel IH]; intros r s prefix Hfuel Hp10 He Hbf Hsplit Hshift Hpend; [lia|].
  set (k := (9 - length prefix)%nat).
  assert (Hscan : scan_varint_go (S k) (vr_length s) (vr_length_shift s) (unread r) = Some (n, body)).
  { rewrite <- HF, Hsplit, Hpend. f_equal. lia. }
  cbn [VarintReader.read_length]. destruct (read r 1) as [r' [chunk|e|]] eqn:Hread.
  - apply read_ok in Hread as (Hcap & Hu & Heof). destruct chunk as [|value chunk].
    { rewrite (Heof ltac:(lia) eq_refl) in Hscan. done. }
    assert (chunk = []) as -> by (destruct chunk; [done|cbn in Hcap; lia]). cbn [app] in Hu.
    rewrite Hu in Hscan. cbn [scan_varint_go] in Hscan.
    destruct ((vr_length_shift s =? 63) && (1 <? value)); [done|].
    destruct (Z.land value 0x80 =? 0) eqn:Hlast.
    { injection Hscan as Hn Hrest. done. }
    cbn [vr_length_shift update VarintReader_eta]. destruct (Z.leb_spec 64 (vr_length_shift s + 7)) as [Hmax|Hmax].
    { exfalso. assert (Hk : k = 0%nat) by lia. rewrite Hk in Hscan. done. }
    assert (Hk : (0 < k)%nat) by lia.
    specialize (IH r' (s <| vr_length := Z.lor (vr_length s) (Z.shiftl (Z.land value 0x7F) (vr_length_shift s)) |>
      <| vr_length_shift := vr_length_shift s + 7 |>) (prefix ++ [value])).
    apply IH; clear IH; cbn [vr_body_expected vr_body_filled vr_length_shift vr_length update VarintReader_eta];
      rewrite ?length_app; cbn [length]; try done; try lia.
    + by rewrite Hsplit, Hu, <- app_assoc.
    + intros rest. rewrite <- app_assoc. rewrite (Hpend ([value] ++ rest)).
      rewrite length_app. cbn [length]. replace (10 - length prefix)%nat with (S k) by lia.
      replace (10 - (length prefix + 1))%nat with k by lia. cbn [app scan_varint_go].
      destruct ((vr_length_shift s =? 63) && (1 <? value)) eqn:Hov.
      { exfalso. destruct (Z.eqb_spec (vr_length_shift s) 63); [lia|done]. }
      by rewrite Hlast.
  - split; [done|]. split; [done|]. by exists r, r', 1%nat.
  - apply read_cancelled in Hread. split; [done|]. split; [done|]. apply (at_length _ _ _ prefix); done || by rewrite Hread.
Qed.

(** The body, on a stream that has all of it. *)
Lemma read_body_scan fuel r s F body :
  scan_varint F = Some (Z.of_nat (vr_body_expected s), body) ->
  vr_body_expected s <> 0%nat -> Z.of_nat (vr_body_expected s) <= MAX_FRAME_SIZE ->
  length (vr_body s) = vr_body_expected s -> (vr_body_filled s <= vr_body_expected s)%nat ->
  body = take (vr_body_filled s) (vr_body s) ++ unread r -> (vr_body_expected s <= length body)%nat ->
  (vr_body_expected s <= vr_body_filled s + fuel)%nat ->
  let '(r', s', p) := VarintReader.read_body fuel r s in
  vr_body_expected s' = vr_body_expected s /\
  match p with
  | Ready (Ok _) => length (vr_body s') = vr_body_expected s /\ body = vr_body s' ++ unread r'
  | Dropped => reader_at F (unread r') s'
  | Ready (Err e) => stream_error e
  | Ready Panic => False
  end.
Proof.
  intros HF. remember (vr_body_expected s) as n eqn:Hn. intros Hne Hmax. revert r s Hn.
  induction fuel as [|fuel IH]; intros r s Hn Hlen Hfill Hbody Hfull Hfuel; cbn [VarintReader.read_body]; rewrite <- Hn;
    destruct (Nat.leb_spec n (vr_body_filled s)) as [Hdone|Hmore].
  1, 3: (split; [done|]; split; [done|]; rewrite take_ge in Hbody by lia; done).
  { lia. }
  rewrite slice_Ok by lia. destruct (read r (n - vr_body_filled s)) as [r' [chunk|e|]] eqn:Hread.
  - apply read_ok in Hread as (Hcap & Hu & Heof). destruct chunk as [|b chunk].
    { exfalso. rewrite (Heof ltac:(lia) eq_refl), app_nil_r in Hbody. subst body.
      rewrite length_take in Hfull. lia. }
    set (c := b :: chunk) in *. assert (Hc : (0 < length c)%nat) by (subst c; cbn; lia). clearbody c.
    apply IH; cbn [vr_body_expected vr_body vr_body_filled update VarintReader_eta]; try done.
    + rewrite splice_length; lia.
    + lia.
    + rewrite splice_take by lia. by rewrite Hbody, Hu, app_assoc.
    + lia.
  - split; [done|]. by exists r, r', (n - vr_body_filled s)%nat.
  - split; [done|]. apply read_cancelled in Hread. apply (at_body _ _ _ body); rewrite <- ?Hn; try done. by rewrite Hread.
Qed.

(** The end of a frame: the reader is as new. *)
Lemma finish_frame_scan r s F m rest :
  scan_varint F = Some (Z.of_nat (length m), m ++ rest) ->
  vr_body_expected s = length m -> (0 < length m)%nat -> Z.of_nat (length m) <= MAX_FRAME_SIZE ->
  length (vr_body s) = vr_body_expected s -> (vr_body_filled s <= vr_body_expected s)%nat ->
  m ++ rest = take (vr_body_filled s) (vr_body s) ++ unread r ->
  let '(r', s', p) := VarintReader.finish_frame r s in
  match p with
  | Ready (Ok m') => m' = m /\ unread r' = rest /\ reader_at rest (unread r') s'
  | Dropped => reader_at F (unread r') s'
  | Ready (Err e) => stream_error e
  | Ready Panic => False
  end.
Proof.
  intros HF He Hm Hmax Hlen Hfill Hbody. unfold VarintReader.finish_frame.
  pose proof (read_body_scan (vr_body_expected s) r s F (m ++ rest)) as Hrb. rewrite He in Hrb at 1 2 3.
  specialize (Hrb HF ltac:(lia) Hmax Hlen Hfill Hbody ltac:(rewrite He, length_app; lia) ltac:(lia)).
  destruct (VarintReader.read_body _ r s) as [[r' s'] [[[]|e|]|]]; destruct Hrb as [He' Hrb]; try done.
  destruct Hrb as [Hlen' Hsplit]. unfold VarintReader.take_frame.
  assert (Hbm : vr_body s' = m /\ unread r' = rest).
  { apply app_inj_1 in Hsplit as [-> ->]; [done|lia]. }
  destruct Hbm as [Hbm Hrest]. cbn [vr_body update VarintReader_eta]. rewrite Hbm, He', He, slice_Ok by lia.
  rewrite drop_0, Nat.sub_0_r, take_ge by lia. split_and!; try done. rewrite Hrest.
  apply (at_length _ _ _ []); cbn [vr_body_expected vr_body_filled vr_length vr_length_shift update VarintReader_eta length]; done || lia.
Qed.

Lemma read_frame_scan r s m f rest :
  VarintWriter.frame m = Ok f -> reader_at (f ++ rest) (unread r) s ->
  let '(r', s', p) := VarintReader.read_frame r s in
  match p with
  | Ready (Ok m') => m' = m /\ unread r' = rest /\ reader_at rest (unread r') s'
  | Dropped => reader_at (f ++ rest) (unread r') s'
  | Ready (Err e) => stream_error e
  | Ready Panic => False
  end.
Proof.
  unfold VarintWriter.frame. cbv zeta. rewrite VarintWriter.encode_varint_push. intros Hf Hr.
  destruct (Z.eqb_spec (Z.of_nat (length m)) 0); [done|]. destruct (Z.ltb_spec MAX_FRAME_SIZE (Z.of_nat (length m))); [done|].
  injection Hf as <-. rewrite <- app_assoc in Hr |- *. set (F := push_varint _ ++ m ++ rest) in *.
  assert (HF : scan_varint F = Some (Z.of_nat (length m), m ++ rest)) by (by apply push_varint_frame).
  unfold VarintReader.read_frame. destruct Hr as [prefix He Hbf Hsplit Hp Hshift Hpend|body Hscan He Hmax Hlen Hfill Hbody].
  - rewrite He. cbn [Nat.eqb].
    pose proof (read_length_scan 10 r s F prefix _ _ HF ltac:(lia) Hp He Hbf Hsplit Hshift Hpend) as Hgen.
    destruct (VarintReader.read_length 10 r s) as [[r1 s1] [[[]|e|]|]]; destruct Hgen as (Hbf1 & Hb1 & Hgen); try done.
    destruct Hgen as [Hn Hu]. unfold VarintReader.start_body. cbn [vr_body_expected vr_body update VarintReader_eta].
    rewrite Hn, Nat2Z.id. destruct (Nat.eqb_spec (length m) 0); [lia|].
    destruct (Z.ltb_spec MAX_FRAME_SIZE (Z.of_nat (length m))); [lia|].
    apply finish_frame_scan; cbn [vr_body_expected vr_body vr_body_filled update VarintReader_eta]; try done; try lia.
    + by rewrite resize_length.
    + rewrite Hbf1. cbn [take app]. done.
  - rewrite HF in Hscan. injection Hscan as Hn <-. destruct (Nat.eqb_spec (vr_body_expected s) 0); [done|].
    apply finish_frame_scan; try done; lia.
Qed.

(** ** Any stream *)

(** The states between two polls, whatever the stream holds. *)
Record varint_reader_ok (s : VarintReader) : Prop := {
  vo_idle : vr_body_expected s = 0%nat -> vr_body_filled s = 0%nat /\ 0 <= vr_length_shift s < 64;
  vo_body : vr_body_expected s <> 0%nat -> length (vr_body s) = vr_body_expected s /\
    (vr_body_filled s <= vr_body_expected s)%nat;
}.

Lemma varint_reader_new_ok : varint_reader_ok VarintReader.new.
Proof. split; cbn; intros; done || lia. Qed.

Lemma varint_length_any fuel r s :
  vr_body_expected s = 0%nat -> vr_body_filled s = 0%nat ->
  0 <= vr_length_shift s < 64 -> 64 <= vr_length_shift s + 7 * Z.of_nat fuel ->
  let '(r', s', p) := VarintReader.read_length fuel r s in
  match p with
  | Ready (Ok _) => vr_body_filled s' = 0%nat
  | Ready (Err _) => True
  | Dropped => varint_reader_ok s'
  | Ready Panic => False
  end.
Proof.
  revert r s. induction fuel as [|fuel IH]; intros r s He Hbf Hshift Hfuel; [lia|]. cbn [VarintReader.read_length].
  destruct (read r 1) as [r' [[|value chunk]|e|]]; try done.
  destruct (_ && _); [done|]. destruct (Z.land value 0x80 =? 0); [done|].
  cbn [vr_length_shift update VarintReader_eta]. destruct (Z.leb_spec 64 (vr_length_shift s + 7)); [done|].
  apply IH; cbn [vr_body_expected vr_body_filled vr_length_shift update VarintReader_eta]; done || lia.
Qed.

Lemma varint_body_any fuel r s :
  vr_body_expected s <> 0%nat -> length (vr_body s) = vr_body_expected s ->
  (vr_body_filled s <= vr_body_expected s <= vr_body_filled s + fuel)%nat ->
  let '(r', s', p) := VarintReader.read_body fuel r s in
  vr_body_expected s' = vr_body_expected s /\ length (vr_body s') = vr_body_expected s /\
  match p with Dropped => varint_reader_ok s' | Ready Panic => False | Ready _ => True end.
Proof.
  revert r s. induction fuel as [|fuel IH]; intros r s Hne Hlen Hfill; cbn [VarintReader.read_body];
    destruct (Nat.leb_spec (vr_body_expected s) (vr_body_filled s)) as [Hdone|Hmore]; try done; [lia|].
  rewrite slice_Ok by lia. destruct (read r (vr_body_expected s - vr_body_filled s)) as [r' [chunk|e|]] eqn:Hread; try done.
  - apply read_ok in Hread as (Hcap & _). destruct chunk as [|b chunk]; [done|].
    set (c := b :: chunk) in *. assert (Hc : (0 < length c)%nat) by (subst c; cbn; lia). clearbody c.
    specialize (IH r' (s <| vr_body := splice (vr_body s) (vr_body_filled s) c |>
      <| vr_body_filled := (vr_body_filled s + length c)%nat |>)).
    cbn [vr_body_expected vr_body vr_body_filled update VarintReader_eta] in IH.
    rewrite splice_length in IH by lia. apply IH; done || lia.
  - split; [done|]. split; [done|]. split; intros; [done|]. split; [done|lia].
Qed.

(** A poll never panics; unless it failed, reading can go on. *)
Lemma read_frame_any r s :
  varint_reader_ok s ->
  let '(r', s', p) := VarintReader.read_frame r s in
  match p with
  | Ready (Ok frame) => varint_reader_ok s' /\ (0 < length frame)%nat
  | Ready (Err _) => True
  | Dropped => varint_reader_ok s'
  | Ready Panic => False
  end.
Proof.
  intros Hs. unfold VarintReader.read_frame.
  assert (Hfin : forall r s, vr_body_expected s <> 0%nat -> length (vr_body s) = vr_body_expected s ->
    (vr_body_filled s <= vr_body_expected s)%nat ->
    let '(r', s', p) := VarintReader.finish_frame r s in
    match p with
    | Ready (Ok frame) => varint_reader_ok s' /\ (0 < length frame)%nat
    | Ready (Err _) => True
    | Dropped => varint_reader_ok s'
    | Ready Panic => False
    end).
  { clear r s Hs. intros r s Hne Hlen Hfill. unfold VarintReader.finish_frame.
    pose proof (varint_body_any (vr_body_expected s) r s Hne Hlen ltac:(lia)) as Hb.
    destruct (VarintReader.read_body _ r s) as [[r' s'] [[u|e|]|]]; destruct Hb as (He & Hl & Hb); try done.
    unfold VarintReader.take_frame. cbn [vr_body update VarintReader_eta]. rewrite slice_Ok by lia.
    split; [split; cbn; intros; done || lia|]. rewrite drop_0, length_take. lia. }
  destruct (Nat.eqb_spec (vr_body_expected s) 0) as [He|He].
  - destruct (vo_idle s Hs He) as [Hbf Hshift].
    pose proof (varint_length_any 10 r s He Hbf Hshift ltac:(lia)) as Hl.
    destruct (VarintReader.read_length 10 r s) as [[r1 s1] [[u|e|]|]]; try done.
    unfold VarintReader.start_body. cbn [vr_body_expected vr_body update VarintReader_eta].
    destruct (Nat.eqb_spec (Z.to_nat (vr_length s1)) 0); [done|]. destruct (_ <? _); [done|].
    apply Hfin; cbn [vr_body_expected vr_body vr_body_filled update VarintReader_eta]; [done|by rewrite resize_length|lia].
  - destruct (vo_body s Hs He) as [Hlen Hfill]. by apply Hfin.
Qed.
End Reading.

(** The Android TV frame reader is cancel-safe and exact: on a stream that
    holds the frame of a message, wherever earlier reads were dropped - inside
    the varint or inside the body - a poll returns that message and leaves the
    reader ready for what follows, or can be resumed; errors are the
    transport's own and nothing panics. *)
Theorem read_frame_cancel_safe {R} `{AsyncReadLaws R} (r : R) s m f rest :
  VarintWriter.frame m = Ok f -> reader_at (f ++ rest) (unread r) s ->
  let '(r', s', p) := VarintReader.read_frame r s in
  match p with
  | Ready (Ok m') => m' = m /\ unread r' = rest /\ reader_at rest (unread r') s'
  | Dropped => reader_at (f ++ rest) (unread r') s'
  | Ready (Err e) => exists (r1 r2 : R) cap, read r1 cap = (r2, ReadErr e)
  | Ready Panic => False
  end.
Proof. apply read_frame_scan. Qed.

(** A 200-byte message, whose length takes two bytes, with a drop between
    them. *)
Lemma read_frame_cancel_safe_witness :
  let m := replicate 200 7 in
  exists f, VarintWriter.frame m = Ok f /\
    let '(r', s', p) := VarintReader.read_frame (MkChunked (f ++ [9]) [1; 0]%nat) VarintReader.new in
    p = Dropped /\ reader_at (f ++ [9]) (cs_data r') s'.
Proof.
  cbv zeta. eexists. split; [vm_compute; reflexivity|].
  match goal with |- context [VarintReader.read_frame ?r _] => set (r0 := r) end.
  pose proof (read_frame_cancel_safe r0 VarintReader.new (replicate 200 7) _ [9] eq_refl (reader_new _)) as Hw.
  destruct (VarintReader.read_frame r0 VarintReader.new) as [[r' s'] p] eqn:He.
  assert (p = Dropped) as ->; [|split; [reflexivity|exact Hw]].
  replace p with (snd (VarintReader.read_frame r0 VarintReader.new)) by (by rewrite He).
  vm_compute. reflexivity.
Defined.
