(* ===== verification/FramedStream.v ===== *)
(** * Framed streams as message queues

    Both transports of the crate read messages from a byte stream with a
    resumable reader: [control/framing.rs] for the control channel and
    [android_tv/framing.rs] for Android TV.  The class [FrameReader] is what
    their clients rely on; a client that polls, drops and polls again takes
    messages off a queue.  Both readers implement the class. *)

From stdpp Require Import strings.
From S2P Require Import Prelude Text Errors CastProto Protobuf CastFraming AndroidFraming.

(** ** The interface *)

Section Interface.
Context {R : Type} `{AsyncRead R}.

(** [holds r s ms rest]: the reader in state [s] and the stream [r] still have
    the messages [ms] to deliver, followed by the bytes [rest].  One poll
    delivers the first of them, can be resumed, or reports an error of the
    stream. *)
Class FrameReader (S M : Type) := {
  poll : R -> S -> R * S * Poll M;
  holds : R -> S -> list M -> bytes -> Prop;
  poll_holds r s m ms rest : holds r s (m :: ms) rest ->
    let '(r', s', p) := poll r s in
    match p with
    | Ready (Ok m') => m' = m /\ holds r' s' ms rest
    | Dropped => holds r' s' (m :: ms) rest
    | Ready (Err e) => exists (r1 r2 : R) cap, read r1 cap = (r2, ReadErr e)
    | Ready Panic => False
    end;
}.

(** A client: at most [polls] polls, until [want] messages have arrived or a
    read failed. *)
Fixpoint receive {S M} `{!FrameReader S M} (polls want : nat) (r : R) (s : S)
  : R * S * list M * Result IoError unit :=
  match polls, want with
  | Datatypes.S polls', Datatypes.S want' =>
    match poll r s with
    | (r, s, Ready (Ok m)) =>
      let '(r, s, ms, result) := receive polls' want' r s in (r, s, m :: ms, result)
    | (r, s, Dropped) => receive polls' want r s
    | (r, s, Ready (Err e)) => (r, s, [], Err e)
    | (r, s, Ready Panic) => (r, s, [], Panic)
    end
  | _, _ => (r, s, [], Ok tt)
  end.

(** The client's view is a queue: it takes messages off the front. *)
Lemma receive_fifo {S M} `{!FrameReader S M} polls want r s ms rest :
  holds r s ms rest -> (want <= length ms)%nat ->
  let '(r', s', got, result) := receive polls want r s in
  (length got <= want)%nat /\
  exists later, ms = got ++ later /\
    match result with
    | Ok _ => holds r' s' later rest
    | Err e => exists (r1 r2 : R) cap, read r1 cap = (r2, ReadErr e)
    | Panic => False
    end.
Proof.
  revert want r s ms. induction polls as [|polls IH]; intros want r s ms Hh Hw; cbn [receive].
  { split; [cbn; lia|]. by exists ms. }
  destruct want as [|want]; [split; [done|]; by exists ms|].
  destruct ms as [|m ms]; [cbn in Hw; lia|]. pose proof (poll_holds r s m ms rest Hh) as Hp.
  destruct (poll r s) as [[r1 s1] [[m'|e|]|]].
  - destruct Hp as [-> Hh1]. specialize (IH want r1 s1 ms Hh1 ltac:(cbn in Hw; lia)).
    destruct (receive polls want r1 s1) as [[[r2 s2] got] result]. destruct IH as (Hlen & later & -> & IH).
    split; [cbn; lia|]. by exists later.
  - split; [cbn; lia|]. by exists (m :: ms).
  - done.
  - by apply IH.
Qed.
End Interface.

(** ** The two readers *)

#[export] Instance cast_reader {R} `{AsyncReadLaws R} : FrameReader (R := R) FramedReader CastMessage.
Proof.
  refine {|
    poll := FramedReader.read_message;
    holds r s ms rest := reader_ok s /\
      Forall (fun m => message_ok m /\ Z.of_nat (length (CastMessage.encode m)) <= MAX_MESSAGE_SIZE) ms /\
      taken s ++ unread r = concat (map FramedWriter.write_message ms) ++ rest;
  |}.
  intros r s m ms rest (Hok & Hms & Hbytes). apply Forall_cons_iff in Hms as [[Hm Hlen] Hms].
  cbn [map concat] in Hbytes. rewrite <- app_assoc in Hbytes.
  pose proof (read_message_frame r s m _ Hok Hm Hlen Hbytes) as Hp.
  destruct (FramedReader.read_message r s) as [[r' s'] [[m'|e|]|]]; [| |done|].
  - destruct Hp as (-> & Hrest & Hok' & Ht). split; [done|]. split_and!; [done|done|by rewrite Ht, Hrest].
  - exact Hp.
  - destruct Hp as [Hok' Hp]. split_and!; [done|by constructor|]. cbn [map concat]. by rewrite <- app_assoc.
Defined.

#[export] Instance varint_reader {R} `{AsyncReadLaws R} : FrameReader (R := R) VarintReader bytes.
Proof.
  refine {|
    poll := VarintReader.read_frame;
    holds r s ms rest := exists frames, Forall2 (fun m f => VarintWriter.frame m = Ok f) ms frames /\
      reader_at (concat frames ++ rest) (unread r) s;
  |}.
  intros r s m ms rest (frames & Hf & Hat). apply Forall2_cons_inv_l in Hf as (f & frames' & Hm & Hf & ->).
  cbn [concat] in Hat. rewrite <- app_assoc in Hat.
  pose proof (read_frame_scan r s m f _ Hm Hat) as Hp.
  destruct (VarintReader.read_frame r s) as [[r' s'] [[m'|e|]|]]; [| |done|].
  - destruct Hp as (-> & _ & Hat'). split; [done|]. by exists frames'.
  - exact Hp.
  - exists (f :: frames'). split; [by constructor|]. cbn [concat]. by rewrite <- app_assoc.
Defined.

(** ** Both streams are queues *)

(** C17: Both framed streams are first-in first-out message queues.  However the
    network cuts the bytes of the messages that were written (Cast messages
    within the 1 MiB limit, Android TV frames as the writer makes them), and however often
    the client drops a read and starts again, what it has received is a prefix
    of what was written, in order, none lost, doubled or split; it can go on
    with the rest; a failure is the stream's own, and nothing panics. *)
Theorem framed_streams_fifo {R} `{AsyncReadLaws R} (r : R) (polls want : nat) :
  (forall (ms : list CastMessage) rest,
     Forall (fun m => message_ok m /\ Z.of_nat (length (CastMessage.encode m)) <= MAX_MESSAGE_SIZE) ms ->
     unread r = concat (map FramedWriter.write_message ms) ++ rest -> (want <= length ms)%nat ->
     let '(r', s', got, result) := receive polls want r FramedReader.new in
     (length got <= want)%nat /\ exists later, ms = got ++ later /\
       match result with
       | Ok _ => reader_ok s' /\ taken s' ++ unread r' = concat (map FramedWriter.write_message later) ++ rest
       | Err e => exists (r1 r2 : R) cap, read r1 cap = (r2, ReadErr e)
       | Panic => False
       end) /\
  (forall (ms frames : list bytes) rest,
     Forall2 (fun m f => VarintWriter.frame m = Ok f) ms frames ->
     unread r = concat frames ++ rest -> (want <= length ms)%nat ->
     let '(r', s', got, result) := receive polls want r VarintReader.new in
     (length got <= want)%nat /\ exists later, ms = got ++ later /\
       match result with
       | Ok _ => exists frames', Forall2 (fun m f => VarintWriter.frame m = Ok f) later frames' /\
                   reader_at (concat frames' ++ rest) (unread r') s'
       | Err e => exists (r1 r2 : R) cap, read r1 cap = (r2, ReadErr e)
       | Panic => False
       end).
Proof.
  split.
  - intros ms rest Hms Hu Hw.
    pose proof (receive_fifo (S := FramedReader) polls want r FramedReader.new ms rest
      (conj reader_new_ok (conj Hms Hu)) Hw) as Hf.
    destruct (receive polls want r FramedReader.new) as [[[r' s'] got] result].
    destruct Hf as (Hlen & later & Heq & Hres). split; [done|]. exists later. split; [done|].
    destruct result as [|e|]; [|done..]. destruct Hres as (Hok & _ & Hb). done.
  - intros ms frames rest Hms Hu Hw.
    assert (Hh : holds r VarintReader.new ms rest) by (exists frames; split; [done|]; rewrite <- Hu; apply reader_new).
    pose proof (receive_fifo (S := VarintReader) polls want r VarintReader.new ms rest Hh Hw) as Hf.
    by destruct (receive polls want r VarintReader.new) as [[[r' s'] got] result].
Qed.

(** Two messages, a stream in pieces, a drop between them. *)
Lemma framed_streams_fifo_witness :
  let r := MkChunked (concat (map FramedWriter.write_message [demo_message; demo_message]) ++ [9]) [1; 2; 5; 0; 3; 9; 0; 40]%nat in
  let '(r', s', got, result) := receive 6 2 r FramedReader.new in
  exists later, [demo_message; demo_message] = got ++ later /\ result <> Panic.
Proof.
  cbv zeta. match goal with |- context [receive 6 2 ?x _] => set (r := x) end.
  pose proof (proj1 (framed_streams_fifo r 6 2) [demo_message; demo_message] [9]) as Hw.
  destruct (receive 6 2 r FramedReader.new) as [[[r' s'] got] result].
  destruct Hw as (_ & later & He & Hres).
  - assert (Hm : message_ok demo_message /\ Z.of_nat (length (CastMessage.encode demo_message)) <= MAX_MESSAGE_SIZE).
    { split; [|vm_compute; congruence]. unfold message_ok, string_ok. cbn. split_and!; try lia; try solve_bytes; reflexivity. }
    constructor; [exact Hm|]. constructor; [exact Hm|constructor].
  - reflexivity.
  - cbn. lia.
  - exists later. split; [exact He|]. by destruct result.
Defined.
