(* ===== verification/AndroidTypes.v ===== *)
(** * Data of the Android TV protocols ([src/src/android_tv/error.rs],
    [proto.rs], [remote_types.rs])

    Messages, errors and capabilities.  The wire form of the messages is derived
    by prost (the class [Prost]). *)

From stdpp Require Import strings.
From S2P Require Import Prelude Errors Text.

(** ** Errors *)

Inductive AndroidTvError :=
| InvalidIdentity (detail : string)
| InvalidClientInfo (detail : string)
| InvalidPairingCode
| PairingRejected (status : Z)
| UnsupportedPairingConfiguration
| UnsupportedFeature (name : string)
| ConnectionClosed
| TvTimedOut (operation : string)
| TvConnection (detail : string)
| TvProtocol (detail : string)
| TvCrypto (detail : string)
| TvIo (error : IoError).
#[export] Instance AndroidTvError_eq_dec : EqDecision AndroidTvError.
Proof. solve_decision. Defined.

(** [Display for i32]. *)
Definition display_i32 (v : Z) : string := if v <? 0 then "-" +:+ display (- v) else display v.

Definition tv_error_to_string (e : AndroidTvError) : string :=
  match e with
  | InvalidIdentity d => "invalid Android TV client identity: " +:+ d
  | InvalidClientInfo d => "invalid Android TV client information: " +:+ d
  | InvalidPairingCode => "pairing code must contain exactly six hexadecimal digits"
  | PairingRejected s => "Android TV rejected pairing with protocol status " +:+ display_i32 s
  | UnsupportedPairingConfiguration => "Android TV does not offer six-digit hexadecimal pairing"
  | UnsupportedFeature n => "Android TV does not support the " +:+ n +:+ " remote capability"
  | ConnectionClosed => "Android TV connection closed"
  | TvTimedOut o => "Android TV " +:+ o +:+ " timed out"
  | TvConnection d => "Android TV connection failed: " +:+ d
  | TvProtocol d => "Android TV protocol error: " +:+ d
  | TvCrypto d => "Android TV cryptographic operation failed: " +:+ d
  | TvIo e => io_message e
  end.

Definition invalid_identity (detail : string) : AndroidTvError := InvalidIdentity detail.
Definition tv_protocol_error (detail : string) : AndroidTvError := TvProtocol detail.
Definition crypto_error (detail : string) : AndroidTvError := TvCrypto detail.

(** ** Messages *)

Definition PAIRING_STATUS_OK : Z := 200.
Definition PAIRING_PROTOCOL_VERSION : Z := 2.
Definition ROLE_INPUT : Z := 1.
Definition ENCODING_HEXADECIMAL : Z := 3.
Definition PAIRING_SYMBOL_LENGTH : Z := 6.

Record PairingRequest := MkPairingRequest { service_name : string; client_name : option string }.
Record PairingRequestAck := MkPairingRequestAck { ack_server_name : option string }.
Record PairingEncoding := MkPairingEncoding { encoding_type : Z; symbol_length : Z }.
Record PairingOptions := MkPairingOptions {
  input_encodings : list PairingEncoding;
  output_encodings : list PairingEncoding;
  preferred_role : option Z;
}.
Record PairingConfiguration := MkPairingConfiguration {
  configuration_encoding : option PairingEncoding;
  client_role : Z;
}.
Record PairingConfigurationAck := MkPairingConfigurationAck {}.
Record PairingSecret := MkPairingSecret { secret_bytes : bytes }.
Record PairingSecretAck := MkPairingSecretAck { secret_ack_bytes : bytes }.

Record PairingEnvelope := MkPairingEnvelope {
  protocol_version : Z;
  status : Z;
  pairing_request : option PairingRequest;
  pairing_request_ack : option PairingRequestAck;
  options : option PairingOptions;
  configuration : option PairingConfiguration;
  configuration_ack : option PairingConfigurationAck;
  secret : option PairingSecret;
  secret_ack : option PairingSecretAck;
}.
#[export] Instance PairingEnvelope_eta : Eta PairingEnvelope := fun s =>
  MkPairingEnvelope (protocol_version s) (status s) (pairing_request s) (pairing_request_ack s) (options s)
    (configuration s) (configuration_ack s) (secret s) (secret_ack s).

Module PairingEnvelope.
Definition ok : PairingEnvelope :=
  MkPairingEnvelope PAIRING_PROTOCOL_VERSION PAIRING_STATUS_OK None None None None None None None.
End PairingEnvelope.

Module PairingEncoding.
Definition hexadecimal_pin : PairingEncoding := MkPairingEncoding ENCODING_HEXADECIMAL PAIRING_SYMBOL_LENGTH.
Definition is_hexadecimal_pin (self : PairingEncoding) : bool :=
  (encoding_type self =? ENCODING_HEXADECIMAL) && (symbol_length self =? PAIRING_SYMBOL_LENGTH).
End PairingEncoding.

Record RemoteDeviceInfo := MkRemoteDeviceInfo {
  rd_model : string;
  rd_vendor : string;
  rd_unknown_one : Z;
  rd_unknown_two : string;
  rd_package_name : string;
  rd_app_version : string;
}.
Record RemoteConfigure := MkRemoteConfigure { rc_features : Z; rc_device_info : option RemoteDeviceInfo }.
Record RemoteSetActive := MkRemoteSetActive { sa_features : Z }.
Record RemoteError := MkRemoteError { re_value : bool }.
Record RemotePingRequest := MkRemotePingRequest { ping_value : Z; auxiliary_value : Z }.
Record RemotePingResponse := MkRemotePingResponse { pong_value : Z }.
Record RemoteKeyInject := MkRemoteKeyInject { key_code : Z; direction : Z }.
Record RemoteStart := MkRemoteStart { powered_on : bool }.
Record RemoteVolume := MkRemoteVolume { rv_maximum : Z; rv_level : Z; rv_muted : bool }.

Record RemoteMessage := MkRemoteMessage {
  configure : option RemoteConfigure;
  set_active : option RemoteSetActive;
  error : option RemoteError;
  ping_request : option RemotePingRequest;
  ping_response : option RemotePingResponse;
  key_inject : option RemoteKeyInject;
  start : option RemoteStart;
  volume : option RemoteVolume;
}.
#[export] Instance RemoteMessage_eta : Eta RemoteMessage := fun s =>
  MkRemoteMessage (configure s) (set_active s) (error s) (ping_request s) (ping_response s) (key_inject s)
    (start s) (volume s).

(** [RemoteMessage::default()]. *)
Definition remote_default : RemoteMessage := MkRemoteMessage None None None None None None None None.

(** prost's derived codec: [encode_to_vec] and [decode]. *)
Class Prost (M : Type) := {
  prost_encode : M -> bytes;
  prost_decode : bytes -> string + M;
}.

(** ** Capabilities and keys *)

Abbreviation AndroidTvRemoteFeatures := Z.

Module Features.
Definition PING : AndroidTvRemoteFeatures := Z.shiftl 1 0.
Definition KEY : AndroidTvRemoteFeatures := Z.shiftl 1 1.
Definition POWER : AndroidTvRemoteFeatures := Z.shiftl 1 5.
Definition VOLUME : AndroidTvRemoteFeatures := Z.shiftl 1 6.
Definition contains (self feature : AndroidTvRemoteFeatures) : bool := Z.land self feature =? feature.
Definition bitor (self right : AndroidTvRemoteFeatures) : AndroidTvRemoteFeatures := Z.lor self right.
Definition bitand (self right : AndroidTvRemoteFeatures) : AndroidTvRemoteFeatures := Z.land self right.
End Features.

Definition IMPLEMENTED_FEATURES : AndroidTvRemoteFeatures :=
  Z.lor (Z.lor (Z.lor Features.PING Features.KEY) Features.POWER) Features.VOLUME.

Definition MAX_CLIENT_TEXT_BYTES : nat := 128.

Definition validate_client_text (field value : string) : Result AndroidTvError unit :=
  if bool_decide (value = "") || (MAX_CLIENT_TEXT_BYTES <? length (utf8 value))%nat
     || existsb is_control (chars (utf8 value))
  then Err (InvalidClientInfo (field +:+ " must be 1..=128 bytes without control characters"))
  else Ok tt.

Record AndroidTvRemoteClientInfo := MkClientInfo {
  ci_model : string;
  ci_vendor : string;
  ci_package_name : string;
  ci_app_version : string;
}.

Definition client_info_new (model vendor package_name app_version : string)
  : Result AndroidTvError AndroidTvRemoteClientInfo :=
  let result := MkClientInfo model vendor package_name app_version in
  let? _ := validate_client_text "model" model in
  let? _ := validate_client_text "vendor" vendor in
  let? _ := validate_client_text "package name" package_name in
  let? _ := validate_client_text "application version" app_version in
  Ok result.

(** [Default]; the version is the crate's, from [Cargo.toml]. *)
Definition client_info_default : AndroidTvRemoteClientInfo :=
  MkClientInfo "chromiacast" "pronkproject" "io.github.pronkproject.chromiacast" "0.3.1".

Example client_info_default_valid :
  client_info_new (ci_model client_info_default) (ci_vendor client_info_default)
    (ci_package_name client_info_default) (ci_app_version client_info_default) = Ok client_info_default.
Proof. vm_compute. reflexivity. Qed.

Record AndroidTvDeviceInfo := MkTvDeviceInfo {
  di_model : string;
  di_vendor : string;
  di_service_version : string;
}.

Record AndroidTvVolume := MkVolume { level : Z; maximum : Z; muted : bool }.

Inductive AndroidTvRemoteEvent :=
| PowerChanged (powered_on : bool)
| VolumeChanged (volume : AndroidTvVolume)
| Disconnected (error : option string).

(** A key code is an [i32] made from a [u16]. *)
Abbreviation AndroidTvKeyCode := Z.

Module KeyCode.
Definition UNKNOWN : AndroidTvKeyCode := 0.
Definition HOME : AndroidTvKeyCode := 3.
Definition BACK : AndroidTvKeyCode := 4.
Definition DPAD_UP : AndroidTvKeyCode := 19.
Definition DPAD_DOWN : AndroidTvKeyCode := 20.
Definition DPAD_LEFT : AndroidTvKeyCode := 21.
Definition DPAD_RIGHT : AndroidTvKeyCode := 22.
Definition DPAD_CENTER : AndroidTvKeyCode := 23.
Definition VOLUME_UP : AndroidTvKeyCode := 24.
Definition VOLUME_DOWN : AndroidTvKeyCode := 25.
Definition POWER : AndroidTvKeyCode := 26.
Definition MENU : AndroidTvKeyCode := 82.
Definition MEDIA_PLAY_PAUSE : AndroidTvKeyCode := 85.
Definition MEDIA_STOP : AndroidTvKeyCode := 86.
Definition MEDIA_NEXT : AndroidTvKeyCode := 87.
Definition MEDIA_PREVIOUS : AndroidTvKeyCode := 88.
Definition MEDIA_REWIND : AndroidTvKeyCode := 89.
Definition MEDIA_FAST_FORWARD : AndroidTvKeyCode := 90.
Definition VOLUME_MUTE : AndroidTvKeyCode := 164.
Definition SETTINGS : AndroidTvKeyCode := 176.
Definition TV_POWER : AndroidTvKeyCode := 177.
Definition SLEEP : AndroidTvKeyCode := 223.
Definition WAKEUP : AndroidTvKeyCode := 224.
Definition from_raw (value : Z) : AndroidTvKeyCode := value.
(** [self.0 as u16]. *)
Definition raw (self : AndroidTvKeyCode) : Z := wrap_u16 self.
End KeyCode.

Inductive AndroidTvKeyAction := Down | Up | Press.
Definition protocol_value (self : AndroidTvKeyAction) : Z :=
  match self with Down => 1 | Up => 2 | Press => 3 end.
