(* ===== verification/AndroidIdentity.v ===== *)
(** * The Android TV client's credential ([src/src/android_tv/identity.rs])

    A self-signed certificate and its RSA key: generation, import and the checks
    both share.  RSA, X.509 and certificate signing come from crates: the classes
    [RsaCertificates] (x509-parser), [RsaKeys] (rsa) and [CertificateIssuer] (rsa,
    rcgen and time). *)

From stdpp Require Import strings.
From S2P Require Import Prelude Errors Text AndroidTypes.

Definition RSA_BITS : nat := 2048.
Definition MAX_COMMON_NAME_BYTES : nat := 128.
Definition MAX_CERTIFICATE_DER_BYTES : nat := 64 * 1024.
Definition MAX_PRIVATE_KEY_DER_BYTES : nat := 64 * 1024.

Record AndroidTvRemoteIdentity := MkIdentity {
  certificate_der : bytes;
  private_key_pkcs8_der : bytes;
  modulus : bytes;
  exponent : bytes;
}.

(** The public key of a certificate: RSA parameters, or another kind. *)
Inductive PublicKey := RSA (modulus exponent : bytes) | OtherKey.

(** x509-parser: the unread rest and the parsed public key. *)
Class RsaCertificates := {
  from_der_certificate : bytes -> string + (bytes * (string + PublicKey));
}.

(** The rsa crate: a PKCS#8 key is its validation and its public parameters
    without leading zeroes. *)
Class RsaKeys := {
  from_pkcs8_der : bytes -> string + ((string + unit) * (bytes * bytes));
}.

(** ** Issuing a certificate *)

(** The parameters of rcgen the code sets, with rcgen's types for a
    distinguished name, the authority, a serial number and a time; the others
    ([Rest]) keep their defaults. *)
Record CertificateParams (Dn Authority Serial Time Rest : Type) := MkParams {
  distinguished_name : Dn;
  is_ca : Authority;
  serial_number : option Serial;
  not_before : Time;
  not_after : Time;
  other_params : Rest;
}.
Arguments MkParams {Dn Authority Serial Time Rest} _ _ _ _ _ _.
Arguments distinguished_name {Dn Authority Serial Time Rest} _.
Arguments is_ca {Dn Authority Serial Time Rest} _.
Arguments serial_number {Dn Authority Serial Time Rest} _.
Arguments not_before {Dn Authority Serial Time Rest} _.
Arguments not_after {Dn Authority Serial Time Rest} _.
Arguments other_params {Dn Authority Serial Time Rest} _.
#[export] Instance CertificateParams_eta {Dn Authority Serial Time Rest} : Eta (CertificateParams Dn Authority Serial Time Rest) :=
  fun p => MkParams (distinguished_name p) (is_ca p) (serial_number p) (not_before p) (not_after p) (other_params p).

(** The rsa, rcgen and time crates in a world [G] with randomness and a clock.
    [date_time_sub] and [date_time_add] are the operators [-] and [+] of an
    [OffsetDateTime] and a [Duration]; [None] where they panic.
    [ca_constrained] is [IsCa::Ca(BasicConstraints::Constrained(_))]. *)
Class CertificateIssuer (G : Type) := {
  RsaPrivateKey : Type;
  rsa_private_key_new : G -> nat -> G * (string + RsaPrivateKey);
  to_pkcs8_der : RsaPrivateKey -> string + bytes;
  KeyPair : Type;
  key_pair_from_pkcs8_der_rsa_sha256 : bytes -> string + KeyPair;
  DistinguishedName : Type;
  distinguished_name_new : DistinguishedName;
  push_common_name : DistinguishedName -> string -> DistinguishedName;
  IsCa : Type;
  ca_constrained : Z -> IsCa;
  SerialNumber : Type;
  serial_number_from : Z -> SerialNumber;
  OffsetDateTime : Type;
  TimeDuration : Type;
  days : Z -> TimeDuration;
  now_utc : G -> G * OffsetDateTime;
  date_time_sub : OffsetDateTime -> TimeDuration -> option OffsetDateTime;
  date_time_add : OffsetDateTime -> TimeDuration -> option OffsetDateTime;
  OtherParams : Type;
  certificate_params_new : list string ->
    string + CertificateParams DistinguishedName IsCa SerialNumber OffsetDateTime OtherParams;
  self_signed : G -> CertificateParams DistinguishedName IsCa SerialNumber OffsetDateTime OtherParams -> KeyPair ->
    G * (string + bytes);
}.
Abbreviation ClientParams := (CertificateParams DistinguishedName IsCa SerialNumber OffsetDateTime OtherParams).

(** From the first nonzero byte. *)
Fixpoint minimal_unsigned (d : bytes) : bytes :=
  match d with
  | [] => []
  | b :: d' => if b =? 0 then minimal_unsigned d' else d
  end.

(** [u8::leading_zeros]. *)
Definition leading_zeros_u8 (b : Z) : nat := if b =? 0 then 8 else (7 - Z.to_nat (Z.log2 b))%nat.

Definition unsigned_bits (d : bytes) : nat :=
  match d with
  | [] => 0
  | first :: _ => (length d * 8 - leading_zeros_u8 first)%nat
  end.

Definition validate_common_name (common_name : string) : Result AndroidTvError unit :=
  if bool_decide (common_name = "") || (MAX_COMMON_NAME_BYTES <? length (utf8 common_name))%nat
     || existsb is_control (chars (utf8 common_name))
  then Err (InvalidClientInfo "certificate common name must be 1..=128 bytes without control characters")
  else Ok tt.

Section Identity.
Context `{RsaCertificates} `{RsaKeys}.

Definition rsa_parameters_from_certificate (certificate_der : bytes) : Result AndroidTvError (bytes * bytes) :=
  if bool_decide (certificate_der = []) || (MAX_CERTIFICATE_DER_BYTES <? length certificate_der)%nat
  then Err (invalid_identity "X.509 certificate must be 1..=64 KiB") else
  let? (remainder, public_key) := map_err (from_der_certificate certificate_der)
    (fun e => invalid_identity ("parse X.509 certificate: " +:+ e)) in
  if bool_decide (remainder <> []) then Err (invalid_identity "X.509 certificate contains trailing bytes") else
  let? public_key := map_err public_key (fun e => invalid_identity ("parse certificate public key: " +:+ e)) in
  match public_key with
  | OtherKey => Err (invalid_identity "certificate public key is not RSA")
  | RSA modulus exponent =>
    let modulus := minimal_unsigned modulus in
    let exponent := minimal_unsigned exponent in
    if bool_decide (modulus = []) || bool_decide (exponent = [])
    then Err (invalid_identity "certificate contains an empty RSA parameter")
    else Ok (modulus, exponent)
  end.

Definition from_der (certificate_der private_key_pkcs8_der : bytes) : Result AndroidTvError AndroidTvRemoteIdentity :=
  if bool_decide (private_key_pkcs8_der = []) || (MAX_PRIVATE_KEY_DER_BYTES <? length private_key_pkcs8_der)%nat
  then Err (invalid_identity "PKCS#8 private key must be 1..=64 KiB") else
  let? (modulus, exponent) := rsa_parameters_from_certificate certificate_der in
  if (unsigned_bits modulus <? RSA_BITS)%nat then Err (invalid_identity "RSA key is smaller than 2048 bits") else
  let? (valid, public_key) := map_err (from_pkcs8_der private_key_pkcs8_der)
    (fun e => invalid_identity ("parse PKCS#8 RSA key: " +:+ e)) in
  let? _ := map_err valid (fun e => invalid_identity ("validate RSA key: " +:+ e)) in
  if bool_decide (public_key.1 <> modulus) || bool_decide (public_key.2 <> exponent)
  then Err (invalid_identity "certificate public key does not match the private key")
  else Ok (MkIdentity certificate_der private_key_pkcs8_der modulus exponent).

Section Generate.
Context {G : Type} `{CertificateIssuer G}.

Definition new_rsa_key : Eff G AndroidTvError RsaPrivateKey := fun g =>
  let '(g, key) := rsa_private_key_new g RSA_BITS in
  (g, map_err key (fun e => crypto_error ("generate RSA key: " +:+ e))).

Definition read_now_utc : Eff G AndroidTvError OffsetDateTime := fun g => let '(g, t) := now_utc g in (g, Ok t).

(** An operator that panics. *)
Definition or_panic {A} (o : option A) : Result AndroidTvError A := match o with Some a => Ok a | None => Panic end.

Definition sign_certificate (parameters : ClientParams) (key : KeyPair) : Eff G AndroidTvError bytes := fun g =>
  let '(g, certificate) := self_signed g parameters key in
  (g, map_err certificate (fun e => crypto_error ("sign client certificate: " +:+ e))).

Definition generate (common_name : string) : Eff G AndroidTvError AndroidTvRemoteIdentity :=
  let! _ := ret (validate_common_name common_name) in
  let! private_key := new_rsa_key in
  let! private_key_der := ret (map_err (to_pkcs8_der private_key)
    (fun e => crypto_error ("encode RSA key: " +:+ e))) in
  let! rcgen_key := ret (map_err (key_pair_from_pkcs8_der_rsa_sha256 private_key_der)
    (fun e => crypto_error ("load RSA key for certificate: " +:+ e))) in
  let! parameters := ret (map_err (certificate_params_new ["chromiacast.local"])
    (fun e => crypto_error ("build certificate parameters: " +:+ e))) in
  let parameters := parameters <| distinguished_name := distinguished_name_new |> in
  let parameters := parameters
    <| distinguished_name := push_common_name (distinguished_name parameters) common_name |> in
  let parameters := parameters <| is_ca := ca_constrained 0 |> in
  let parameters := parameters <| serial_number := Some (serial_number_from 1000) |> in
  let! now := read_now_utc in
  let! before := ret (or_panic (date_time_sub now (days 1))) in
  let parameters := parameters <| not_before := before |> in
  let! now := read_now_utc in
  let! after := ret (or_panic (date_time_add now (days 3650))) in
  let parameters := parameters <| not_after := after |> in
  let! certificate := sign_certificate parameters rcgen_key in
  ret (from_der certificate private_key_der).
End Generate.

End Identity.
