(* ===== verification/AndroidIdentityProps.v ===== *)
(** * Theorems about the Android TV client's credential *)

From stdpp Require Import strings.
From S2P Require Import Prelude Time Errors Text CastProto AuthProps AndroidTypes AndroidIdentity.

(** ** The credential *)

Lemma from_be_acc_split acc l : bytes_ok l -> from_be_acc acc l = acc * 2 ^ (8 * Z.of_nat (length l)) + from_be l.
Proof.
  intros Hl. unfold from_be. revert acc. assert (Hgen : forall a b, from_be_acc a l - a * 2 ^ (8 * Z.of_nat (length l)) =
    from_be_acc b l - b * 2 ^ (8 * Z.of_nat (length l))).
  { induction Hl as [|x l Hx Hl IH]; intros a b; cbn [from_be_acc length]; [cbn; lia|].
    rewrite !lor_byte by done. specialize (IH (a * 256 + x) (b * 256 + x)).
    replace (8 * Z.of_nat (S (length l))) with (8 + 8 * Z.of_nat (length l)) by lia.
    rewrite Z.pow_add_r by lia. change (2 ^ 8) with 256. lia. }
  intros acc. specialize (Hgen acc 0). lia.
Qed.

Lemma from_be_cons b l : is_byte b -> bytes_ok l -> from_be (b :: l) = b * 2 ^ (8 * Z.of_nat (length l)) + from_be l.
Proof.
  intros Hb Hl. unfold from_be at 1. cbn [from_be_acc]. rewrite from_be_acc_split by done.
  by rewrite lor_byte by done.
Qed.

Lemma minimal_unsigned_spec d :
  bytes_ok d -> from_be (minimal_unsigned d) = from_be d /\ bytes_ok (minimal_unsigned d) /\
  head (minimal_unsigned d) <> Some 0.
Proof.
  induction 1 as [|b d Hb Hd IH]; [split_and!; [done|constructor|done]|]. cbn [minimal_unsigned]. destruct (Z.eqb_spec b 0) as [->|Hne].
  - destruct IH as (Hv & Hok & Hh). split_and!; [|done|done]. rewrite Hv, from_be_cons by done. lia.
  - split_and!; [done|by constructor|]. cbn. congruence.
Qed.

Lemma unsigned_bits_spec d :
  bytes_ok d -> head d <> Some 0 -> d <> [] ->
  2 ^ (Z.of_nat (unsigned_bits d) - 1) <= from_be d < 2 ^ Z.of_nat (unsigned_bits d).
Proof.
  intros Hok Hh Hne. destruct d as [|b d]; [done|]. apply Forall_cons_iff in Hok as [Hb Hd]. cbn in Hh.
  assert (Hb0 : 0 < b < 256) by (unfold is_byte in Hb; assert (b <> 0) by congruence; lia).
  rewrite from_be_cons by done. pose proof (from_be_bound d Hd) as Hbound.
  pose proof (Z.log2_spec b ltac:(lia)) as Hlog. pose proof (Z.log2_nonneg b) as Hl0.
  assert (Hl7 : Z.log2 b <= 7) by (apply Z.lt_succ_r, Z.log2_lt_pow2; lia).
  assert (Hbits : Z.of_nat (unsigned_bits (b :: d)) = 8 * Z.of_nat (length d) + (Z.log2 b + 1)).
  { cbn [unsigned_bits length]. unfold leading_zeros_u8. destruct (Z.eqb_spec b 0); [lia|]. lia. }
  rewrite Hbits. replace (8 * Z.of_nat (length d) + (Z.log2 b + 1) - 1) with (Z.log2 b + 8 * Z.of_nat (length d)) by lia.
  rewrite (Z.pow_add_r 2 (Z.log2 b)), (Z.pow_add_r 2 (8 * Z.of_nat (length d))) by lia.
  replace (Z.log2 b + 1) with (Z.succ (Z.log2 b)) by lia. nia.
Qed.

Definition is_identity_error (e : AndroidTvError) : Prop := exists d, e = InvalidIdentity d.

#[local] Opaque MAX_CERTIFICATE_DER_BYTES MAX_PRIVATE_KEY_DER_BYTES.

Section Identity.
Context `{RsaCertificates} `{RsaKeys}.

Lemma rsa_parameters_yields der :
  yields (rsa_parameters_from_certificate der)
    (fun '(m, e) => exists rm re, from_der_certificate der = inr ([], inr (RSA rm re)) /\
       m = minimal_unsigned rm /\ e = minimal_unsigned re /\ m <> [] /\ e <> [] /\
       (0 < length der <= MAX_CERTIFICATE_DER_BYTES)%nat) is_identity_error.
Proof.
  assert (Herr : forall d, is_identity_error (invalid_identity d)) by (intros d; by exists d).
  unfold rsa_parameters_from_certificate. case_bool_decide as Hne; [apply Herr|].
  destruct (Nat.ltb_spec MAX_CERTIFICATE_DER_BYTES (length der)); [apply Herr|]. cbn [orb].
  eapply yields_bind; [apply yields_map_err; intros; apply Herr|]. intros [remainder key] Hd.
  case_bool_decide as Hr; [apply Herr|].
  eapply yields_bind; [apply yields_map_err; intros; apply Herr|]. intros key' Hk.
  destruct key' as [rm re|]; [|apply Herr]. case_bool_decide; [apply Herr|]. case_bool_decide; [apply Herr|]. cbn.
  assert (remainder = []) as -> by (by destruct remainder; [|destruct Hr]).
  exists rm, re. split_and!; try done; [by rewrite Hd, Hk|destruct der; [done|cbn; lia]].
Qed.

Definition key_size_ok (key : bytes) : Prop := (0 < length key <= MAX_PRIVATE_KEY_DER_BYTES)%nat.

Lemma key_size_test key :
  key_size_ok key <-> bool_decide (key = []) || (MAX_PRIVATE_KEY_DER_BYTES <? length key)%nat = false.
Proof.
  unfold key_size_ok. rewrite orb_false_iff, bool_decide_eq_false, Nat.ltb_ge. destruct key; cbn [length].
  - split; [lia|intros [? _]; congruence].
  - split; [intros; split; [done|lia]|lia].
Qed.

(** What [from_der] accepts. *)
Lemma from_der_ok c k identity :
  from_der c k = Ok identity <->
  certificate_der identity = c /\ private_key_pkcs8_der identity = k /\ key_size_ok k /\
  rsa_parameters_from_certificate c = Ok (modulus identity, exponent identity) /\
  (RSA_BITS <= unsigned_bits (modulus identity))%nat /\
  from_pkcs8_der k = inr (inr tt, (modulus identity, exponent identity)).
Proof.
  unfold from_der. split.
  - destruct (_ || _) eqn:Hk; [done|]. apply key_size_test in Hk.
    destruct (rsa_parameters_from_certificate c) as [[m e]| |]; cbn [bind]; [|done|done].
    destruct (Nat.ltb_spec (unsigned_bits m) RSA_BITS); [done|].
    destruct (from_pkcs8_der k) as [|[[|[]] [pm pe]]]; cbn; [done|done|].
    case_bool_decide as Hm; [done|]. case_bool_decide as He; [done|]. cbn. intros [= <-]. cbn.
    cbn in Hm, He. subst. done.
  - intros (<- & <- & Hk & -> & Hb & ->). apply key_size_test in Hk as ->. cbn [bind].
    destruct (Nat.ltb_spec (unsigned_bits (modulus identity)) RSA_BITS); [lia|]. cbn.
    rewrite !bool_decide_eq_false_2 by auto. by destruct identity.
Qed.

(** C34: A credential survives being stored and imported again, and nothing else
    does: the certificate of one imported credential with the private key of
    another is accepted exactly when the two have the same public key, and is
    otherwise refused because the certificate does not match the key. *)
Theorem credentials_do_not_mix ca ka a cb kb b :
  from_der ca ka = Ok a -> from_der cb kb = Ok b ->
  from_der (certificate_der a) (private_key_pkcs8_der a) = Ok a /\
  from_der (certificate_der a) (private_key_pkcs8_der b) =
    (if bool_decide ((modulus a, exponent a) = (modulus b, exponent b))
     then Ok (MkIdentity (certificate_der a) (private_key_pkcs8_der b) (modulus a) (exponent a))
     else Err (invalid_identity "certificate public key does not match the private key")).
Proof.
  intros (<- & <- & Hka & Hca & Hba & Hpa)%from_der_ok (<- & <- & Hkb & Hcb & Hbb & Hpb)%from_der_ok.
  split; [by apply from_der_ok|]. unfold from_der. apply key_size_test in Hkb as ->. rewrite Hca. cbn [bind].
  destruct (Nat.ltb_spec (unsigned_bits (modulus a)) RSA_BITS); [lia|]. rewrite Hpb. cbn [map_err bind fst snd].
  destruct (decide (modulus b = modulus a)) as [Hm|Hm]; [destruct (decide (exponent b = exponent a)) as [He|He]|].
  - by rewrite Hm, He, !bool_decide_eq_false_2, bool_decide_eq_true_2 by auto.
  - rewrite (bool_decide_eq_true_2 (exponent b <> _)), orb_true_r, (bool_decide_eq_false_2 ((_, _) = _)) by congruence. done.
  - rewrite (bool_decide_eq_true_2 (modulus b <> _)), (bool_decide_eq_false_2 ((_, _) = _)) by congruence. done.
Qed.

(** C35: An imported credential is consistent: its certificate parses in full and
    carries an RSA key, the private key validates and has exactly the
    certificate's parameters, and the modulus is a number of at least 2048 bits.
    Anything else is an invalid identity; nothing panics. *)
Theorem from_der_sound (certificate key : bytes) :
  yields (from_der certificate key)
    (fun identity => certificate_der identity = certificate /\ private_key_pkcs8_der identity = key /\
       exists rm re, from_der_certificate certificate = inr ([], inr (RSA rm re)) /\
         from_pkcs8_der key = inr (inr tt, (modulus identity, exponent identity)) /\
         modulus identity = minimal_unsigned rm /\ exponent identity = minimal_unsigned re /\
         (bytes_ok rm -> 2 ^ 2047 <= from_be rm))
    is_identity_error.
Proof.
  assert (Herr : forall d, is_identity_error (invalid_identity d)) by (intros d; by exists d).
  unfold from_der. destruct (_ || _); [apply Herr|].
  eapply yields_bind; [apply rsa_parameters_yields|]. intros [m e] (rm & re & Hcert & Hm & He & Hmne & _).
  destruct (Nat.ltb_spec (unsigned_bits m) RSA_BITS) as [|Hbits]; [apply Herr|].
  eapply yields_bind; [apply yields_map_err; intros; apply Herr|]. intros [valid public] Hkey.
  eapply yields_bind; [apply yields_map_err; intros; apply Herr|]. intros [] Hvalid.
  case_bool_decide as H1'; [apply Herr|]. case_bool_decide as H2'; [apply Herr|]. cbn.
  split_and!; try done. exists rm, re. destruct public as [pm pe]. cbn in H1', H2'.
  subst pm pe. split_and!; try done; [by rewrite Hkey, Hvalid|].
  intros Hok. destruct (minimal_unsigned_spec rm Hok) as (Hv & Hok' & Hh). rewrite <- Hv, <- Hm in *.
  pose proof (unsigned_bits_spec m Hok' Hh Hmne) as [Hlow _]. etrans; [|exact Hlow].
  apply Z.pow_le_mono_r; [lia|]. unfold RSA_BITS in Hbits. lia.
Qed.
End Identity.

(** ** Generation *)

Section Generation.
Context {G : Type} `{RsaCertificates} `{RsaKeys} `{CertificateIssuer G}.

(** The parameters a certificate is signed with. *)
Definition client_parameters (common_name : string) (before after : OffsetDateTime) (p : ClientParams) : Prop :=
  (exists defaults, certificate_params_new ["chromiacast.local"] = inr defaults /\ other_params p = other_params defaults) /\
  distinguished_name p = push_common_name distinguished_name_new common_name /\
  is_ca p = ca_constrained 0 /\ serial_number p = Some (serial_number_from 1000) /\
  date_time_sub before (days 1) = Some (not_before p) /\ date_time_add after (days 3650) = Some (not_after p).

(** Why issuing fails: the name is refused, a library's call fails, or what was
    issued does not import. *)
Inductive issue_failure (g : G) (common_name : string) : AndroidTvError -> Prop :=
| bad_name e : validate_common_name common_name = Err e -> issue_failure g common_name e
| no_key g' e : rsa_private_key_new g RSA_BITS = (g', inl e) ->
    issue_failure g common_name (crypto_error ("generate RSA key: " +:+ e))
| no_der g' key e : rsa_private_key_new g RSA_BITS = (g', inr key) -> to_pkcs8_der key = inl e ->
    issue_failure g common_name (crypto_error ("encode RSA key: " +:+ e))
| no_pair key der e : to_pkcs8_der key = inr der -> key_pair_from_pkcs8_der_rsa_sha256 der = inl e ->
    issue_failure g common_name (crypto_error ("load RSA key for certificate: " +:+ e))
| no_parameters e : certificate_params_new ["chromiacast.local"] = inl e ->
    issue_failure g common_name (crypto_error ("build certificate parameters: " +:+ e))
| no_certificate g1 g2 pair before after p e : client_parameters common_name before after p ->
    self_signed g1 p pair = (g2, inl e) ->
    issue_failure g common_name (crypto_error ("sign client certificate: " +:+ e))
| no_import g1 g2 key der pair before after p certificate e : client_parameters common_name before after p ->
    to_pkcs8_der key = inr der -> key_pair_from_pkcs8_der_rsa_sha256 der = inr pair ->
    self_signed g1 p pair = (g2, inr certificate) -> from_der certificate der = Err e ->
    issue_failure g common_name e.

Lemma from_der_no_panic certificate key : from_der certificate key <> Panic.
Proof.
  unfold from_der. destruct (_ || _); [done|]. pose proof (rsa_parameters_yields certificate) as Hc.
  destruct (rsa_parameters_from_certificate certificate) as [[m e]|e|]; cbn [bind]; [|done|done].
  destruct (_ <? _)%nat; [done|]. destruct (from_pkcs8_der key) as [|[[|[]] [pm pe]]]; cbn; [done..|]. by destruct (_ || _).
Qed.

(** Generation: a credential it returns was signed over exactly the client's
    parameters (its name, the fixed alternative name, serial 1000, a constrained
    authority, valid from a day before one clock reading to 3650 days after the
    next) with the key it stores, which was made for 2048 bits, and it imports
    back as itself.  It fails only for a refused name, with the text of the
    library call that failed, or because what was issued does not import; and
    it panics only where the arithmetic on the clock does. *)
Theorem generate_spec (common_name : string) (g : G) :
  match generate common_name g with
  | (_, Ok identity) =>
    validate_common_name common_name = Ok tt /\
    from_der (certificate_der identity) (private_key_pkcs8_der identity) = Ok identity /\
    exists g1 g2 g3 g4 key before after pair p, rsa_private_key_new g RSA_BITS = (g1, inr key) /\
      to_pkcs8_der key = inr (private_key_pkcs8_der identity) /\
      now_utc g1 = (g2, before) /\ now_utc g2 = (g3, after) /\
      client_parameters common_name before after p /\
      key_pair_from_pkcs8_der_rsa_sha256 (private_key_pkcs8_der identity) = inr pair /\
      self_signed g3 p pair = (g4, inr (certificate_der identity))
  | (_, Err e) => issue_failure g common_name e
  | (_, Panic) => exists g1, let t := snd (now_utc g1) in
      date_time_sub t (days 1) = None \/ date_time_add t (days 3650) = None
  end.
Proof.
  unfold generate, bind_eff at 1, ret at 1. destruct (validate_common_name common_name) as [[]|e|] eqn:Hname;
    [|by constructor|unfold validate_common_name in Hname; by destruct (_ || _)].
  unfold bind_eff at 1, new_rsa_key. destruct (rsa_private_key_new g RSA_BITS) as [g1 [e|key]] eqn:Hkey;
    cbn [map_err]; [by econstructor|].
  unfold bind_eff at 1, ret at 1. destruct (to_pkcs8_der key) as [e|der] eqn:Hder; cbn [map_err]; [by eapply no_der|].
  unfold bind_eff at 1, ret at 1. destruct (key_pair_from_pkcs8_der_rsa_sha256 der) as [e|pair] eqn:Hpair;
    cbn [map_err]; [by eapply no_pair|].
  unfold bind_eff at 1, ret at 1. destruct (certificate_params_new _) as [e|defaults] eqn:Hdef;
    cbn [map_err]; [by apply no_parameters|].
  unfold bind_eff at 1, read_now_utc at 1. destruct (now_utc g1) as [g2 before] eqn:Hbefore.
  unfold bind_eff at 1, ret at 1. destruct (date_time_sub before (days 1)) as [t1|] eqn:Ht1; cbn [or_panic];
    [|exists g1; rewrite Hbefore; by left].
  unfold bind_eff at 1, read_now_utc at 1. destruct (now_utc g2) as [g3 after] eqn:Hafter.
  unfold bind_eff at 1, ret at 1. destruct (date_time_add after (days 3650)) as [t2|] eqn:Ht2; cbn [or_panic];
    [|exists g2; rewrite Hafter; by right].
  set (p := _ <| not_after := t2 |>).
  assert (Hp : client_parameters common_name before after p) by (split_and!; try done; by exists defaults).
  unfold bind_eff, sign_certificate. destruct (self_signed g3 p pair) as [g4 [e|certificate]] eqn:Hsign;
    cbn [map_err]; [by eapply no_certificate|]. unfold ret.
  pose proof (from_der_no_panic certificate der) as Hnp.
  destruct (from_der certificate der) as [identity|e|] eqn:Hd; [|by eapply no_import|done].
  pose proof (proj1 (from_der_ok _ _ _) Hd) as (<- & <- & _). split_and!; try done.
  by exists g1, g2, g3, g4, key, before, after, pair, p.
Qed.
End Generation.

(** A 2048-bit modulus that is its own certificate and key. *)
Module ToyIdentity.
#[local] Instance toy_certificates : RsaCertificates :=
  {| from_der_certificate d := inr ([], inr (RSA (0 :: d) [0; 1; 0; 1])) |}.
#[local] Instance toy_keys : RsaKeys := {| from_pkcs8_der d := inr (inr tt, (d, [1; 0; 1])) |}.

Lemma from_der_sound_witness :
  2 ^ 2047 <= from_be (0 :: replicate 256 200) /\ is_identity_error (invalid_identity "RSA key is smaller than 2048 bits").
Proof.
  pose proof (from_der_sound (replicate 256 200) (replicate 256 200)) as Hgood.
  pose proof (from_der_sound (replicate 255 200) [1]) as Hbad.
  assert (He : from_der (replicate 256 200) (replicate 256 200) =
    Ok (MkIdentity (replicate 256 200) (replicate 256 200) (replicate 256 200) [1; 0; 1])) by (vm_compute; reflexivity).
  assert (Hx : from_der (replicate 255 200) [1] = Err (invalid_identity "RSA key is smaller than 2048 bits"))
    by (vm_compute; reflexivity).
  rewrite He in Hgood. rewrite Hx in Hbad. split; [|exact Hbad].
  destruct Hgood as (_ & _ & rm & re & Hcert & _ & _ & _ & Hbits). 
  assert (rm = 0 :: replicate 256 200) as -> by (change (from_der_certificate (replicate 256 200))
    with (@inr string _ (@nil Z, @inr string _ (RSA (0 :: replicate 256 200) [0; 1; 0; 1]))) in Hcert; congruence).
  apply Hbits. constructor; [split; [apply Z.leb_le|apply Z.ltb_lt]; reflexivity|].
  apply Forall_replicate. split; [apply Z.leb_le|apply Z.ltb_lt]; reflexivity.
Defined.

Lemma credentials_do_not_mix_witness :
  from_der (replicate 256 200) (replicate 256 201) =
    Err (invalid_identity "certificate public key does not match the private key").
Proof.
  set (a := MkIdentity (replicate 256 200) (replicate 256 200) (replicate 256 200) [1; 0; 1]).
  set (b := MkIdentity (replicate 256 201) (replicate 256 201) (replicate 256 201) [1; 0; 1]).
  destruct (credentials_do_not_mix (replicate 256 200) (replicate 256 200) a (replicate 256 201) (replicate 256 201) b)
    as [_ Hmix]; [vm_compute; reflexivity|vm_compute; reflexivity|].
  rewrite bool_decide_eq_false_2 in Hmix by (vm_compute; discriminate). exact Hmix.
Defined.

End ToyIdentity.
