(* ===== verification/AndroidPairing.v ===== *)
(** * Pairing with an Android TV device ([src/src/android_tv/pairing.rs],
    [connection.rs])

    The exchange up to the PIN the device displays, and the secret that proves
    the user read it.  A TLS connection with client authentication comes from
    the class [TvDialer]. *)

From Stdlib Require Import Ascii.
From stdpp Require Import strings.
From S2P Require Import Prelude Time Errors Text CastProto CastFraming EventLoop Session Auth Net Control Tls AndroidFraming AndroidTypes AndroidIdentity.

Definition ANDROID_TV_REMOTE_PORT : Z := 6466.
Definition ANDROID_TV_PAIRING_PORT : Z := 6467.
Definition CONNECT_TIMEOUT : Duration := from_secs 5.
Definition EXCHANGE_TIMEOUT : Duration := from_secs 5.
Definition SERVICE_NAME : string := "atvremote".
Definition MAX_PEER_NAME_BYTES : nat := 256.
Definition MAX_CLIENT_NAME_BYTES : nat := 128.

(** ** The pairing code *)

(** [u8::is_ascii_hexdigit]. *)
Definition is_ascii_hexdigit (b : Z) : bool :=
  ((48 <=? b) && (b <=? 57)) || ((97 <=? b) && (b <=? 102)) || ((65 <=? b) && (b <=? 70)).

Definition hex_value (b : Z) : Result AndroidTvError Z :=
  if (48 <=? b) && (b <=? 57) then Ok (b - 48)
  else if (97 <=? b) && (b <=? 102) then Ok (b - 97 + 10)
  else if (65 <=? b) && (b <=? 70) then Ok (b - 65 + 10)
  else Panic.

(** [bytes.chunks_exact(2)]. *)
Fixpoint hex_pairs (d : bytes) : Result AndroidTvError bytes :=
  match d with
  | a :: b :: d' =>
    let? high := hex_value a in
    let? low := hex_value b in
    let? rest := hex_pairs d' in
    Ok (Z.lor (wrap_u8 (Z.shiftl high 4)) low :: rest)
  | _ => Ok []
  end.

Definition parse_pairing_code (pairing_code : string) : Result AndroidTvError bytes :=
  let d := utf8 pairing_code in
  if negb (length d =? 6)%nat || negb (forallb is_ascii_hexdigit d) then Err InvalidPairingCode
  else hex_pairs d.

Definition compute_pairing_secret `{Ring} (client_modulus client_exponent server_modulus server_exponent : bytes)
    (pairing_code : string) : Result AndroidTvError bytes :=
  let? code := parse_pairing_code pairing_code in
  let? tail := slice code 1 (length code) in
  let secret := sha256 (client_modulus ++ client_exponent ++ server_modulus ++ server_exponent ++ tail) in
  let? first := index secret 0 in
  let? expected := index code 0 in
  if negb (first =? expected) then Err InvalidPairingCode else Ok secret.

(** ** Names *)

Definition validate_client_name (client_name : string) : Result AndroidTvError unit :=
  if bool_decide (client_name = "") || (MAX_CLIENT_NAME_BYTES <? length (utf8 client_name))%nat
     || existsb is_control (chars (utf8 client_name))
  then Err (InvalidClientInfo "pairing client name must be 1..=128 bytes without control characters")
  else Ok tt.

Definition validate_peer_name (peer_name : string) : Result AndroidTvError string :=
  if (MAX_PEER_NAME_BYTES <? length (utf8 peer_name))%nat || existsb is_control (chars (utf8 peer_name))
  then Err (tv_protocol_error "pairing server name is invalid") else Ok peer_name.

(** ** A framed connection *)

(** What passed: a message written and flushed, a message whose write failed or
    timed out (any part of it may be out), a frame read. *)
Inductive Traffic :=
| Wrote (message : bytes)
| Cut (message : bytes)
| Heard (frame : bytes).

(** The stream, the reader's progress, the writer, and what passed so far. *)
Record Link (Rd Wr : Type) := MkLink {
  ln_stream : Rd;
  ln_reader : VarintReader;
  ln_writer : Wr;
  ln_log : list Traffic;
}.
Arguments MkLink {Rd Wr} ln_stream ln_reader ln_writer ln_log.
Arguments ln_stream {Rd Wr} l.
Arguments ln_reader {Rd Wr} l.
Arguments ln_writer {Rd Wr} l.
Arguments ln_log {Rd Wr} l.

(** The orderly shutdown of the write half. *)
Class Shutdown (Wr : Type) := shutdown : Wr -> Wr * WriteOutcome.

Section Exchange.
Context {Rd Wr : Type} `{AsyncRead Rd} `{ControlWriter Wr} `{Shutdown Wr}.
Abbreviation link := (Link Rd Wr).
Abbreviation Exchange := (Eff link AndroidTvError).

(** [timeout(EXCHANGE_TIMEOUT, writer.write_message(message))]. *)
Definition write_message_timed (message : bytes) (operation : string) : Exchange unit := fun l =>
  match VarintWriter.frame message with
  | Err e => (l, Err (TvIo e))
  | Panic => (l, Panic)
  | Ok frame =>
    match write_frame (ln_writer l) frame with
    | (w, WriteDone) => (MkLink (ln_stream l) (ln_reader l) w (ln_log l ++ [Wrote message]), Ok tt)
    | (w, WriteFailed e) => (MkLink (ln_stream l) (ln_reader l) w (ln_log l ++ [Cut message]), Err (TvIo e))
    | (w, WriteTimedOut) => (MkLink (ln_stream l) (ln_reader l) w (ln_log l ++ [Cut message]), Err (TvTimedOut operation))
    end
  end.

(** [timeout(EXCHANGE_TIMEOUT, reader.read_frame())]. *)
Definition read_frame_timed (operation : string) : Exchange bytes := fun l =>
  let '(stream, reader, poll) := VarintReader.read_frame (ln_stream l) (ln_reader l) in
  (MkLink stream reader (ln_writer l)
     (ln_log l ++ match poll with Ready (Ok frame) => [Heard frame] | _ => [] end),
   match poll with
   | Dropped => Err (TvTimedOut operation)
   | Ready (Ok frame) => Ok frame
   | Ready (Err e) => Err (TvIo e)
   | Ready Panic => Panic
   end).

(** ** The exchange *)

Context `{Prost PairingEnvelope} `{Ring}.

Definition read_pairing (operation : string) : Exchange PairingEnvelope :=
  let! frame := read_frame_timed operation in
  let! message := ret (map_err (prost_decode frame)
    (fun e => tv_protocol_error ("decode " +:+ operation +:+ ": " +:+ e))) in
  ret (if negb (status message =? PAIRING_STATUS_OK) then Err (PairingRejected (status message)) else
       if (protocol_version message =? 0) || (2 <? protocol_version message)
       then Err (tv_protocol_error ("unsupported pairing protocol version " +:+ display (protocol_version message)))
       else Ok message).

Definition write_pairing (message : PairingEnvelope) (operation : string) : Exchange unit :=
  write_message_timed (prost_encode message) operation.

Record PairingExchange := MkPairingExchange {
  client_modulus : bytes;
  client_exponent : bytes;
  server_modulus : bytes;
  server_exponent : bytes;
  server_name : option string;
}.

Definition request_message (client_name : string) : PairingEnvelope :=
  PairingEnvelope.ok <| pairing_request := Some (MkPairingRequest SERVICE_NAME (Some client_name)) |>.
Definition options_message : PairingEnvelope :=
  PairingEnvelope.ok <| options :=
    Some (MkPairingOptions [PairingEncoding.hexadecimal_pin] [] (Some ROLE_INPUT)) |>.
Definition configuration_message : PairingEnvelope :=
  PairingEnvelope.ok <| configuration :=
    Some (MkPairingConfiguration (Some PairingEncoding.hexadecimal_pin) ROLE_INPUT) |>.
Definition secret_message (s : bytes) : PairingEnvelope :=
  PairingEnvelope.ok <| secret := Some (MkPairingSecret s) |>.

Definition begin_exchange (client_modulus client_exponent server_modulus server_exponent : bytes)
    (client_name : string) : Exchange PairingExchange :=
  let! _ := write_pairing (request_message client_name) "pairing request" in
  let! acknowledgement := read_pairing "pairing acknowledgement" in
  let! ack := ret (ok_or (pairing_request_ack acknowledgement)
    (tv_protocol_error "expected pairing-request acknowledgement")) in
  let! server_name := ret (
    match ack_server_name ack with
    | None => Ok None
    | Some name =>
      let? name := validate_peer_name name in
      Ok (if bool_decide (name = "") then None else Some name)
    end) in
  let! _ := write_pairing options_message "pairing options" in
  let! device := read_pairing "device pairing options" in
  let! device_options := ret (ok_or (options device) (tv_protocol_error "expected device pairing options")) in
  let! _ := ret (if negb (existsb PairingEncoding.is_hexadecimal_pin (output_encodings device_options))
                 then Err UnsupportedPairingConfiguration else Ok tt) in
  let! _ := write_pairing configuration_message "pairing configuration" in
  let! acknowledgement := read_pairing "pairing configuration acknowledgement" in
  let! _ := ret (ok_or (configuration_ack acknowledgement)
    (tv_protocol_error "expected pairing-configuration acknowledgement")) in
  ret (Ok (MkPairingExchange client_modulus client_exponent server_modulus server_exponent server_name)).

(** The result of the shutdown is ignored. *)
Definition shutdown_ignored : Exchange unit := fun l =>
  let '(w, _) := shutdown (ln_writer l) in (MkLink (ln_stream l) (ln_reader l) w (ln_log l), Ok tt).

Definition finish_exchange (exchange : PairingExchange) (pairing_code : string) : Exchange unit :=
  let! s := ret (compute_pairing_secret (client_modulus exchange) (client_exponent exchange)
                   (server_modulus exchange) (server_exponent exchange) pairing_code) in
  let! _ := write_pairing (secret_message s) "pairing secret" in
  let! acknowledgement := read_pairing "pairing-secret acknowledgement" in
  let! _ := ret (ok_or (secret_ack acknowledgement)
    (tv_protocol_error "expected pairing-secret acknowledgement")) in
  shutdown_ignored.
End Exchange.

(** ** Connecting *)

(** TCP with [TCP_NODELAY], rustls's client configuration, the handshake. *)
Class TvDialer `{RustlsProvider} (N Rd Wr : Type) := {
  TvTcpStream : Type;
  tv_tcp_connect : N -> SocketAddr -> N * Attempt TvTcpStream;
  set_nodelay : N -> TvTcpStream -> N * option IoError;
  ClientConfig : Type;
  with_client_auth_cert : ServerCertVerifier -> bytes -> bytes -> string + ClientConfig;
  tv_tls_connect : N -> ClientConfig -> IpAddr -> TvTcpStream -> N * Attempt (TlsStream Rd Wr);
}.

Definition peer_certificate {Rd Wr} (stream : TlsStream Rd Wr) : Result AndroidTvError bytes :=
  ok_or (peer_certificates stream ≫= head) (TvConnection "device did not present a TLS certificate").

Section Connect.
Context {N Rd Wr : Type} `{RustlsProvider} `{!TvDialer N Rd Wr}.

Definition connect (address : SocketAddr) (identity : AndroidTvRemoteIdentity)
  : Eff N AndroidTvError (TlsStream Rd Wr) := fun n =>
  let addr := display_socket_addr address in
  match tv_tcp_connect n address with
  | (n, Pending) => (n, Err (TvTimedOut "TCP connection"))
  | (n, Failed e) => (n, Err (TvConnection ("connect to " +:+ addr +:+ ": " +:+ e)))
  | (n, Completed tcp) =>
    match set_nodelay n tcp with
    | (n, Some e) => (n, Err (TvIo e))
    | (n, None) =>
      match with_client_auth_cert SelfSignedCertificateVerifier (certificate_der identity)
              (private_key_pkcs8_der identity) with
      | inl e => (n, Err (InvalidIdentity ("configure mutual TLS: " +:+ e)))
      | inr configuration =>
        match tv_tls_connect n configuration (ip_of address) tcp with
        | (n, Pending) => (n, Err (TvTimedOut "TLS handshake"))
        | (n, Failed e) => (n, Err (TvConnection ("TLS with " +:+ addr +:+ ": " +:+ e)))
        | (n, Completed stream) => (n, let? _ := peer_certificate stream in Ok stream)
        end
      end
    end
  end.

Context `{AsyncRead Rd} `{ControlWriter Wr} `{Prost PairingEnvelope} `{RsaCertificates}.

(** The exchange and the link it continues on. *)
Definition begin_address (address : SocketAddr) (identity : AndroidTvRemoteIdentity) (client_name : string)
  : Eff N AndroidTvError (Link Rd Wr * PairingExchange) :=
  let! _ := ret (validate_client_name client_name) in
  let! stream := connect address identity in
  let! certificate := ret (peer_certificate stream) in
  let! (server_modulus, server_exponent) := ret (
    match rsa_parameters_from_certificate certificate with
    | Ok parameters => Ok parameters
    | Err e => Err (tv_protocol_error ("device TLS certificate is unusable for pairing: " +:+ tv_error_to_string e))
    | Panic => Panic
    end) in
  ret (match begin_exchange (modulus identity) (exponent identity) server_modulus server_exponent client_name
               (MkLink (read_half stream) VarintReader.new (write_half stream) []) with
       | (l, Ok exchange) => Ok (l, exchange)
       | (_, Err e) => Err e
       | (_, Panic) => Panic
       end).

Definition begin (ip : IpAddr) := begin_address (socket_addr_new ip ANDROID_TV_PAIRING_PORT).
End Connect.
