(* ===== verification/AndroidPairingProps.v ===== *)
(** * Theorems about Android TV pairing *)

From Stdlib Require Import Ascii.
From stdpp Require Import strings.
From S2P Require Import Prelude Time Errors Text CastProto CastFraming EventLoop Session Auth AuthProps Net Control Tls AndroidFraming AndroidTypes AndroidIdentity AndroidPairing.

(** ** The pairing code *)

(** Six hexadecimal digits denote three bytes. *)
Definition code_denotes (code : string) (c : bytes) : Prop :=
  exists a b d e f g : Z, (hex_digit <$> String.list_ascii_of_string code) =
    [Some a; Some b; Some d; Some e; Some f; Some g] /\ c = [16 * a + b; 16 * d + e; 16 * f + g].

Lemma hex_digit_range c v : hex_digit c = Some v -> 0 <= v < 16.
Proof.
  unfold hex_digit. cbv zeta. generalize (Z.of_nat (nat_of_ascii c)). intros n Hn.
  repeat (destruct (_ && _) eqn:? in Hn; [injection Hn as <-; lia|]). done.
Qed.

Lemma hex_value_digit c :
  hex_value (Z.of_nat (nat_of_ascii c)) =
  match hex_digit c with Some v => Ok v | None => Panic end.
Proof.
  unfold hex_value, hex_digit. cbv zeta. repeat (destruct (_ && _); [f_equal; lia|]). done.
Qed.

Lemma hexdigit_digit c : is_ascii_hexdigit (Z.of_nat (nat_of_ascii c)) = true <-> is_Some (hex_digit c).
Proof.
  unfold is_ascii_hexdigit, hex_digit. cbv zeta.
  destruct ((48 <=? _) && _); [cbn; split; [by eexists|done]|].
  destruct ((97 <=? _) && _); [cbn; split; [by eexists|done]|].
  destruct ((65 <=? _) && _); cbn; split; done || (by eexists) || (by intros []).
Qed.

Lemma hex_pair_byte a b : 0 <= a < 16 -> 0 <= b < 16 -> Z.lor (wrap_u8 (Z.shiftl a 4)) b = 16 * a + b.
Proof.
  intros Ha Hb. unfold wrap_u8. rewrite Z.shiftl_mul_pow2, Z.mod_small by lia.
  rewrite <- Z.shiftl_mul_pow2 by lia. rewrite lor_add_disjoint by lia. lia.
Qed.

Lemma parse_pairing_code_spec code c : parse_pairing_code code = Ok c <-> code_denotes code c.
Proof.
  unfold parse_pairing_code, code_denotes.
  destruct code as [|c1 [|c2 [|c3 [|c4 [|c5 [|c6 [|c7 code]]]]]]];
    try (split; [done|intros (?&?&?&?&?&?&Heq&_); cbn in Heq; congruence]).
  cbn [utf8 length Nat.eqb negb orb String.list_ascii_of_string fmap list_fmap forallb].
  assert (Hd : forall x, is_ascii_hexdigit (Z.of_nat (nat_of_ascii x)) = match hex_digit x with Some _ => true | None => false end).
  { intros x. pose proof (hexdigit_digit x) as Hx. destruct (hex_digit x), (is_ascii_hexdigit _); try done; try tauto.
    - by apply Hx; eexists.
    - destruct Hx as [Hx _]. by destruct (Hx eq_refl). }
  rewrite !Hd, !andb_true_r. cbn [hex_pairs]. rewrite !hex_value_digit.
  destruct (hex_digit c1) as [a|] eqn:E1; [|split; [done|intros (?&?&?&?&?&?&Heq&_); congruence]].
  destruct (hex_digit c2) as [b|] eqn:E2; [|split; [done|intros (?&?&?&?&?&?&Heq&_); congruence]].
  destruct (hex_digit c3) as [d|] eqn:E3; [|split; [done|intros (?&?&?&?&?&?&Heq&_); congruence]].
  destruct (hex_digit c4) as [e|] eqn:E4; [|split; [done|intros (?&?&?&?&?&?&Heq&_); congruence]].
  destruct (hex_digit c5) as [f|] eqn:E5; [|split; [done|intros (?&?&?&?&?&?&Heq&_); congruence]].
  destruct (hex_digit c6) as [g|] eqn:E6; [|split; [done|intros (?&?&?&?&?&?&Heq&_); congruence]].
  cbn [andb negb bind]. rewrite !hex_pair_byte by (by eapply hex_digit_range). split.
  - intros [= <-]. by exists a, b, d, e, f, g.
  - by intros (?&?&?&?&?&?&[= <- <- <- <- <- <-]& ->).
Qed.

Lemma parse_pairing_code_yields code :
  yields (parse_pairing_code code) (code_denotes code) (fun e => e = InvalidPairingCode).
Proof.
  destruct (parse_pairing_code code) as [c|e|] eqn:Hp; cbn.
  - by apply parse_pairing_code_spec.
  - unfold parse_pairing_code in Hp. destruct (_ || _); [congruence|].
    exfalso. revert Hp. generalize (utf8 code) as d.
    assert (Hgo : forall n d, (length d < n)%nat -> hex_pairs d <> Err e).
    { induction n as [|n IH]; intros d Hn; [lia|]. destruct d as [|x [|y d]]; cbn [hex_pairs]; [done..|].
      assert (Hv : forall z, hex_value z <> Err e) by (intros z; unfold hex_value; by repeat case_match).
      pose proof (Hv x). destruct (hex_value x); cbn [bind]; [|congruence|done].
      pose proof (Hv y). destruct (hex_value y); cbn [bind]; [|congruence|done].
      pose proof (IH d ltac:(cbn in Hn; lia)). by destruct (hex_pairs d); cbn [bind]. }
    intros d. apply (Hgo (S (length d)) d). lia.
  - unfold parse_pairing_code in Hp. destruct (_ || _) eqn:Hok; [done|].
    apply orb_false_iff in Hok as [_ Hall]. apply negb_false_iff in Hall.
    revert Hp. assert (Hgo : forall n s, (String.length s < n)%nat -> forallb is_ascii_hexdigit (utf8 s) = true ->
      hex_pairs (utf8 s) <> Panic); [|intros Hp; by apply (Hgo (S (String.length code)) code ltac:(lia) Hall)].
    clear. induction n as [|n IH]; intros s Hn Hall; [lia|].
    destruct s as [|x [|y s]]; cbn [utf8 hex_pairs]; [done..|]. cbn [utf8 forallb] in Hall.
    apply andb_true_iff in Hall as [Hx Hall]. apply andb_true_iff in Hall as [Hy Hall].
    rewrite !hex_value_digit. apply hexdigit_digit in Hx as [vx ->], Hy as [vy ->]. cbn [bind].
    pose proof (IH s ltac:(cbn in Hn; lia) Hall). by destruct (hex_pairs (utf8 s)).
Qed.

Section Secret.
Context `{Ring}.

Lemma compute_secret_yields (cm ce sm se : bytes) (code : string) :
  yields (compute_pairing_secret cm ce sm se code) (fun _ => True) (fun e => e = InvalidPairingCode).
Proof.
  unfold compute_pairing_secret. eapply yields_bind; [apply parse_pairing_code_yields|].
  intros c (a & b & d & e & f & g & _ & ->). unfold slice. cbn [length Nat.leb andb Nat.sub drop take bind].
  pose proof (sha256_length (cm ++ ce ++ sm ++ se ++ [16 * d + e; 16 * f + g])) as Hlen.
  destruct (sha256 _) as [|x s]; [done|]. cbn [index lookup list_lookup bind]. by destruct (negb _).
Qed.

(** The decision on a code that parses. *)
Lemma compute_pairing_secret_parsed cm ce sm se code c0 c1 c2 :
  parse_pairing_code code = Ok [c0; c1; c2] ->
  compute_pairing_secret cm ce sm se code =
  if bool_decide (head (sha256 (cm ++ ce ++ sm ++ se ++ [c1; c2])) = Some c0)
  then Ok (sha256 (cm ++ ce ++ sm ++ se ++ [c1; c2])) else Err InvalidPairingCode.
Proof.
  intros Hp. unfold compute_pairing_secret. rewrite Hp. cbn [bind slice length Nat.leb Nat.sub drop take].
  pose proof (sha256_length (cm ++ ce ++ sm ++ se ++ [c1; c2])) as Hlen.
  destruct (sha256 (cm ++ ce ++ sm ++ se ++ [c1; c2])) as [|b s] eqn:Hs; [done|].
  unfold slice. cbn [length Nat.leb andb Nat.sub drop take bind]. rewrite Hs. cbn [index lookup list_lookup bind head].
  destruct (Z.eqb_spec b c0) as [->|Hne]; cbn [negb]; [by rewrite bool_decide_eq_true_2|].
  by rewrite bool_decide_eq_false_2 by congruence.
Qed.

(** A code that does not do is an invalid one. *)
Lemma compute_pairing_secret_total cm ce sm se code :
  yields (compute_pairing_secret cm ce sm se code)
    (fun s => exists c0 c1 c2, code_denotes code [c0; c1; c2] /\
       s = sha256 (cm ++ ce ++ sm ++ se ++ [c1; c2]) /\ head s = Some c0)
    (fun e => e = InvalidPairingCode).
Proof.
  pose proof (parse_pairing_code_yields code) as Hp.
  destruct (parse_pairing_code code) as [c|e|] eqn:Hc; [|cbn in Hp; subst; unfold compute_pairing_secret; by rewrite Hc|done].
  destruct Hp as (a & b & d & e & f & g & Hmap & ->). rewrite (compute_pairing_secret_parsed _ _ _ _ _ _ _ _ Hc).
  case_bool_decide as Hh; [|done]. eexists _, _, _. split; [|by split]. by exists a, b, d, e, f, g.
Qed.

(** C39: The pairing secret binds both keys and the code the device shows: it is
    the SHA-256 of the client's and the device's RSA parameters and the last
    two bytes of a six-digit hexadecimal code, and it is returned exactly when
    its first byte is the code's first byte.  Every other input, of whatever
    length or characters, is an invalid pairing code; nothing panics. *)
Theorem compute_pairing_secret_spec (cm ce sm se : bytes) (code : string) :
  yields (compute_pairing_secret cm ce sm se code)
    (fun s => exists c0 c1 c2, code_denotes code [c0; c1; c2] /\
       s = sha256 (cm ++ ce ++ sm ++ se ++ [c1; c2]) /\ head s = Some c0)
    (fun e => e = InvalidPairingCode) /\
  (forall c0 c1 c2, code_denotes code [c0; c1; c2] ->
     head (sha256 (cm ++ ce ++ sm ++ se ++ [c1; c2])) = Some c0 ->
     compute_pairing_secret cm ce sm se code = Ok (sha256 (cm ++ ce ++ sm ++ se ++ [c1; c2]))).
Proof.
  split; [apply compute_pairing_secret_total|].
  intros c0 c1 c2 Hc Hh. apply parse_pairing_code_spec in Hc. rewrite (compute_pairing_secret_parsed _ _ _ _ _ _ _ _ Hc).
  by rewrite bool_decide_eq_true_2.
Qed.
End Secret.

Lemma compute_pairing_secret_spec_witness :
  exists s, @compute_pairing_secret Toy.ring [0xc0; 1] [3] [5] [7] "C0fFeE" = Ok s /\ length s = 32%nat.
Proof.
  eexists. split; [apply (compute_pairing_secret_spec (H := Toy.ring) [0xc0; 1] [3] [5] [7] "C0fFeE") with (c0 := 0xc0) (c1 := 0xff) (c2 := 0xee)|apply Toy.toy_sha256_length].
  - exists 12, 0, 15, 15, 14, 14. split; reflexivity.
  - reflexivity.
Defined.

(** ** What passes in an exchange *)

Section Exchanges.
Context {Rd Wr : Type} `{AsyncReadLaws Rd} `{ControlWriter Wr}.

(** Errors of the transport and of time. *)
Definition link_error (e : AndroidTvError) : Prop :=
  match e with TvIo _ | TvTimedOut _ => True | _ => False end.

(** What a write that fails leaves: nothing (a message that cannot be framed), or a
    message cut off. *)
Definition broken_off (message : bytes) (t : list Traffic) : Prop := t = [] \/ t = [Cut message].

Lemma write_message_log message operation (l : Link Rd Wr) :
  let '(l', r) := write_message_timed message operation l in
  ln_reader l' = ln_reader l /\
  ((r = Ok tt /\ ln_log l' = ln_log l ++ [Wrote message]) \/
   (exists e t, r = Err e /\ link_error e /\ ln_log l' = ln_log l ++ t /\ broken_off message t)).
Proof.
  unfold write_message_timed, broken_off. destruct (VarintWriter.frame message) as [frame|e|] eqn:Hf.
  - destruct (write_frame (ln_writer l) frame) as [w [|e|]]; cbn; (split; [done|]); [by left|right..]; by eexists _, _; split_and!; auto.
  - split; [done|]. right. exists (TvIo e), []. rewrite app_nil_r. by split_and!; auto.
  - unfold VarintWriter.frame in Hf. repeat case_match; done.
Qed.

Lemma read_frame_log operation (l : Link Rd Wr) :
  varint_reader_ok (ln_reader l) ->
  let '(l', r) := read_frame_timed operation l in
  match r with
  | Ok frame => varint_reader_ok (ln_reader l') /\ ln_log l' = ln_log l ++ [Heard frame]
  | Err e => link_error e /\ ln_log l' = ln_log l
  | Panic => False
  end.
Proof.
  intros Hl. unfold read_frame_timed. pose proof (read_frame_any (ln_stream l) (ln_reader l) Hl) as Hr.
  destruct (VarintReader.read_frame (ln_stream l) (ln_reader l)) as [[stream reader] [[frame|e|]|]]; cbn; [|..|done|];
    rewrite ?app_nil_r; [|done..]. by destruct Hr.
Qed.

(** ** Scripts *)

(** A message to write and what the reply to it must be. *)
Abbreviation Script := (list (bytes * (bytes -> Prop))).

(** The whole script: each message written, and then an acceptable reply heard. *)
Fixpoint completes (script : Script) (t : list Traffic) : Prop :=
  match script with
  | [] => t = []
  | (message, ok) :: rest => exists frame t', t = Wrote message :: Heard frame :: t' /\ ok frame /\ completes rest t'
  end.

(** A first part of it, up to a message cut off or a reply that does not come or
    is not acceptable. *)
Inductive follows : Script -> list Traffic -> Prop :=
| follows_nil script : follows script []
| follows_cut message ok rest : follows ((message, ok) :: rest) [Cut message]
| follows_unanswered message ok rest : follows ((message, ok) :: rest) [Wrote message]
| follows_refused message (ok : bytes -> Prop) rest frame :
    ~ ok frame -> follows ((message, ok) :: rest) [Wrote message; Heard frame]
| follows_next message (ok : bytes -> Prop) rest frame t :
    ok frame -> follows rest t -> follows ((message, ok) :: rest) (Wrote message :: Heard frame :: t).

(** ** The exchange *)

Context `{Prost PairingEnvelope} `{Ring} `{Shutdown Wr}.

(** Failures of pairing: the transport, the device's refusal or its protocol. *)
Definition pairing_error (e : AndroidTvError) : Prop :=
  match e with
  | TvIo _ | TvTimedOut _ | TvProtocol _ | PairingRejected _ | UnsupportedPairingConfiguration => True
  | _ => False
  end.

Lemma link_error_pairing e : link_error e -> pairing_error e.
Proof. by destruct e. Qed.

(** A reply of the device: it decodes, accepts, is of a known version, and
    carries what [P] asks for. *)
Definition reply_with (P : PairingEnvelope -> Prop) (frame : bytes) : Prop :=
  exists message, prost_decode frame = inr message /\ status message = PAIRING_STATUS_OK /\
    protocol_version message <> 0 /\ protocol_version message <= 2 /\ P message.

(** The run of an exchange along a script; what it learns on the way may fill in
    the script. *)
Definition runs_for {X A} (m : Eff (Link Rd Wr) AndroidTvError A) (script : X -> Script) (P : X -> A -> Prop) : Prop :=
  forall l, varint_reader_ok (ln_reader l) ->
    let '(l', result) := m l in
    exists x t, ln_log l' = ln_log l ++ t /\
    match result with
    | Ok a => P x a /\ varint_reader_ok (ln_reader l') /\ completes (script x) t
    | Err e => pairing_error e /\ follows (script x) t
    | Panic => False
    end.
Definition runs {A} (m : Eff (Link Rd Wr) AndroidTvError A) (script : Script) (P : A -> Prop) : Prop :=
  runs_for (X := unit) m (fun _ => script) (fun _ => P).

Lemma runs_ret {A} (a : A) (P : A -> Prop) : P a -> runs (ret (Ok a)) [] P.
Proof. intros Ha l Hl. exists tt, []. by rewrite app_nil_r. Qed.

Lemma read_pairing_log operation (l : Link Rd Wr) :
  varint_reader_ok (ln_reader l) ->
  let '(l', r) := read_pairing operation l in
  match r with
  | Ok message => exists frame, varint_reader_ok (ln_reader l') /\ ln_log l' = ln_log l ++ [Heard frame] /\
      prost_decode frame = inr message /\ reply_with (fun m => m = message) frame
  | Err e => pairing_error e /\ (ln_log l' = ln_log l \/
      exists frame, ln_log l' = ln_log l ++ [Heard frame] /\ forall P, ~ reply_with P frame)
  | Panic => False
  end.
Proof.
  intros Hl. pose proof (read_frame_log operation l Hl) as Hr. unfold read_pairing, bind_eff.
  destruct (read_frame_timed operation l) as [l1 [frame|e|]]; [|destruct Hr as [He Hs]; split; [by apply link_error_pairing|by left]|done].
  destruct Hr as [Hok Hs].
  destruct (prost_decode frame) as [e|message] eqn:Hd; cbn [ret map_err].
  { split; [done|]. right. exists frame. split; [done|]. intros P (m & Hm & _). congruence. }
  assert (Hno : forall P, ~ (status message = PAIRING_STATUS_OK /\ protocol_version message <> 0 /\
      protocol_version message <= 2) -> ~ reply_with P frame).
  { intros P Hn (m & Hm & ? & ? & ? & _). apply Hn. replace message with m by congruence. done. }
  destruct (Z.eqb_spec (status message) PAIRING_STATUS_OK) as [Hst|]; cbn [negb];
    [|split; [done|right; eexists; split; [done|intros P; apply Hno; by intros []]]].
  destruct (Z.eqb_spec (protocol_version message) 0) as [|Hv0];
    [split; [done|right; eexists; split; [done|intros P; apply Hno; by intros (? & ? & _)]]|].
  destruct (Z.ltb_spec 2 (protocol_version message)) as [|Hv2];
    [split; [done|right; eexists; split; [done|intros P; apply Hno; intros (? & ? & ?); lia]]|]. cbn [orb].
  exists frame. split_and!; [done|done|done|]. exists message. by split_and!.
Qed.

(** A continuation that refuses the reply. *)
Definition refuses {B} (m : Eff (Link Rd Wr) AndroidTvError B) : Prop :=
  exists e, pairing_error e /\ forall l, m l = (l, Err e).

Lemma bind_ok {A B} (a : A) (k : A -> Eff (Link Rd Wr) AndroidTvError B) : (let! a := ret (Ok a) in k a) = k a.
Proof. done. Qed.

Lemma refuses_err {A B} e (k : A -> Eff (Link Rd Wr) AndroidTvError B) :
  pairing_error e -> refuses (let! a := ret (Err e) in k a).
Proof. intros He. by exists e. Qed.

(** One message and its reply. *)
Lemma runs_step {X B} `{Inhabited X} message op op' (k : PairingEnvelope -> Eff (Link Rd Wr) AndroidTvError B)
    (P : X -> PairingEnvelope -> Prop) rest (Q : X -> B -> Prop) :
  (forall reply, (refuses (k reply) /\ forall x, ~ P x reply) \/ exists x, P x reply /\ runs (k reply) (rest x) (Q x)) ->
  runs_for (let! _ := write_pairing message op in let! reply := read_pairing op' in k reply)
    (fun x => (prost_encode message, reply_with (P x)) :: rest x) Q.
Proof.
  intros Hk l Hl. unfold bind_eff at 1, write_pairing. pose proof (write_message_log (prost_encode message) op l) as Hw.
  destruct (write_message_timed _ op l) as [l1 r]. destruct Hw as [Hr1 [[-> Hs1]|(e & t & -> & He & Hs1 & Ht)]].
  2:{ exists inhabitant, t. split; [done|]. split; [by apply link_error_pairing|]. destruct Ht as [->| ->]; constructor. }
  unfold bind_eff. pose proof (read_pairing_log op' l1 ltac:(by rewrite Hr1)) as Hr.
  destruct (read_pairing op' l1) as [l2 [reply|e|]]; [|..|done].
  - destruct Hr as (frame & Hok2 & Hs2 & Hd & (m & Hd' & Hst & Hv & Hv' & ->)).
    destruct (Hk reply) as [[(e & He & Hek) Hno]|(x & HP & Hrun)].
    + rewrite Hek. exists inhabitant, [Wrote (prost_encode message); Heard frame]. rewrite Hs2, Hs1, <- app_assoc.
      split; [done|]. split; [done|constructor]. intros (m & Hm & _ & _ & _ & HP). apply (Hno inhabitant). congruence.
    + specialize (Hrun l2 Hok2). destruct (k reply l2) as [l3 r]. destruct Hrun as (_ & t & Hs3 & Ht).
      exists x, (Wrote (prost_encode message) :: Heard frame :: t). rewrite Hs3, Hs2, Hs1, <- !app_assoc. split; [done|].
      assert (Hreply : reply_with (P x) frame) by (by exists reply).
      destruct r as [b|e|]; [|..|done].
      * destruct Ht as (HQ & Hok3 & Ht). split_and!; try done. by exists frame, t.
      * destruct Ht as [He Ht]. split; [done|]. by constructor.
  - destruct Hr as [He Hs2]. exists inhabitant. destruct Hs2 as [Hs2|(frame & Hs2 & Hno)]; rewrite Hs2, Hs1.
    + exists [Wrote (prost_encode message)]. split; [done|]. split; [done|constructor].
    + exists [Wrote (prost_encode message); Heard frame]. rewrite <- app_assoc. split; [done|]. split; [done|]. by constructor.
Qed.

(** The server's name, when there is one: bounded and printable. *)
Definition peer_name_ok (name : option string) : Prop :=
  match name with
  | Some n => n <> "" /\ (length (utf8 n) <= MAX_PEER_NAME_BYTES)%nat /\ existsb is_control (chars (utf8 n)) = false
  | None => True
  end.

(** The name a device's acknowledgement presents; an empty one is none. *)
Definition presented_name (message : PairingEnvelope) : option (option string) :=
  (fun ack => match ack_server_name ack with Some n => if bool_decide (n = "") then None else Some n | None => None end)
    <$> pairing_request_ack message.

(** The conversation that pairs: what is written, and what the reply to it has to
    carry. *)
Definition opening (client : string) (name : option string) : Script :=
  [(prost_encode (request_message client), reply_with (fun m => presented_name m = Some name /\ peer_name_ok name));
   (prost_encode options_message, reply_with (fun m => exists o, options m = Some o /\
      existsb PairingEncoding.is_hexadecimal_pin (output_encodings o) = true));
   (prost_encode configuration_message, reply_with (fun m => is_Some (configuration_ack m)))].
Definition closing (s : bytes) : Script :=
  [(prost_encode (secret_message s), reply_with (fun m => is_Some (secret_ack m)))].

Lemma peer_name_checked n :
  validate_peer_name n = if decide ((length (utf8 n) <= MAX_PEER_NAME_BYTES)%nat /\ existsb is_control (chars (utf8 n)) = false)
    then Ok n else Err (tv_protocol_error "pairing server name is invalid").
Proof.
  unfold validate_peer_name. destruct (Nat.ltb_spec MAX_PEER_NAME_BYTES (length (utf8 n))); cbn [orb];
    [rewrite decide_False by lia; done|].
  destruct (existsb _ _); [by rewrite decide_False by (by intros [])|by rewrite decide_True].
Qed.

(** The check of the name and its presentation agree. *)
Lemma presented_name_checked m ack :
  pairing_request_ack m = Some ack ->
  match match ack_server_name ack with
        | None => Ok None
        | Some n => let? n := validate_peer_name n in Ok (if bool_decide (n = "") then None else Some n)
        end with
  | Ok name => presented_name m = Some name /\ peer_name_ok name
  | Err e => pairing_error e /\ forall name, ~ (presented_name m = Some name /\ peer_name_ok name)
  | Panic => False
  end.
Proof.
  unfold presented_name. intros ->. cbn [fmap option_fmap option_map].
  destruct (ack_server_name ack) as [n|]; [|done]. rewrite peer_name_checked.
  destruct (decide _) as [[Hlen Hc]|Hn]; cbn [bind].
  - split; [done|]. case_bool_decide; [done|by split_and!].
  - split; [done|]. intros name [[= <-] Hok]. case_bool_decide as He; [|by destruct Hok]. subst n. apply Hn. split; [cbn; lia|done].
Qed.

Lemma begin_exchange_runs cm ce sm se client :
  runs_for (begin_exchange cm ce sm se client) (opening client)
    (fun name ex => ex = MkPairingExchange cm ce sm se name /\ peer_name_ok name).
Proof.
  unfold begin_exchange, opening. apply runs_step. intros m1.
  destruct (pairing_request_ack m1) as [ack|] eqn:Hack; cbn [ok_or].
  2:{ left. split; [by apply refuses_err|]. unfold presented_name. rewrite Hack. by intros ? []. }
  rewrite bind_ok. pose proof (presented_name_checked _ _ Hack) as Hname.
  destruct (match ack_server_name ack with None => _ | Some _ => _ end) as [name|e|] in Hname |- *; [..|done].
  2:{ left. destruct Hname. split; [by exists e|done]. }
  destruct Hname as [Hp Hok]. right. exists name. split; [done|]. unfold runs.
  apply (runs_step (X := unit)). intros m2. destruct (options m2) as [o|] eqn:Ho; cbn [ok_or].
  2:{ left. split; [by apply refuses_err|]. intros _ (o & Ho' & _). congruence. }
  rewrite bind_ok. destruct (existsb _ _) eqn:He; cbn [negb].
  2:{ left. split; [by exists UnsupportedPairingConfiguration|]. intros _ (o' & Ho' & He'). congruence. }
  right. exists tt. split; [by eexists|].
  apply (runs_step (X := unit)). intros m3. destruct (configuration_ack m3) as [c|] eqn:Hc; cbn [ok_or].
  - right. exists tt. split; [by eexists|]. by apply runs_ret.
  - left. split; [by apply refuses_err|]. intros _ [c Hc']. congruence.
Qed.

Lemma finish_exchange_runs ex code (l : Link Rd Wr) :
  varint_reader_ok (ln_reader l) ->
  let '(l', result) := finish_exchange ex code l in
  match compute_pairing_secret (client_modulus ex) (client_exponent ex) (server_modulus ex) (server_exponent ex) code with
  | Ok s => exists t, ln_log l' = ln_log l ++ t /\
      match result with
      | Ok _ => completes (closing s) t
      | Err e => pairing_error e /\ follows (closing s) t
      | Panic => False
      end
  | Err e => result = Err e /\ l' = l
  | Panic => result = Panic
  end.
Proof.
  intros Hl. unfold finish_exchange. unfold bind_eff at 1. cbn [ret].
  destruct (compute_pairing_secret _ _ _ _ _) as [s|e|]; [|done..].
  assert (Hrun : runs (let! _ := write_pairing (secret_message s) "pairing secret" in
      let! acknowledgement := read_pairing "pairing-secret acknowledgement" in
      let! _ := ret (ok_or (secret_ack acknowledgement) (tv_protocol_error "expected pairing-secret acknowledgement")) in
      shutdown_ignored) (closing s) (fun _ => True)).
  { apply (runs_step (X := unit)). intros m. destruct (secret_ack m) as [a|] eqn:Ha; cbn [ok_or]; [|left; split; [by apply refuses_err|]].
    2:{ intros _ [a Ha']. congruence. }
    right. exists tt. split; [by eexists|]. intros l0 Hl0. unfold bind_eff, shutdown_ignored. cbn [ret].
    destruct (shutdown (ln_writer l0)). exists tt, []. by rewrite app_nil_r. }
  specialize (Hrun l Hl). destruct (bind_eff _ _ l) as [l' r]. destruct Hrun as (_ & t & Ht & Hr).
  exists t. split; [done|]. destruct r; [|done..]. by destruct Hr as (_ & _ & Hr).
Qed.

End Exchanges.

(** A device that agrees to everything, and a writer that always completes. *)
Module ToyPairing.
Definition agreement : PairingEnvelope :=
  PairingEnvelope.ok <| pairing_request_ack := Some (MkPairingRequestAck (Some "TV")) |>
    <| options := Some (MkPairingOptions [] [PairingEncoding.hexadecimal_pin] None) |>
    <| configuration_ack := Some MkPairingConfigurationAck |>
    <| secret_ack := Some (MkPairingSecretAck []) |>.
#[local] Instance prost : Prost PairingEnvelope := {|
  prost_encode _ := [1; 2; 3];
  prost_decode _ := inr agreement;
|}.
#[local] Instance writer : ControlWriter unit := fun w _ => (w, WriteDone).
#[local] Instance closer : Shutdown unit := fun w => (w, WriteTimedOut).
#[local] Existing Instance Toy.ring.
Definition link : Link ChunkedStream unit := MkLink (MkChunked [1; 0; 1; 0; 1; 0; 1; 0] []) VarintReader.new tt [].

End ToyPairing.
