(* ===== verification/AndroidRemote.v ===== *)
(** * The Android TV Remote Service ([src/src/android_tv/remote_session.rs],
    [remote.rs])

    The handshake, the task that owns the stream and multiplexes inbound
    messages with commands, and the handle that checks capabilities before it
    sends a command. *)

From stdpp Require Import strings.
From S2P Require Import Prelude Time Errors Text CastProto Protobuf CastFraming EventLoop Session Control Tls AndroidFraming AndroidTypes AndroidIdentity AndroidPairing.

Definition COMMAND_QUEUE_CAPACITY : nat := 16.
Definition EVENT_QUEUE_CAPACITY : nat := 16.
Definition HANDSHAKE_TIMEOUT : Duration := from_secs 10.
Definition MAX_HANDSHAKE_MESSAGES : nat := 32.
Definition MAX_DEVICE_TEXT_BYTES : nat := 256.

(** [_ as i32] of a [u32]. *)
Definition as_i32 (v : Z) : Z := if v <? 2 ^ 31 then v else v - 2 ^ 32.

(** ** Validation *)

Definition valid_device_text (value : string) : bool :=
  negb ((MAX_DEVICE_TEXT_BYTES <? length (utf8 value))%nat || existsb is_control (chars (utf8 value))).

Definition check_device_text (field value : string) : Result AndroidTvError unit :=
  if valid_device_text value then Ok tt else Err (tv_protocol_error ("device " +:+ field +:+ " is invalid")).

Definition validated_device_info (info : RemoteDeviceInfo) : Result AndroidTvError AndroidTvDeviceInfo :=
  let? _ := check_device_text "model" (rd_model info) in
  let? _ := check_device_text "vendor" (rd_vendor info) in
  let? _ := check_device_text "service version" (rd_app_version info) in
  Ok (MkTvDeviceInfo (rd_model info) (rd_vendor info) (rd_app_version info)).

Definition validated_volume (v : RemoteVolume) : Result AndroidTvError AndroidTvVolume :=
  if (rv_maximum v =? 0) || (rv_maximum v <? rv_level v)
  then Err (tv_protocol_error "device volume state is invalid")
  else Ok (MkVolume (rv_level v) (rv_maximum v) (rv_muted v)).

(** ** Diagnostics *)

(** One field of the scan: its number and the rest. *)
Definition scan_field (d : bytes) : option (Z * bytes) :=
  '(key, d) ← scan_varint d;
  let field := Z.shiftr key 3 in
  if (u32_max <? field) || (field =? 0) then None else
  match Z.land key 7 with
  | 0 => '(_, d) ← scan_varint d; Some (field, d)
  | 1 => if (length d <? 8)%nat then None else Some (field, drop 8 d)
  | 2 => '(len, d) ← scan_varint d;
         if Z.of_nat (length d) <? len then None else Some (field, drop (Z.to_nat len) d)
  | 5 => if (length d <? 4)%nat then None else Some (field, drop 4 d)
  | _ => None
  end.

(** The length is enough fuel: a field takes a byte. *)
Fixpoint top_level_go (fuel : nat) (d : bytes) (fields : list Z) : option (list Z) :=
  match d with
  | [] => Some fields
  | _ =>
    match fuel with
    | O => None
    | S fuel' => '(field, d) ← scan_field d; top_level_go fuel' d (fields ++ [field])
    end
  end.
Definition top_level_field_numbers (d : bytes) : option (list Z) := top_level_go (length d) d [].

(** ** Messages *)

Section Remote.
Context {Rd Wr : Type} `{AsyncRead Rd} `{ControlWriter Wr} `{Shutdown Wr} `{Prost RemoteMessage}.
Abbreviation link := (Link Rd Wr).
Abbreviation Exchange := (Eff link AndroidTvError).

Definition decode_remote (frame : bytes) (operation : string) : Result AndroidTvError RemoteMessage :=
  map_err (prost_decode frame) (fun e => tv_protocol_error ("decode " +:+ operation +:+ ": " +:+ e)).

Definition read_remote (operation : string) : Exchange RemoteMessage :=
  let! frame := read_frame_timed operation in
  ret (decode_remote frame operation).

Definition write_remote (message : RemoteMessage) (operation : string) : Exchange unit :=
  write_message_timed (prost_encode message) operation.

Definition pong (value : Z) : RemoteMessage :=
  remote_default <| ping_response := Some (MkRemotePingResponse value) |>.

Definition answer_ping (value : Z) : Exchange unit := write_remote (pong value) "ping response".

Definition is_error (message : RemoteMessage) : bool :=
  match error message with Some e => re_value e | None => false end.

(** ** Handshake *)

(** The volume reported so far goes along with the link. *)
Abbreviation Handshake := (Eff (link * option AndroidTvVolume) AndroidTvError).

Definition on_link {A} (m : Exchange A) : Handshake A := fun '(l, v) =>
  let '(l, r) := m l in ((l, v), r).

Definition set_volume (v : AndroidTvVolume) : Handshake unit := fun '(l, _) => ((l, Some v), Ok tt).

(** [for _ in 0..MAX_HANDSHAKE_MESSAGES]. *)
Fixpoint wait_for_handshake_go {T} (fuel : nat) (select : RemoteMessage -> option T) (expected : string)
  : Handshake T :=
  match fuel with
  | O => ret (Err (tv_protocol_error ("too many messages while waiting for " +:+ expected)))
  | S fuel' =>
    let! message := on_link (read_remote expected) in
    if is_error message
    then ret (Err (tv_protocol_error ("device returned an error while waiting for " +:+ expected))) else
    let! _ := match ping_request message with
              | Some request => on_link (answer_ping (ping_value request))
              | None => ret (Ok tt)
              end in
    let! _ := match volume message with
              | Some remote_volume =>
                let! v := ret (validated_volume remote_volume) in set_volume v
              | None => ret (Ok tt)
              end in
    match select message with
    | Some value => ret (Ok value)
    | None => wait_for_handshake_go fuel' select expected
    end
  end.
Definition wait_for_handshake_message {T} (select : RemoteMessage -> option T) (expected : string) : Handshake T :=
  wait_for_handshake_go MAX_HANDSHAKE_MESSAGES select expected.

Record HandshakeResult := MkHandshake {
  hs_device_info : AndroidTvDeviceInfo;
  hs_features : AndroidTvRemoteFeatures;
  hs_powered_on : bool;
  hs_volume : option AndroidTvVolume;
}.

Definition configure_reply (features : AndroidTvRemoteFeatures) (client : AndroidTvRemoteClientInfo) : RemoteMessage :=
  remote_default <| configure := Some (MkRemoteConfigure (as_i32 features) (Some
    (MkRemoteDeviceInfo (ci_model client) (ci_vendor client) 1 "1" (ci_package_name client) (ci_app_version client)))) |>.
Definition set_active_reply (features : AndroidTvRemoteFeatures) : RemoteMessage :=
  remote_default <| set_active := Some (MkRemoteSetActive (as_i32 features)) |>.

Definition current_volume : Handshake (option AndroidTvVolume) := fun s => (s, Ok (snd s)).

Definition perform_handshake (client_info : AndroidTvRemoteClientInfo) : Handshake HandshakeResult :=
  let! configure := wait_for_handshake_message configure "configuration" in
  let server_features := wrap_u32 (rc_features configure) in
  let features := Features.bitand server_features IMPLEMENTED_FEATURES in
  let! info := ret (ok_or (rc_device_info configure)
    (tv_protocol_error "RemoteConfigure omitted device information")) in
  let! device_info := ret (validated_device_info info) in
  let! _ := on_link (write_remote (configure_reply features client_info) "configuration reply") in
  let! _ := wait_for_handshake_message set_active "set-active request" in
  let! _ := on_link (write_remote (set_active_reply features) "set-active reply") in
  let! start := wait_for_handshake_message start "remote-start notification" in
  let! v := current_volume in
  ret (Ok (MkHandshake device_info features (powered_on start) v)).

(** ** The task *)

Inductive RemoteCommand :=
| Key (key : AndroidTvKeyCode) (action : AndroidTvKeyAction) (reply : ResponseSender)
| CloseRemote (reply : ResponseSender).

(** The link, the watched state, the events sent, and what became of replies:
    sent with a result, or dropped. *)
Record RemoteState := MkRemote {
  rm_link : link;
  rm_power : bool;
  rm_volume : option AndroidTvVolume;
  rm_events : list AndroidTvRemoteEvent;
  rm_replies : list (ResponseSender * option (Result AndroidTvError unit));
}.
#[export] Instance RemoteState_eta : Eta RemoteState := fun s =>
  MkRemote (rm_link s) (rm_power s) (rm_volume s) (rm_events s) (rm_replies s).

Definition lift {A} (m : Exchange A) (s : RemoteState) : RemoteState * Result AndroidTvError A :=
  let '(l, r) := m (rm_link s) in (s <| rm_link := l |>, r).

Definition reply (sender : ResponseSender) (result : option (Result AndroidTvError unit)) (s : RemoteState)
  : RemoteState := s <| rm_replies := rm_replies s ++ [(sender, result)] |>.

Definition send_event (event : AndroidTvRemoteEvent) (s : RemoteState) : RemoteState :=
  s <| rm_events := rm_events s ++ [event] |>.

(** The power state, then the volume, once the ping is answered. *)
Definition apply_start (message : RemoteMessage) (s : RemoteState) : RemoteState :=
  match start message with
  | Some start => send_event (PowerChanged (powered_on start)) (s <| rm_power := powered_on start |>)
  | None => s
  end.

Definition apply_volume (message : RemoteMessage) (s : RemoteState) : RemoteState * Result AndroidTvError unit :=
  match volume message with
  | Some remote_volume =>
    match validated_volume remote_volume with
    | Ok current => (send_event (VolumeChanged current) (s <| rm_volume := Some current |>), Ok tt)
    | Err e => (s, Err e)
    | Panic => (s, Panic)
    end
  | None => (s, Ok tt)
  end.

Definition handle_inbound (message : RemoteMessage) (s : RemoteState) : RemoteState * Result AndroidTvError unit :=
  if is_error message then (s, Err (tv_protocol_error "device returned RemoteError")) else
  let '(s, pinged) :=
    match ping_request message with
    | Some ping => lift (answer_ping (ping_value ping)) s
    | None => (s, Ok tt)
    end in
  match pinged with
  | Ok _ => apply_volume message (apply_start message s)
  | Err e => (s, Err e)
  | Panic => (s, Panic)
  end.

(** What one round of the [select!] delivers: a frame or an error of the reader,
    or a command, [None] when every handle is gone. *)
Inductive RemoteInput :=
| Frame (frame : Result IoError bytes)
| Command (command : option RemoteCommand).

(** [Some]: the task returns. *)
Definition on_frame (frame : Result IoError bytes) (s : RemoteState)
  : RemoteState * option (Result AndroidTvError unit) :=
  match frame with
  | Err e => (s, Some (Err (TvIo e)))
  | Panic => (s, Some Panic)
  | Ok frame =>
    match decode_remote frame "remote message" with
    | Err e => (s, Some (Err e))
    | Panic => (s, Some Panic)
    | Ok message =>
      match handle_inbound message s with
      | (s, Ok _) => (s, None)
      | (s, r) => (s, Some r)
      end
    end
  end.

Definition key_message (key : AndroidTvKeyCode) (action : AndroidTvKeyAction) : RemoteMessage :=
  remote_default <| key_inject := Some (MkRemoteKeyInject key (protocol_value action)) |>.

Definition on_key (key : AndroidTvKeyCode) (action : AndroidTvKeyAction) (sender : ResponseSender)
    (s : RemoteState) : RemoteState * option (Result AndroidTvError unit) :=
  let '(s, result) := lift (write_remote (key_message key action) "key injection") s in
  let s := reply sender (Some result) s in
  match result with
  | Ok _ => (s, None)
  | Err _ => (s, Some (Err ConnectionClosed))
  | Panic => (s, Some Panic)
  end.

(** A shutdown that times out leaves through [?]: the reply is dropped. *)
Definition on_close_remote (sender : ResponseSender) (s : RemoteState)
  : RemoteState * option (Result AndroidTvError unit) :=
  let l := rm_link s in
  let '(w, outcome) := shutdown (ln_writer l) in
  let s := s <| rm_link := MkLink (ln_stream l) (ln_reader l) w (ln_log l) |> in
  match outcome with
  | WriteTimedOut => (reply sender None s, Some (Err (TvTimedOut "connection shutdown")))
  | WriteFailed e => (reply sender (Some (Err (TvIo e))) s, Some (Err ConnectionClosed))
  | WriteDone => (reply sender (Some (Ok tt)) s, Some (Ok tt))
  end.

Definition on_remote_command (command : option RemoteCommand) (s : RemoteState)
  : RemoteState * option (Result AndroidTvError unit) :=
  match command with
  | None =>
    let l := rm_link s in
    let '(w, _) := shutdown (ln_writer l) in
    (s <| rm_link := MkLink (ln_stream l) (ln_reader l) w (ln_log l) |>, Some (Ok tt))
  | Some (Key key action sender) => on_key key action sender s
  | Some (CloseRemote sender) => on_close_remote sender s
  end.

(** The loop over the rounds the environment offers; the rounds left over are
    commands that were never received.  [None]: still running. *)
Fixpoint run_remote (inputs : list RemoteInput) (s : RemoteState)
  : RemoteState * list RemoteInput * option (Result AndroidTvError unit) :=
  match inputs with
  | [] => (s, [], None)
  | input :: rest =>
    let '(s, finished) :=
      match input with
      | Frame frame => on_frame frame s
      | Command command => on_remote_command command s
      end in
    match finished with
    | None => run_remote rest s
    | Some result => (s, rest, Some result)
    end
  end.

(** The spawned future: the loop, then the last event. *)
Definition remote_task (inputs : list RemoteInput) (s : RemoteState)
  : RemoteState * list RemoteInput * option (Result AndroidTvError unit) :=
  match run_remote inputs s with
  | (s, rest, Some result) =>
    let error := match result with Err e => Some (tv_error_to_string e) | _ => None end in
    (send_event (AndroidTypes.Disconnected error) s, rest, Some result)
  | r => r
  end.

(** ** Starting a session *)

Record EstablishedRemote := MkEstablished {
  es_session : RemoteState;
  es_device_info : AndroidTvDeviceInfo;
  es_features : AndroidTvRemoteFeatures;
}.

(** [late]: the whole handshake outlasts [HANDSHAKE_TIMEOUT]. *)
Definition session_start (late : bool) (l : link) (client_info : AndroidTvRemoteClientInfo)
  : Result AndroidTvError EstablishedRemote :=
  if late then Err (TvTimedOut "Remote Service handshake") else
  let '((l, _), handshake) := perform_handshake client_info (l, None) in
  let? handshake := handshake in
  Ok (MkEstablished (MkRemote l (hs_powered_on handshake) (hs_volume handshake) [] [])
        (hs_device_info handshake) (hs_features handshake)).

(** ** The handle *)

(** What becomes of a command sent to the task. *)
Inductive CommandOutcome := NotSent | ReplyDropped | Replied (r : Result AndroidTvError unit).

Definition session_result (outcome : CommandOutcome) : Result AndroidTvError unit :=
  match outcome with
  | NotSent | ReplyDropped => Err ConnectionClosed
  | Replied r => r
  end.

(** [close]: the reply, then the task's own result. *)
Definition session_close (outcome : CommandOutcome) (task : string + Result AndroidTvError unit)
  : Result AndroidTvError unit :=
  let join close_result :=
    match task with
    | inl e => Err (TvConnection ("join remote task: " +:+ e))
    | inr task_result => let? _ := close_result in task_result
    end in
  match outcome with
  | ReplyDropped => Err ConnectionClosed
  | NotSent => join (Err ConnectionClosed)
  | Replied r => join r
  end.

(** A method of the handle: an error, or the key command it sends. *)
Definition require_feature (features feature : AndroidTvRemoteFeatures) (name : string) : Result AndroidTvError unit :=
  if Features.contains features feature then Ok tt else Err (UnsupportedFeature name).

Definition send_key (features : AndroidTvRemoteFeatures) (key : AndroidTvKeyCode) (action : AndroidTvKeyAction)
  : Result AndroidTvError (ResponseSender -> RemoteCommand) :=
  let? _ := require_feature features Features.KEY "key injection" in
  Ok (Key key action).
Definition press_key (features : AndroidTvRemoteFeatures) (key : AndroidTvKeyCode) := send_key features key Press.
Definition press_power (features : AndroidTvRemoteFeatures) (key : AndroidTvKeyCode) :=
  let? _ := require_feature features Features.POWER "power" in press_key features key.
Definition press_wake_key (features : AndroidTvRemoteFeatures) := press_power features KeyCode.WAKEUP.
Definition press_sleep_key (features : AndroidTvRemoteFeatures) := press_power features KeyCode.SLEEP.
Definition press_power_key (features : AndroidTvRemoteFeatures) := press_power features KeyCode.POWER.

Record AndroidTvRemote := MkAndroidTvRemote {
  ar_session : RemoteState;
  ar_device_info : AndroidTvDeviceInfo;
  ar_features : AndroidTvRemoteFeatures;
}.

Definition remote_start (late : bool) (l : link) (client_info : AndroidTvRemoteClientInfo)
  : Result AndroidTvError AndroidTvRemote :=
  let? established := session_start late l client_info in
  Ok (MkAndroidTvRemote (es_session established) (es_device_info established) (es_features established)).

Context {N : Type} `{RustlsProvider} `{!TvDialer N Rd Wr}.

Definition remote_connect_address (address : SocketAddr) (identity : AndroidTvRemoteIdentity)
    (late : bool) (client_info : AndroidTvRemoteClientInfo) : Eff N AndroidTvError AndroidTvRemote :=
  let! stream := connect address identity in
  ret (remote_start late (MkLink (read_half stream) VarintReader.new (write_half stream) []) client_info).

Definition remote_connect (ip : IpAddr) :=
  remote_connect_address (socket_addr_new ip ANDROID_TV_REMOTE_PORT).
End Remote.
