(* ===== verification/AndroidRemoteProps.v ===== *)
(** * Theorems about the Android TV Remote Service *)

From stdpp Require Import strings.
From S2P Require Import Prelude Time Errors Text CastProto Protobuf CastFraming EventLoop Session AuthProps Control Tls AndroidFraming AndroidTypes AndroidIdentity AndroidPairing AndroidPairingProps AndroidRemote.

(** ** Definitions *)

(** A volume a device may report. *)
Definition volume_ok (v : AndroidTvVolume) : Prop := maximum v <> 0 /\ level v <= maximum v.
Definition volume_opt_ok (v : option AndroidTvVolume) : Prop := forall x, v = Some x -> volume_ok x.

(** The state a subscriber computes from the events. *)
Definition replay_event (state : bool * option AndroidTvVolume) (event : AndroidTvRemoteEvent)
  : bool * option AndroidTvVolume :=
  match event with
  | PowerChanged p => (p, snd state)
  | VolumeChanged v => (fst state, Some v)
  | AndroidTypes.Disconnected _ => state
  end.
Definition replay (state : bool * option AndroidTvVolume) (events : list AndroidTvRemoteEvent)
  : bool * option AndroidTvVolume := fold_left replay_event events state.

(** Every volume an event reports is one a device may report. *)
Definition event_ok (event : AndroidTvRemoteEvent) : Prop :=
  match event with VolumeChanged v => volume_ok v | _ => True end.

(** The volumes a message reports; [None] when it reports one that makes no
    sense. *)
Definition heard_volumes (message : RemoteMessage) : option (list AndroidTvVolume) :=
  match volume message with
  | None => Some []
  | Some v => if decide (rv_maximum v <> 0 /\ rv_level v <= rv_maximum v)
              then Some [MkVolume (rv_level v) (rv_maximum v) (rv_muted v)] else None
  end.

(** The power state a message reports. *)
Definition heard_power (message : RemoteMessage) : list AndroidTvRemoteEvent :=
  match start message with Some st => [PowerChanged (powered_on st)] | None => [] end.

(** ** Validation *)

Lemma validated_volume_eq v :
  validated_volume v = if decide (rv_maximum v <> 0 /\ rv_level v <= rv_maximum v)
    then Ok (MkVolume (rv_level v) (rv_maximum v) (rv_muted v))
    else Err (tv_protocol_error "device volume state is invalid").
Proof.
  unfold validated_volume. destruct (Z.eqb_spec (rv_maximum v) 0); [by rewrite decide_False by (by intros [])|].
  destruct (Z.ltb_spec (rv_maximum v) (rv_level v)); [by rewrite decide_False by lia|by rewrite decide_True].
Qed.

Lemma heard_volumes_ok message vs : heard_volumes message = Some vs -> Forall volume_ok vs.
Proof.
  unfold heard_volumes. destruct (volume message) as [v|]; [|by intros [= <-]].
  case_decide as Hv; [|done]. intros [= <-]. by apply Forall_singleton.
Qed.

Lemma replay_app initial events events' : replay initial (events ++ events') = replay (replay initial events) events'.
Proof. apply fold_left_app. Qed.

Section Task.
Context {Rd Wr : Type} `{AsyncReadLaws Rd} `{ControlWriter Wr} `{Shutdown Wr} `{Prost RemoteMessage}.
Abbreviation state := (@RemoteState Rd Wr).
Abbreviation Replies := (list (ResponseSender * option (Result AndroidTvError unit))).

(** ** What the task owes for each input *)

(** A frame that is a message of the device and no error. *)
Definition says (frame : bytes) (message : RemoteMessage) : Prop :=
  prost_decode frame = inr message /\ is_error message = false.

(** The answer to the ping a message may carry. *)
Definition pong_to (ping : RemotePingRequest) : bytes := prost_encode (pong (ping_value ping)).
Definition answers (message : RemoteMessage) : list Traffic :=
  match ping_request message with Some ping => [Wrote (pong_to ping)] | None => [] end.

(** An input after which the task goes on: the traffic, the replies and the
    events due for it. *)
Definition served_on (input : RemoteInput) (t : list Traffic) (replies : Replies)
    (events : list AndroidTvRemoteEvent) : Prop :=
  match input with
  | Frame (Ok frame) => exists message vs, says frame message /\ heard_volumes message = Some vs /\
      t = answers message /\ replies = [] /\ events = heard_power message ++ (VolumeChanged <$> vs)
  | Command (Some (Key key action sender)) =>
      t = [Wrote (prost_encode (key_message key action))] /\ replies = [(sender, Some (Ok tt))] /\ events = []
  | _ => False
  end.

(** An input that ends the task with [result]. *)
Definition served_last (input : RemoteInput) (result : Result AndroidTvError unit) (t : list Traffic)
    (replies : Replies) (events : list AndroidTvRemoteEvent) : Prop :=
  match input with
  | Frame (Ok frame) => replies = [] /\
      ((exists d, result = Err (TvProtocol d)) /\ t = [] /\ events = [] /\ (forall message, ~ says frame message) \/
       (exists e message ping, result = Err e /\ link_error e /\ says frame message /\
          ping_request message = Some ping /\ broken_off (pong_to ping) t /\ events = []) \/
       (exists d message, result = Err (TvProtocol d) /\ says frame message /\ heard_volumes message = None /\
          t = answers message /\ events = heard_power message))
  | Frame (Err e) => result = Err (TvIo e) /\ t = [] /\ replies = [] /\ events = []
  | Frame Panic => False
  | Command (Some (Key key action sender)) => result = Err ConnectionClosed /\
      broken_off (prost_encode (key_message key action)) t /\
      (exists e, link_error e /\ replies = [(sender, Some (Err e))]) /\ events = []
  | Command (Some (CloseRemote sender)) => t = [] /\ events = [] /\
      (result = Ok tt /\ replies = [(sender, Some (Ok tt))] \/
       result = Err ConnectionClosed /\ (exists e, replies = [(sender, Some (Err (TvIo e)))]) \/
       result = Err (TvTimedOut "connection shutdown") /\ replies = [(sender, None)])
  | Command None => result = Ok tt /\ t = [] /\ replies = [] /\ events = []
  end.

(** The inputs of a run, and what they are owed together. *)
Inductive served : list RemoteInput -> option (Result AndroidTvError unit) -> list Traffic -> Replies ->
    list AndroidTvRemoteEvent -> Prop :=
| served_nil : served [] None [] [] []
| served_end input result t replies events :
    served_last input result t replies events -> served [input] (Some result) t replies events
| served_cons input inputs finished t t' replies replies' events events' :
    served_on input t replies events -> served inputs finished t' replies' events' ->
    served (input :: inputs) finished (t ++ t') (replies ++ replies') (events ++ events').

(** The state moved on by traffic, replies and events. *)
Record advances (s : state) (t : list Traffic) (replies : Replies) (events : list AndroidTvRemoteEvent) (s' : state) : Prop := {
  av_log : ln_log (rm_link s') = ln_log (rm_link s) ++ t;
  av_replies : rm_replies s' = rm_replies s ++ replies;
  av_events : rm_events s' = rm_events s ++ events;
  av_replay : replay (rm_power s, rm_volume s) events = (rm_power s', rm_volume s');
  av_ok : Forall event_ok events;
}.

Lemma advances_nil (s : state) : advances s [] [] [] s.
Proof. split; rewrite ?app_nil_r; done. Qed.

Lemma advances_app (s s1 s2 : state) t t' r r' ev ev' :
  advances s t r ev s1 -> advances s1 t' r' ev' s2 -> advances s (t ++ t') (r ++ r') (ev ++ ev') s2.
Proof.
  intros [Hl Hr He Hp Ho] [Hl' Hr' He' Hp' Ho']. split; [..|by apply Forall_app].
  - by rewrite Hl', Hl, app_assoc.
  - by rewrite Hr', Hr, app_assoc.
  - by rewrite He', He, app_assoc.
  - by rewrite replay_app, Hp.
Qed.

(** ** One round *)

Lemma write_remote_log message operation (l : Link Rd Wr) :
  let '(l', r) := write_remote message operation l in
  (r = Ok tt /\ ln_log l' = ln_log l ++ [Wrote (prost_encode message)]) \/
  (exists e t, r = Err e /\ link_error e /\ ln_log l' = ln_log l ++ t /\ broken_off (prost_encode message) t).
Proof.
  unfold write_remote. pose proof (write_message_log (prost_encode message) operation l) as Hw.
  destruct (write_message_timed _ _ l). by destruct Hw.
Qed.

Lemma advances_link (s : state) l t : ln_log l = ln_log (rm_link s) ++ t -> advances s t [] [] (s <| rm_link := l |>).
Proof. intros Hl. split; cbn; rewrite ?app_nil_r; done. Qed.

Lemma advances_reply (s : state) sender r : advances s [] [(sender, r)] [] (reply sender r s).
Proof. split; cbn; rewrite ?app_nil_r; done. Qed.

Lemma apply_start_advances message (s : state) : advances s [] [] (heard_power message) (apply_start message s).
Proof.
  unfold apply_start, heard_power. destruct (start message) as [st|]; [|apply advances_nil].
  split; cbn; rewrite ?app_nil_r; try done. by apply Forall_singleton.
Qed.

Lemma apply_volume_advances message (s : state) :
  let '(s', r) := apply_volume message s in
  match heard_volumes message with
  | Some vs => r = Ok tt /\ advances s [] [] (VolumeChanged <$> vs) s'
  | None => (exists d, r = Err (TvProtocol d)) /\ s' = s
  end.
Proof.
  unfold apply_volume, heard_volumes. destruct (volume message) as [v|]; [|split; [done|apply advances_nil]].
  rewrite validated_volume_eq. case_decide as Hv; [|split; [by eexists|done]].
  split; [done|]. split; cbn; rewrite ?app_nil_r; try done. by apply Forall_singleton.
Qed.

Lemma apply_advances message (s : state) :
  let '(s', r) := apply_volume message (apply_start message s) in
  match heard_volumes message with
  | Some vs => r = Ok tt /\ advances s [] [] (heard_power message ++ (VolumeChanged <$> vs)) s'
  | None => (exists d, r = Err (TvProtocol d)) /\ advances s [] [] (heard_power message) s'
  end.
Proof.
  pose proof (apply_start_advances message s) as Hs. pose proof (apply_volume_advances message (apply_start message s)) as Hv.
  destruct (apply_volume _ _) as [s' r]. destruct (heard_volumes message) as [vs|]; destruct Hv as [Hr Hv]; (split; [done|]).
  - apply (advances_app _ _ _ [] [] [] [] _ _ Hs Hv).
  - by subst s'.
Qed.

Lemma frame_round frame (s : state) :
  let '(s', finished) := on_frame (Ok frame) s in
  exists t r ev, advances s t r ev s' /\
  match finished with
  | None => served_on (Frame (Ok frame)) t r ev
  | Some result => served_last (Frame (Ok frame)) result t r ev
  end.
Proof.
  unfold on_frame, decode_remote. destruct (prost_decode frame) as [e|message] eqn:Hd; cbn [map_err].
  { exists [], [], []. split; [apply advances_nil|]. split; [done|left]. split_and!; [by eexists|done..|].
    intros m [Hm _]. congruence. }
  unfold handle_inbound. destruct (is_error message) eqn:He.
  { exists [], [], []. split; [apply advances_nil|]. split; [done|left]. split_and!; [by eexists|done..|].
    intros m [Hm He']. congruence. }
  assert (Hsays : says frame message) by done.
  assert (Happly : forall s1, advances s (answers message) [] [] s1 ->
    let '(s', finished) := match apply_volume message (apply_start message s1) with
      | (s', Ok _) => (s', None) | (s', r) => (s', Some r) end in
    exists t r ev, advances s t r ev s' /\
    match finished with
    | None => served_on (Frame (Ok frame)) t r ev
    | Some result => served_last (Frame (Ok frame)) result t r ev
    end).
  { intros s1 Hs1. pose proof (apply_advances message s1) as Ha. destruct (apply_volume _ _) as [s' r].
    destruct (heard_volumes message) as [vs|] eqn:Hv; destruct Ha as [Hr Ha];
      pose proof (advances_app _ _ _ _ _ _ _ _ _ Hs1 Ha) as Hall; rewrite app_nil_r in Hall.
    - subst r. eexists _, _, _. split; [exact Hall|]. by exists message, vs.
    - destruct Hr as [d ->]. eexists _, _, _. split; [exact Hall|]. split; [done|]. do 2 right. by exists d, message. }
  unfold answers in Happly. destruct (ping_request message) as [ping|] eqn:Hping; [|apply (Happly s), advances_nil].
  unfold lift, answer_ping. pose proof (write_remote_log (pong (ping_value ping)) "ping response" (rm_link s)) as Hw.
  destruct (write_remote _ _ (rm_link s)) as [l p]. destruct Hw as [[-> Hl]|(e & t & -> & Hle & Hl & Ht)].
  - by apply Happly, advances_link.
  - exists t, [], []. split; [by apply advances_link|]. split; [done|]. right; left. by exists e, message, ping.
Qed.

Lemma remote_round input (s : state) :
  input <> Frame Panic ->
  let '(s', finished) :=
    match input with Frame frame => on_frame frame s | Command command => on_remote_command command s end in
  exists t r ev, advances s t r ev s' /\
  match finished with None => served_on input t r ev | Some result => served_last input result t r ev end.
Proof.
  intros Hin. destruct input as [[frame|e|]|[[key action sender|sender]|]]; [apply frame_round|..|done| | |].
  - exists [], [], []. split; [apply advances_nil|done].
  - cbn [on_remote_command]. unfold on_key, lift.
    pose proof (write_remote_log (key_message key action) "key injection" (rm_link s)) as Hw.
    destruct (write_remote _ _ (rm_link s)) as [l p]. destruct Hw as [[-> Hl]|(e & t & -> & Hle & Hl & Ht)];
      eexists _, _, _; (split; [eapply advances_app; [apply (advances_link s l _ Hl)|apply advances_reply]|]); cbn; rewrite ?app_nil_r; [done|by split_and!; eauto].
  - cbn [on_remote_command]. unfold on_close_remote. destruct (shutdown _) as [w o].
    set (s1 := s <| rm_link := _ |>). assert (Hs1 : advances s [] [] [] s1) by (apply advances_link; cbn; by rewrite app_nil_r).
    destruct o as [|e|]; eexists _, _, _; (split; [eapply advances_app; [exact Hs1|apply advances_reply]|]); cbn; eauto 10.
  - cbn [on_remote_command]. destruct (shutdown _) as [w o]. exists [], [], []. split; [|done].
    apply advances_link. cbn. by rewrite app_nil_r.
Qed.

Lemma run_served inputs (s : state) :
  Frame Panic ∉ inputs ->
  let '(s', rest, finished) := run_remote inputs s in
  exists taken t r ev, inputs = taken ++ rest /\ (finished = None -> rest = []) /\
    advances s t r ev s' /\ served taken finished t r ev.
Proof.
  revert s. induction inputs as [|input inputs IH]; intros s Hin; cbn [run_remote].
  { exists [], [], [], []. split_and!; try done; [apply advances_nil|constructor]. }
  rewrite not_elem_of_cons in Hin. destruct Hin as [Hne Hin]. pose proof (remote_round input s ltac:(congruence)) as Hr.
  destruct (match input with Frame frame => on_frame frame s | Command command => on_remote_command command s end)
    as [s1 [result|]]; destruct Hr as (t & r & ev & Ha & Hs).
  - exists [input], t, r, ev. split_and!; try done. by constructor.
  - specialize (IH s1 Hin). destruct (run_remote inputs s1) as [[s' rest] finished].
    destruct IH as (taken & t' & r' & ev' & -> & Hrest & Ha' & Hs'). exists (input :: taken), (t ++ t'), (r ++ r'), (ev ++ ev').
    split_and!; try done; [by eapply advances_app|by constructor].
Qed.

(** A run ends with a result. *)
Lemma served_result inputs t r ev : ~ served inputs (Some Panic) t r ev.
Proof.
  intros Hs. remember (Some Panic) as finished eqn:Hf. induction Hs as [|input result t r ev Hl|]; [done| |by auto].
  injection Hf as ->. destruct input as [[frame|e|]|[[key action sender|sender]|]]; cbn in Hl; naive_solver.
Qed.

(** The event a task that ended leaves. *)
Definition farewell (finished : option (Result AndroidTvError unit)) : list AndroidTvRemoteEvent :=
  match finished with
  | None => []
  | Some (Err e) => [AndroidTypes.Disconnected (Some (tv_error_to_string e))]
  | Some _ => [AndroidTypes.Disconnected None]
  end.


(** ** Handshake *)

Definition handshake_error (e : AndroidTvError) : Prop :=
  match e with TvIo _ | TvTimedOut _ | TvProtocol _ => True | _ => False end.

Abbreviation handshake A := (Eff (Link Rd Wr * option AndroidTvVolume) AndroidTvError A).

(** The last of the volumes reported, if any was. *)
Definition latest (v : option AndroidTvVolume) (vs : list AndroidTvVolume) : option AndroidTvVolume :=
  match list.last vs with Some x => Some x | None => v end.

Lemma latest_app v vs vs' : latest (latest v vs) vs' = latest v (vs ++ vs').
Proof. unfold latest. rewrite list.last_app. by destruct (list.last vs'). Qed.

(** A handshake step: its result, the volumes reported meanwhile and what passed
    are related by [S], and the reader stays usable. *)
Definition shakes {A} (m : handshake A) (S : A -> list AndroidTvVolume -> list Traffic -> Prop) : Prop :=
  forall l v, varint_reader_ok (ln_reader l) ->
    let '((l', v'), result) := m (l, v) in
    match result with
    | Ok a => varint_reader_ok (ln_reader l') /\
        exists vs t, S a vs t /\ v' = latest v vs /\ ln_log l' = ln_log l ++ t
    | Err e => handshake_error e
    | Panic => False
    end.

Lemma shakes_bind {A B} (m : handshake A) (k : A -> handshake B) S (U : B -> list AndroidTvVolume -> list Traffic -> Prop) :
  shakes m S -> (forall a vs t, S a vs t -> shakes (k a) (fun b vs' t' => U b (vs ++ vs') (t ++ t'))) -> shakes (bind_eff m k) U.
Proof.
  intros Hm Hk l v Hl. specialize (Hm l v Hl). unfold bind_eff.
  destruct (m (l, v)) as [[l1 v1] [a|e|]]; [|done|done]. destruct Hm as (Hl1 & vs & t & HS & -> & Hs1).
  specialize (Hk a vs t HS l1 (latest v vs) Hl1). destruct (k a (l1, latest v vs)) as [[l2 v2] [b|e|]]; [|done|done].
  destruct Hk as (Hl2 & vs' & t' & HT & -> & Hs2). split; [done|]. exists (vs ++ vs'), (t ++ t').
  by rewrite latest_app, Hs2, Hs1, app_assoc.
Qed.

Lemma shakes_weaken {A} (m : handshake A) (S U : A -> list AndroidTvVolume -> list Traffic -> Prop) :
  shakes m S -> (forall a vs t, S a vs t -> U a vs t) -> shakes m U.
Proof.
  intros Hm HSU l v Hl. specialize (Hm l v Hl). destruct (m (l, v)) as [[l1 v1] [a|e|]]; [|done|done].
  destruct Hm as (Hl1 & vs & t & HS & ? & ?). split; [done|]. exists vs, t. auto.
Qed.

Lemma shakes_ret {A} (r : Result AndroidTvError A) (S : A -> list AndroidTvVolume -> list Traffic -> Prop) :
  yields r (fun a => S a [] []) handshake_error -> shakes (ret r) S.
Proof. intros Hr l v Hl. cbn. destruct r; [|done|done]. split; [done|]. exists [], []. by rewrite app_nil_r. Qed.

Lemma link_error_handshake e : link_error e -> handshake_error e.
Proof. by destruct e. Qed.

Lemma write_remote_shakes message operation :
  shakes (on_link (write_remote message operation)) (fun _ vs t => vs = [] /\ t = [Wrote (prost_encode message)]).
Proof.
  intros l v Hl. cbn. unfold write_remote. pose proof (write_message_log (prost_encode message) operation l) as Hw.
  destruct (write_message_timed _ _ l) as [l' r]. destruct Hw as [Hr [[-> Hs]|(e & t & -> & He & _)]].
  - split; [by rewrite Hr|]. by exists [], [Wrote (prost_encode message)].
  - by apply link_error_handshake.
Qed.

Lemma read_remote_shakes operation :
  shakes (on_link (read_remote operation))
    (fun message vs t => vs = [] /\ exists frame, prost_decode frame = inr message /\ t = [Heard frame]).
Proof.
  intros l v Hl. cbn. unfold read_remote, bind_eff. pose proof (read_frame_log operation l Hl) as Hr.
  destruct (read_frame_timed operation l) as [l' [frame|e|]]; [|by apply link_error_handshake; destruct Hr|done].
  destruct Hr as [Hok Hs]. cbn [ret]. unfold decode_remote. destruct (prost_decode frame) as [e|message] eqn:Hd; [done|].
  cbn [map_err]. split; [done|]. exists [], [Heard frame]. split; [|done]. split; [done|]. by exists frame.
Qed.

Lemma answer_shakes message :
  shakes (match ping_request message with
          | Some request => on_link (answer_ping (ping_value request))
          | None => ret (Ok tt)
          end) (fun _ vs t => vs = [] /\ t = answers message).
Proof.
  unfold answers. destruct (ping_request message) as [request|]; [apply write_remote_shakes|by apply shakes_ret].
Qed.

Lemma volume_shakes message :
  shakes (match volume message with
          | Some remote_volume => let! v := ret (validated_volume remote_volume) in set_volume v
          | None => ret (Ok tt)
          end) (fun _ vs t => heard_volumes message = Some vs /\ t = []).
Proof.
  unfold heard_volumes. destruct (volume message) as [rv|]; [|by apply shakes_ret].
  rewrite validated_volume_eq. case_decide as Hv.
  - intros l v Hl. cbn. split; [done|]. eexists _, []. rewrite app_nil_r. by split_and!.
  - intros l v Hl. done.
Qed.

(** Waiting at most [n] messages for the one that [select] picks: each is a
    message and no error, pings are answered, volumes noted. *)
Inductive waits {T} (select : RemoteMessage -> option T)
  : nat -> T -> list AndroidTvVolume -> list Traffic -> Prop :=
| waits_found n frame message value vs :
    says frame message -> heard_volumes message = Some vs -> select message = Some value ->
    waits select (S n) value vs (Heard frame :: answers message)
| waits_on n frame message value vs vs' t :
    says frame message -> heard_volumes message = Some vs -> select message = None ->
    waits select n value vs' t -> waits select (S n) value (vs ++ vs') (Heard frame :: answers message ++ t).

Lemma waits_volumes {T} select n (value : T) vs t : waits select n value vs t -> Forall volume_ok vs.
Proof. induction 1; [by eapply heard_volumes_ok|]. apply Forall_app. split; [by eapply heard_volumes_ok|done]. Qed.

Lemma wait_for_handshake_shakes {T} fuel (select : RemoteMessage -> option T) expected :
  shakes (wait_for_handshake_go fuel select expected) (waits select fuel).
Proof.
  induction fuel as [|fuel IH]; cbn [wait_for_handshake_go]; [by apply shakes_ret|].
  eapply shakes_bind; [apply read_remote_shakes|]. intros message ? ? (-> & frame & Hd & ->). cbn [app].
  destruct (is_error message) eqn:He; [by apply shakes_ret|].
  eapply shakes_bind; [apply answer_shakes|]. intros ? ? ? [-> ->]. cbn [app].
  eapply shakes_bind; [apply volume_shakes|]. intros ? vs ? [Hv ->]. cbn [app].
  destruct (select message) as [value|] eqn:Hsel.
  - apply shakes_ret. cbn. rewrite !app_nil_r. by apply waits_found.
  - eapply shakes_weaken; [exact IH|]. intros value vs' t Hw. by eapply waits_on.
Qed.

(** The texts a device may present. *)
Definition device_info_ok (info : AndroidTvDeviceInfo) : Prop :=
  valid_device_text (di_model info) = true /\ valid_device_text (di_vendor info) = true /\
  valid_device_text (di_service_version info) = true.

Lemma validated_device_info_yields info :
  yields (validated_device_info info)
    (fun i => i = MkTvDeviceInfo (rd_model info) (rd_vendor info) (rd_app_version info) /\ device_info_ok i) handshake_error.
Proof.
  unfold validated_device_info, check_device_text.
  destruct (valid_device_text (rd_model info)) eqn:?; [|done]. cbn [bind].
  destruct (valid_device_text (rd_vendor info)) eqn:?; [|done]. cbn [bind].
  by destruct (valid_device_text (rd_app_version info)) eqn:?.
Qed.

(** A complete handshake and what it establishes, from what passed: the device's
    configuration, its activation request and its start notification, each
    waited for in turn, and the replies to the first two. *)
Definition handshake_of (client : AndroidTvRemoteClientInfo) (hs : HandshakeResult) (t : list Traffic) : Prop :=
  exists cfg info act st vs1 vs2 vs3 t1 t2 t3,
    waits configure MAX_HANDSHAKE_MESSAGES cfg vs1 t1 /\
    rc_device_info cfg = Some info /\
    hs_device_info hs = MkTvDeviceInfo (rd_model info) (rd_vendor info) (rd_app_version info) /\
    hs_features hs = Z.land (wrap_u32 (rc_features cfg)) IMPLEMENTED_FEATURES /\
    waits set_active MAX_HANDSHAKE_MESSAGES act vs2 t2 /\
    waits start MAX_HANDSHAKE_MESSAGES st vs3 t3 /\
    hs_powered_on hs = powered_on st /\
    hs_volume hs = list.last (vs1 ++ vs2 ++ vs3) /\
    t = t1 ++ [Wrote (prost_encode (configure_reply (hs_features hs) client))] ++
        t2 ++ [Wrote (prost_encode (set_active_reply (hs_features hs)))] ++ t3.

Lemma handshake_volume client hs t : handshake_of client hs t -> volume_opt_ok (hs_volume hs).
Proof.
  intros (cfg & info & act & st & vs1 & vs2 & vs3 & t1 & t2 & t3 & H1' & _ & _ & _ & H2' & H3' & _ & Hv & _) x Hx.
  rewrite Hv in Hx. apply list.last_Some_elem_of in Hx.
  apply waits_volumes in H1', H2', H3'. assert (Hall : Forall volume_ok (vs1 ++ vs2 ++ vs3)) by (by rewrite !Forall_app).
  rewrite stdpp.list_relations.list.Forall_forall in Hall. by apply Hall.
Qed.

(** The steps before the volume is read. *)
Lemma perform_handshake_run client (l : Link Rd Wr) :
  varint_reader_ok (ln_reader l) ->
  let '((l', _), result) := perform_handshake client (l, None) in
  match result with
  | Ok hs => varint_reader_ok (ln_reader l') /\ device_info_ok (hs_device_info hs) /\
      exists t, handshake_of client hs t /\ ln_log l' = ln_log l ++ t
  | Err e => handshake_error e
  | Panic => False
  end.
Proof.
  intros Hl. set (steps := 
    let! configure := wait_for_handshake_message configure "configuration" in
    let features := Features.bitand (wrap_u32 (rc_features configure)) IMPLEMENTED_FEATURES in
    let! info := ret (ok_or (rc_device_info configure)
      (tv_protocol_error "RemoteConfigure omitted device information")) in
    let! device_info := ret (validated_device_info info) in
    let! _ := on_link (write_remote (configure_reply features client) "configuration reply") in
    let! _ := wait_for_handshake_message set_active "set-active request" in
    let! _ := on_link (write_remote (set_active_reply features) "set-active reply") in
    let! start := wait_for_handshake_message start "remote-start notification" in
    ret (Ok (device_info, features, powered_on start)) : handshake (AndroidTvDeviceInfo * AndroidTvRemoteFeatures * bool)).
  assert (Hrun : shakes steps (fun '(i, f, p) vs t => device_info_ok i /\
    handshake_of client (MkHandshake i f p (list.last vs)) t)).
  { unfold steps, wait_for_handshake_message.
    eapply shakes_bind; [apply wait_for_handshake_shakes|]. intros cfg vs1 t1 Hw1. set (features := Features.bitand _ _).
    eapply shakes_bind with (S := fun i vs t => rc_device_info cfg = Some i /\ vs = [] /\ t = []).
    { apply shakes_ret. by destruct (rc_device_info cfg). }
    intros info ? ? (Hinfo & -> & ->). eapply shakes_bind with (S := fun i vs t =>
      (i = MkTvDeviceInfo (rd_model info) (rd_vendor info) (rd_app_version info) /\ device_info_ok i) /\ vs = [] /\ t = []).
    { apply shakes_ret. eapply yields_weaken; [apply validated_device_info_yields|]. by intros i Hi. }
    intros device_info ? ? ([Hi Hok] & -> & ->).
    eapply shakes_bind; [apply write_remote_shakes|]. intros ? ? ? [-> ->].
    eapply shakes_bind; [apply wait_for_handshake_shakes|]. intros act vs2 t2 Hw2.
    eapply shakes_bind; [apply write_remote_shakes|]. intros ? ? ? [-> ->].
    eapply shakes_bind; [apply wait_for_handshake_shakes|]. intros st vs3 t3 Hw3.
    apply shakes_ret. cbn [yields app]. split; [done|].
    exists cfg, info, act, st, vs1, vs2, vs3, t1, t2, t3. cbn [hs_device_info hs_features hs_powered_on hs_volume].
    split_and!; try done; by rewrite app_nil_r. }
  specialize (Hrun l None Hl).
  assert (Heq : perform_handshake client (l, None) =
    let '((l', v'), r) := steps (l, None) in
    ((l', v'), let? x := r in Ok (MkHandshake (fst (fst x)) (snd (fst x)) (snd x) v'))).
  { unfold perform_handshake, steps, bind_eff, current_volume, ret. repeat (case_match; try done). all: simplify_eq/=; done. }
  rewrite Heq. destruct (steps (l, None)) as [[l' v'] [[[i f] p]|e|]]; cbn [bind]; [|done..].
  destruct Hrun as (Hl' & vs & t & [Hi Hh] & -> & Hlog). split_and!; try done. exists t. split; [|done].
  unfold latest. by destruct (list.last vs).
Qed.

(** C25: A session starts only after a complete handshake.  The log of a
    started session is one complete handshake: the device's configuration, heard
    within 32 messages, the configuration reply, the activation request, heard
    within 32 messages, the activation reply, and the start notification, heard
    within 32 messages; every message heard decodes and is no error, each ping
    among them is answered at once with its value, and nothing else is written.
    The session's features are the ones the device's configuration advertises
    and the library implements, and both replies carry them; the device's texts
    are the configuration's, bounded and printable; the power state is the
    start notification's; the volume is the last one any message reported and
    has a nonzero maximum and a level within it; there are no events or replies
    yet.  Otherwise the error is the transport's, a time-out or a protocol
    error; nothing panics. *)
Theorem session_start_spec (late : bool) (stream : Rd) (writer : Wr) (client : AndroidTvRemoteClientInfo) :
  match session_start late (MkLink stream VarintReader.new writer []) client with
  | Ok (MkEstablished s device_info features) =>
    handshake_of client (MkHandshake device_info features (rm_power s) (rm_volume s)) (ln_log (rm_link s)) /\
    device_info_ok device_info /\ volume_opt_ok (rm_volume s) /\
    varint_reader_ok (ln_reader (rm_link s)) /\ rm_events s = [] /\ rm_replies s = []
  | Err e => handshake_error e
  | Panic => False
  end.
Proof.
  unfold session_start. destruct late; [done|].
  pose proof (perform_handshake_run client (MkLink stream VarintReader.new writer []) varint_reader_new_ok) as Hs.
  destruct (perform_handshake client _) as [[l v] [hs|e|]]; cbn [bind]; [|done|done].
  destruct Hs as (Hl & Hinfo & t & Hh & Hlog). cbn. rewrite Hlog. cbn.
  assert (hs = MkHandshake (hs_device_info hs) (hs_features hs) (hs_powered_on hs) (hs_volume hs)) as <- by (by destruct hs).
  split_and!; try done. by eapply handshake_volume.
Qed.
End Task.

(** ** Diagnostics *)

Lemma scan_field_encode f post :
  field_ok f -> 1 <= field_number f -> scan_field (encode_tagged f ++ post) = Some (field_number f, post).
Proof.
  intros Hf Hn. unfold scan_field.
  assert (Htag : forall n w rest, 1 <= n < 2 ^ 29 -> 0 <= w < 8 ->
    scan_varint (encode_varint (n * 8 + w) ++ rest) = Some (n * 8 + w, rest) /\
    Z.shiftr (n * 8 + w) 3 = n /\ Z.land (n * 8 + w) 7 = w /\ ((u32_max <? n) || (n =? 0)) = false).
  { intros n w rest Hr Hw. split; [apply scan_varint_encode; lia|]. destruct (tag_parts n w ltac:(lia) Hw) as [-> ->].
    split_and!; try done. unfold u32_max. apply orb_false_iff. split; [apply Z.ltb_ge|apply Z.eqb_neq]; lia. }
  destruct f as [n v|n d|n d|n d]; cbn [field_ok field_number encode_tagged] in *; rewrite <- !app_assoc.
  - destruct (Htag n 0 (encode_varint v ++ post) ltac:(lia) ltac:(lia)) as (Hs & Hf' & Hw & Hc). rewrite Z.add_0_r in *.
    rewrite Hs. cbn [mbind option_bind]. rewrite Hf', Hc, Hw. by rewrite scan_varint_encode by lia.
  - destruct (Htag n 2 (encode_varint (Z.of_nat (length d)) ++ d ++ post) ltac:(lia) ltac:(lia)) as (Hs & Hf' & Hw & Hc).
    rewrite Hs. cbn [mbind option_bind]. rewrite Hf', Hc, Hw, scan_varint_encode by lia. cbn [mbind option_bind].
    destruct (Z.ltb_spec (Z.of_nat (length (d ++ post))) (Z.of_nat (length d))) as [Hlt|]; [rewrite length_app in Hlt; lia|].
    by rewrite Nat2Z.id, drop_app_length.
  - destruct (Htag n 5 (d ++ post) ltac:(lia) ltac:(lia)) as (Hs & Hf' & Hw & Hc).
    rewrite Hs. cbn [mbind option_bind]. rewrite Hf', Hc, Hw. destruct Hf as (_ & _ & Hd).
    destruct (Nat.ltb_spec (length (d ++ post)) 4) as [Hlt|]; [rewrite length_app in Hlt; lia|]. by rewrite drop_app_length'.
  - destruct (Htag n 1 (d ++ post) ltac:(lia) ltac:(lia)) as (Hs & Hf' & Hw & Hc).
    rewrite Hs. cbn [mbind option_bind]. rewrite Hf', Hc, Hw. destruct Hf as (_ & _ & Hd).
    destruct (Nat.ltb_spec (length (d ++ post)) 8) as [Hlt|]; [rewrite length_app in Hlt; lia|]. by rewrite drop_app_length'.
Qed.

(** The diagnostic scanner lists the field numbers of a well-formed message in
    order, whatever their wire types. *)
Theorem top_level_field_numbers_spec (l : list Field) :
  Forall (fun f => field_ok f /\ 1 <= field_number f) l ->
  top_level_field_numbers (concat (map encode_tagged l)) = Some (field_number <$> l).
Proof.
  unfold top_level_field_numbers.
  assert (Hgo : forall fuel l fields, Forall (fun f => field_ok f /\ 1 <= field_number f) l ->
    (length (concat (map encode_tagged l)) <= fuel)%nat ->
    top_level_go fuel (concat (map encode_tagged l)) fields = Some (fields ++ (field_number <$> l))).
  { clear. induction fuel as [|fuel IH]; intros l fields Hl Hf.
    - pose proof (tagged_count l). destruct l; [cbn; by rewrite app_nil_r|cbn in *; lia].
    - destruct l as [|f l]; [cbn; by rewrite app_nil_r|]. apply Forall_cons_iff in Hl as [[Hok Hn] Hl].
      cbn [map concat] in *. rewrite length_app in Hf.
      assert (Hpos : (0 < length (encode_tagged f))%nat).
      { rewrite encode_tagged_split, length_app. pose proof (encode_varint_length (field_tag f)). lia. }
      pose proof (scan_field_encode f (concat (map encode_tagged l)) Hok Hn) as Hp.
      destruct (encode_tagged f ++ concat (map encode_tagged l)) as [|b d] eqn:Hd.
      { apply app_eq_nil in Hd as [Hd _]. rewrite Hd in Hpos. cbn in Hpos. lia. }
      cbn [top_level_go]. rewrite Hp. cbn [mbind option_bind]. rewrite IH; [|done|lia].
      by rewrite <- app_assoc. }
  intros Hl. by rewrite Hgo.
Qed.

(** ** A small instance *)

Module ToyRemote.
(** A frame is one byte: configuration, activation, start with a volume, or a
    ping. *)
Definition toy_decode (frame : bytes) : string + RemoteMessage :=
  match frame with
  | [1] => inr (remote_default <| configure := Some (MkRemoteConfigure 3 (Some (MkRemoteDeviceInfo "TV" "ACME" 1 "1" "p" "1.0"))) |>)
  | [2] => inr (remote_default <| set_active := Some (MkRemoteSetActive 3) |>)
  | [3] => inr (remote_default <| start := Some (MkRemoteStart true) |> <| volume := Some (MkRemoteVolume 100 20 false) |>)
  | [4] => inr (remote_default <| ping_request := Some (MkRemotePingRequest 9 0) |>)
  | _ => inl "unexpected end group tag"
  end.
#[local] Instance prost : Prost RemoteMessage := {| prost_encode _ := [7]; prost_decode := toy_decode |}.
#[local] Instance writer : ControlWriter unit := fun w _ => (w, WriteDone).
#[local] Instance toy_shutdown : Shutdown unit := fun w => (w, WriteDone).
Definition client : AndroidTvRemoteClientInfo := MkClientInfo "chromiacast" "pronkproject" "p" "1".
Definition frames : ChunkedStream := MkChunked [1; 1; 1; 4; 1; 2; 1; 3] [].
Definition inputs : list RemoteInput :=
  [Frame (Ok [4]); Command (Some (Key KeyCode.HOME Press 1%nat)); Frame (Ok [3]);
   Command (Some (CloseRemote 2%nat)); Command (Some (Key KeyCode.BACK Press 3%nat))].

Lemma session_start_spec_witness :
  match session_start false (MkLink frames VarintReader.new tt []) client with
  | Ok es => es_features es = 3 /\
      ln_log (rm_link (es_session es)) = [Heard [1]; Wrote [7]; Heard [4]; Wrote [7]; Heard [2]; Wrote [7]; Heard [3]] /\
      volume_opt_ok (rm_volume (es_session es))
  | _ => False
  end.
Proof.
  pose proof (session_start_spec false frames tt client) as Hs.
  destruct (session_start _ _ _) as [[s info f]|e|] eqn:Hrun; [|vm_compute in Hrun; discriminate..].
  cbn [es_features es_session]. destruct Hs as (_ & _ & Hv & _).
  vm_compute in Hrun. injection Hrun as <- <- <-. split; [reflexivity|split; [reflexivity|exact Hv]].
Defined.

End ToyRemote.
