(* ===== verification/AndroidHandle.v ===== *)
(** * Keys of an Android TV remote ([src/src/android_tv/remote.rs], [remote_session.rs])

    The handle's key methods and the task together: which methods are allowed,
    and what a method's success or failure says about the wire. *)

From stdpp Require Import strings.
From S2P Require Import Prelude Time Errors Text CastProto Protobuf CastFraming EventLoop Session AuthProps Control Tls AndroidFraming AndroidTypes AndroidIdentity AndroidPairing AndroidPairingProps AndroidRemote AndroidRemoteProps.

(** Whether a bit set has every bit of another. *)
Definition supports (features feature : AndroidTvRemoteFeatures) : Prop :=
  forall i, Z.testbit feature i = true -> Z.testbit features i = true.

Lemma contains_supports features feature :
  Features.contains features feature = true <-> supports features feature.
Proof.
  unfold Features.contains, supports. rewrite Z.eqb_eq. split.
  - intros Hl i Hi. rewrite <- Hl, Z.land_spec in Hi. by apply andb_prop in Hi as [? _].
  - intros Hs. apply Z.bits_inj'. intros i _. rewrite Z.land_spec.
    destruct (Z.testbit feature i) eqn:Hi; [by rewrite Hs|apply andb_false_r].
Qed.

(** A power method of the handle and the key it sends. *)
Definition power_methods : list ((AndroidTvRemoteFeatures -> Result AndroidTvError (ResponseSender -> RemoteCommand)) * AndroidTvKeyCode) :=
  [(press_wake_key, KeyCode.WAKEUP); (press_sleep_key, KeyCode.SLEEP); (press_power_key, KeyCode.POWER)].

Lemma press_power_spec features key :
  match press_power features key with
  | Ok command => supports features Features.POWER /\ supports features Features.KEY /\ command = Key key Press
  | Err (UnsupportedFeature name) =>
      (name = "power" /\ ~ supports features Features.POWER) \/
      (name = "key injection" /\ supports features Features.POWER /\ ~ supports features Features.KEY)
  | _ => False
  end.
Proof.
  unfold press_power, press_key, send_key, require_feature.
  pose proof (contains_supports features Features.KEY) as Hk. pose proof (contains_supports features Features.POWER) as Hp.
  destruct (Features.contains features Features.POWER); cbn; [|left; split; [done|by intros ?%Hp]].
  destruct (Features.contains features Features.KEY); cbn; [tauto|]. right. split_and!; [done|tauto|by intros ?%Hk].
Qed.

Section Keys.
Context {Rd Wr : Type} `{AsyncReadLaws Rd} `{ControlWriter Wr} `{Shutdown Wr} `{Prost RemoteMessage}.
Abbreviation state := (RemoteState (Rd := Rd) (Wr := Wr)).

Lemma run_remote_app first then_ (s : state) :
  run_remote (first ++ then_) s =
  match run_remote first s with
  | (s1, rest, Some result) => (s1, rest ++ then_, Some result)
  | (s1, _, None) => run_remote then_ s1
  end.
Proof.
  revert s. induction first as [|input first IH]; intros s; [done|]. cbn [app run_remote].
  by destruct (match input with Frame frame => on_frame frame s | Command command => on_remote_command command s end)
    as [s1 [result|]].
Qed.

Lemma remote_task_kept inputs (s : state) :
  let '(s1, rest1, finished1) := run_remote inputs s in
  let '(s2, rest2, finished2) := remote_task inputs s in
  rm_link s2 = rm_link s1 /\ rm_replies s2 = rm_replies s1 /\ rest2 = rest1 /\ finished2 = finished1.
Proof. unfold remote_task. by destruct (run_remote inputs s) as [[s1 rest] [result|]]. Qed.

(** C28: Keys.  The handle sends a key only when the device supports key injection
    and the wake, sleep and power keys only when it also supports power;
    otherwise the error names the feature that is missing and there is no
    command.  A key command, behind any inputs and before any others, has one
    of three fates.  If the task ended before it got to it, nothing is written
    or replied for it.  If its caller is told that it was sent, exactly that
    key, with the action's code, was written in full at that point, once, and
    the task went on to serve the inputs after it.  If its caller is told of an
    error, that key's write failed (some of it may be on the wire, and no more
    than that one message), and the task ended there with its connection
    closed. *)
Theorem keys_delivered (features : AndroidTvRemoteFeatures) (key : AndroidTvKeyCode) (action : AndroidTvKeyAction)
    (sender : ResponseSender) (before after : list RemoteInput) (s : state) :
  Frame Panic ∉ after ->
  match send_key features key action with
  | Ok command => supports features Features.KEY /\ command = Key key action
  | Err e => ~ supports features Features.KEY /\ e = UnsupportedFeature "key injection"
  | Panic => False
  end /\
  Forall (fun '(method, power_key) =>
    match method features with
    | Ok command => supports features Features.POWER /\ supports features Features.KEY /\ command = Key power_key Press
    | Err (UnsupportedFeature name) =>
        (name = "power" /\ ~ supports features Features.POWER) \/
        (name = "key injection" /\ supports features Features.POWER /\ ~ supports features Features.KEY)
    | _ => False
    end) power_methods /\
  let wire := prost_encode (key_message key action) in
  let command := Command (Some (Key key action sender)) in
  let '(s1, left_over, ended) := run_remote before s in
  let '(s2, rest, finished) := remote_task (before ++ command :: after) s in
  match ended with
  | Some _ => finished = ended /\ rest = left_over ++ command :: after /\
      ln_log (rm_link s2) = ln_log (rm_link s1) /\ rm_replies s2 = rm_replies s1
  | None =>
      (exists taken t replies events, after = taken ++ rest /\ served taken finished t replies events /\
         ln_log (rm_link s2) = ln_log (rm_link s1) ++ Wrote wire :: t /\
         rm_replies s2 = rm_replies s1 ++ (sender, Some (Ok tt)) :: replies) \/
      (exists e t, link_error e /\ broken_off wire t /\ rest = after /\ finished = Some (Err ConnectionClosed) /\
         ln_log (rm_link s2) = ln_log (rm_link s1) ++ t /\
         rm_replies s2 = rm_replies s1 ++ [(sender, Some (Err e))])
  end.
Proof.
  intros Hafter. split_and!.
  - unfold send_key, require_feature. pose proof (contains_supports features Features.KEY) as Hk.
    destruct (Features.contains features Features.KEY); cbn; [tauto|]. split; [|done]. by intros ?%Hk.
  - repeat constructor; apply press_power_spec.
  - intros wire command. pose proof (remote_task_kept (before ++ command :: after) s) as Hk. rewrite run_remote_app in Hk.
    destruct (run_remote before s) as [[s1 left_over] [result|]];
      destruct (remote_task _ s) as [[s2 rest] finished]; [by destruct Hk as (-> & -> & -> & ->)|].
    cbn [run_remote] in Hk. pose proof (remote_round command s1 ltac:(done)) as Hr. cbn [command] in Hk, Hr.
    destruct (on_remote_command _ s1) as [s3 [result|]]; destruct Hr as (t & r & ev & [Hl Hrep _ _ _] & Hs).
    + destruct Hk as (-> & -> & -> & ->). right. destruct Hs as (-> & Ht & (e & He & ->) & _). exists e, t. by split_and!.
    + destruct Hs as (-> & -> & _). pose proof (run_served after s3 Hafter) as Hrun.
      destruct (run_remote after s3) as [[s4 rest4] finished4]. destruct Hk as (-> & -> & -> & ->). left.
      destruct Hrun as (taken & t & r & ev' & Ha & _ & [Hl' Hrep' _ _ _] & Hs').
      exists taken, t, r, ev'. rewrite Hl', Hl, Hrep', Hrep, <- !app_assoc. by split_and!.
Qed.
End Keys.

(** A key between a ping and a close, on a connection that writes. *)
Module ToyKeys.
#[local] Existing Instance ToyRemote.prost.
#[local] Existing Instance ToyRemote.writer.
#[local] Existing Instance ToyRemote.toy_shutdown.
Definition start_state : RemoteState := MkRemote (MkLink ToyRemote.frames VarintReader.new tt []) false None [] [].

Lemma keys_delivered_witness :
  let '(s2, rest, finished) := remote_task
    ([Frame (Ok [4])] ++ Command (Some (Key KeyCode.HOME Press 1%nat)) :: [Command (Some (CloseRemote 2%nat))]) start_state in
  supports 3 Features.KEY /\ rest = [] /\ ln_log (rm_link s2) = [Wrote [7]; Wrote [7]] /\
  rm_replies s2 = [(1%nat, Some (Ok tt)); (2%nat, Some (Ok tt))].
Proof.
  assert (Hin : Frame Panic ∉ [Command (Some (CloseRemote 2%nat))]).
  { intros Hx. apply elem_of_cons in Hx as [Hx|Hx]; [discriminate|by apply not_elem_of_nil in Hx]. }
  pose proof (keys_delivered 3 KeyCode.HOME Press 1%nat [Frame (Ok [4])] [Command (Some (CloseRemote 2%nat))] start_state Hin)
    as (Hk & _ & _).
  split; [exact (proj1 Hk)|]. split; [reflexivity|split; reflexivity].
Defined.
End ToyKeys.
