(* ===== verification/TvConsole.v ===== *)
(** * The Android TV console ([src/examples/android_tv_control.rs])

    The repository's diagnostic program for the Android TV remote: after pairing
    and connecting it reads actions line by line and sends their keys.  Modelled
    here is the program from the connected remote on, against the task of
    [AndroidRemote]; reading a line is an input. *)

From stdpp Require Import strings.
From S2P Require Import Prelude Time Errors Text CastProto Protobuf CastFraming EventLoop Session AuthProps Control Tls AndroidFraming AndroidTypes AndroidIdentity AndroidPairing AndroidPairingProps AndroidRemote AndroidRemoteProps AndroidHandle.

Inductive Action :=
| Back | Down | Home | Left | Mute | Right | Select | Settings | Up | VolumeUp | VolumeDown | Wake | Standby | TogglePower.
#[export] Instance Action_eq_dec : EqDecision Action.
Proof. solve_decision. Defined.

(** [Box<dyn std::error::Error>]: a line that could not be read, a word that is
    no action (the text quotes it), an error of the remote. *)
Inductive ConsoleError :=
| ConsoleIo (e : IoError)
| UnknownAction (value : string)
| ConsoleRemote (e : AndroidTvError).

Definition parse_action (value : string) : Result ConsoleError Action :=
  if decide (value = "back") then Ok Back
  else if decide (value = "down") then Ok Down
  else if decide (value = "home") then Ok Home
  else if decide (value = "left") then Ok Left
  else if decide (value = "mute") then Ok Mute
  else if decide (value = "right") then Ok Right
  else if decide (value = "select" \/ value = "ok") then Ok Select
  else if decide (value = "settings") then Ok Settings
  else if decide (value = "up") then Ok Up
  else if decide (value = "volume-up") then Ok VolumeUp
  else if decide (value = "volume-down") then Ok VolumeDown
  else if decide (value = "wake") then Ok Wake
  else if decide (value = "standby") then Ok Standby
  else if decide (value = "power") then Ok TogglePower
  else Err (UnknownAction value).

(** The method an action calls: an error, or the command it sends. *)
Definition execute (features : AndroidTvRemoteFeatures) (action : Action)
  : Result AndroidTvError (ResponseSender -> RemoteCommand) :=
  match action with
  | Back => press_key features KeyCode.BACK
  | Down => press_key features KeyCode.DPAD_DOWN
  | Home => press_key features KeyCode.HOME
  | Left => press_key features KeyCode.DPAD_LEFT
  | Mute => press_key features KeyCode.VOLUME_MUTE
  | Right => press_key features KeyCode.DPAD_RIGHT
  | Select => press_key features KeyCode.DPAD_CENTER
  | Settings => press_key features KeyCode.SETTINGS
  | Up => press_key features KeyCode.DPAD_UP
  | VolumeUp => press_key features KeyCode.VOLUME_UP
  | VolumeDown => press_key features KeyCode.VOLUME_DOWN
  | Wake => press_wake_key features
  | Standby => press_sleep_key features
  | TogglePower => press_power_key features
  end.

(** A line (or the failure to read one), or a frame the device sends meanwhile. *)
Inductive ConsoleInput :=
| Line (line : IoError + string)
| Device (frame : Result IoError bytes).

(** What the program prints about a line. *)
Inductive Report :=
| Flushed (action : Action)
| Failed (action : Action) (error : AndroidTvError)
| Rejected (error : ConsoleError).

Section Console.
Context {Rd Wr : Type} `{AsyncRead Rd} `{ControlWriter Wr} `{Shutdown Wr} `{Prost RemoteMessage}.
Abbreviation state := (RemoteState (Rd := Rd) (Wr := Wr)).

(** The remote's task, and its result once it has returned. *)
Record Console := MkConsole { cn_task : state; cn_ended : option (Result AndroidTvError unit) }.

(** The task takes one input, if it still runs. *)
Definition task_step (input : RemoteInput) (c : Console) : Console :=
  match cn_ended c with
  | Some _ => c
  | None => let '(s, _, ended) := remote_task [input] (cn_task c) in MkConsole s ended
  end.

(** A command, and what becomes of it. *)
Definition command_outcome (command : RemoteCommand) (c : Console) : Console * CommandOutcome :=
  let c' := task_step (Command (Some command)) c in
  (c', match drop (length (rm_replies (cn_task c))) (rm_replies (cn_task c')) with
       | (_, Some r) :: _ => Replied r
       | (_, None) :: _ => ReplyDropped
       | [] => NotSent
       end).

(** [execute(&remote, action).await]. *)
Definition perform (features : AndroidTvRemoteFeatures) (sender : ResponseSender) (action : Action) (c : Console)
  : Console * Result AndroidTvError unit :=
  match execute features action with
  | Ok command => let '(c, outcome) := command_outcome (command sender) c in (c, session_result outcome)
  | Err e => (c, Err e)
  | Panic => (c, Panic)
  end.

(** [remote.close().await]; [join_error] is the text of a task that cannot be
    joined. *)
Definition close_remote (sender : ResponseSender) (join_error : string) (c : Console) : Console * Result AndroidTvError unit :=
  let '(c, outcome) := command_outcome (CloseRemote sender) c in
  (c, session_close outcome (match cn_ended c with Some Panic | None => inl join_error | Some r => inr r end)).

(** One input: what is printed, and whether the loop ends, by [break] or with
    an error. *)
Definition console_step (features : AndroidTvRemoteFeatures) (sender : ResponseSender) (input : ConsoleInput) (c : Console)
  : Console * list Report * option (Result ConsoleError unit) :=
  match input with
  | Device frame => (task_step (Frame frame) c, [], None)
  | Line (inl e) => (c, [], Some (Err (ConsoleIo e)))
  | Line (inr line) =>
    let value := trim line in
    if decide (value = "quit" \/ value = "exit") then (c, [], Some (Ok tt)) else
    match parse_action value with
    | Ok action =>
      let '(c, result) := perform features sender action c in
      match result with
      | Ok _ => (c, [Flushed action], None)
      | Err error => (c, [Failed action error], None)
      | Panic => (c, [], Some Panic)
      end
    | Err error => (c, [Rejected error], None)
    | Panic => (c, [], Some Panic)
    end
  end.

(** The loop and what follows it; the senders are the one-shot channels of the
    lines.  [None]: still reading. *)
Fixpoint console (features : AndroidTvRemoteFeatures) (join_error : string) (inputs : list (ResponseSender * ConsoleInput))
    (c : Console) : Console * list Report * option (Result ConsoleError unit) :=
  match inputs with
  | [] => (c, [], None)
  | (sender, input) :: inputs' =>
    match console_step features sender input c with
    | (c, reports, None) => let '(c, more, result) := console features join_error inputs' c in (c, reports ++ more, result)
    | (c, reports, Some (Ok _)) =>
      let '(c, closed) := close_remote sender join_error c in
      (c, reports, Some (match closed with Ok u => Ok u | Err e => Err (ConsoleRemote e) | Panic => Panic end))
    | (c, reports, Some r) => (c, reports, Some r)
    end
  end.

(** The program called with an action: that action, then close. *)
Definition one_shot (features : AndroidTvRemoteFeatures) (sender closer : ResponseSender) (join_error : string)
    (action : Action) (c : Console) : Console * Result ConsoleError unit :=
  let boxed (r : Result AndroidTvError unit) : Result ConsoleError unit :=
    match r with Ok u => Ok u | Err e => Err (ConsoleRemote e) | Panic => Panic end in
  match perform features sender action c with
  | (c, Ok _) => let '(c, closed) := close_remote closer join_error c in (c, boxed closed)
  | (c, r) => (c, boxed r)
  end.

(** ** What the program tells is what was written *)

Lemma execute_key features action command :
  execute features action = Ok command -> exists key, command = Key key Press.
Proof.
  assert (Hk : forall key, send_key features key Press = Ok command -> exists key, command = Key key Press).
  { intros key. unfold send_key. destruct (require_feature _ _ _); [|done..]. cbn. intros [= <-]. by exists key. }
  assert (Hp : forall key, press_power features key = Ok command -> exists key, command = Key key Press).
  { intros key. unfold press_power. destruct (require_feature _ _ _); [|done..]. apply Hk. }
  destruct action; [apply Hk..|apply Hp|apply Hp|apply Hp].
Qed.

Lemma execute_no_panic features action : execute features action <> Panic.
Proof.
  assert (Hk : forall key, send_key features key Press <> Panic)
    by (intros key; unfold send_key, require_feature; by destruct (Features.contains _ _)).
  assert (Hp : forall key, press_power features key <> Panic)
    by (intros key; unfold press_power, require_feature; destruct (Features.contains _ _); [apply Hk|done]).
  destruct action; [apply Hk..|apply Hp|apply Hp|apply Hp].
Qed.

Lemma parse_action_no_panic value : parse_action value <> Panic.
Proof. unfold parse_action. by repeat case_decide. Qed.

(** Whether the remote's task has returned. *)
Definition gone (c : Console) : bool := match cn_ended c with Some _ => true | None => false end.

Definition log (c : Console) : list Traffic := ln_log (rm_link (cn_task c)).

(** What the program says about one input and what goes over the wire for it,
    with the task gone before and after. *)
Definition told (features : AndroidTvRemoteFeatures) (was_gone : bool) (input : ConsoleInput)
    (reports : list Report) (t : list Traffic) (is_gone : bool) : Prop :=
  match input with
  | Device frame => reports = [] /\
      if was_gone then t = [] /\ is_gone = true else
      (is_gone = false /\ exists r ev, served_on (Frame frame) t r ev) \/
      (is_gone = true /\ exists result r ev, served_last (Frame frame) result t r ev)
  | Line (inl _) => reports = [] /\ t = [] /\ is_gone = was_gone
  | Line (inr line) =>
    if decide (trim line = "quit" \/ trim line = "exit") then reports = [] /\ t = [] /\ is_gone = was_gone else
    match parse_action (trim line) with
    | Ok action =>
      match execute features action with
      | Ok command => exists key, command = Key key Press /\
          let wire := prost_encode (key_message key Press) in
          if was_gone then reports = [Failed action ConnectionClosed] /\ t = [] /\ is_gone = true else
          (reports = [Flushed action] /\ t = [Wrote wire] /\ is_gone = false) \/
          (exists e, reports = [Failed action e] /\ link_error e /\ broken_off wire t /\ is_gone = true)
      | Err e => reports = [Failed action e] /\ t = [] /\ is_gone = was_gone
      | Panic => False
      end
    | Err e => reports = [Rejected e] /\ t = [] /\ is_gone = was_gone
    | Panic => False
    end
  end.

(** A whole session at the console. *)
Inductive tells (features : AndroidTvRemoteFeatures) : bool -> list ConsoleInput -> list Report -> list Traffic -> bool -> Prop :=
| tells_nil was_gone : tells features was_gone [] [] [] was_gone
| tells_cons was_gone input reports t between inputs more t' is_gone :
    told features was_gone input reports t between -> tells features between inputs more t' is_gone ->
    tells features was_gone (input :: inputs) (reports ++ more) (t ++ t') is_gone.

(** The input that ends the session, and how. *)
Definition leaves (input : ConsoleInput) (is_gone : bool) (result : Result ConsoleError unit) : Prop :=
  match input with
  | Line (inl e) => result = Err (ConsoleIo e)
  | Line (inr line) => (trim line = "quit" \/ trim line = "exit") /\
      (if is_gone then exists e, result = Err (ConsoleRemote e)
       else result = Ok tt \/ exists e, result = Err (ConsoleRemote e))
  | Device _ => False
  end.

Lemma task_step_gone input c : gone c = true -> task_step input c = c.
Proof. unfold gone, task_step. by destruct (cn_ended c). Qed.

Lemma task_step_served input c :
  gone c = false -> input <> Frame Panic ->
  let c' := task_step input c in
  exists t r ev, rm_replies (cn_task c') = rm_replies (cn_task c) ++ r /\ log c' = log c ++ t /\
    ((cn_ended c' = None /\ served_on input t r ev) \/ exists result, cn_ended c' = Some result /\ served_last input result t r ev).
Proof.
  intros Hg Hp. unfold gone, task_step, log in *. destruct (cn_ended c); [done|]. unfold remote_task. cbn [run_remote].
  pose proof (remote_round input (cn_task c) Hp) as Hr.
  destruct (match input with Frame frame => on_frame frame (cn_task c) | Command command => on_remote_command command (cn_task c) end)
    as [s1 f]. destruct Hr as (t & r & ev & [Hl Hrep _ _ _] & Hs). exists t, r, ev.
  destruct f as [result|]; cbn; split_and!; try done; [right; by exists result|by left].
Qed.

(** A command to a task that is gone. *)
Lemma command_outcome_gone command c : gone c = true -> command_outcome command c = (c, NotSent).
Proof. intros Hg. unfold command_outcome. by rewrite task_step_gone, drop_ge. Qed.

Lemma perform_key features sender action key c :
  execute features action = Ok (Key key Press) ->
  let wire := prost_encode (key_message key Press) in
  let '(c', r) := perform features sender action c in
  if gone c then r = Err ConnectionClosed /\ c' = c else
  exists t, log c' = log c ++ t /\
    ((r = Ok tt /\ t = [Wrote wire] /\ gone c' = false) \/ (exists e, r = Err e /\ link_error e /\ broken_off wire t /\ gone c' = true)).
Proof.
  intros He wire. unfold perform. rewrite He. destruct (gone c) eqn:Hg; [by rewrite command_outcome_gone|].
  unfold command_outcome.
  destruct (task_step_served (Command (Some (Key key Press sender))) c Hg ltac:(done)) as (t & r & ev & Hrep & Hl & Hs).
  rewrite Hrep, drop_app_length. exists t. split; [done|]. unfold gone.
  destruct Hs as [(-> & -> & -> & _)|(result & -> & _ & Ht & (e & Hle & ->) & _)]; cbn; [by left|right; by exists e].
Qed.

Lemma console_step_told features sender input c :
  input <> Device Panic ->
  let '(c', reports, res) := console_step features sender input c in
  exists t, told features (gone c) input reports t (gone c') /\ log c' = log c ++ t /\
    match res with
    | None => True
    | Some (Ok _) => exists line, input = Line (inr line) /\ (trim line = "quit" \/ trim line = "exit") /\ c' = c
    | Some (Err e) => exists io, input = Line (inl io) /\ e = ConsoleIo io
    | Some Panic => False
    end.
Proof.
  intros Hnp. destruct input as [[e|line]|frame]; cbn [console_step told].
  - exists []. rewrite app_nil_r. split_and!; try done. by exists e.
  - case_decide as Hq. { exists []. rewrite app_nil_r. split_and!; try done. by exists line. }
    pose proof (parse_action_no_panic (trim line)) as Hpp.
    destruct (parse_action (trim line)) as [action|e|]; [|exists []; by rewrite app_nil_r|done].
    pose proof (execute_no_panic features action) as Hep.
    destruct (execute features action) as [command|e|] eqn:He; [|unfold perform; rewrite He; exists []; by rewrite app_nil_r|done].
    destruct (execute_key _ _ _ He) as [key ->]. pose proof (perform_key features sender action key c He) as Hw. cbv zeta in Hw.
    destruct (perform features sender action c) as [c' r]. destruct (gone c) eqn:Hg.
    + destruct Hw as [-> ->]. exists []. rewrite app_nil_r, Hg. split_and!; try done. by exists key.
    + destruct Hw as (t & Hl & [(-> & -> & Hg')|(e & -> & Hle & Ht & Hg')]); rewrite Hg'; eexists; (split; [|split; [exact Hl|done]]);
        exists key; (split; [done|]); [by left|right; by exists e].
  - destruct (gone c) eqn:Hg; [rewrite task_step_gone, Hg by done; exists []; by rewrite app_nil_r|].
    destruct (task_step_served (Frame frame) c Hg ltac:(congruence)) as (t & r & ev & _ & Hl & Hs).
    exists t. split; [|done]. split; [done|]. unfold gone.
    destruct Hs as [[-> Hs]|(result & -> & Hs)]; [left; eauto|right; eauto].
Qed.

(** Closing writes nothing; the program ends well only if the task was there to
    be closed. *)
Lemma close_remote_spec sender join_error c :
  let '(c', closed) := close_remote sender join_error c in
  log c' = log c /\ closed <> Panic /\ (gone c = true -> exists e, closed = Err e).
Proof.
  unfold close_remote. destruct (gone c) eqn:Hg.
  - rewrite command_outcome_gone by done. split; [done|]. unfold gone in Hg. destruct (cn_ended c) as [[]|]; [..|done]; cbn; split; done || by eexists.
  - unfold command_outcome.
    destruct (task_step_served (Command (Some (CloseRemote sender))) c Hg ltac:(done)) as (t & r & ev & Hrep & Hl & Hs).
    rewrite Hrep, drop_app_length. destruct Hs as [[_ []]|(result & -> & -> & _ & Hs)]. rewrite app_nil_r in Hl.
    split; [done|]. split; [|done]. destruct Hs as [[-> ->]|[[-> [e ->]]|[-> ->]]]; done.
Qed.


(** At the end of its input the program does not end: an empty line, which is
    what reading then returns, is no action, and the loop asks for the next. *)
Theorem console_end_of_input features join_error (senders : list ResponseSender) c :
  console features join_error (map (fun sender => (sender, Line (inr ""))) senders) c =
  (c, map (fun _ => Rejected (UnknownAction "")) senders, None).
Proof.
  assert (Hs : forall sender, console_step features sender (Line (inr "")) c = (c, [Rejected (UnknownAction "")], None)) by done.
  induction senders as [|sender senders IH]; [done|]. cbn [map console]. by rewrite Hs, IH.
Qed.
End Console.

(** Home, then a word that is no action, a ping, and quit. *)
Module ToyConsole.
#[local] Existing Instance ToyRemote.prost.
#[local] Existing Instance ToyRemote.writer.
#[local] Existing Instance ToyRemote.toy_shutdown.
Definition inputs : list (ResponseSender * ConsoleInput) :=
  [(0%nat, Line (inr "home")); (1%nat, Line (inr "jump")); (2%nat, Device (Ok [4])); (3%nat, Line (inr "quit"))].

End ToyConsole.
