(* ===== verification/Setup.v ===== *)
(** * The setup endpoint ([src/src/setup.rs])

    One HTTPS request on the local network for a receiver's hardware metadata.
    The class [HttpParse] stands for the httparse crate, [SetupJson] for the
    decoder serde derives. *)

From Stdlib Require Import Ascii.
From stdpp Require Import strings.
From S2P Require Import Prelude Time Errors Text CastProto CastFraming EventLoop Session Net Control Tls.

Definition SETUP_PORT : Z := 8443.
Definition SETUP_PATH : string := "/setup/eureka_info?params=device_info,name".
Definition SETUP_REQUEST_TIMEOUT : Duration := from_secs 3.
Definition MAX_RESPONSE_BYTES : nat := 64 * 1024.
Definition MAX_HEADER_BYTES : nat := 16 * 1024.
Definition MAX_MANUFACTURER_BYTES : nat := 256.
Definition MAX_MODEL_NAME_BYTES : nat := 256.
Definition MAX_PRODUCT_NAME_BYTES : nat := 256.
Definition MAX_SSDP_UDN_BYTES : nat := 256.

Record SetupDeviceInfo := MkSetupDeviceInfo {
  manufacturer : option string;
  model_name : option string;
  product_name : option string;
  ssdp_udn : option string;
}.

Inductive SetupInfoOutcome := SetupAvailable (info : SetupDeviceInfo) | SetupUnsupported.

(** [RawSetupDeviceInfo] has the same fields; the envelope is its option. *)
Abbreviation RawSetupDeviceInfo := SetupDeviceInfo.

(** httparse: a response whose header block ends at [consumed], or more input
    is needed.  The crate documents that the block lies within the input. *)
Record HttpHeader := MkHeader { header_name : string; header_bytes : bytes }.
Record HttpResponse := MkResponse { code : option Z; headers : list HttpHeader }.
Inductive HttpStatus := Complete (consumed : nat) (parsed : HttpResponse) | Partial.
Class HttpParse := {
  http_parse : bytes -> string + HttpStatus;
  http_parse_within d n p : http_parse d = inr (Complete n p) -> (n <= length d)%nat;
}.

(** [serde_json::from_slice::<SetupEnvelope>]. *)
Class SetupJson := envelope_from_slice : bytes -> string + option RawSetupDeviceInfo.

Definition setup_error (message : string) : Error := SetupFailed message.

(** ** Byte searches *)

Definition CRLF : bytes := [13; 10].

(** [l.windows(n).position(|window| window == pattern)] for an [n]-byte
    pattern. *)
Fixpoint find_window (pattern l : bytes) : option nat :=
  match l with
  | [] => None
  | _ :: l' =>
    if bool_decide (take (length pattern) l = pattern) then Some 0%nat else S <$> find_window pattern l'
  end.

(** [l.get(a..b)]. *)
Definition get_range (l : bytes) (a b : nat) : option bytes :=
  if ((a <=? b) && (b <=? length l))%nat then Some (take (b - a) (drop a l)) else None.

(** ** Chunked bodies *)

(** The number before any [;] of a chunk-size line. *)
Definition chunk_size (line : bytes) : option Z :=
  if utf8_valid line
  then size ← head (split ";"%char (of_utf8 line)); from_str_radix_16 u64_max (trim size)
  else None.

(** Every round consumes a line: the length is enough fuel. *)
Fixpoint chunked_body_length_go (fuel : nat) (encoded : bytes) (offset : nat)
  : Result Error (option nat) :=
  match fuel with
  | O => Panic
  | S fuel' =>
    let? rest := slice encoded offset (length encoded) in
    match find_window CRLF rest with
    | None => Ok None
    | Some line_end =>
      if (128 <? line_end)%nat then Err (setup_error "chunk-size line exceeds the limit") else
      let? line := slice encoded offset (offset + line_end) in
      let? size := ok_or (chunk_size line) (setup_error "invalid chunk size") in
      let offset := (offset + (line_end + 2))%nat in
      if size =? 0 then
        let? trailers := slice encoded offset (length encoded) in
        if bool_decide (take 2 trailers = CRLF) then Ok (Some (offset + 2)%nat)
        else Ok ((fun len => offset + len + 4)%nat <$> find_window (CRLF ++ CRLF) trailers)
      else if Z.of_nat MAX_RESPONSE_BYTES <? size
      then Err (setup_error "response body exceeds the size limit") else
      let size := Z.to_nat size in
      if (length encoded <? offset + (size + 2))%nat then Ok None else
      if bool_decide (get_range encoded (offset + size) (offset + size + 2) <> Some CRLF)
      then Err (setup_error "response chunk omitted its terminator") else
      let offset := (offset + (size + 2))%nat in
      if (MAX_RESPONSE_BYTES <? offset)%nat then Err (setup_error "response body exceeds the size limit")
      else chunked_body_length_go fuel' encoded offset
    end
  end.
Definition chunked_body_length (encoded : bytes) : Result Error (option nat) :=
  chunked_body_length_go (S (length encoded)) encoded 0.

Fixpoint decode_chunked_body_go (fuel : nat) (encoded decoded : bytes) : Result Error bytes :=
  match fuel with
  | O => Panic
  | S fuel' =>
    let? line_end := ok_or (find_window CRLF encoded) (setup_error "incomplete chunk-size line") in
    if (128 <? line_end)%nat then Err (setup_error "chunk-size line exceeds the limit") else
    let? line := slice encoded 0 line_end in
    let? size := ok_or (chunk_size line) (setup_error "invalid chunk size") in
    let? encoded := slice encoded (line_end + 2) (length encoded) in
    if size =? 0 then Ok decoded else
    if Z.of_nat MAX_RESPONSE_BYTES <? saturating_add_u64 (Z.of_nat (length decoded)) size
    then Err (setup_error "response body exceeds the size limit") else
    let size := Z.to_nat size in
    let? chunk := ok_or (get_range encoded 0 size) (setup_error "truncated HTTP response chunk") in
    if bool_decide (get_range encoded size (size + 2) <> Some CRLF)
    then Err (setup_error "response chunk omitted its terminator") else
    let? encoded := slice encoded (size + 2) (length encoded) in
    decode_chunked_body_go fuel' encoded (decoded ++ chunk)
  end.
Definition decode_chunked_body (encoded : bytes) : Result Error bytes :=
  decode_chunked_body_go (S (length encoded)) encoded [].

(** ** Responses *)

(** The first header of that name whose value is UTF-8. *)
Definition header_value (parsed : HttpResponse) (name : string) : option string :=
  head (omap (fun header =>
    if eq_ignore_ascii_case (header_name header) name
    then if utf8_valid (header_bytes header) then Some (of_utf8 (header_bytes header)) else None
    else None) (headers parsed)).

Definition is_chunked (value : string) : bool :=
  existsb (fun token => eq_ignore_ascii_case (trim token) "chunked") (split ","%char value).

Definition content_length (value : string) : Result Error nat :=
  let? length := ok_or (parse_unsigned u64_max (trim value)) (setup_error "invalid Content-Length header") in
  if Z.of_nat MAX_RESPONSE_BYTES <? length then Err (setup_error "response body exceeds the size limit")
  else Ok (Z.to_nat length).

Definition response_body (parsed : HttpResponse) (body : bytes) : Result Error bytes :=
  let chunked := default false (is_chunked <$> header_value parsed "transfer-encoding") in
  if chunked then decode_chunked_body body else
  match header_value parsed "content-length" with
  | Some value =>
    let? length := content_length value in
    ok_or (get_range body 0 length) (setup_error "truncated HTTP response body")
  | None =>
    if (MAX_RESPONSE_BYTES <? length body)%nat then Err (setup_error "response body exceeds the size limit")
    else Ok body
  end.

Definition bounded_text (field : string) (value : option string) (maximum : nat)
  : Result Error (option string) :=
  match value with
  | None => Ok None
  | Some value =>
    let value := trim value in
    if bool_decide (value = "") then Ok None
    else if (maximum <? length (utf8 value))%nat || existsb is_control (chars (utf8 value))
    then Err (setup_error (field +:+ " is too long or contains a control character"))
    else Ok (Some value)
  end.

Section Responses.
Context `{HttpParse} `{SetupJson}.

Definition response_extent (response : bytes) : Result Error (option nat) :=
  let? status := map_err (http_parse response) (fun e => setup_error ("parse HTTP response: " +:+ e)) in
  match status with
  | Partial =>
    if (length response <=? MAX_HEADER_BYTES)%nat then Ok None
    else Err (setup_error "HTTP headers exceed the limit")
  | Complete header_length parsed =>
    if (MAX_HEADER_BYTES <? header_length)%nat then Err (setup_error "HTTP headers exceed the limit") else
    if default false (is_chunked <$> header_value parsed "transfer-encoding") then
      let? body := slice response header_length (length response) in
      let? len := chunked_body_length body in
      Ok ((fun len => header_length + len)%nat <$> len)
    else
      match header_value parsed "content-length" with
      | Some value => let? length := content_length value in Ok (Some (header_length + length)%nat)
      | None => Ok None
      end
  end.

Definition parse_device_info (body : bytes) : Result Error SetupDeviceInfo :=
  let? envelope := map_err (envelope_from_slice body) (fun e => setup_error ("parse response JSON: " +:+ e)) in
  match envelope with
  | None => Ok (MkSetupDeviceInfo None None None None)
  | Some info =>
    let? manufacturer := bounded_text "manufacturer" (manufacturer info) MAX_MANUFACTURER_BYTES in
    let? model_name := bounded_text "model_name" (model_name info) MAX_MODEL_NAME_BYTES in
    let? product_name := bounded_text "product_name" (product_name info) MAX_PRODUCT_NAME_BYTES in
    let? ssdp_udn := bounded_text "ssdp_udn" (ssdp_udn info) MAX_SSDP_UDN_BYTES in
    Ok (MkSetupDeviceInfo manufacturer model_name product_name ssdp_udn)
  end.

Definition parse_http_response (response : bytes) : Result Error SetupInfoOutcome :=
  let? status := map_err (http_parse response) (fun e => setup_error ("parse HTTP response: " +:+ e)) in
  match status with
  | Partial => Err (setup_error "incomplete HTTP response headers")
  | Complete header_length parsed =>
    if (MAX_HEADER_BYTES <? header_length)%nat then Err (setup_error "HTTP headers exceed the limit") else
    let? status := ok_or (code parsed) (setup_error "HTTP response omitted its status") in
    if (status =? 404) || (status =? 405) || (status =? 501) then Ok SetupUnsupported else
    if negb ((200 <=? status) && (status <? 300))
    then Err (setup_error ("receiver returned HTTP " +:+ display status)) else
    let? body := slice response header_length (length response) in
    let? body := response_body parsed body in
    let? info := parse_device_info body in
    Ok (SetupAvailable info)
  end.

(** ** The exchange *)

Section Exchange.
Context {Rd : Type} `{AsyncRead Rd}.

(** [None]: the time allowed for the whole query ran out at an [await].  Every
    round takes at least a byte and the size is limited. *)
Fixpoint read_http_response_go (fuel : nat) (r : Rd) (response : bytes)
  : Rd * option (Result Error bytes) :=
  match fuel with
  | O => (r, Some Panic)
  | S fuel' =>
    match read r 8192 with
    | (r, ReadErr error) => (r, Some (Err (setup_error ("read response: " +:+ io_message error))))
    | (r, ReadCancelled) => (r, None)
    | (r, ReadOk []) => (r, Some (Ok response))
    | (r, ReadOk chunk) =>
      if (MAX_HEADER_BYTES + MAX_RESPONSE_BYTES <? length response + length chunk)%nat
      then (r, Some (Err (setup_error "HTTP response exceeds the size limit")))
      else
        let response := response ++ chunk in
        match response_extent response with
        | Err e => (r, Some (Err e))
        | Panic => (r, Some Panic)
        | Ok (Some len) =>
          if (len <=? length response)%nat then (r, Some (Ok (take len response)))
          else read_http_response_go fuel' r response
        | Ok None => read_http_response_go fuel' r response
        end
    end
  end.
Definition read_http_response (r : Rd) : Rd * option (Result Error bytes) :=
  read_http_response_go (S (S (MAX_HEADER_BYTES + MAX_RESPONSE_BYTES))) r [].

Definition setup_endpoint (cast_endpoint : SocketAddr) : SocketAddr :=
  match cast_endpoint with
  | V4 ip _ => socket_addr_new (IpV4 ip) SETUP_PORT
  | V6 ip _ flowinfo scope_id => V6 ip SETUP_PORT flowinfo scope_id
  end.

Definition host_header (endpoint : SocketAddr) : string :=
  match endpoint with
  | V4 _ _ => display_socket_addr endpoint
  | V6 ip port _ _ => "[" +:+ display_ipv6 ip +:+ "]:" +:+ display port
  end.

Definition crlf : string := of_utf8 CRLF.
Definition setup_request (endpoint : SocketAddr) : bytes :=
  utf8 ("GET " +:+ SETUP_PATH +:+ " HTTP/1.1" +:+ crlf +:+ "Host: " +:+ host_header endpoint +:+ crlf +:+
        "Accept: application/json" +:+ crlf +:+ "Connection: close" +:+ crlf +:+ crlf).

Context {N Wr : Type} `{RustlsProvider} `{!Dialer N Rd Wr} `{ControlWriter Wr}.

Definition query_device_info_inner (n : N) (setup_endpoint : SocketAddr)
  : N * option (Result Error SetupInfoOutcome) :=
  match tcp_connect n setup_endpoint with
  | (n, Pending) => (n, None)
  | (n, Failed error) =>
    (n, Some (Err (setup_error ("connect to " +:+ display_socket_addr setup_endpoint +:+ ": " +:+ error))))
  | (n, Completed tcp) =>
    match tls_connect n SelfSignedCertificateVerifier (ip_of setup_endpoint) tcp with
    | (n, Pending) => (n, None)
    | (n, Failed error) =>
      (n, Some (Err (setup_error ("TLS handshake with " +:+ display_socket_addr setup_endpoint +:+ ": " +:+ error))))
    | (n, Completed stream) =>
      match write_frame (write_half stream) (setup_request setup_endpoint) with
      | (_, WriteTimedOut) => (n, None)
      | (_, WriteFailed error) => (n, Some (Err (setup_error ("write request: " +:+ io_message error))))
      | (_, WriteDone) =>
        match read_http_response (read_half stream) with
        | (_, None) => (n, None)
        | (_, Some response) => (n, Some (let? response := response in parse_http_response response))
        end
      end
    end
  end.

Definition query_device_info (n : N) (cast_endpoint : SocketAddr) : N * Result Error SetupInfoOutcome :=
  let setup_endpoint := setup_endpoint cast_endpoint in
  match query_device_info_inner n setup_endpoint with
  | (n, Some result) => (n, result)
  | (n, None) =>
    (n, Err (setup_error ("request to " +:+ display_socket_addr setup_endpoint +:+ " timed out")))
  end.
End Exchange.
End Responses.
