(* ===== verification/SetupProps.v ===== *)
(** * Theorems about the setup endpoint

    The reader stops exactly where the chunk decoder would, chunked bodies are
    read back, and no response makes the query panic or keep more than its
    size limits. *)

From Stdlib Require Import Ascii.
From stdpp Require Import strings.
From S2P Require Import Prelude Time Errors Text CastProto CastFraming DeviceInfo EventLoop Session Net Control Tls Setup.

(** ** Definitions *)

Definition is_setup_error (e : Error) : Prop := exists m, e = SetupFailed m.

(** A chunk as HTTP/1.1 writes it, and a whole body. *)
Definition encode_chunk (chunk : bytes) : bytes :=
  utf8 (display_hex (Z.of_nat (length chunk))) ++ CRLF ++ chunk ++ CRLF.
Definition encode_chunked_body (chunks : list bytes) : bytes :=
  concat (map encode_chunk chunks) ++ utf8 "0" ++ CRLF ++ CRLF.

(** ** Lists *)

Lemma setup_error_is m : is_setup_error (setup_error m).
Proof. by exists m. Qed.
#[export] Hint Resolve setup_error_is : cast.

Lemma take_drop_agree (e e' : bytes) n a b :
  take n e = take n e' -> (a + b <= n)%nat -> take b (drop a e) = take b (drop a e').
Proof.
  intros Heq Hab.
  assert (Hcut : forall x : bytes, take b (drop a x) = take b (drop a (take n x))).
  { intros x. rewrite !take_drop_commute. f_equal. rewrite take_take. f_equal. lia. }
  by rewrite (Hcut e), (Hcut e'), Heq.
Qed.

Lemma find_window_bound pattern l i : find_window pattern l = Some i -> (i + length pattern <= length l)%nat.
Proof.
  revert i. induction l as [|x l IH]; intros i; [done|]. cbn [find_window].
  case_bool_decide as Ht.
  - intros [= <-]. rewrite <- Ht, length_take. lia.
  - destruct (find_window pattern l) as [j|]; [|done]. intros [= <-]. specialize (IH j eq_refl). cbn. lia.
Qed.

Lemma find_window_agree pattern l l' i :
  (0 < length pattern)%nat -> find_window pattern l = Some i ->
  take (i + length pattern) l = take (i + length pattern) l' -> find_window pattern l' = Some i.
Proof.
  intros Hp. revert l' i. induction l as [|x l IH]; intros l' i; [done|]. cbn [find_window].
  assert (Hshort : forall i, take (i + length pattern) (x :: l) = take (i + length pattern) l' ->
    take (length pattern) (x :: l) = take (length pattern) l').
  { intros k Hk. apply (f_equal (take (length pattern))) in Hk. rewrite !take_take in Hk.
    by rewrite !Nat.min_l in Hk by lia. }
  case_bool_decide as Ht.
  - intros [= <-] Heq. cbn [Nat.add] in Heq. destruct l' as [|y l'].
    + rewrite take_nil in Heq. rewrite Ht in Heq. subst pattern. cbn in Hp. lia.
    + cbn [find_window]. rewrite <- Heq, Ht. by rewrite bool_decide_eq_true_2.
  - destruct (find_window pattern l) as [j|] eqn:Hj; [|done]. intros [= <-] Heq.
    pose proof (Hshort _ Heq) as Hs. destruct l' as [|y l']; [done|]. cbn [find_window].
    rewrite <- Hs, bool_decide_eq_false_2 by done. cbn in Heq. injection Heq as <- Heq.
    by rewrite (IH l' j eq_refl Heq).
Qed.

(** ** Size limits *)

Lemma chunk_line_limits :
  (Z.of_nat MAX_RESPONSE_BYTES = 65536)%Z /\ (Z.of_nat MAX_HEADER_BYTES = 16384)%Z.
Proof. split; reflexivity. Qed.

#[local] Opaque MAX_RESPONSE_BYTES MAX_HEADER_BYTES.

Lemma slice_tail (e : bytes) a : (a <= length e)%nat -> @slice Error Z e a (length e) = Ok (drop a e).
Proof. intros Ha. rewrite slice_Ok by lia. rewrite take_ge; [done|]. rewrite length_drop. lia. Qed.

Lemma get_range_Some l a b x : get_range l a b = Some x -> (a <= b <= length l)%nat /\ x = take (b - a) (drop a l).
Proof.
  unfold get_range. destruct (Nat.leb_spec a b); [|done]. destruct (Nat.leb_spec b (length l)); [|done].
  intros [= <-]. split; [lia|done].
Qed.

Lemma get_range_eq l a b : (a <= b <= length l)%nat -> get_range l a b = Some (take (b - a) (drop a l)).
Proof.
  intros [Ha Hb]. unfold get_range. by rewrite (proj2 (Nat.leb_le _ _) Ha), (proj2 (Nat.leb_le _ _) Hb).
Qed.

Lemma decode_chunked_body_go_yields fuel e decoded :
  (length e < fuel)%nat -> (length decoded <= MAX_RESPONSE_BYTES)%nat ->
  yields (decode_chunked_body_go fuel e decoded) (fun d => (length d <= MAX_RESPONSE_BYTES)%nat) is_setup_error.
Proof.
  revert e decoded. induction fuel as [|fuel IH]; intros e decoded Hf Hd; [lia|]. cbn [decode_chunked_body_go].
  eapply yields_bind; [apply yields_ok_or, setup_error_is|]. intros line_end Hw.
  apply find_window_bound in Hw. cbn [length CRLF] in Hw.
  destruct (128 <? line_end)%nat; [apply setup_error_is|]. rewrite slice_Ok by lia. cbn [bind].
  eapply yields_bind; [apply yields_ok_or, setup_error_is|]. intros size Hsize.
  rewrite slice_tail by lia. cbn [bind]. destruct (size =? 0); [done|].
  destruct (Z.ltb_spec (Z.of_nat MAX_RESPONSE_BYTES) (saturating_add_u64 (Z.of_nat (length decoded)) size)) as [|Hmax];
    [apply setup_error_is|].
  eapply yields_bind; [apply yields_ok_or, setup_error_is|]. intros chunk Hchunk.
  case_bool_decide as Hend; [apply setup_error_is|]. 
  apply get_range_Some in Hend as [Hend _]. apply get_range_Some in Hchunk as [Hchunk ->].
  rewrite slice_tail by lia. cbn [bind]. apply IH; [rewrite !length_drop; lia|].
  rewrite length_app, length_take, length_drop. destruct chunk_line_limits as [HM _].
  unfold saturating_add_u64, u64_max in Hmax. lia.
Qed.

Lemma decode_chunked_body_yields e :
  yields (decode_chunked_body e) (fun d => (length d <= MAX_RESPONSE_BYTES)%nat) is_setup_error.
Proof. apply decode_chunked_body_go_yields; cbn [length]; lia. Qed.

Lemma chunked_body_length_go_yields fuel e offset :
  (length e - offset < fuel)%nat -> (offset <= length e)%nat ->
  yields (chunked_body_length_go fuel e offset) (fun o => forall n, o = Some n -> (n <= length e)%nat) is_setup_error.
Proof.
  revert offset. induction fuel as [|fuel IH]; intros offset Hf Ho; [lia|]. cbn [chunked_body_length_go].
  rewrite slice_tail by done. cbn [bind]. destruct (find_window CRLF (drop offset e)) as [line_end|] eqn:Hw; [|done].
  apply find_window_bound in Hw. cbn [length CRLF] in Hw. rewrite length_drop in Hw.
  destruct (128 <? line_end)%nat; [apply setup_error_is|]. rewrite slice_Ok by lia. cbn [bind].
  eapply yields_bind; [apply yields_ok_or, setup_error_is|]. intros size Hsize.
  destruct (size =? 0).
  - rewrite slice_tail by lia. cbn [bind]. case_bool_decide as Ht.
    + intros n [= <-]. apply (f_equal length) in Ht. rewrite length_take, length_drop in Ht. cbn [length CRLF] in Ht. lia.
    + intros n Hn. apply fmap_Some in Hn as (k & Hk & ->). apply find_window_bound in Hk.
      rewrite length_drop in Hk. cbn [length app CRLF] in Hk. lia.
  - destruct (_ <? size); [apply setup_error_is|].
    destruct (Nat.ltb_spec (length e) (offset + (line_end + 2) + (Z.to_nat size + 2))); [done|].
    case_bool_decide; [apply setup_error_is|]. destruct (_ <? _)%nat; [apply setup_error_is|]. apply IH; lia.
Qed.

Lemma chunked_body_length_yields e :
  yields (chunked_body_length e) (fun o => forall n, o = Some n -> (n <= length e)%nat) is_setup_error.
Proof. apply chunked_body_length_go_yields; lia. Qed.

(** ** Where a chunked body ends *)

(** The rounds of the decoder on any input that starts with the bytes the
    reader looked at. *)
Lemma chunked_body_length_go_decode fuel e offset n :
  chunked_body_length_go fuel e offset = Ok (Some n) ->
  (offset <= length e)%nat -> (offset <= MAX_RESPONSE_BYTES)%nat ->
  (offset <= n <= length e)%nat /\
  exists d, (offset + length d <= MAX_RESPONSE_BYTES)%nat /\
    forall e' acc fuel', take n e = take n e' -> (n <= length e')%nat ->
      (length acc <= offset)%nat -> (length e' - offset < fuel')%nat ->
      decode_chunked_body_go fuel' (drop offset e') acc = Ok (acc ++ d).
Proof.
  revert offset. induction fuel as [|fuel IH]; intros offset Hgo Ho Hm; [done|]. cbn [chunked_body_length_go] in Hgo.
  rewrite slice_tail in Hgo by done. cbn [bind] in Hgo.
  destruct (find_window CRLF (drop offset e)) as [le|] eqn:Hw; [|done].
  pose proof (find_window_bound _ _ _ Hw) as Hle. rewrite length_drop in Hle. cbn [length CRLF] in Hle.
  destruct (128 <? le)%nat eqn:H128; [done|]. rewrite slice_Ok in Hgo by lia. cbn [bind] in Hgo.
  replace (offset + le - offset)%nat with le in Hgo by lia.
  destruct (chunk_size (take le (drop offset e))) as [size|] eqn:Hs; [|done]. cbn [ok_or bind] in Hgo.
  set (o1 := (offset + (le + 2))%nat) in *.
  (** The line as the decoder sees it. *)
  assert (Hline : forall e' acc fuel', take n e = take n e' -> (n <= length e')%nat -> (o1 <= n)%nat ->
    (length e' - offset < fuel')%nat ->
    exists fuel'', fuel' = S fuel'' /\ (length e' - o1 < fuel'')%nat /\
    decode_chunked_body_go fuel' (drop offset e') acc =
    if size =? 0 then Ok acc else
    if Z.of_nat MAX_RESPONSE_BYTES <? saturating_add_u64 (Z.of_nat (length acc)) size
    then Err (setup_error "response body exceeds the size limit") else
    let? chunk := ok_or (get_range (drop o1 e') 0 (Z.to_nat size)) (setup_error "truncated HTTP response chunk") in
    if bool_decide (get_range (drop o1 e') (Z.to_nat size) (Z.to_nat size + 2) <> Some CRLF)
    then Err (setup_error "response chunk omitted its terminator") else
    let? encoded := slice (drop o1 e') (Z.to_nat size + 2) (length (drop o1 e')) in
    decode_chunked_body_go fuel'' encoded (acc ++ chunk)).
  { intros e' acc fuel' Heq Hn Ho1 Hf. destruct fuel' as [|fuel']; [lia|]. exists fuel'.
    split; [done|]. split; [lia|]. cbn [decode_chunked_body_go].
    rewrite (find_window_agree CRLF (drop offset e) (drop offset e') le); [|cbn; lia|done|].
    2:{ apply (take_drop_agree e e' n); [done|]. cbn [length CRLF]. lia. }
    cbn [ok_or bind]. rewrite H128. rewrite slice_Ok by (rewrite ?length_drop; lia). rewrite drop_0, Nat.sub_0_r.
    rewrite <- (take_drop_agree e e' n offset le) by (done || lia). cbn [bind]. rewrite Hs. cbn [ok_or bind].
    rewrite slice_tail by (rewrite length_drop; lia). cbn [bind]. by rewrite drop_drop. }
  destruct (Z.eqb_spec size 0) as [->|Hne].
  - assert (Hn : (o1 + 2 <= n <= length e)%nat).
    { rewrite slice_tail in Hgo by lia. cbn [bind] in Hgo. case_bool_decide as Ht.
      - injection Hgo as <-. apply (f_equal length) in Ht. rewrite length_take, length_drop in Ht.
        cbn [length CRLF] in Ht. lia.
      - destruct (find_window (CRLF ++ CRLF) (drop o1 e)) as [k|] eqn:Hk; [|done].
        cbn in Hgo. injection Hgo as <-. apply find_window_bound in Hk. rewrite length_drop in Hk.
        cbn [length app CRLF] in Hk. lia. }
    split; [lia|]. exists []. split; [cbn [length]; lia|]. intros e' acc fuel' Heq Hn' Ha Hf.
    destruct (Hline e' acc fuel' Heq Hn' ltac:(lia) Hf) as (fuel'' & _ & _ & ->). by rewrite app_nil_r.
  - destruct (Z.ltb_spec (Z.of_nat MAX_RESPONSE_BYTES) size); [done|].
    destruct (Nat.ltb_spec (length e) (o1 + (Z.to_nat size + 2))); [done|].
    case_bool_decide as Hcr; [done|]. set (o2 := (o1 + (Z.to_nat size + 2))%nat) in *.
    destruct (Nat.ltb_spec MAX_RESPONSE_BYTES o2); [done|].
    destruct (IH o2 Hgo ltac:(lia) ltac:(lia)) as (Hn & d & Hd & Hdec). split; [lia|].
    exists (take (Z.to_nat size) (drop o1 e) ++ d). split.
    { rewrite length_app, length_take, length_drop. lia. }
    intros e' acc fuel' Heq Hn' Ha Hf.
    destruct (Hline e' acc fuel' Heq Hn' ltac:(lia) Hf) as (fuel'' & _ & Hf'' & ->).
    destruct (Z.eqb_spec size 0); [lia|].
    assert (Hmax : saturating_add_u64 (Z.of_nat (length acc)) size <= Z.of_nat MAX_RESPONSE_BYTES).
    { unfold saturating_add_u64. lia. }
    destruct (Z.ltb_spec (Z.of_nat MAX_RESPONSE_BYTES) (saturating_add_u64 (Z.of_nat (length acc)) size)); [lia|].
    rewrite get_range_eq by (rewrite length_drop; lia). cbn [ok_or bind]. rewrite drop_0, Nat.sub_0_r.
    rewrite <- (take_drop_agree e e' n o1 (Z.to_nat size)) by (done || lia).
    rewrite get_range_eq by (rewrite length_drop; lia). rewrite drop_drop.
    rewrite get_range_eq in Hcr by lia. replace (o1 + Z.to_nat size + 2 - (o1 + Z.to_nat size))%nat with 2%nat in Hcr by lia.
    replace (Z.to_nat size + 2 - Z.to_nat size)%nat with 2%nat by lia.
    rewrite <- (take_drop_agree e e' n (o1 + Z.to_nat size) 2) by (done || lia). rewrite bool_decide_eq_false_2 by (intros Hx; by apply Hx).
    rewrite slice_tail by (rewrite length_drop; lia). cbn [bind]. rewrite drop_drop.
    rewrite Hdec; [by rewrite app_assoc|done|done| |].
    + rewrite length_app, length_take, length_drop. lia.
    + lia.
Qed.

(** C23: The reader and the decoder agree on where a chunked body ends: when the
    reader's scan says the body is complete after [n] bytes, those bytes are
    there and decode, whatever follows them, to one body within the size
    limit; what is cut off was never part of it. *)
Theorem chunked_extent_decodes (e : bytes) (n : nat) :
  chunked_body_length e = Ok (Some n) ->
  (n <= length e)%nat /\ exists d, (length d <= MAX_RESPONSE_BYTES)%nat /\
    forall tail, decode_chunked_body (take n e ++ tail) = Ok d.
Proof.
  intros Hc. apply chunked_body_length_go_decode in Hc as (Hn & d & Hd & Hdec); [|lia|lia].
  split; [lia|]. exists d. split; [lia|]. intros tail. unfold decode_chunked_body.
  specialize (Hdec (take n e ++ tail) [] (S (length (take n e ++ tail)))). rewrite drop_0 in Hdec. apply Hdec.
  - rewrite take_app_le by (rewrite length_take; lia). by rewrite take_take, Nat.min_id.
  - rewrite length_app, length_take. lia.
  - done.
  - lia.
Qed.

Lemma chunked_extent_decodes_witness :
  exists d, (length d <= MAX_RESPONSE_BYTES)%nat /\
    forall tail, decode_chunked_body (take 17 (utf8 "3;x=y" ++ CRLF ++ [1; 2; 3] ++ CRLF ++ utf8 "0" ++ CRLF ++ CRLF ++ [7]) ++ tail) = Ok d.
Proof. apply (chunked_extent_decodes _ 17). vm_compute. reflexivity. Defined.

(** ** Chunks are read back *)

(** A printable character other than the space, [;] and [,]. *)
Definition word_byte (b : Z) : Prop := 48 <= b <= 57 \/ 97 <= b <= 102.

Lemma hex_char_word d : 0 <= d < 16 -> word_byte (Z.of_nat (nat_of_ascii (hex_char d))).
Proof.
  intros Hd. unfold hex_char, word_byte. rewrite nat_ascii_embedding by (destruct (_ <? _); lia).
  destruct (Z.ltb_spec d 10); lia.
Qed.

Lemma display_hex_go_word fuel n tail :
  0 <= n -> Forall word_byte (utf8 tail) ->
  Forall word_byte (utf8 (display_hex_go fuel n tail)) /\
  (length (utf8 (display_hex_go fuel n tail)) <= fuel + length (utf8 tail))%nat.
Proof.
  revert n tail. induction fuel as [|fuel IH]; intros n tail Hn Ht; cbn [display_hex_go]; [done|].
  assert (Hc : Forall word_byte (utf8 (String (hex_char (n mod 16)) tail))).
  { constructor; [apply hex_char_word, Z.mod_pos_bound; lia|done]. }
  destruct (n <? 16); [split; [done|cbn; lia]|].
  destruct (IH (n / 16) _ ltac:(apply Z.div_pos; lia) Hc) as [Hw Hl]. split; [done|]. cbn [utf8 length] in Hl. lia.
Qed.

Lemma display_hex_word n : 0 <= n -> Forall word_byte (utf8 (display_hex n)).
Proof. intros Hn. apply display_hex_go_word; [done|constructor]. Qed.

Lemma display_hex_length n : 0 <= n < 2 ^ 64 -> (length (utf8 (display_hex n)) <= 64)%nat.
Proof.
  intros Hn. unfold display_hex. destruct (display_hex_go_word (S (Z.to_nat (Z.log2 n))) n "") as [_ Hl]; [lia|constructor|].
  cbn [utf8 length] in Hl. assert (Z.log2 n <= 63); [|lia].
  destruct (Z.eq_dec n 0) as [->|]; [cbn; lia|]. apply Z.lt_succ_r, Z.log2_lt_pow2; lia.
Qed.

Lemma word_utf8_valid l : Forall word_byte l -> utf8_valid l = true.
Proof.
  induction 1 as [|b l Hb Hl IH]; [done|]. cbn [utf8_valid]. unfold word_byte in Hb.
  by destruct (Z.ltb_spec b 0x80); [|lia].
Qed.

Lemma word_chars l : Forall word_byte l -> chars l = map (fun b => [b]) l.
Proof.
  unfold chars. assert (Hgo : forall fuel, (length l <= fuel)%nat -> Forall word_byte l ->
    chars_go fuel l = map (fun b => [b]) l); [|intros; by apply Hgo].
  intros fuel. revert l. induction fuel as [|fuel IH]; intros [|b l] Hf Hl; try done; [cbn in Hf; lia|].
  apply Forall_cons_iff in Hl as [Hb Hl]. cbn [chars_go map]. unfold char_width, word_byte in *.
  destruct (Z.ltb_spec b 0x80); [|lia]. cbn [take drop].
  f_equal. apply IH; [cbn in Hf; lia|done].
Qed.

Lemma is_whitespace_single b : is_whitespace [b] = ((9 <=? b) && (b <=? 13)) || (b =? 32).
Proof. destruct b as [|p|p]; try reflexivity. do 8 (destruct p as [p|p|]; try reflexivity). Qed.

Lemma word_skip l : Forall word_byte l -> skip_whitespace (map (fun b => [b]) l) = map (fun b => [b]) l.
Proof.
  intros Hl. destruct l as [|b l]; [done|]. apply Forall_cons_iff in Hl as [Hb _].
  cbn [map skip_whitespace]. assert (Hw : is_whitespace [b] = false); [|by rewrite Hw].
  rewrite is_whitespace_single. unfold word_byte in Hb. rewrite (proj2 (Z.eqb_neq b 32)), (proj2 (Z.leb_gt b 13)) by lia.
  by rewrite andb_false_r.
Qed.

Lemma word_trim s : Forall word_byte (utf8 s) -> trim s = s.
Proof.
  intros Hs. unfold trim, trim_chars. rewrite word_chars, word_skip by done.
  rewrite <- map_rev, word_skip, map_rev, rev_involutive by (by apply Forall_rev).
  rewrite <- (of_utf8_utf8 s) at 2. f_equal. generalize (utf8 s). clear.
  induction l as [|b l IH]; [done|]. cbn. by rewrite IH.
Qed.

Lemma word_split c s :
  Forall word_byte (utf8 s) -> ~ word_byte (Z.of_nat (nat_of_ascii c)) -> split c s = [s].
Proof.
  intros Hs Hc. induction s as [|x s IH]; [done|]. cbn [utf8] in Hs. apply Forall_cons_iff in Hs as [Hx Hs].
  cbn [split]. destruct (decide (x = c)) as [->|]; [done|]. by rewrite (IH Hs).
Qed.

Lemma chunk_size_display n : 0 <= n <= u64_max -> chunk_size (utf8 (display_hex n)) = Some n.
Proof.
  intros Hn. pose proof (display_hex_word n ltac:(lia)) as Hw. unfold chunk_size.
  rewrite word_utf8_valid, of_utf8_utf8, word_split by (done || (intros [[_ Hx]|[Hx _]]; by apply Hx)).
  cbn [head mbind option_bind]. rewrite word_trim by done. by apply from_str_radix_display.
Qed.

Lemma find_crlf_after pre post : Forall word_byte pre -> find_window CRLF (pre ++ CRLF ++ post) = Some (length pre).
Proof.
  induction 1 as [|b pre Hb Hpre IH]; [done|]. cbn [app find_window].
  rewrite bool_decide_eq_false_2; [cbn [app] in IH |- *; by rewrite IH|].
  cbn. intros [= Heq _]. unfold word_byte in Hb. lia.
Qed.

Lemma encode_chunk_length c : length (encode_chunk c) = (length (utf8 (display_hex (Z.of_nat (length c)))) + length c + 4)%nat.
Proof. unfold encode_chunk. rewrite !length_app. cbn [length CRLF]. lia. Qed.

(** The decoder takes one chunk. *)
Lemma decode_chunk fuel c rest acc :
  c <> [] -> (length acc + length c <= MAX_RESPONSE_BYTES)%nat ->
  decode_chunked_body_go (S fuel) (encode_chunk c ++ rest) acc = decode_chunked_body_go fuel rest (acc ++ c).
Proof.
  intros Hc Hmax. destruct chunk_line_limits as [HM _].
  assert (Hlen : (0 < length c)%nat) by (destruct c; [done|cbn; lia]).
  set (line := utf8 (display_hex (Z.of_nat (length c)))).
  assert (He : encode_chunk c ++ rest = line ++ CRLF ++ (c ++ CRLF ++ rest)).
  { unfold encode_chunk. fold line. by rewrite <- !app_assoc. }
  pose proof (display_hex_word (Z.of_nat (length c)) ltac:(lia)) as Hw. fold line in Hw.
  pose proof (display_hex_length (Z.of_nat (length c)) ltac:(lia)) as Hl. fold line in Hl.
  cbn [decode_chunked_body_go]. rewrite He, find_crlf_after by done. cbn [ok_or bind].
  destruct (Nat.ltb_spec 128 (length line)); [lia|].
  rewrite slice_Ok by (rewrite ?length_app; lia). rewrite drop_0, Nat.sub_0_r, take_app_length. cbn [bind].
  subst line. rewrite chunk_size_display by (unfold u64_max; lia). set (line := utf8 _) in *. cbn [ok_or bind].
  rewrite slice_tail by (rewrite !length_app; cbn [length CRLF]; lia). cbn [bind].
  replace (line ++ CRLF ++ c ++ CRLF ++ rest) with ((line ++ CRLF) ++ c ++ CRLF ++ rest) by (by rewrite <- app_assoc).
  rewrite drop_app_length' by (rewrite length_app; cbn [length CRLF]; lia).
  destruct (Z.eqb_spec (Z.of_nat (length c)) 0); [lia|].
  destruct (Z.ltb_spec (Z.of_nat MAX_RESPONSE_BYTES) (saturating_add_u64 (Z.of_nat (length acc)) (Z.of_nat (length c))));
    [unfold saturating_add_u64, u64_max in *; lia|].
  rewrite Nat2Z.id, !get_range_eq by (rewrite !length_app; cbn [length CRLF]; lia). cbn [ok_or bind].
  rewrite drop_0, Nat.sub_0_r, take_app_length, drop_app_length.
  replace (length c + 2 - length c)%nat with 2%nat by lia. rewrite bool_decide_eq_false_2 by (intros Hx; by apply Hx).
  rewrite slice_tail by (rewrite !length_app; cbn [length CRLF]; lia). cbn [bind].
  replace (c ++ CRLF ++ rest) with ((c ++ CRLF) ++ rest) by (by rewrite <- app_assoc).
  by rewrite drop_app_length' by (rewrite length_app; cbn [length CRLF]; lia).
Qed.

(** A chunked body is read back: the chunks, in order, as long as none is
    empty and together they respect the size limit. *)
Theorem chunked_body_roundtrip (chunks : list bytes) :
  Forall (fun c => c <> []) chunks -> (length (concat chunks) <= MAX_RESPONSE_BYTES)%nat ->
  decode_chunked_body (encode_chunked_body chunks) = Ok (concat chunks).
Proof.
  unfold decode_chunked_body, encode_chunked_body.
  assert (Hgo : forall fuel acc, Forall (fun c => c <> []) chunks ->
    (length acc + length (concat chunks) <= MAX_RESPONSE_BYTES)%nat ->
    (length (concat (map encode_chunk chunks)) < fuel)%nat ->
    decode_chunked_body_go fuel (concat (map encode_chunk chunks) ++ utf8 "0" ++ CRLF ++ CRLF) acc
      = Ok (acc ++ concat chunks)).
  { induction chunks as [|c chunks IH]; intros fuel acc Hne Hmax Hf.
    - destruct fuel as [|fuel]; [cbn in Hf; lia|]. rewrite app_nil_r. reflexivity.
    - apply Forall_cons_iff in Hne as [Hc Hne]. cbn [map concat] in *. rewrite length_app in *.
      destruct fuel as [|fuel]; [lia|]. rewrite <- app_assoc, decode_chunk by (done || lia).
      rewrite IH; [by rewrite app_assoc|done|rewrite length_app; lia|].
      rewrite encode_chunk_length in Hf. lia. }
  intros Hne Hmax. rewrite Hgo; [done|done|done|]. rewrite length_app. lia.
Qed.

Lemma chunked_body_roundtrip_witness :
  decode_chunked_body (encode_chunked_body [[1; 2; 3]; replicate 20 7]) = Ok ([1; 2; 3] ++ replicate 20 7).
Proof.
  apply (chunked_body_roundtrip [[1; 2; 3]; replicate 20 7]).
  - repeat constructor; discriminate.
  - apply Nat.leb_le. vm_compute. reflexivity.
Defined.

(** ** Responses *)

Definition clean_field (maximum : nat) (text : option string) : Prop :=
  match text with Some s => clean_text maximum s | None => True end.

Record clean_info (info : SetupDeviceInfo) : Prop := {
  ci_manufacturer : clean_field 256 (manufacturer info);
  ci_model_name : clean_field 256 (model_name info);
  ci_product_name : clean_field 256 (product_name info);
  ci_ssdp_udn : clean_field 256 (ssdp_udn info);
}.

Lemma content_length_yields value :
  yields (content_length value) (fun n => (n <= MAX_RESPONSE_BYTES)%nat) is_setup_error.
Proof.
  unfold content_length. eapply yields_bind; [apply yields_ok_or, setup_error_is|]. intros n _.
  destruct (Z.ltb_spec (Z.of_nat MAX_RESPONSE_BYTES) n); [apply setup_error_is|]. cbn. lia.
Qed.

Lemma response_body_yields parsed body :
  yields (response_body parsed body) (fun b => (length b <= MAX_RESPONSE_BYTES)%nat) is_setup_error.
Proof.
  unfold response_body. destruct (default false _); [apply decode_chunked_body_yields|].
  destruct (header_value parsed "content-length") as [value|].
  - eapply yields_bind; [apply content_length_yields|]. intros n Hn.
    eapply yields_weaken; [apply yields_ok_or, setup_error_is|]. intros b Hb.
    apply get_range_Some in Hb as [_ ->]. cbn in Hn. rewrite length_take. lia.
  - destruct (Nat.ltb_spec MAX_RESPONSE_BYTES (length body)); [apply setup_error_is|done].
Qed.

Lemma bounded_text_yields field value maximum :
  yields (bounded_text field value maximum) (clean_field maximum) is_setup_error.
Proof.
  unfold bounded_text. destruct value as [raw|]; [|done]. case_bool_decide as He; [done|].
  destruct (Nat.ltb_spec maximum (length (utf8 (trim raw)))) as [Hlen|Hlen]; [apply setup_error_is|]. cbn [orb].
  destruct (existsb is_control _) eqn:Hctl; [apply setup_error_is|]. cbn.
  split_and!; [done|lia|apply trim_trimmed|]. apply stdpp.list_relations.list.Forall_forall. intros c Hc.
  destruct (is_control c) eqn:Hcc; [|done]. rewrite <- Hctl. symmetry. apply existsb_exists.
  exists c. by rewrite <- list_elem_of_In.
Qed.

Section Exchange.
Context `{HttpParse} `{SetupJson}.

Lemma response_extent_yields response : yields (response_extent response) (fun _ => True) is_setup_error.
Proof.
  unfold response_extent. eapply yields_bind; [apply yields_map_err; intros; apply setup_error_is|].
  intros [header_length parsed|] Hp.
  - apply http_parse_within in Hp. destruct (_ <? _)%nat; [apply setup_error_is|]. destruct (default false _).
    + rewrite slice_tail by done. cbn [bind]. by eapply yields_bind; [apply chunked_body_length_yields|].
    + destruct (header_value parsed "content-length"); [|done].
      by eapply yields_bind; [apply content_length_yields|].
  - by destruct (_ <=? _)%nat; [|apply setup_error_is].
Qed.

Lemma parse_device_info_yields body : yields (parse_device_info body) clean_info is_setup_error.
Proof.
  unfold parse_device_info. eapply yields_bind; [apply yields_map_err; intros; apply setup_error_is|].
  intros [info|] _; [|done].
  do 4 (eapply yields_bind; [apply bounded_text_yields|]; intros ? ?). by split.
Qed.

Definition clean_outcome (outcome : SetupInfoOutcome) : Prop :=
  match outcome with SetupAvailable info => clean_info info | SetupUnsupported => True end.

Lemma parse_http_response_yields response :
  yields (parse_http_response response) clean_outcome is_setup_error.
Proof.
  unfold parse_http_response. eapply yields_bind; [apply yields_map_err; intros; apply setup_error_is|].
  intros [header_length parsed|] Hp; [|apply setup_error_is]. apply http_parse_within in Hp.
  destruct (_ <? _)%nat; [apply setup_error_is|].
  eapply yields_bind; [apply yields_ok_or, setup_error_is|]. intros status _.
  destruct (_ || _); [done|]. destruct (negb _); [apply setup_error_is|].
  rewrite slice_tail by done. cbn [bind].
  eapply yields_bind; [apply response_body_yields|]. intros body _.
  by eapply yields_bind; [apply parse_device_info_yields|].
Qed.

Context `{AsyncReadLaws Rd}.

(** The bytes a finished read returns: a prefix of the stream, within the limit. *)
Definition within_limits (r : Rd) (response : bytes) : Prop :=
  response `prefix_of` unread r /\ (length response <= MAX_HEADER_BYTES + MAX_RESPONSE_BYTES)%nat.

Lemma read_http_response_go_yields fuel r0 r response :
  (MAX_HEADER_BYTES + MAX_RESPONSE_BYTES < length response + fuel)%nat ->
  (length response <= MAX_HEADER_BYTES + MAX_RESPONSE_BYTES)%nat ->
  unread r0 = response ++ unread r ->
  match snd (read_http_response_go fuel r response) with
  | Some result => yields result (within_limits r0) is_setup_error
  | None => True
  end.
Proof.
  revert r response. induction fuel as [|fuel IH]; intros r response Hf Hl Hr; [lia|].
  cbn [read_http_response_go]. destruct (read r 8192) as [r' [chunk|e|]] eqn:Hread; cbn [snd]; [|apply setup_error_is|done].
  apply read_ok in Hread as (_ & Hsplit & _). destruct chunk as [|b chunk].
  { split; [|done]. rewrite Hr. by exists (unread r). }
  destruct (Nat.ltb_spec (MAX_HEADER_BYTES + MAX_RESPONSE_BYTES) (length response + length (b :: chunk)));
    [apply setup_error_is|].
  assert (Hnext : unread r0 = (response ++ b :: chunk) ++ unread r') by (by rewrite Hr, Hsplit, app_assoc).
  assert (Hlen : length (response ++ b :: chunk) = (length response + length (b :: chunk))%nat) by apply length_app.
  pose proof (response_extent_yields (response ++ b :: chunk)) as He.
  destruct (response_extent _) as [[len|]|e|]; [|apply IH; cbn [length] in *; done || lia|done|done].
  destruct (Nat.leb_spec len (length (response ++ b :: chunk))); [|apply IH; cbn [length] in *; done || lia].
  cbn. split; [|rewrite length_take; lia].
  rewrite Hnext. apply prefix_app_r. exists (drop len (response ++ b :: chunk)). by rewrite take_drop.
Qed.

(** C38: Reading a response ends within the size limit whatever the peer sends:
    either the time runs out, or the bytes returned are a prefix of the stream
    of at most 80 KiB, or the error is a setup failure; no input panics. *)
Theorem read_http_response_bounded (r : Rd) :
  match snd (read_http_response r) with
  | Some result => yields result (within_limits r) is_setup_error
  | None => True
  end.
Proof. apply read_http_response_go_yields; [cbn [length]; lia|cbn [length]; lia|done]. Qed.

Context {N Wr : Type} `{RustlsProvider} `{!Dialer N Rd Wr} `{ControlWriter Wr}.

(** C37: A setup query always ends with an outcome or a setup failure, never a
    panic, and every text it returns is trimmed, nonempty, at most 256 bytes
    and free of control characters. *)
Theorem query_device_info_clean (n : N) (endpoint : SocketAddr) :
  yields (snd (query_device_info n endpoint)) clean_outcome is_setup_error.
Proof.
  unfold query_device_info, query_device_info_inner.
  destruct (tcp_connect n (setup_endpoint endpoint)) as [n1 [|e|tcp]]; try apply setup_error_is.
  destruct (tls_connect n1 _ _ tcp) as [n2 [|e|stream]]; try apply setup_error_is.
  destruct (write_frame (write_half stream) _) as [w [|e|]]; try apply setup_error_is.
  pose proof (read_http_response_go_yields (S (S (MAX_HEADER_BYTES + MAX_RESPONSE_BYTES)))
    (read_half stream) (read_half stream) [] ltac:(cbn [length]; lia) ltac:(cbn [length]; lia) eq_refl) as Hread.
  unfold read_http_response. destruct (read_http_response_go _ _ _) as [r [result|]]; [|apply setup_error_is].
  cbn [snd] in *. eapply yields_bind; [exact Hread|]. intros response _. apply parse_http_response_yields.
Qed.
End Exchange.

(** ** A small instance *)

Module ToySetup.
(** A parser that knows one status line and one header. *)
Definition header_block : bytes :=
  utf8 "HTTP/1.1 200 OK" ++ CRLF ++ utf8 "Transfer-Encoding: gzip, Chunked" ++ CRLF ++ CRLF.
Definition toy_http_parse (d : bytes) : string + HttpStatus :=
  if decide (take (length header_block) d = header_block)
  then inr (Complete (length header_block)
         (MkResponse (Some 200) [MkHeader "Transfer-Encoding" (utf8 "gzip, Chunked")]))
  else inr Partial.
Lemma toy_http_parse_within d n p : toy_http_parse d = inr (Complete n p) -> (n <= length d)%nat.
Proof.
  unfold toy_http_parse. destruct (decide _) as [Ht|]; [|done]. intros Heq.
  assert (n = length header_block) as -> by congruence. apply (f_equal length) in Ht. rewrite length_take in Ht. lia.
Qed.
#[local] Instance http : HttpParse := { http_parse := toy_http_parse; http_parse_within := toy_http_parse_within }.

(** A document that is the manufacturer's name. *)
#[local] Instance json : SetupJson := fun body =>
  inr (Some (MkSetupDeviceInfo (Some (of_utf8 body)) None (Some " ") None)).
#[local] Instance provider : RustlsProvider :=
  {| DigitallySignedStruct := unit; verify_tls12 _ _ _ := inr tt; verify_tls13 _ _ _ := inr tt; supported_schemes := [] |}.

(** A network with one receiver, whose answer arrives in small reads. *)
Definition answer : bytes := header_block ++ encode_chunked_body [utf8 " TC"; utf8 "L "] ++ utf8 "never read".
#[local] Instance dialer : Dialer unit ChunkedStream unit := {|
  TcpStream := unit;
  tcp_connect n _ := (n, Completed tt);
  tls_connect n _ _ _ := (n, Completed (MkTlsStream (Some [[1]]) (MkChunked answer [30; 30; 9; 9]%nat) tt));
|}.
#[local] Instance writer : ControlWriter unit := fun w _ => (w, WriteDone).

Lemma query_device_info_clean_witness :
  exists info, snd (query_device_info tt (V4 0xC0000208 8009)) = Ok (SetupAvailable info) /\
    clean_info info /\ manufacturer info = Some "TCL".
Proof.
  exists (MkSetupDeviceInfo (Some "TCL") None None None).
  pose proof (query_device_info_clean tt (V4 0xC0000208 8009)) as Hq.
  assert (He : snd (query_device_info tt (V4 0xC0000208 8009)) =
    Ok (SetupAvailable (MkSetupDeviceInfo (Some "TCL") None None None))) by (vm_compute; reflexivity).
  rewrite He in Hq. split; [exact He|split; [exact Hq|reflexivity]].
Defined.

Lemma read_http_response_bounded_witness :
  exists response, snd (read_http_response (MkChunked answer [])) = Some (Ok response) /\
    response `prefix_of` answer /\ (length response <= MAX_HEADER_BYTES + MAX_RESPONSE_BYTES)%nat.
Proof.
  set (expected := header_block ++ encode_chunked_body [utf8 " TC"; utf8 "L "]). exists expected.
  pose proof (read_http_response_bounded (MkChunked answer [])) as Hr.
  assert (He : snd (read_http_response (MkChunked answer [])) = Some (Ok expected)) by (vm_compute; reflexivity).
  rewrite He in Hr. split; [exact He|exact Hr].
Defined.
End ToySetup.
