(* ===== verification/Connect.v ===== *)
(** * Opening a control connection ([src/src/control/mod.rs], [connect_address])

    TCP and TLS, the device-authentication exchange, the virtual CONNECT, and
    only then a connection whose task runs [control_loop]. *)

From stdpp Require Import strings gmap.
From S2P Require Import Prelude Constants Time Errors Text Json SyncSource CastProto CastFraming EventLoop Session Auth AuthProps Net Control ControlProps ControlApi Tls Setup.

(** The channel while the connection is being made: the random generator, the
    clock, the framed halves of the TLS stream, and the messages written. *)
Record Channel (G W Rd Wr : Type) := MkChannel {
  ch_rng : G;
  ch_clock : W;
  ch_stream : Rd;
  ch_reader : FramedReader;
  ch_writer : Wr;
  ch_sent : list CastMessage;
}.
Arguments MkChannel {G W Rd Wr} ch_rng ch_clock ch_stream ch_reader ch_writer ch_sent.
Arguments ch_rng {G W Rd Wr} c.
Arguments ch_clock {G W Rd Wr} c.
Arguments ch_stream {G W Rd Wr} c.
Arguments ch_reader {G W Rd Wr} c.
Arguments ch_writer {G W Rd Wr} c.
Arguments ch_sent {G W Rd Wr} c.

Section Connect.
Context {G W N Rd Wr : Type} `{Rng G} `{Clock W} `{AsyncRead Rd} `{ControlWriter Wr}.
Context `{X509Library} `{Webpki} `{Ring} `{TrustRoots} `{RustlsProvider} `{!Dialer N Rd Wr} `{JsonText}.

Abbreviation channel := (Channel G W Rd Wr).
Abbreviation Connecting := (Eff channel Error).

(** ** Steps on the channel *)

Definition new_challenge : Connecting AuthChallenge := fun c =>
  let '(rng, challenge) := create_challenge (ch_rng c) in
  (MkChannel rng (ch_clock c) (ch_stream c) (ch_reader c) (ch_writer c) (ch_sent c), Ok challenge).

(** [timeout(REQUEST_TIMEOUT, writer.write_message(..))] with the two errors.
    [ch_sent] has the messages written and flushed; one whose write failed or
    timed out may be on the wire in part or in full. *)
Definition write_timed (message : CastMessage) (timed_out : Error) (failed : IoError -> Error)
  : Connecting unit := fun c =>
  let '(writer, outcome) := write_frame (ch_writer c) (FramedWriter.write_message message) in
  match outcome with
  | WriteDone =>
    (MkChannel (ch_rng c) (ch_clock c) (ch_stream c) (ch_reader c) writer (ch_sent c ++ [message]), Ok tt)
  | WriteFailed error =>
    (MkChannel (ch_rng c) (ch_clock c) (ch_stream c) (ch_reader c) writer (ch_sent c), Err (failed error))
  | WriteTimedOut =>
    (MkChannel (ch_rng c) (ch_clock c) (ch_stream c) (ch_reader c) writer (ch_sent c), Err timed_out)
  end.

(** [timeout(REQUEST_TIMEOUT, reader.read_message())]. *)
Definition read_timed (timed_out : Error) (failed : IoError -> Error) : Connecting CastMessage := fun c =>
  let '(stream, reader, poll) := FramedReader.read_message (ch_stream c) (ch_reader c) in
  (MkChannel (ch_rng c) (ch_clock c) stream reader (ch_writer c) (ch_sent c),
   match poll with
   | Dropped => Err timed_out
   | Ready (Ok message) => Ok message
   | Ready (Err error) => Err (failed error)
   | Ready Panic => Panic
   end).

Definition on_clock {A} (m : Eff W Error A) : Connecting A := fun c =>
  let '(clock, result) := m (ch_clock c) in
  (MkChannel (ch_rng c) clock (ch_stream c) (ch_reader c) (ch_writer c) (ch_sent c), result).

(** ** The exchange *)

Definition challenge_message (payload : bytes) : CastMessage :=
  MkCastMessage (utf8 SENDER_ID) (utf8 RECEIVER_ID) (utf8 NS_DEVICE_AUTH) (PBinary payload).

Definition authenticate_receiver (tls_peer_certificate : bytes) : Connecting DeviceIdentity :=
  let! challenge := new_challenge in
  let! _ := write_timed (challenge_message (challenge_payload challenge))
    (AuthenticationFailed "send challenge timed out")
    (fun error => AuthenticationFailed ("send authentication challenge: " +:+ io_message error)) in
  let! message := read_timed (AuthenticationFailed "challenge response timed out")
    (fun error => AuthenticationFailed ("read challenge response: " +:+ io_message error)) in
  if negb (bool_decide (namespace_str message = NS_DEVICE_AUTH))
     || negb (bool_decide (source_str message = RECEIVER_ID))
     || negb (bool_decide (destination_str message = SENDER_ID))
  then ret (Err (AuthenticationFailed ("unexpected challenge response namespace or route: "
         +:+ namespace_str message +:+ " " +:+ source_str message +:+ " -> " +:+ destination_str message)))
  else
    match payload message with
    | PBinary payload => on_clock (verify_challenge_reply payload (challenge_nonce challenge) tls_peer_certificate)
    | PString _ => ret (Err (AuthenticationFailed "challenge response was not a binary protobuf"))
    end.

Definition connect_message : CastMessage :=
  MkCastMessage (utf8 SENDER_ID) (utf8 RECEIVER_ID) (utf8 NS_CONNECTION)
    (PString (utf8 (json_to_string (JObject [("type", JString "CONNECT")])))).

(** [write_json_message_timed] reports a time-out as an I/O error. *)
Definition send_connect : Connecting unit :=
  let failed error := connection_error ("initial CONNECT: " +:+ io_message error) in
  write_timed connect_message (failed (MkIoError TimedOut "Cast control write timed out")) failed.

(** [connect_address_inner] after the TLS handshake. *)
Definition establish (address : SocketAddr) (authenticate_device : bool) (peer_certificate : bytes)
  : Connecting CastConnection :=
  let! device_identity :=
    if authenticate_device
    then let! identity := authenticate_receiver peer_certificate in ret (Ok (Some identity))
    else ret (Ok None) in
  let! _ := send_connect in
  ret (Ok (MkConnection address device_identity)).

(** The network, the channel when one was opened, and the result; on success
    the task runs [control_loop] on the channel. *)
Definition connect_address_inner (n : N) (rng : G) (clock : W) (address : SocketAddr)
    (authenticate_device : bool) : N * option channel * Result Error CastConnection :=
  let addr := display_socket_addr address in
  match tcp_connect n address with
  | (n, Pending) => (n, None, Err (connection_error ("TCP connect to " +:+ addr +:+ " timed out")))
  | (n, Failed error) => (n, None, Err (connection_error ("TCP connect to " +:+ addr +:+ ": " +:+ error)))
  | (n, Completed tcp) =>
    match tls_connect n SelfSignedCertificateVerifier (ip_of address) tcp with
    | (n, Pending) => (n, None, Err (connection_error ("TLS handshake with " +:+ addr +:+ " timed out")))
    | (n, Failed error) => (n, None, Err (connection_error ("TLS handshake with " +:+ addr +:+ ": " +:+ error)))
    | (n, Completed tls_stream) =>
      match peer_certificates tls_stream ≫= head with
      | None => (n, None, Err (connection_error "receiver did not present a TLS certificate"))
      | Some peer_certificate =>
        let '(c, result) := establish address authenticate_device peer_certificate
          (MkChannel rng clock (read_half tls_stream) FramedReader.new (write_half tls_stream) []) in
        (n, Some c, result)
      end
    end
  end.

Definition connect_address (n : N) (rng : G) (clock : W) (address : SocketAddr) :=
  connect_address_inner n rng clock address true.

Definition connect (n : N) (rng : G) (clock : W) (ip : IpAddr) :=
  connect_address n rng clock (socket_addr_new ip CAST_PORT).

(** The entry points for protocol test doubles. *)
Definition connect_address_unverified_for_testing (n : N) (rng : G) (clock : W) (address : SocketAddr) :=
  connect_address_inner n rng clock address false.

Definition get_setup_device_info `{HttpParse} `{SetupJson} (n : N) (self : CastConnection)
  : N * Result Error SetupInfoOutcome :=
  match require_authenticated_product_info self with
  | Ok _ => query_device_info n (remote_address self)
  | Err e => (n, Err e)
  | Panic => (n, Panic)
  end.
End Connect.

(** ** Theorems *)

Section ConnectProps.
Context {G W N Rd Wr : Type} `{Rng G} `{Clock W} `{AsyncReadLaws Rd} `{ControlWriter Wr}.
Context `{X509Library} `{Webpki} `{Ring} `{TrustRoots} `{RustlsProvider} `{!Dialer N Rd Wr} `{JsonText}.

(** The errors of connecting. *)
Definition is_connect_error (e : Error) : Prop :=
  match e with ConnectionFailed _ | AuthenticationFailed _ => True | _ => False end.

Lemma auth_error_connects e : is_auth_error e -> is_connect_error e.
Proof. by intros [m ->]. Qed.

(** An answer to the challenge on the authentication namespace, by the receiver. *)
Definition routed_reply (message : CastMessage) (payload : bytes) : Prop :=
  namespace_str message = NS_DEVICE_AUTH /\ source_str message = RECEIVER_ID /\
  destination_str message = SENDER_ID /\ CastProto.payload message = PBinary payload.

(** What the exchange does to a channel on which nothing has been sent. *)
Definition exchanged (c c' : Channel G W Rd Wr) (certificate : bytes) (identity : DeviceIdentity) : Prop :=
  let challenge := snd (create_challenge (ch_rng c)) in
  ch_sent c' = ch_sent c ++ [challenge_message (challenge_payload challenge)] /\
  reader_ok (ch_reader c') /\
  exists message payload, routed_reply message payload /\
    FramedReader.read_message (ch_stream c) (ch_reader c) = (ch_stream c', ch_reader c', Ready (Ok message)) /\
    exists readings, took (ch_clock c) readings (ch_clock c') /\
      authenticated readings payload (challenge_nonce challenge) certificate identity.

Lemma write_timed_spec message timed_out failed (c : Channel G W Rd Wr) :
  let '(c', result) := write_timed message timed_out failed c in
  ch_rng c' = ch_rng c /\ ch_clock c' = ch_clock c /\ ch_stream c' = ch_stream c /\ ch_reader c' = ch_reader c /\
  match result with
  | Ok _ => ch_sent c' = ch_sent c ++ [message]
  | Err e => ch_sent c' = ch_sent c /\ (e = timed_out \/ exists error, e = failed error)
  | Panic => False
  end.
Proof.
  unfold write_timed. destruct (write_frame (ch_writer c) _) as [w [|error|]]; cbn; split_and!; eauto.
Qed.

Lemma authenticate_receiver_spec certificate (c : Channel G W Rd Wr) :
  reader_ok (ch_reader c) ->
  let '(c', result) := authenticate_receiver certificate c in
  match result with
  | Ok identity => exchanged c c' certificate identity
  | Err e => is_auth_error e /\
      (ch_sent c' = ch_sent c \/
       ch_sent c' = ch_sent c ++ [challenge_message (challenge_payload (snd (create_challenge (ch_rng c))))])
  | Panic => False
  end.
Proof.
  intros Hok. unfold authenticate_receiver, bind_eff at 1, new_challenge, exchanged.
  destruct (create_challenge (ch_rng c)) as [g challenge]. cbn [snd].
  set (c1 := MkChannel g _ _ _ _ _). unfold bind_eff at 1.
  set (message := challenge_message _). set (timed_out := AuthenticationFailed _). set (failed := fun _ : IoError => _).
  pose proof (write_timed_spec message timed_out failed c1) as Hw.
  destruct (write_timed message timed_out failed c1) as [c2 [u|e|]]; destruct Hw as (_ & Hclock & Hstream & Hreader & Hw); [..|done].
  2:{ destruct Hw as [Hsent He]. split; [|by left]. destruct He as [->|[error ->]]; apply auth_error_is. }
  unfold bind_eff at 1, read_timed. rewrite Hstream, Hreader. subst c1. cbn [ch_stream ch_reader ch_sent] in *.
  pose proof (read_message_any (ch_stream c) (ch_reader c) Hok) as Hread.
  destruct (FramedReader.read_message (ch_stream c) (ch_reader c)) as [[stream reader] [[m|e|]|]];
    [|split; [apply auth_error_is|by right]|done|split; [apply auth_error_is|by right]].
  destruct Hread as (_ & Hreader' & _).
  destruct (negb _ || negb _ || negb _) eqn:Hroute; [split; [apply auth_error_is|by right]|].
  apply orb_false_iff in Hroute as [Hroute Hd]. apply orb_false_iff in Hroute as [Hn Hs].
  apply negb_false_iff, bool_decide_eq_true in Hn, Hs, Hd.
  destruct (CastProto.payload m) as [text|payload] eqn:Hp; [split; [apply auth_error_is|by right]|].
  unfold on_clock. cbn [ch_clock ch_sent].
  destruct (authenticate_timed payload (challenge_nonce challenge) certificate (ch_clock c2)) as (readings & Ht & Hv).
  destruct (verify_challenge_reply _ _ _ _) as [clock [identity|e|]]; cbn in Ht, Hv |- *; [|split; [done|by right]|done].
  split; [done|]. split; [done|]. exists m, payload. split_and!; try done. exists readings. cbn in Hclock. by rewrite <- Hclock.
Qed.

Lemma send_connect_spec (c : Channel G W Rd Wr) :
  let '(c', result) := send_connect c in
  match result with
  | Ok _ => ch_sent c' = ch_sent c ++ [connect_message] /\ ch_reader c' = ch_reader c
  | Err e => ch_sent c' = ch_sent c /\ is_connect_error e
  | Panic => False
  end.
Proof.
  pose proof (write_timed_spec connect_message
    (connection_error ("initial CONNECT: " +:+ io_message (MkIoError TimedOut "Cast control write timed out")))
    (fun error => connection_error ("initial CONNECT: " +:+ io_message error)) c) as Hw.
  unfold send_connect. destruct (write_timed _ _ _ c) as [c' [u|e|]]; destruct Hw as (_ & _ & _ & Hr & Hw); [done| |done].
  destruct Hw as [Hs He]. split; [done|]. by destruct He as [->|[error ->]].
Qed.

(** C5: A connection made by [connect_address] is authenticated: it exists only
    after the receiver answered this connection's challenge with a reply that
    verifies against the certificate of this TLS session, and exactly two
    messages were written, the challenge and then CONNECT.  Any failure is a
    connection or authentication error, and after it no write of CONNECT has completed;
    nothing panics. *)
Theorem connect_authenticated (n : N) (rng : G) (clock : W) (address : SocketAddr) :
  match connect_address n rng clock address with
  | (n', Some c', Ok connection) =>
    exists n1 tcp stream certificate identity middle,
      tcp_connect n address = (n1, Completed tcp) /\
      tls_connect n1 SelfSignedCertificateVerifier (ip_of address) tcp = (n', Completed stream) /\
      (peer_certificates stream ≫= head) = Some certificate /\
      exchanged (MkChannel rng clock (read_half stream) FramedReader.new (write_half stream) [])
        middle certificate identity /\
      ch_sent c' = ch_sent middle ++ [connect_message] /\ ch_reader c' = ch_reader middle /\
      connection = MkConnection address (Some identity)
  | (_, Some c', Err e) => is_connect_error e /\ connect_message ∉ ch_sent c'
  | (_, None, Err e) => is_connect_error e
  | _ => False
  end.
Proof.
  unfold connect_address, connect_address_inner.
  destruct (tcp_connect n address) as [n1 [|e|tcp]] eqn:Htcp; try done.
  destruct (tls_connect n1 _ _ tcp) as [n2 [|e|stream]] eqn:Htls; try done.
  destruct (peer_certificates stream ≫= head) as [certificate|] eqn:Hcert; [|done].
  set (c0 := MkChannel rng clock _ _ _ _). unfold establish, bind_eff at 1 2.
  pose proof (authenticate_receiver_spec certificate c0 reader_new_ok) as Hauth.
  destruct (authenticate_receiver certificate c0) as [c1 [identity|e|]]; [..|done].
  2:{ destruct Hauth as [He Hsent]. split; [by apply auth_error_connects|].
      destruct Hsent as [->| ->]; cbn; [apply not_elem_of_nil|]. rewrite list_elem_of_singleton. done. }
  unfold ret, bind_eff. pose proof (send_connect_spec c1) as Hw.
  destruct (send_connect c1) as [c2 [u|e|]]; [..|done].
  - destruct Hw as [Hsent Hreader]. by exists n1, tcp, stream, certificate, identity, c1.
  - destruct Hw as [Hsent He]. split; [done|]. rewrite Hsent. destruct Hauth as (-> & _). cbn.
    by rewrite list_elem_of_singleton.
Qed.
End ConnectProps.

(** ** A small instance *)

Module ToyConnect.
#[local] Existing Instances Toy.clock Toy.x509 Toy.webpki Toy.ring Toy.roots.
#[local] Instance provider : RustlsProvider :=
  {| DigitallySignedStruct := unit; verify_tls12 _ _ _ := inr tt; verify_tls13 _ _ _ := inr tt; supported_schemes := [] |}.

(** A receiver that answers the challenge the generator in state 9 makes. *)
Definition reply_message : CastMessage :=
  MkCastMessage (utf8 RECEIVER_ID) (utf8 SENDER_ID) (utf8 NS_DEVICE_AUTH) (PBinary (Toy.reply Toy.leaf Toy.bundle)).
#[local] Instance dialer : Dialer unit ChunkedStream unit := {|
  TcpStream := unit;
  tcp_connect n _ := (n, Completed tt);
  tls_connect n _ _ _ := (n, Completed (MkTlsStream (Some [Toy.tls])
    (MkChunked (FramedWriter.write_message reply_message) [3; 20]%nat) tt));
|}.
#[local] Instance writer : ControlWriter unit := fun w _ => (w, WriteDone).

Lemma connect_authenticated_witness :
  exists c connection, connect_address tt 9 tt (V4 1 8009) = (tt, Some c, Ok connection) /\
    ch_sent c = [challenge_message (challenge_payload (snd (create_challenge 9))); connect_message] /\
    is_Some (device_identity connection).
Proof.
  destruct (connect_address tt 9 tt (V4 1 8009)) as [[n [c|]] [connection|e|]] eqn:He;
    pose proof (connect_authenticated tt 9 tt (V4 1 8009)) as Hc; rewrite He in Hc;
    try (vm_compute in He; discriminate).
  destruct n. exists c, connection. split; [reflexivity|].
  destruct Hc as (n1 & tcp & stream & cert & identity & middle & _ & _ & _ & (Hs & _) & Hsent & _ & ->).
  rewrite Hsent, Hs. split; [reflexivity|by exists identity].
Defined.
End ToyConnect.
