(* ===== verification/Discovery.v ===== *)
(** * Discovery of receivers ([src/src/discovery.rs])

    Cast receivers announce themselves through DNS-SD.  [ResolvedService] and
    [ServiceEvent] are what the mdns-sd crate delivers; the loop merges the
    announcements of a device under its stable identifier. *)

From stdpp Require Import strings gmap.
From S2P Require Import Prelude Time Errors Text EventLoop Session Order Net Control.

Definition SERVICE_TYPE : string := "_googlecast._tcp.local.".

Abbreviation CastCapabilities := Z.

Module CastCapabilities.
Definition VIDEO_OUTPUT : CastCapabilities := Z.shiftl 1 0.
Definition VIDEO_INPUT : CastCapabilities := Z.shiftl 1 1.
Definition AUDIO_OUTPUT : CastCapabilities := Z.shiftl 1 2.
Definition AUDIO_INPUT : CastCapabilities := Z.shiftl 1 3.
Definition DEVELOPMENT_MODE : CastCapabilities := Z.shiftl 1 4.
Definition MULTIZONE_GROUP : CastCapabilities := Z.shiftl 1 5.
Definition contains (self capability : CastCapabilities) : bool := Z.land self capability =? capability.
End CastCapabilities.

Record CastEndpoint := MkEndpoint {
  address : SocketAddr;
  interface_index : option Z;
  interface_name : option string;
}.
#[export] Instance CastEndpoint_eq_dec : EqDecision CastEndpoint.
Proof. solve_decision. Defined.

Record CastDevice := MkDevice {
  friendly_name : string;
  model : string;
  stable_id : string;
  service_instance : string;
  endpoints : list CastEndpoint;
  capabilities : CastCapabilities;
  protocol_version : option Z;
}.

(** ** What the mDNS crate delivers *)

Record InterfaceId := MkInterface { if_name : string; if_index : Z }.
Inductive ScopedIp :=
| ScopedV4 (addr : Z) (interface_ids : list InterfaceId)
| ScopedV6 (addr : Z) (scope_id : InterfaceId)
| ScopedOther.
Record ResolvedService := MkService {
  get_property_val_str : string -> option string;
  get_hostname : string;
  fullname : string;
  service_port : Z;
  addresses : list ScopedIp;
}.
Inductive ServiceEvent :=
| ServiceResolved (service : ResolvedService)
| ServiceRemoved (service_type service_instance : string)
| OtherEvent.

(** What a [timeout(remaining, receiver.recv_async())] gives. *)
Inductive Received := Event (event : ServiceEvent) | Disconnected (error : string) | Elapsed.

(** ** Endpoints *)

(** [Ipv6Addr::segments()[0]]. *)
Definition is_ipv6_unicast_link_local (ip : Z) : bool :=
  Z.land (Z.land (Z.shiftr ip 112) 0xFFFF) 0xFFC0 =? 0xFE80.

Definition endpoint_priority (a : SocketAddr) : Z :=
  match ip_of a with
  | IpV4 _ => 0
  | IpV6 ip => if negb (is_ipv6_unicast_link_local ip) then 1 else 2
  end.

(** [Ord for IpAddr]: IPv4 first, then by value. *)
Definition ip_cmp : Comparator IpAddr := fun x y =>
  match x, y with
  | IpV4 a, IpV4 b | IpV6 a, IpV6 b => Z.compare a b
  | IpV4 _, IpV6 _ => Lt
  | IpV6 _, IpV4 _ => Gt
  end.

Definition endpoint_cmp : Comparator CastEndpoint := fun left right =>
  then_with (then_with
    (Z.compare (endpoint_priority (address left)) (endpoint_priority (address right)))
    (ip_cmp (ip_of (address left)) (ip_of (address right))))
    (option_cmp Z.compare (interface_index left) (interface_index right)).

Definition sort_and_deduplicate_endpoints (endpoints : list CastEndpoint) : list CastEndpoint :=
  dedup (sort_by endpoint_cmp endpoints).

(** [Ipv4Addr] and [Ipv6Addr]: the unspecified and the multicast addresses. *)
Definition unusable_v4 (ip : Z) : bool := (ip =? 0) || (Z.shiftr ip 28 =? 0xE).
Definition unusable_v6 (ip : Z) : bool := (ip =? 0) || (Z.land (Z.shiftr ip 120) 0xFF =? 0xFF).

(** The interface fields of an endpoint: [None] for index 0 and an empty name. *)
Definition on_interface (a : SocketAddr) (interface : InterfaceId) : CastEndpoint :=
  MkEndpoint a (if if_index interface =? 0 then None else Some (if_index interface))
    (if bool_decide (if_name interface = "") then None else Some (if_name interface)).

Definition append_endpoints (endpoints : list CastEndpoint) (scoped_ip : ScopedIp) (port : Z)
  : list CastEndpoint :=
  match scoped_ip with
  | ScopedV4 ip interface_ids =>
    if unusable_v4 ip then endpoints else
    match interface_ids with
    | [] => endpoints ++ [MkEndpoint (V4 ip port) None None]
    | _ => endpoints ++ map (on_interface (V4 ip port)) interface_ids
    end
  | ScopedV6 ip interface =>
    if unusable_v6 ip then endpoints else
    if is_ipv6_unicast_link_local ip && (if_index interface =? 0) then endpoints else
    let scope_id := if is_ipv6_unicast_link_local ip then if_index interface else 0 in
    endpoints ++ [on_interface (V6 ip port 0 scope_id) interface]
  | ScopedOther => endpoints
  end.

(** ** Devices *)

Definition device_from_service (service : ResolvedService) : option CastDevice :=
  id ← get_property_val_str service "id";
  let stable_id := trim id in
  if bool_decide (stable_id = "") || (service_port service =? 0) then None else
  let endpoints := fold_left (fun endpoints scoped_ip => append_endpoints endpoints scoped_ip (service_port service))
    (addresses service) [] in
  let endpoints := sort_and_deduplicate_endpoints endpoints in
  if bool_decide (endpoints = []) then None else
  let friendly_name :=
    match get_property_val_str service "fn" with
    | Some name => if bool_decide (name = "") then get_hostname service else name
    | None => get_hostname service
    end in
  let capabilities := default 0 (bits ← get_property_val_str service "ca"; parse_unsigned u64_max bits) in
  let protocol_version := version ← get_property_val_str service "ve"; parse_unsigned 255 version in
  Some (MkDevice friendly_name (default "" (get_property_val_str service "md")) stable_id
          (fullname service) endpoints capabilities protocol_version).

Definition merge_device (current update : CastDevice) : CastDevice :=
  MkDevice (friendly_name update) (model update) (stable_id current) (service_instance update)
    (sort_and_deduplicate_endpoints (endpoints current ++ endpoints update))
    (capabilities update) (protocol_version update).

Definition preferred_endpoint (self : CastDevice) : Result Error CastEndpoint := index (endpoints self) 0.
Definition addr (self : CastDevice) : Result Error IpAddr :=
  let? endpoint := preferred_endpoint self in Ok (ip_of (address endpoint)).
Definition port (self : CastDevice) : Result Error Z :=
  let? endpoint := preferred_endpoint self in Ok (port_of (address endpoint)).

(** ** The loop *)

Definition discovery_error (detail : string) : Error := ConnectionFailed detail.

Definition on_event (devices : gmap string CastDevice) (event : ServiceEvent) : gmap string CastDevice :=
  match event with
  | ServiceResolved service =>
    match device_from_service service with
    | Some device =>
      <[stable_id device :=
          match devices !! stable_id device with
          | Some current => merge_device current device
          | None => device
          end]> devices
    | None => devices
    end
  | ServiceRemoved _ instance => filter (fun '(_, device) => service_instance device <> instance) devices
  | OtherEvent => devices
  end.

Definition device_cmp : Comparator CastDevice := fun left right =>
  then_with (String.compare (friendly_name left) (friendly_name right))
    (String.compare (stable_id left) (stable_id right)).

Section Discover.
Context `{HashOrder}.

(** A round: the clock's reading and what is received before the deadline.
    [None]: the rounds ran out with the loop still waiting. *)
Fixpoint discover_loop (deadline : Instant) (rounds : list (Instant * Received))
    (devices : gmap string CastDevice) : option (Result Error (gmap string CastDevice)) :=
  match rounds with
  | [] => None
  | (now, received) :: rounds' =>
    if deadline - now <=? 0 then Some (Ok devices) else
    match received with
    | Event event => discover_loop deadline rounds' (on_event devices event)
    | Disconnected error => Some (Err (discovery_error ("receive mDNS event: " +:+ error)))
    | Elapsed => Some (Ok devices)
    end
  end.

(** [devices.into_values()], in the table's order. *)
Definition collect_devices (devices : gmap string CastDevice) : list CastDevice :=
  sort_by device_cmp (snd <$> hash_iter devices).

(** The daemon and the browse channel, then the loop. *)
Definition discover (daemon browse : string + unit) (now : Instant) (discovery_timeout : Duration)
    (rounds : list (Instant * Received)) : option (Result Error (list CastDevice)) :=
  match daemon with
  | inl error => Some (Err (discovery_error ("create mDNS daemon: " +:+ error)))
  | inr _ =>
    match browse with
    | inl error => Some (Err (discovery_error ("browse " +:+ SERVICE_TYPE +:+ ": " +:+ error)))
    | inr _ =>
      match instant_add now discovery_timeout with
      | Err error => Some (Err error)
      | Panic => Some Panic
      | Ok deadline =>
        match discover_loop deadline rounds ∅ with
        | Some result => Some (let? devices := result in Ok (collect_devices devices))
        | None => None
        end
      end
    end
  end.
End Discover.
