(* ===== verification/DiscoveryProps.v ===== *)
(** * Theorems about discovery

    Every device that is returned can be reached, devices are unique and in one
    order, and how announcements of one device are merged. *)

From stdpp Require Import strings gmap sorting.
From S2P Require Import Prelude Time Errors Text DeviceInfo EventLoop Session Order Net Control Discovery.

(** ** Definitions *)

(** A route that may be returned: its address is neither unspecified nor
    multicast, it has a port, and it is scoped exactly when it is link-local. *)
Definition usable (e : CastEndpoint) : Prop :=
  match address e with
  | V4 ip port => unusable_v4 ip = false /\ port <> 0
  | V6 ip port flowinfo scope_id => unusable_v6 ip = false /\ port <> 0 /\ flowinfo = 0 /\
      (if is_ipv6_unicast_link_local ip then scope_id <> 0 else scope_id = 0)
  end.

Record device_ok (d : CastDevice) : Prop := {
  do_id : stable_id d <> "" /\ trimmed (stable_id d);
  do_endpoints : endpoints d <> [];
  do_sorted : StronglySorted (le endpoint_cmp) (endpoints d);
  do_usable : Forall usable (endpoints d);
}.

Definition devices_ok (devices : gmap string CastDevice) : Prop :=
  map_Forall (fun id d => stable_id d = id /\ device_ok d) devices.

(** A device one of the rounds announced. *)
Definition announces (rounds : list (Instant * Received)) (service : ResolvedService) (d : CastDevice) : Prop :=
  (exists at_, (at_, Event (ServiceResolved service)) ∈ rounds) /\ device_from_service service = Some d.

(** No round removes a service instance the device had, from its announcement
    as [d] on. *)
Definition stays (d : CastDevice) (rounds : list (Instant * Received)) : Prop :=
  forall at_ ty instance, (at_, Event (ServiceRemoved ty instance)) ∈ rounds ->
    service_instance d <> instance /\
    forall service d', announces rounds service d' -> stable_id d' = stable_id d -> service_instance d' <> instance.

(** ** Endpoints *)

#[export] Instance ip_cmp_laws : ComparatorLaws ip_cmp.
Proof.
  destruct Z_compare_laws as [Ho He Hl].
  split; repeat intros [?|?]; cbn; eauto; done.
Qed.

#[export] Instance endpoint_cmp_laws : ComparatorLaws endpoint_cmp.
Proof.
  apply (then_with_laws (fun l r => then_with (Z.compare (endpoint_priority (address l)) (endpoint_priority (address r)))
    (ip_cmp (ip_of (address l)) (ip_of (address r))))); apply _.
Qed.

#[export] Instance device_cmp_laws : ComparatorLaws device_cmp.
Proof. unfold device_cmp. apply _. Qed.

Lemma sorted_sublist {A} (R : A -> A -> Prop) l l' :
  l `sublist_of` l' -> StronglySorted R l' -> StronglySorted R l.
Proof.
  induction 1 as [|x l l' Hl IH|x l l' Hl IH]; intros Hs; [constructor|..]; inversion Hs as [|? ? Hs' Hx]; subst; [|auto].
  constructor; [auto|]. rewrite stdpp.list_relations.list.Forall_forall in Hx |- *. intros y Hy.
  by eapply Hx, elem_of_sublist.
Qed.

Lemma dedup_endpoints_elem e l : e ∈ sort_and_deduplicate_endpoints l <-> e ∈ l.
Proof. unfold sort_and_deduplicate_endpoints. by rewrite dedup_elem, sort_by_perm. Qed.

Lemma dedup_endpoints_sorted l : StronglySorted (le endpoint_cmp) (sort_and_deduplicate_endpoints l).
Proof. eapply sorted_sublist; [apply dedup_sublist|apply sort_by_sorted; apply _]. Qed.

Lemma dedup_endpoints_Forall (P : CastEndpoint -> Prop) l :
  Forall P l -> Forall P (sort_and_deduplicate_endpoints l).
Proof.
  rewrite !stdpp.list_relations.list.Forall_forall. intros Hl e. rewrite dedup_endpoints_elem. apply Hl.
Qed.

Lemma append_endpoints_usable l ip port :
  port <> 0 -> Forall usable l -> Forall usable (append_endpoints l ip port).
Proof.
  intros Hp Hl. unfold append_endpoints. destruct ip as [ip ids|ip interface|]; [|..|done].
  - destruct (unusable_v4 ip) eqn:Hu; [done|]. assert (Hone : forall i n, usable (MkEndpoint (V4 ip port) i n)) by (by unfold usable).
    destruct ids as [|i ids]; apply Forall_app; (split; [exact Hl|]); [by apply Forall_singleton|].
    apply stdpp.list_relations.list.Forall_forall. intros e He. apply list_elem_of_In, in_map_iff in He as (j & <- & _). apply Hone.
  - destruct (unusable_v6 ip) eqn:Hu; [done|].
    destruct (is_ipv6_unicast_link_local ip) eqn:Hll; cbn [andb];
      [destruct (Z.eqb_spec (if_index interface) 0) as [|Hi]; [done|]|];
      apply Forall_app; (split; [exact Hl|]); apply Forall_singleton; unfold usable; cbn [address on_interface];
      rewrite Hll, Hu; by split_and!.
Qed.

Lemma service_endpoints_usable port ips l :
  port <> 0 -> Forall usable l ->
  Forall usable (fold_left (fun l ip => append_endpoints l ip port) ips l).
Proof.
  intros Hp. revert l. induction ips as [|ip ips IH]; intros l Hl; [done|]. cbn. by apply IH, append_endpoints_usable.
Qed.

(** ** Devices *)

Lemma device_from_service_ok service d : device_from_service service = Some d -> device_ok d.
Proof.
  unfold device_from_service. intros Hd. apply bind_Some in Hd as (id & _ & Hd).
  destruct (bool_decide (trim id = "")) eqn:Hid; [done|]. apply bool_decide_eq_false in Hid.
  destruct (Z.eqb_spec (service_port service) 0) as [|Hport]; [done|]. cbn [orb] in Hd.
  case_bool_decide as He; [done|]. injection Hd as <-. split; cbn [stable_id endpoints].
  - split; [done|apply trim_trimmed].
  - done.
  - apply dedup_endpoints_sorted.
  - by apply dedup_endpoints_Forall, service_endpoints_usable.
Qed.

Lemma merge_device_ok current update : device_ok current -> device_ok update -> device_ok (merge_device current update).
Proof.
  intros [Hid He Hs Hu] [_ _ _ Hu']. split; cbn [stable_id endpoints merge_device]; [done| | |].
  - intros Hn. apply dedup_nil in Hn. pose proof (sort_by_perm endpoint_cmp (endpoints current ++ endpoints update)) as Hp.
    rewrite Hn in Hp. symmetry in Hp. apply Permutation_nil_r, app_eq_nil in Hp as [Hc _]. done.
  - apply dedup_endpoints_sorted.
  - apply dedup_endpoints_Forall, Forall_app. by split.
Qed.

Lemma on_event_ok devices event : devices_ok devices -> devices_ok (on_event devices event).
Proof.
  intros Hok. destruct event as [service|ty instance|]; cbn [on_event]; [| |done].
  - destruct (device_from_service service) as [d|] eqn:Hd; [|done]. apply device_from_service_ok in Hd.
    apply map_Forall_insert_2; [|done]. destruct (devices !! stable_id d) as [current|] eqn:Hc; [|done].
    destruct (Hok _ _ Hc) as [Hid Hcur]. split; [done|by apply merge_device_ok].
  - intros id d Hd. apply map_lookup_filter_Some in Hd as [Hd _]. by apply Hok.
Qed.

(** The table after some rounds of events. *)
Definition received_event (devices : gmap string CastDevice) (round : Instant * Received) : gmap string CastDevice :=
  match snd round with Event event => on_event devices event | _ => devices end.

Lemma discover_loop_ok deadline rounds devices :
  devices_ok devices ->
  match discover_loop deadline rounds devices with
  | Some (Ok devices') => devices_ok devices' /\
      exists taken left_over, rounds = taken ++ left_over /\ devices' = fold_left received_event taken devices /\
        Forall (fun '(at_, received) => at_ < deadline) taken /\
        match left_over with (at_, received) :: _ => deadline <= at_ \/ received = Elapsed | [] => False end
  | Some (Err e) => exists m, e = ConnectionFailed m
  | Some Panic => False
  | None => Forall (fun '(now, received) => now < deadline /\ received <> Elapsed) rounds
  end.
Proof.
  revert devices. induction rounds as [|[now received] rounds IH]; intros devices Hok; cbn [discover_loop]; [constructor|].
  destruct (Z.leb_spec (deadline - now) 0) as [|Hnow].
  { split; [done|]. exists [], ((now, received) :: rounds). split_and!; try done. left. lia. }
  destruct received as [event|error|]; [|by eexists|].
  2:{ split; [done|]. exists [], ((now, Elapsed) :: rounds). split_and!; try done. by right. }
  specialize (IH (on_event devices event) (on_event_ok _ _ Hok)).
  destruct (discover_loop _ _ _) as [[]|]; try done.
  - destruct IH as (Hok' & taken & left_over & -> & -> & Ht & Hl). split; [done|].
    exists ((now, Event event) :: taken), left_over. split_and!; try done. constructor; [lia|done].
  - constructor; [|done]. split; [lia|done].
Qed.

(** Every route of a table was announced, or was there before. *)
Lemma fold_announced rounds devices id d e :
  fold_left received_event rounds devices !! id = Some d -> e ∈ endpoints d ->
  (exists d0, devices !! id = Some d0 /\ e ∈ endpoints d0) \/
  exists service d', announces rounds service d' /\ stable_id d' = id /\ e ∈ endpoints d'.
Proof.
  revert devices. induction rounds as [|[at_ received] rounds IH]; intros devices Hd He; cbn [fold_left] in Hd; [left; by exists d|].
  destruct (IH _ Hd He) as [(d0 & Hd0 & He0)|(service & d' & [[at' Hin] Hs] & Hid & He')].
  2:{ right. exists service, d'. split; [|done]. split; [|done]. exists at'. by right. }
  unfold received_event in Hd0. cbn [snd] in Hd0. destruct received as [event|error|]; [|left; by exists d0..].
  destruct event as [service|ty instance|]; cbn [on_event] in Hd0; [| |left; by exists d0].
  - destruct (device_from_service service) as [d1|] eqn:Hs; [|left; by exists d0].
    destruct (decide (id = stable_id d1)) as [->|Hne]; [|rewrite lookup_insert_ne in Hd0 by done; left; by exists d0].
    rewrite lookup_insert_eq in Hd0. injection Hd0 as <-.
    assert (Hann : announces ((at_, Event (ServiceResolved service)) :: rounds) service d1)
      by (split; [exists at_; by left|done]).
    destruct (devices !! stable_id d1) as [current|] eqn:Hc; [|right; by exists service, d1].
    cbn [merge_device endpoints] in He0. apply dedup_endpoints_elem, elem_of_app in He0 as [He0|He0];
      [left; by exists current|right; by exists service, d1].
  - apply map_lookup_filter_Some in Hd0 as [Hd0 _]. left. by exists d0.
Qed.

(** A device that stays keeps its routes. *)
Lemma fold_stays rounds devices d d0 :
  devices !! stable_id d = Some d0 -> service_instance d0 = service_instance d -> stays d rounds ->
  exists d', fold_left received_event rounds devices !! stable_id d = Some d' /\
    forall e, e ∈ endpoints d0 -> e ∈ endpoints d'.
Proof.
  remember (stable_id d) as id eqn:Hid.
  revert devices d d0 Hid. induction rounds as [|[at_ received] rounds IH]; intros devices d d0 Hid Hd Hi Hs; cbn [fold_left];
    [by exists d0|].
  assert (Hs' : stays d rounds).
  { intros at' ty i Hin. destruct (Hs at' ty i ltac:(by right)) as [Hn Hf]. split; [done|].
    intros service d' [[at1 Hin1] Hd'] Hid'. apply (Hf service d'); [|done]. split; [|done]. exists at1. by right. }
  unfold received_event at 2. cbn [snd]. destruct received as [event|error|]; [|by apply (IH _ d)..].
  destruct event as [service|ty instance|]; cbn [on_event]; [| |by apply (IH _ d)].
  - destruct (device_from_service service) as [d1|] eqn:Hds; [|by apply (IH _ d)].
    destruct (decide (stable_id d1 = id)) as [Heq|Hne].
    2:{ apply (IH _ d); try done. by rewrite lookup_insert_ne. }
    assert (Hstays1 : stays d1 rounds).
    { intros at' ty i Hin. destruct (Hs at' ty i ltac:(by right)) as [_ Hf]. split.
      - apply (Hf service d1); [|congruence]. split; [|done]. exists at_. by left.
      - intros service' d' [[at1 Hin1] Hd'] Hid'. apply (Hf service' d'); [|congruence]. split; [|done]. exists at1. by right. }
    rewrite Heq, Hd.
    destruct (IH (<[id := merge_device d0 d1]> devices) d1 (merge_device d0 d1)) as (d' & Hl & He); try done.
    { by rewrite lookup_insert_eq. }
    exists d'. split; [done|]. intros e He0. apply He. cbn [merge_device endpoints].
    apply dedup_endpoints_elem, elem_of_app. by left.
  - apply (IH _ d); try done. apply map_lookup_filter_Some. split; [done|]. rewrite Hi. by apply (Hs at_ ty instance ltac:(by left)).
Qed.

Lemma fold_kept before at_ service after d :
  device_from_service service = Some d -> stays d after ->
  exists d', fold_left received_event (before ++ (at_, Event (ServiceResolved service)) :: after) ∅ !! stable_id d = Some d' /\
    forall e, e ∈ endpoints d -> e ∈ endpoints d'.
Proof.
  intros Hs Hst. rewrite fold_left_app. cbn [fold_left]. set (known := fold_left _ before ∅).
  unfold received_event at 2. cbn [snd on_event]. rewrite Hs.
  set (now := match known !! stable_id d with Some current => merge_device current d | None => d end).
  destruct (fold_stays after (<[stable_id d := now]> known) d now) as (d' & Hl & He).
  - by rewrite lookup_insert_eq.
  - unfold now. by destruct (known !! stable_id d).
  - done.
  - exists d'. split; [done|]. intros e He'. apply He. unfold now. destruct (known !! stable_id d); [|done].
    cbn [merge_device endpoints]. apply dedup_endpoints_elem, elem_of_app. by right.
Qed.

Lemma hash_devices `{HashOrder} devices d :
  devices_ok devices -> d ∈ snd <$> hash_iter devices ->
  devices !! stable_id d = Some d /\ device_ok d.
Proof.
  intros Hok Hd. apply list_elem_of_fmap in Hd as ([id d'] & -> & Hin).
  rewrite hash_iter_perm in Hin. apply elem_of_map_to_list in Hin. by destruct (Hok _ _ Hin) as [<- ?].
Qed.

Lemma collect_ids `{HashOrder} devices : devices_ok devices -> NoDup (stable_id <$> collect_devices devices).
Proof.
  intros Hok. unfold collect_devices. rewrite sort_by_perm, <- list_fmap_compose.
  assert (Heq : (stable_id ∘ snd <$> hash_iter devices) = (fst <$> hash_iter devices)).
  { apply list_fmap_ext. intros i [id d] Hi. cbn. apply list_elem_of_lookup_2 in Hi.
    rewrite hash_iter_perm in Hi. apply elem_of_map_to_list in Hi. by apply Hok in Hi as [? _]. }
  rewrite Heq, hash_iter_perm. apply NoDup_fst_map_to_list.
Qed.

Lemma sorted_head_le {A} (cmp : Comparator A) `{!ComparatorLaws cmp} x l y :
  StronglySorted (le cmp) (x :: l) -> y ∈ x :: l -> le cmp x y.
Proof.
  intros Hs Hy. inversion Hs as [|? ? _ Hx]; subst. apply elem_of_cons in Hy as [->|Hy].
  - unfold le, leb. pose proof (cmp_opp (cmp := cmp) x x) as Ho. by destruct (cmp x x).
  - by eapply stdpp.list_relations.list.Forall_forall in Hx.
Qed.

Lemma endpoint_le_priority x y :
  le endpoint_cmp x y -> endpoint_priority (address x) <= endpoint_priority (address y).
Proof.
  unfold le, leb, endpoint_cmp. destruct (Z.compare_spec (endpoint_priority (address x)) (endpoint_priority (address y)));
    cbn; lia || done.
Qed.

Lemma preferred_endpoint_best d :
  device_ok d -> exists e, preferred_endpoint d = Ok e /\
    forall e', e' ∈ endpoints d -> endpoint_priority (address e) <= endpoint_priority (address e').
Proof.
  intros [_ Hne Hs _]. unfold preferred_endpoint. destruct (endpoints d) as [|e l]; [done|].
  exists e. split; [done|]. intros e' He'. apply endpoint_le_priority. by apply (sorted_head_le endpoint_cmp e l).
Qed.

(** ** Theorems *)

(** C22: What discovery returns.  Every device has a nonblank identifier and at
    least one route; every route has a port and an address that is neither
    unspecified nor multicast, scoped exactly when it is link-local; the
    preferred route exists and has the best priority; identifiers are unique and
    the list is sorted.  Nothing is made up and nothing is lost: every route of
    a device was announced under its identifier, and a device announced and not
    removed since, under any instance name it had since, is returned with the
    routes of that announcement.  The only errors are connection failures; the
    only panic is a time-out so long that the deadline cannot be represented; and
    the loop waits only while the deadline is ahead. *)
Theorem discover_wellformed `{HashOrder} (daemon browse : string + unit) (now : Instant)
    (timeout : Duration) (rounds : list (Instant * Received)) :
  match discover daemon browse now timeout rounds with
  | Some (Ok devices) =>
    StronglySorted (le device_cmp) devices /\ NoDup (stable_id <$> devices) /\
    (forall d, d ∈ devices -> device_ok d /\
      exists e, preferred_endpoint d = Ok e /\
        forall e', e' ∈ endpoints d -> endpoint_priority (address e) <= endpoint_priority (address e')) /\
    exists taken left_over, rounds = taken ++ left_over /\
      Forall (fun '(at_, received) => at_ < now + timeout) taken /\
      match left_over with (at_, received) :: _ => now + timeout <= at_ \/ received = Elapsed | [] => False end /\
      (forall d e, d ∈ devices -> e ∈ endpoints d -> exists service d', announces taken service d' /\
         stable_id d' = stable_id d /\ e ∈ endpoints d') /\
      (forall before at_ service after d, taken = before ++ (at_, Event (ServiceResolved service)) :: after ->
         device_from_service service = Some d -> stays d after ->
         exists d', d' ∈ devices /\ stable_id d' = stable_id d /\ forall e, e ∈ endpoints d -> e ∈ endpoints d')
  | Some (Err e) => exists m, e = ConnectionFailed m
  | Some Panic => daemon = inr tt /\ browse = inr tt /\ instant_max < now + timeout
  | None => Forall (fun '(at_, received) => at_ < now + timeout /\ received <> Elapsed) rounds
  end.
Proof.
  unfold discover, instant_add. destruct daemon as [|[]]; [by eexists|]. destruct browse as [|[]]; [by eexists|].
  destruct (Z.leb_spec (now + timeout) instant_max) as [|Hover]; [|done].
  pose proof (discover_loop_ok (now + timeout) rounds ∅ (map_Forall_empty _)) as Hloop.
  destruct (discover_loop _ _ _) as [[devices|e|]|]; try done. cbn [bind].
  destruct Hloop as (Hok & taken & left_over & Hr & Hfold & Ht & Hl).
  assert (Hin : forall d, d ∈ collect_devices devices <-> devices !! stable_id d = Some d).
  { intros d. unfold collect_devices. rewrite sort_by_perm. split; [intros Hd; by apply (hash_devices _ _ Hok)|].
    intros Hd. apply list_elem_of_fmap. exists (stable_id d, d). split; [done|]. rewrite hash_iter_perm. by apply elem_of_map_to_list. }
  split; [apply sort_by_sorted; apply _|]. split; [by apply collect_ids|]. split.
  - intros d Hd%Hin. destruct (Hok _ _ Hd) as [_ Hdok]. split; [done|]. by apply preferred_endpoint_best.
  - exists taken, left_over. split_and!; try done.
    + intros d e Hd%Hin He. rewrite Hfold in Hd. destruct (fold_announced _ _ _ _ _ Hd He) as [(d0 & Hd0 & _)|Hann]; [|done].
      by rewrite lookup_empty in Hd0.
    + intros before at_ service after d Htaken Hs Hst. destruct (fold_kept before at_ service after d Hs Hst) as (d' & Hd' & He).
      rewrite <- Htaken, <- Hfold in Hd'. destruct (Hok _ _ Hd') as [Hid _]. exists d'. split_and!; try done.
      apply Hin. by rewrite Hid.
Qed.

(** The result of discovery does not depend on the iteration order of the
    hash table the devices are kept in. *)
Theorem discover_deterministic (order1 order2 : HashOrder) (daemon browse : string + unit) (now : Instant)
    (timeout : Duration) (rounds : list (Instant * Received)) :
  @discover order1 daemon browse now timeout rounds = @discover order2 daemon browse now timeout rounds.
Proof.
  unfold discover. destruct daemon as [|[]]; [done|]. destruct browse as [|[]]; [done|].
  destruct (instant_add now timeout) as [deadline|e|]; [|done..].
  pose proof (discover_loop_ok deadline rounds ∅ (map_Forall_empty _)) as Hloop.
  destruct (discover_loop _ _ _) as [[devices|e|]|]; try done. cbn [bind]. destruct Hloop as [Hloop _]. do 2 f_equal.
  apply sort_by_unique; [apply _| |].
  - intros x y Hx Hy Hc. apply hash_devices in Hx as [Hx _], Hy as [Hy _]; [|done..].
    unfold device_cmp in Hc. destruct (String.compare (friendly_name x) (friendly_name y)); try done.
    apply String.compare_eq_iff in Hc. congruence.
  - by rewrite !(hash_iter_perm devices).
Qed.

(** Routes the comparison does not tell apart keep their order of arrival, and
    one that comes back after the other is not recognised. *)
Lemma returning_route (x y : CastEndpoint) :
  x <> y -> endpoint_cmp x y = Eq ->
  sort_and_deduplicate_endpoints [x; y] = [x; y] /\ sort_and_deduplicate_endpoints [x; y; x] = [x; y; x].
Proof.
  intros Hne Heq. pose proof (cmp_opp (cmp := endpoint_cmp) x y) as Hop. rewrite Heq in Hop. cbn in Hop.
  assert (Hleb : leb endpoint_cmp x y = true /\ leb endpoint_cmp y x = true) by (unfold leb; by rewrite Heq, Hop).
  destruct Hleb as [Hxy Hyx]. unfold sort_and_deduplicate_endpoints, sort_by. cbn [foldr insert_sorted].
  rewrite !Hyx. cbn [insert_sorted]. rewrite !Hxy. cbn [dedup]. by rewrite !decide_False by congruence.
Qed.

(** C40: Merging an announcement: the routes are exactly those known before and
    those announced now, sorted; the identifier is kept, and the name, the model,
    the service instance, the capabilities and the protocol version are the new
    announcement's.  A route an
    announcement no longer lists stays; and since the order looks neither at
    the port nor at the interface's name, a route that comes back after another
    one that differs from it only there is listed twice. *)
Theorem merge_device_spec :
  (forall current update,
     (forall e, e ∈ endpoints (merge_device current update) <-> e ∈ endpoints current \/ e ∈ endpoints update) /\
     StronglySorted (le endpoint_cmp) (endpoints (merge_device current update)) /\
     stable_id (merge_device current update) = stable_id current /\
     friendly_name (merge_device current update) = friendly_name update /\
     model (merge_device current update) = model update /\
     service_instance (merge_device current update) = service_instance update /\
     capabilities (merge_device current update) = capabilities update /\
     protocol_version (merge_device current update) = protocol_version update) /\
  (forall first second third x y,
     endpoints first = [x] -> endpoints second = [y] -> endpoints third = [x] ->
     x <> y -> endpoint_cmp x y = Eq ->
     endpoints (merge_device (merge_device first second) third) = [x; y; x]).
Proof.
  split.
  - intros current update. split_and!; try done; [|apply dedup_endpoints_sorted].
    intros e. cbn [merge_device endpoints]. by rewrite dedup_endpoints_elem, elem_of_app.
  - intros first second third x y E1 E2 E3 Hne Heq. destruct (returning_route x y Hne Heq) as [R2 R3].
    cbn [merge_device endpoints]. rewrite E1, E2, E3. cbn [app]. rewrite R2. exact R3.
Qed.

(** Sorting brings equal routes together only when the comparison tells
    different routes apart; it ignores the port and the interface's name. *)
Lemma dedup_sorted_NoDup (l : list CastEndpoint) :
  (forall x y, x ∈ l -> y ∈ l -> endpoint_cmp x y = Eq -> x = y) ->
  StronglySorted (le endpoint_cmp) l -> NoDup (dedup l).
Proof.
  intros Hinj. induction 1 as [|x l Hl IH Hx]; [constructor|].
  assert (Hin : forall y, y ∈ dedup l -> x = y \/ endpoint_cmp x y = Lt).
  { intros y Hy. apply (proj1 (dedup_elem y l)) in Hy. eapply stdpp.list_relations.list.Forall_forall in Hx; [|exact Hy].
    unfold le, leb in Hx. destruct (endpoint_cmp x y) eqn:Hc; [|by right|done].
    left. apply Hinj; [by left|by right|done]. }
  specialize (IH ltac:(intros; apply Hinj; [by right|by right|done])). cbn [dedup].
  pose proof (sorted_sublist _ _ _ (dedup_sublist l) Hl) as Hs.
  destruct (dedup l) as [|y r]; [apply NoDup_singleton|]. destruct (decide (x = y)) as [|Hne]; [done|].
  constructor; [|done]. intros Hxr. destruct (Hin y ltac:(by left)) as [|Hlt]; [done|].
  pose proof (sorted_head_le endpoint_cmp y r x Hs Hxr) as Hle. unfold le, leb in Hle.
  rewrite (cmp_opp (cmp := endpoint_cmp) x y), Hlt in Hle. done.
Qed.

(** Sorting and deduplicating keeps the set of routes and leaves no
    duplicate as long as two routes that differ also differ in address or
    interface index. *)
Theorem sort_and_deduplicate_spec (l : list CastEndpoint) :
  (forall x y, x ∈ l -> y ∈ l -> endpoint_cmp x y = Eq -> x = y) ->
  NoDup (sort_and_deduplicate_endpoints l) /\ forall e, e ∈ sort_and_deduplicate_endpoints l <-> e ∈ l.
Proof.
  intros Hinj. split; [|intros e; apply dedup_endpoints_elem].
  apply dedup_sorted_NoDup; [|apply sort_by_sorted; apply _]. intros x y. rewrite !sort_by_perm. apply Hinj.
Qed.

(** A device on port 8009, then 8010, then 8009 again. *)
Definition route (port : Z) : CastEndpoint := MkEndpoint (V4 0xC0000202 port) (Some 2) (Some "eth0").

Lemma sort_and_deduplicate_spec_witness : NoDup (sort_and_deduplicate_endpoints [route 8009; route 8009]).
Proof.
  apply sort_and_deduplicate_spec. intros x y Hx Hy _.
  assert (Hall : forall z, z ∈ [route 8009; route 8009] -> z = route 8009).
  { intros z Hz. apply elem_of_cons in Hz as [->|Hz]; [reflexivity|]. by apply list_elem_of_singleton in Hz. }
  rewrite (Hall x Hx), (Hall y Hy). reflexivity.
Defined.

(** Routes that differ in the port only keep the order of arrival, and a route
    that comes back is listed twice. *)
Theorem port_change_duplicates :
  sort_and_deduplicate_endpoints (sort_and_deduplicate_endpoints [route 8009; route 8010] ++ [route 8009])
  = [route 8009; route 8010; route 8009].
Proof. vm_compute. reflexivity. Qed.
